(** * book_creator: stage orchestration engine

    A shallow embedding of the orchestrator's stage engines (writing,
    fact mapping, creative guidelines), of the override merge, of the
    response-cache key and of the API's budget guard, with the properties
    the specification states about them.

    Conventions of the embedding.
    - A Python [dict] used only through lookups is a [gmap]; a dict whose
      insertion order is observable ([meta_lookup]) is an association list.
    - A [UUID] value is represented by its canonical text (the 36-character
      lower-case form [str(uuid)] prints), so [str(u)] is [u] itself.
    - [uuid4()] draws from an entropy source that is an input of the run.
    - A Python [float] is represented by the text [repr] prints for it.
    - A Python [str] is represented by its UTF-8 bytes; [len], slicing and
      [strip] work on its characters (module [Text]).
    - Raised exceptions are the [Raise] results of a small error monad.
    - An engine is modelled from its first agent call on: resolving the
      provider configuration, which comes before and may raise on a
      misconfigured environment, is not part of it.
    - Of the free text the agents return, the engines keep what the schema
      models check when an entry is recorded (a draft's content and summary,
      a feedback's message, category and rationale, a critic's overview, an
      implementer's notes); titles, the texts joined into the summary of
      the batch, timestamps and costs are not part of the model of the
      engines: the limits on those can only turn a run into a failure after
      the last pass. *)

From stdpp Require Import base option list gmap strings fin_maps fin_sets pretty.
From Stdlib Require Import ZArith Lia Sorted.

#[local] Set Warnings "-register-all".

Local Open Scope string_scope.
Local Open Scope Z_scope.

(** ** Exceptions and the error monad *)

Inductive exn : Type :=
  | ProviderResponseError (msg : string)
  | ValidationError
  | KeyError (key : string)
  | TypeError (msg : string)
  | NameError (name : string)
  | ValueError (msg : string)
  | HTTPException (status_code : Z) (detail : string).

Inductive result (A : Type) : Type :=
  | Ok (a : A)
  | Raise (e : exn).
Arguments Ok {A} a.
Arguments Raise {A} e.

Global Instance result_ret : MRet result := fun A a => Ok a.
Global Instance result_bind : MBind result := fun A B k m =>
  match m with
  | Ok a => k a
  | Raise e => Raise e
  end.

(** A [for] loop whose body may raise: the first exception aborts it. *)
Fixpoint for_each {A S} (body : S -> A -> result S) (st : S) (xs : list A)
  : result S :=
  match xs with
  | [] => Ok st
  | x :: xs' => st' ← body st x; for_each body st' xs'
  end.

(** What a schema-constrained call hands back to the engine once
    [json.loads] and [model_validate] have run on the response text. *)
Inductive reply (A : Type) : Type :=
  | Parsed (a : A)
  | NotJson          (* json.JSONDecodeError -> ProviderResponseError *)
  | SchemaMismatch   (* pydantic ValidationError *)
  | NoContent.       (* the provider itself raised ProviderResponseError *)
Arguments Parsed {A} a.
Arguments NotJson {A}.
Arguments SchemaMismatch {A}.
Arguments NoContent {A}.

Definition parse_reply {A} (what : string) (r : reply A) : result A :=
  match r with
  | Parsed a => Ok a
  | NotJson => Raise (ProviderResponseError (what +:+ " was not valid JSON"))
  | SchemaMismatch => Raise ValidationError
  | NoContent => Raise (ProviderResponseError "empty provider response")
  end.

Definition UUID : Type := string.
Definition uuid_str (u : UUID) : string := u.
Definition pyfloat : Type := string.

(** ** Budget guard (apps/api/app/main.py) *)

Module Budget.

Record project_row : Type := {
  spend_limit_cents : option Z;
  total_cost_cents : option Z;
}.

Definition HTTP_404_NOT_FOUND : Z := 404.
Definition HTTP_402_PAYMENT_REQUIRED : Z := 402.

Definition budget_exhausted : exn :=
  HTTPException HTTP_402_PAYMENT_REQUIRED
    "Project budget exhausted. Increase or disable the spend limit to continue.".

(* int(row.get("total_cost_cents") or 0) *)
Definition int_or_0 (v : option Z) : Z :=
  match v with
  | Some z => if z =? 0 then 0 else z
  | None => 0
  end.

Definition _fetch_budget_state (projects : gmap UUID project_row) (project_id : UUID)
  : result (option Z * Z) :=
  match projects !! project_id with
  | None => Raise (HTTPException HTTP_404_NOT_FOUND "Project not found")
  | Some row => Ok (spend_limit_cents row, int_or_0 (total_cost_cents row))
  end.

Definition _guard_project_budget (projects : gmap UUID project_row) (project_id : UUID)
  : result unit :=
  '(spend_limit, total_cents) ← _fetch_budget_state projects project_id;
  match spend_limit with
  | Some limit =>
      if total_cents >=? limit then Raise budget_exhausted else Ok tt
  | None => Ok tt
  end.

End Budget.

(** ** Provider overrides (orchestrator/app/models.py, flows.py, writing/engine.py) *)

Module Overrides.

Record ProviderOverride : Type := {
  name : option string;
  model : option string;
  temperature : option pyfloat;
  max_output_tokens : option Z;
  json_mode : option bool;
  top_p : option pyfloat;
  reasoning_effort : option string;
  verbosity : option string;
  thinking_budget : option Z;
  include_thoughts : option bool;
}.

(* [a or b] on [Optional[str]]: [None] and the empty string are falsy. *)
Definition str_truthy (a : option string) : bool :=
  match a with
  | Some s => negb (String.eqb s "")
  | None => false
  end.

Definition py_or (a b : option string) : option string :=
  if str_truthy a then a else b.

(* [a if a is not None else b] *)
Definition if_not_none {A} (a b : option A) : option A :=
  match a with
  | Some _ => a
  | None => b
  end.

Definition _merge_overrides (stage_override run_override : option ProviderOverride)
  : option ProviderOverride :=
  match stage_override, run_override with
  | None, _ => run_override
  | Some _, None => stage_override
  | Some s, Some r =>
      Some {| name := py_or (name s) (name r);
              model := py_or (model s) (model r);
              temperature := if_not_none (temperature s) (temperature r);
              max_output_tokens := if_not_none (max_output_tokens s) (max_output_tokens r);
              json_mode := if_not_none (json_mode s) (json_mode r);
              top_p := if_not_none (top_p s) (top_p r);
              reasoning_effort := if_not_none (reasoning_effort s) (reasoning_effort r);
              verbosity := if_not_none (verbosity s) (verbosity r);
              thinking_budget := if_not_none (thinking_budget s) (thinking_budget r);
              include_thoughts := if_not_none (include_thoughts s) (include_thoughts r) |}
  end.

End Overrides.

(** ** Fact mapping (orchestrator/app/fact_mapping/engine.py) *)

Module FactMapping.

Record Subchapter : Type := { sub_id : UUID; sub_order : Z }.
Record Chapter : Type := { chapter_id : UUID; chapter_order : Z; subchapters : list Subchapter }.
Record BookStructure : Type := { structure_project_id : UUID; chapters : list Chapter }.

Record ResearchFact : Type := { fact_id : UUID; subchapter_id : UUID }.

Record SubchapterFactCoverage : Type := {
  cov_subchapter_id : UUID;
  fact_count : nat;
}.

Record FactMappingBatch : Type := {
  project_id : UUID;
  facts : list ResearchFact;
  coverage : list SubchapterFactCoverage;
}.

Record FactMappingResult : Type := {
  batch : FactMappingBatch;
  critique : option string;
}.

(* counts[key] = counts.get(key, 0) + 1, over mapping.facts *)
Definition count_facts (fs : list ResearchFact) : gmap string nat :=
  foldl (fun counts fact =>
           let key := uuid_str (subchapter_id fact) in
           <[key := (default 0%nat (counts !! key) + 1)%nat]> counts)
        ∅ fs.

Definition _build_coverage (structure : BookStructure) (mapping : FactMappingBatch)
  : list SubchapterFactCoverage :=
  let counts := count_facts (facts mapping) in
  foldl (fun coverage chapter =>
           foldl (fun coverage subchapter =>
                    let key := uuid_str (sub_id subchapter) in
                    (coverage ++ [ {| cov_subchapter_id := sub_id subchapter;
                                      fact_count := default 0%nat (counts !! key) |} ])%list)
                 coverage (subchapters chapter))
        [] (chapters structure).

(* final_mapping.coverage = ... *)
Definition set_coverage (b : FactMappingBatch) (cov : list SubchapterFactCoverage)
  : FactMappingBatch :=
  {| project_id := project_id b; facts := facts b; coverage := cov |}.

(* text.strip() or None, on the critic's answer; the text is kept as given *)
Definition text_or_none (s : string) : option string :=
  if String.eqb s "" then None else Some s.

(** The three agent calls answer with [proposal], [critique_text] (already
    stripped) and [final]; [structure] is [None] when
    [BookStructure.model_validate] rejects the payload's structure. *)
Definition generate_fact_mapping
    (structure : option BookStructure)
    (proposal : reply FactMappingBatch)
    (critique_text : result string)
    (final : reply FactMappingBatch)
  : result FactMappingResult :=
  structure ← match structure with
              | Some s => Ok s
              | None => Raise ValidationError
              end;
  mapping ← parse_reply "Fact mapping response" proposal;
  critique_text ← critique_text;
  final_mapping ← parse_reply "Fact mapping response" final;
  let final_mapping := set_coverage final_mapping (_build_coverage structure final_mapping) in
  Ok {| batch := final_mapping; critique := text_or_none critique_text |}.

(** The subchapters of a structure, in document order. *)
Definition structure_subchapters (structure : BookStructure) : list Subchapter :=
  concat (map subchapters (chapters structure)).

(** The number of facts of [fs] mapped to subchapter [u]. *)
Definition facts_for (u : UUID) (fs : list ResearchFact) : nat :=
  length (filter (fun fact => subchapter_id fact = u) fs).

End FactMapping.

(** ** SHA-256 (hashlib.sha256, FIPS 180-4) on byte strings

    Text is modelled as its UTF-8 bytes, so [text.encode("utf-8")] is the
    string itself. *)

Module Sha256.

Definition mask32 (x : Z) : Z := x mod 2 ^ 32.
Definition add32 (a b : Z) : Z := (a + b) mod 2 ^ 32.
Definition rotr (n x : Z) : Z := Z.lor (Z.shiftr x n) (mask32 (Z.shiftl x (32 - n))).
Definition shr (n x : Z) : Z := Z.shiftr x n.

Definition Ch (x y z : Z) : Z := Z.lxor (Z.land x y) (Z.land (mask32 (Z.lnot x)) z).
Definition Maj (x y z : Z) : Z := Z.lxor (Z.land x y) (Z.lxor (Z.land x z) (Z.land y z)).
Definition Sigma0 (x : Z) : Z := Z.lxor (rotr 2 x) (Z.lxor (rotr 13 x) (rotr 22 x)).
Definition Sigma1 (x : Z) : Z := Z.lxor (rotr 6 x) (Z.lxor (rotr 11 x) (rotr 25 x)).
Definition sigma0 (x : Z) : Z := Z.lxor (rotr 7 x) (Z.lxor (rotr 18 x) (shr 3 x)).
Definition sigma1 (x : Z) : Z := Z.lxor (rotr 17 x) (Z.lxor (rotr 19 x) (shr 10 x)).

(* FIPS 180-4, 4.2.2: the first 32 bits of the fractional parts of the cube
   roots of the first 64 primes, in decimal *)
Definition K : list Z :=
  [
    1116352408; 1899447441; 3049323471; 3921009573; 961987163; 1508970993;
    2453635748; 2870763221; 3624381080; 310598401; 607225278; 1426881987;
    1925078388; 2162078206; 2614888103; 3248222580; 3835390401; 4022224774;
    264347078; 604807628; 770255983; 1249150122; 1555081692; 1996064986;
    2554220882; 2821834349; 2952996808; 3210313671; 3336571891; 3584528711;
    113926993; 338241895; 666307205; 773529912; 1294757372; 1396182291;
    1695183700; 1986661051; 2177026350; 2456956037; 2730485921; 2820302411;
    3259730800; 3345764771; 3516065817; 3600352804; 4094571909; 275423344;
    430227734; 506948616; 659060556; 883997877; 958139571; 1322822218;
    1537002063; 1747873779; 1955562222; 2024104815; 2227730452; 2361852424;
    2428436474; 2756734187; 3204031479; 3329325298 ].

Record state : Type := {
  h0 : Z; h1 : Z; h2 : Z; h3 : Z; h4 : Z; h5 : Z; h6 : Z; h7 : Z;
}.

(* FIPS 180-4, 5.3.3: from the square roots of the first 8 primes *)
Definition H_init : state :=
  {| h0 := 1779033703; h1 := 3144134277; h2 := 1013904242; h3 := 2773480762;
     h4 := 1359893119; h5 := 2600822924; h6 := 528734635; h7 := 1541459225 |}.

Definition bytes_of (s : string) : list Z :=
  map (fun c => Z.of_N (Ascii.N_of_ascii c)) (String.list_ascii_of_string s).

(* the [n] low bytes of [x], most significant first *)
Fixpoint be_bytes (n : nat) (x : Z) : list Z :=
  match n with
  | O => []
  | S n' => (be_bytes n' (Z.shiftr x 8) ++ [x mod 256])%list
  end.

Definition pad (msg : list Z) : list Z :=
  let len := Z.of_nat (length msg) in
  (msg ++ [128] ++ replicate (Z.to_nat ((55 - len) mod 64)) 0 ++ be_bytes 8 (8 * len))%list.

Definition be_word (bs : list Z) : Z :=
  foldl (fun acc b => acc * 256 + b) 0 bs.

Fixpoint chunks {A} (size fuel : nat) (xs : list A) : list (list A) :=
  match fuel with
  | O => []
  | S fuel' =>
      match xs with
      | [] => []
      | _ => take size xs :: chunks size fuel' (drop size xs)
      end
  end.

Definition block_words (block : list Z) : list Z :=
  map be_word (chunks 4 16 block).

(* [recent] holds W[t-1], W[t-2], ... ; extend it by [n] more words *)
Fixpoint schedule (n : nat) (recent : list Z) : list Z :=
  match n with
  | O => recent
  | S n' =>
      let wt := add32 (add32 (sigma1 (nth 1 recent 0)) (nth 6 recent 0))
                      (add32 (sigma0 (nth 14 recent 0)) (nth 15 recent 0)) in
      schedule n' (wt :: recent)
  end.

Definition round (s : state) (kw : Z * Z) : state :=
  let '(k, w) := kw in
  let t1 := add32 (add32 (add32 (h7 s) (Sigma1 (h4 s))) (add32 (Ch (h4 s) (h5 s) (h6 s)) k)) w in
  let t2 := add32 (Sigma0 (h0 s)) (Maj (h0 s) (h1 s) (h2 s)) in
  {| h0 := add32 t1 t2; h1 := h0 s; h2 := h1 s; h3 := h2 s;
     h4 := add32 (h3 s) t1; h5 := h4 s; h6 := h5 s; h7 := h6 s |}.

Definition compress (s : state) (block : list Z) : state :=
  let w := rev (schedule 48 (rev (block_words block))) in
  let r := foldl round s (zip K w) in
  {| h0 := add32 (h0 s) (h0 r); h1 := add32 (h1 s) (h1 r);
     h2 := add32 (h2 s) (h2 r); h3 := add32 (h3 s) (h3 r);
     h4 := add32 (h4 s) (h4 r); h5 := add32 (h5 s) (h5 r);
     h6 := add32 (h6 s) (h6 r); h7 := add32 (h7 s) (h7 r) |}.

Definition digest_state (msg : list Z) : state :=
  let padded := pad msg in
  foldl compress H_init (chunks 64 (length padded) padded).

(* int.from_bytes(digest, "big") *)
Definition state_int (s : state) : Z :=
  ((((((h0 s * 2 ^ 32 + h1 s) * 2 ^ 32 + h2 s) * 2 ^ 32 + h3 s) * 2 ^ 32 + h4 s)
      * 2 ^ 32 + h5 s) * 2 ^ 32 + h6 s) * 2 ^ 32 + h7 s.

Definition sha256_int (text : string) : Z := state_int (digest_state (bytes_of text)).

Definition hex_digit (d : Z) : Ascii.ascii :=
  Ascii.ascii_of_N (Z.to_N (if d <? 10 then 48 + d else 87 + d)).

(* the [n] low hexadecimal digits of [x], most significant first *)
Fixpoint hex_fixed (n : nat) (x : Z) : string :=
  match n with
  | O => ""
  | S n' => hex_fixed n' (Z.shiftr x 4) +:+ String (hex_digit (x mod 16)) ""
  end.

(* hashlib.sha256(data).hexdigest() *)
Definition hexdigest (text : string) : string := hex_fixed 64 (sha256_int text).

(** *** Vocabulary of the properties *)

Definition word32 (x : Z) : Prop := 0 <= x < 2 ^ 32.

Definition words (s : state) : Prop :=
  word32 (h0 s) /\ word32 (h1 s) /\ word32 (h2 s) /\ word32 (h3 s)
  /\ word32 (h4 s) /\ word32 (h5 s) /\ word32 (h6 s) /\ word32 (h7 s).

End Sha256.

(** ** Shared enumerations (libs/python/book_creator_schemas/enums.py) *)

Inductive AgentRole : Type :=
  | CREATIVE_DIRECTOR_ASSISTANT
  | CREATIVE_DIRECTOR_CRITIC
  | CREATIVE_DIRECTOR_FINAL
  | WRITER_INITIAL
  | WRITING_CRITIC_I
  | WRITING_IMPLEMENTATION_I
  | WRITING_CRITIC_II
  | WRITING_IMPLEMENTATION_II
  | WRITING_CRITIC_III
  | WRITING_IMPLEMENTATION_III.

Inductive CritiqueSeverity : Type := INFO | WARNING | ERROR.

(** ** Python helpers used by the writing engine *)

(* str(x) for a value that is either None or already a string *)
Definition py_str (x : option string) : string :=
  match x with
  | Some s => s
  | None => "None"
  end.

(* d[k] = v on an insertion-ordered dict *)
Fixpoint dict_set {V} (d : list (string * V)) (k : string) (v : V) : list (string * V) :=
  match d with
  | [] => [(k, v)]
  | (k', v') :: d' =>
      if String.eqb k' k then (k', v) :: d' else (k', v') :: dict_set d' k v
  end.

(* d[k], which raises KeyError on a missing key *)
Definition dict_get {V} (d : gmap string V) (k : string) : result V :=
  match d !! k with
  | Some v => Ok v
  | None => Raise (KeyError k)
  end.

(* d[k].append(v) *)
Definition dict_append {V} (d : gmap string (list V)) (k : string) (v : V)
  : result (gmap string (list V)) :=
  l ← dict_get d k; Ok (<[k := (l ++ [v])%list]> d).

(* sorted(xs, key=...) for a key made of two integers: a stable insertion sort *)
Definition key_le (a b : Z * Z) : bool :=
  (a.1 <? b.1) || ((a.1 =? b.1) && (a.2 <=? b.2)).

Fixpoint insert_by {A} (key : A -> Z * Z) (x : A) (xs : list A) : list A :=
  match xs with
  | [] => [x]
  | y :: ys => if key_le (key y) (key x) then y :: insert_by key x ys else x :: y :: ys
  end.

Definition sorted_by {A} (key : A -> Z * Z) (xs : list A) : list A :=
  foldl (fun acc x => insert_by key x acc) [] xs.

(* sorted(xs) on strings *)
Fixpoint insert_str (x : string) (xs : list string) : list string :=
  match xs with
  | [] => [x]
  | y :: ys => if String.leb y x then y :: insert_str x ys else x :: y :: ys
  end.

Definition sorted_str (xs : list string) : list string :=
  foldl (fun acc x => insert_str x acc) [] xs.

(* sep.join(xs) *)
Fixpoint join (sep : string) (xs : list string) : string :=
  match xs with
  | [] => ""
  | [x] => x
  | x :: xs' => x +:+ sep +:+ join sep xs'
  end.

(** A call [f(a1, ..., an)] with positional arguments only, of a function
    whose parameters [params] all lack a default: Python binds the
    arguments before it runs the body and raises [TypeError] when some
    parameter is left without one (or when there are too many). *)
Definition quoted (name : string) : string := "'" +:+ name +:+ "'".

Definition call_positional {A} (fname : string) (params : list string) (nargs : nat)
    (body : result A) : result A :=
  match drop nargs params with
  | [] =>
      if (nargs =? length params)%nat then body
      else Raise (TypeError (fname +:+ "() takes " +:+ pretty (length params)
                               +:+ " positional arguments but " +:+ pretty nargs
                               +:+ " were given"))
  | [missing] =>
      Raise (TypeError (fname +:+ "() missing 1 required positional argument: "
                          +:+ quoted missing))
  | missing =>
      Raise (TypeError (fname +:+ "() missing " +:+ pretty (length missing)
                          +:+ " required positional arguments: "
                          +:+ join ", " (map quoted missing)))
  end.

(** ** Characters of a Python string

    In the UTF-8 bytes of a string a character is a lead byte together with
    the continuation bytes (10xxxxxx) that follow it.  [len] counts
    characters, slices cut between characters, and [strip] removes the
    characters [str.isspace] accepts. *)

Module Text.

Definition is_continuation (c : Ascii.ascii) : bool :=
  let n := Ascii.N_of_ascii c in
  ((128 <=? n) && (n <? 192))%N.

(* len(s) *)
Fixpoint len (s : string) : nat :=
  match s with
  | EmptyString => 0%nat
  | String c s' => if is_continuation c then len s' else S (len s')
  end.

Definition continues (s : string) : bool :=
  match s with
  | EmptyString => false
  | String c _ => is_continuation c
  end.

(* list(s): the characters of s, each with its bytes *)
Fixpoint chars (s : string) : list string :=
  match s with
  | EmptyString => []
  | String c s' =>
      match chars s' with
      | ch :: rest =>
          if continues ch then String c ch :: rest
          else String c EmptyString :: ch :: rest
      | [] => [String c EmptyString]
      end
  end.

(* "".join(characters) *)
Definition concat (characters : list string) : string :=
  foldr String.append EmptyString characters.

(* ch.isspace(): U+0009..000D, U+001C..0020, U+0085, U+00A0, U+1680,
   U+2000..200A, U+2028, U+2029, U+202F, U+205F, U+3000 *)
Definition isspace (ch : string) : bool :=
  match map Ascii.N_of_ascii (String.list_ascii_of_string ch) with
  | [a] => ((9 <=? a) && (a <=? 13) || (28 <=? a) && (a <=? 32))%N
  | [a; b] => ((a =? 194) && ((b =? 133) || (b =? 160)))%N
  | [a; b; c] =>
      ((a =? 225) && (b =? 154) && (c =? 128)
       || (a =? 226) && (b =? 128)
          && ((128 <=? c) && (c <=? 138) || (c =? 168) || (c =? 169) || (c =? 175))
       || (a =? 226) && (b =? 129) && (c =? 159)
       || (a =? 227) && (b =? 128) && (c =? 128))%N
  | _ => false
  end.

Fixpoint lstrip_chars (characters : list string) : list string :=
  match characters with
  | [] => []
  | ch :: rest => if isspace ch then lstrip_chars rest else characters
  end.

(* s.strip() *)
Definition strip (s : string) : string :=
  concat (rev (lstrip_chars (rev (lstrip_chars (chars s))))).

(* s[:n] *)
Definition head_slice (n : nat) (s : string) : string :=
  concat (take n (chars s)).

(* s[-n:] for 0 < n *)
Definition tail_slice (n : nat) (s : string) : string :=
  let characters := chars s in
  concat (drop (length characters - n) characters).

(* Field(..., min_length=n) and Field(None, max_length=n) on a str *)
Definition min_length (n : nat) (s : string) : bool := (n <=? len s)%nat.

Definition max_length (n : nat) (s : option string) : bool :=
  match s with
  | Some s => (len s <=? n)%nat
  | None => true
  end.

End Text.

(** ** Writing stage (orchestrator/app/writing/engine.py) *)

Module Writing.

(** *** Payload and agent outputs *)

Record SubchapterMeta : Type := {
  meta_id : option string;          (* item.get("id") *)
  meta_chapter_order : Z;           (* item.get("chapter_order", 0) *)
  meta_sub_order : Z;               (* item.get("sub_order", 0) *)
}.

Record Payload : Type := {
  payload_project_id : option string;     (* payload.get("project_id") *)
  payload_subchapters : list SubchapterMeta;
  payload_cycle_count : option Z;         (* payload.get("cycle_count") *)
}.

Record WriterDraftEntry : Type := {
  wd_subchapter_id : UUID;
  wd_content : string;
  wd_summary : option string;
  wd_word_count : option N;              (* Field(None, ge=0) *)
}.
Record WriterDraftBatch : Type := { wd_subchapters : list WriterDraftEntry }.

(* A critic's feedback carries no id: message, severity, category, rationale. *)
Record CritiqueFeedback : Type := {
  cf_message : string;
  cf_severity : CritiqueSeverity;
  cf_category : option string;
  cf_rationale : option string;
}.
Record CritiqueEntry : Type := {
  ce_subchapter_id : UUID;
  ce_overview : string;
  ce_feedback : list CritiqueFeedback;
}.
Record CritiqueBatch : Type := { ce_subchapters : list CritiqueEntry }.

Record ImplementationEntry : Type := {
  ie_subchapter_id : UUID;
  ie_content : string;
  ie_summary : option string;
  ie_word_count : option N;
  ie_resolved_feedback : list UUID;
  ie_notes : option string;
}.
Record ImplementationBatch : Type := { ie_subchapters : list ImplementationEntry }.

(** *** Schema models (book_creator_schemas/models/book.py) *)

Record DraftFeedbackItem : Type := {
  fb_id : UUID;
  fb_severity : CritiqueSeverity;
  addressed : bool;
  addressed_in_iteration : option UUID;
}.

Record DraftIteration : Type := {
  it_id : UUID;
  it_project_id : UUID;
  it_subchapter_id : UUID;
  it_cycle : nat;
  it_role : AgentRole;
  it_word_count : option N;
  it_feedback : list DraftFeedbackItem;
}.

Inductive DraftStatus : Type := draft | in_review | ready.

Record SubchapterDraftState : Type := {
  st_subchapter_id : UUID;
  current_cycle : nat;
  status : DraftStatus;
  iterations : list DraftIteration;
  outstanding_feedback : list DraftFeedbackItem;
  final_iteration_id : option UUID;
  final_word_count : option N;
}.

Inductive Readiness : Type := readiness_draft | readiness_ready.

Record WritingBatch : Type := {
  project_id : UUID;
  cycle_count : nat;
  readiness : Readiness;
  subchapters : list SubchapterDraftState;
  total_word_count : option N;
}.

Record WritingResult : Type := { batch : WritingBatch }.

(** *** The world a run executes in

    [uuid4] is the entropy source: the n-th call of [uuid4()] in a run
    returns [uuid4 n].  [UUID_ctor] is the library constructor [UUID(text)],
    [None] when it raises [ValueError].  The three agents answer through
    [_request_writer], [_request_critic] and [_request_implementer]; what
    they answer may depend on anything, so a run is stated for arbitrary
    answers, indexed by the cycle. *)
Record World : Type := {
  uuid4 : nat -> UUID;
  UUID_ctor : string -> option UUID;
  writer_reply : reply WriterDraftBatch;
  critic_reply : nat -> reply CritiqueBatch;
  implementer_reply : nat -> reply ImplementationBatch;
}.

(** *** Local variables of [generate_writing_batch] *)
Record Locals : Type := {
  draws : nat;                                        (* uuid4() calls so far *)
  iterations_map : gmap string (list DraftIteration);
  feedback_map : gmap string (list DraftFeedbackItem);
  word_counts : gmap string (option N);
}.

Definition critic_roles (cycle_index : nat) : AgentRole :=
  match cycle_index with
  | O => WRITING_CRITIC_I
  | S O => WRITING_CRITIC_II
  | _ => WRITING_CRITIC_III
  end.

Definition implement_roles (cycle_index : nat) : AgentRole :=
  match cycle_index with
  | O => WRITING_IMPLEMENTATION_I
  | S O => WRITING_IMPLEMENTATION_II
  | _ => WRITING_IMPLEMENTATION_III
  end.

(* try: UUID(str(raw_project_id)) except (TypeError, ValueError): uuid4() *)
Definition resolve_project_uuid (w : World) (raw_project_id : option string) : UUID * nat :=
  match UUID_ctor w (py_str raw_project_id) with
  | Some u => (u, 0%nat)
  | None => (uuid4 w 0, 1%nat)
  end.

(* cycle_count = max(1, min(3, int(payload.get("cycle_count") or 3))) *)
Definition resolve_cycle_count (raw : option Z) : nat :=
  let requested := match raw with
                   | Some c => if c =? 0 then 3 else c
                   | None => 3
                   end in
  Z.to_nat (Z.max 1 (Z.min 3 requested)).

(* the loop that fills meta_lookup; an empty id is skipped *)
Definition build_meta_lookup (subchapter_meta : list SubchapterMeta)
  : list (string * SubchapterMeta) :=
  foldl (fun meta_lookup item =>
           let sub_id := py_str (meta_id item) in
           if String.eqb sub_id "" then meta_lookup
           else dict_set meta_lookup sub_id item)
        [] subchapter_meta.

Definition writer_ids (writer_batch : WriterDraftBatch) : gset string :=
  list_to_set (map (fun entry => uuid_str (wd_subchapter_id entry))
                   (wd_subchapters writer_batch)).

(* missing = meta_ids - writer_ids, in the order sorted() gives *)
Definition missing_ids (meta_lookup : list (string * SubchapterMeta))
    (writer_batch : WriterDraftBatch) : list string :=
  sorted_str (filter (fun sub_id => sub_id ∉ writer_ids writer_batch) (map fst meta_lookup)).

Definition check_missing (meta_lookup : list (string * SubchapterMeta))
    (writer_batch : WriterDraftBatch) : result unit :=
  match missing_ids meta_lookup writer_batch with
  | [] => Ok tt
  | missing =>
      Raise (ProviderResponseError
               ("Writing stage omitted drafts for subchapters: " +:+ join ", " missing))
  end.

(* {sub_id: [] for sub_id in meta_lookup} *)
Definition empty_lists {V} (meta_lookup : list (string * SubchapterMeta))
  : gmap string (list V) :=
  list_to_map (map (fun kv => (kv.1, [])) meta_lookup).

(** *** The texts of the schema models (book_creator_schemas/models/book.py)

    What pydantic checks of the text fields when the engine builds a
    [DraftIteration] (content: min_length=1; summary: max_length=600) or a
    [DraftFeedbackItem] (message: min_length=1, max_length=600; category:
    max_length=100; rationale: max_length=600). *)
Definition DraftIteration_texts (content : string) (summary : option string)
  : result unit :=
  if Text.min_length 1 content && Text.max_length 600 summary
  then Ok tt else Raise ValidationError.

Definition DraftFeedbackItem_texts (message : string) (category rationale : option string)
  : result unit :=
  if Text.min_length 1 message && Text.max_length 600 (Some message)
     && Text.max_length 100 category && Text.max_length 600 rationale
  then Ok tt else Raise ValidationError.

(** One writer entry: build the initial iteration, record it and the word
    count. *)
Definition writer_entry (w : World) (project_uuid : UUID)
    (st : Locals) (entry : WriterDraftEntry) : result Locals :=
  let sub_id := uuid_str (wd_subchapter_id entry) in
  _ ← DraftIteration_texts (Text.strip (wd_content entry)) (wd_summary entry);
  let iteration :=
    {| it_id := uuid4 w (draws st);
       it_project_id := project_uuid;
       it_subchapter_id := wd_subchapter_id entry;
       it_cycle := 0;
       it_role := WRITER_INITIAL;
       it_word_count := wd_word_count entry;
       it_feedback := [] |} in
  iterations_map' ← dict_append (iterations_map st) sub_id iteration;
  Ok {| draws := S (draws st);
        iterations_map := iterations_map';
        feedback_map := feedback_map st;
        word_counts := <[sub_id := wd_word_count entry]> (word_counts st) |}.

(** One critic entry: every feedback gets an id drawn by the engine and is
    appended unaddressed; then the critic iteration is recorded with the
    copies of the new items. *)
Definition critic_feedback (w : World) (sub_id : string)
    (acc : Locals * list DraftFeedbackItem) (feedback : CritiqueFeedback)
  : result (Locals * list DraftFeedbackItem) :=
  let '(st, new_feedback) := acc in
  _ ← DraftFeedbackItem_texts (Text.strip (cf_message feedback))
        (cf_category feedback) (cf_rationale feedback);
  let feedback_item :=
    {| fb_id := uuid4 w (draws st);
       fb_severity := cf_severity feedback;
       addressed := false;
       addressed_in_iteration := None |} in
  feedback_map' ← dict_append (feedback_map st) sub_id feedback_item;
  Ok ({| draws := S (draws st);
         iterations_map := iterations_map st;
         feedback_map := feedback_map';
         word_counts := word_counts st |},
      (new_feedback ++ [feedback_item])%list).

Definition critic_entry (w : World) (project_uuid : UUID) (cycle_index : nat)
    (st : Locals) (entry : CritiqueEntry) : result Locals :=
  let sub_id := uuid_str (ce_subchapter_id entry) in
  '(st, new_feedback) ← for_each (critic_feedback w sub_id) (st, []) (ce_feedback entry);
  _ ← DraftIteration_texts (Text.strip (ce_overview entry)) None;
  let critic_iteration :=
    {| it_id := uuid4 w (draws st);
       it_project_id := project_uuid;
       it_subchapter_id := ce_subchapter_id entry;
       it_cycle := cycle_index;
       it_role := critic_roles cycle_index;
       it_word_count := None;
       it_feedback := new_feedback |} in
  iterations_map' ← dict_append (iterations_map st) sub_id critic_iteration;
  Ok {| draws := S (draws st);
        iterations_map := iterations_map';
        feedback_map := feedback_map st;
        word_counts := word_counts st |}.

(* feedback.addressed = True; feedback.addressed_in_iteration = None *)
Definition mark_resolved (resolved_ids : gset string) (feedback : DraftFeedbackItem)
  : DraftFeedbackItem :=
  if decide (uuid_str (fb_id feedback) ∈ resolved_ids)
  then {| fb_id := fb_id feedback; fb_severity := fb_severity feedback;
          addressed := true; addressed_in_iteration := None |}
  else feedback.

(* if feedback.addressed and feedback.addressed_in_iteration is None: stamp it *)
Definition stamp_iteration (iteration_id : UUID) (feedback : DraftFeedbackItem)
  : DraftFeedbackItem :=
  match addressed feedback, addressed_in_iteration feedback with
  | true, None =>
      {| fb_id := fb_id feedback; fb_severity := fb_severity feedback;
         addressed := true; addressed_in_iteration := Some iteration_id |}
  | _, _ => feedback
  end.

(* [s] is truthy: neither None nor empty *)
Definition truthy (s : option string) : bool :=
  match s with
  | Some s => negb (String.eqb s "")
  | None => false
  end.

(* the separator the engine writes between summary and notes: the
   characters U+00E2, U+20AC, U+201D between two spaces *)
Definition notes_separator : string :=
  String.string_of_list_ascii
    (map Ascii.ascii_of_N [32; 195; 162; 226; 130; 172; 226; 128; 157; 32]%N).

(* the iteration_summary of an implementer entry *)
Definition iteration_summary (summary notes : option string) : option string :=
  let iteration_summary :=
    if truthy summary then Text.strip <$> summary else None in
  if truthy notes
  then
    let notes_text := Text.strip (default "" notes) in
    if truthy iteration_summary
    then Some (default "" iteration_summary +:+ notes_separator +:+ "Notes: " +:+ notes_text)
    else Some ("Notes: " +:+ notes_text)
  else iteration_summary.

(** One implementer entry. *)
Definition implement_entry (w : World) (project_uuid : UUID) (cycle_index : nat)
    (st : Locals) (entry : ImplementationEntry) : result Locals :=
  let sub_id := uuid_str (ie_subchapter_id entry) in
  let resolved_ids : gset string :=
    list_to_set (map uuid_str (ie_resolved_feedback entry)) in
  let iteration_summary := iteration_summary (ie_summary entry) (ie_notes entry) in
  let word_counts' := <[sub_id := ie_word_count entry]> (word_counts st) in
  feedback ← dict_get (feedback_map st) sub_id;
  let feedback := map (mark_resolved resolved_ids) feedback in
  _ ← DraftIteration_texts (Text.strip (ie_content entry)) iteration_summary;
  let iteration_id := uuid4 w (draws st) in
  let feedback := map (stamp_iteration iteration_id) feedback in
  let implementation_iteration :=
    {| it_id := iteration_id;
       it_project_id := project_uuid;
       it_subchapter_id := ie_subchapter_id entry;
       it_cycle := cycle_index;
       it_role := implement_roles cycle_index;
       it_word_count := ie_word_count entry;
       it_feedback := feedback |} in
  iterations_map' ← dict_append (iterations_map st) sub_id implementation_iteration;
  Ok {| draws := S (draws st);
        iterations_map := iterations_map';
        feedback_map := <[sub_id := feedback]> (feedback_map st);
        word_counts := word_counts' |}.

(** One critic + implementer cycle. *)
Definition run_cycle (w : World) (project_uuid : UUID)
    (st : Locals) (cycle_index : nat) : result Locals :=
  critic_batch ← parse_reply "Critic response" (critic_reply w cycle_index);
  st ← for_each (critic_entry w project_uuid cycle_index) st (ce_subchapters critic_batch);
  implementation_batch ←
    parse_reply "Implementation response" (implementer_reply w cycle_index);
  for_each (implement_entry w project_uuid cycle_index) st
           (ie_subchapters implementation_batch).

(** The writer pass, up to and including the recording of the drafts. *)
Definition writer_pass (w : World) (project_uuid : UUID) (first_draw : nat)
    (meta_lookup : list (string * SubchapterMeta)) : result Locals :=
  writer_batch ← parse_reply "Writer response" (writer_reply w);
  _ ← check_missing meta_lookup writer_batch;
  for_each (writer_entry w project_uuid)
           {| draws := first_draw;
              iterations_map := empty_lists meta_lookup;
              feedback_map := empty_lists meta_lookup;
              word_counts := ∅ |}
           (wd_subchapters writer_batch).

(* word_counts.get(sub_id) *)
Definition word_count_of (st : Locals) (sub_id : string) : option N :=
  mjoin (word_counts st !! sub_id).

(* max((iteration.cycle for iteration in iterations), default=0) *)
Definition max_cycle (its : list DraftIteration) : nat :=
  foldr (fun it m => Nat.max (it_cycle it) m) 0%nat its.

(** One round of the final loop over [sorted_meta]. *)
Definition assemble_state (w : World) (st : Locals)
    (acc : list SubchapterDraftState * N) (item : string * SubchapterMeta)
  : result (list SubchapterDraftState * N) :=
  let '(subchapter_states, total_word_count) := acc in
  let sub_id := item.1 in
  iterations ← dict_get (iterations_map st) sub_id;
  all_feedback ← dict_get (feedback_map st) sub_id;
  let outstanding_feedback := filter (fun item => addressed item = false) all_feedback in
  let total_word_count :=
    match word_count_of st sub_id with
    | Some n => if (n =? 0)%N then total_word_count else (total_word_count + n)%N
    | None => total_word_count
    end in
  let status := match outstanding_feedback with [] => ready | _ => in_review end in
  let status := match iterations with [] => draft | _ => status end in
  subchapter_id ← match UUID_ctor w sub_id with
                  | Some u => Ok u
                  | None => Raise (ValueError "badly formed hexadecimal UUID string")
                  end;
  Ok ((subchapter_states ++
        [ {| st_subchapter_id := subchapter_id;
             current_cycle := max_cycle iterations;
             status := status;
             iterations := iterations;
             outstanding_feedback := outstanding_feedback;
             final_iteration_id := it_id <$> last iterations;
             final_word_count := word_count_of st sub_id |} ])%list,
      total_word_count).

Definition status_is_ready (s : SubchapterDraftState) : bool :=
  match status s with ready => true | _ => false end.

Definition sort_key (item : string * SubchapterMeta) : Z * Z :=
  (meta_chapter_order item.2, meta_sub_order item.2).

Definition generate_writing_batch (w : World) (payload : Payload) : result WritingResult :=
  let '(project_uuid, first_draw) := resolve_project_uuid w (payload_project_id payload) in
  let cycle_count := resolve_cycle_count (payload_cycle_count payload) in
  let meta_lookup := build_meta_lookup (payload_subchapters payload) in
  st ← writer_pass w project_uuid first_draw meta_lookup;
  st ← for_each (run_cycle w project_uuid) st (seq 0 cycle_count);
  let sorted_meta := sorted_by sort_key meta_lookup in
  '(subchapter_states, total_word_count) ←
    for_each (assemble_state w st) ([], 0%N) sorted_meta;
  let readiness :=
    if forallb status_is_ready subchapter_states then readiness_ready else readiness_draft in
  let total_word_count := if (total_word_count =? 0)%N then None else Some total_word_count in
  Ok {| batch := {| project_id := project_uuid;
                    cycle_count := cycle_count;
                    readiness := readiness;
                    subchapters := subchapter_states;
                    total_word_count := total_word_count |} |}.

(** *** Vocabulary of the properties *)

(** The ids the request asks drafts for: the [str] of each metadata item's
    id, the empty string excepted (the loop that fills [meta_lookup] skips
    it). *)
Definition requested (payload : Payload) (sub_id : string) : Prop :=
  sub_id <> "" /\ exists item, item ∈ payload_subchapters payload
                            /\ py_str (meta_id item) = sub_id.

Definition drafted (writer_batch : WriterDraftBatch) (sub_id : string) : Prop :=
  exists entry, entry ∈ wd_subchapters writer_batch
                /\ uuid_str (wd_subchapter_id entry) = sub_id.

(** The sum of the subchapters' latest word counts, a null count being 0. *)
Definition sum_word_counts (states : list SubchapterDraftState) : N :=
  foldr (fun s acc => (default 0%N (final_word_count s) + acc)%N) 0%N states.

(** A property that every iteration of every list has. *)
Definition all_iterations (P : DraftIteration -> Prop) (st : Locals) : Prop :=
  forall k its, iterations_map st !! k = Some its -> Forall P its.

(** A property that every feedback item of every list has. *)
Definition all_feedback (P : DraftFeedbackItem -> Prop) (st : Locals) : Prop :=
  forall k l, feedback_map st !! k = Some l -> Forall P l.

(** An addressed item carries the id of an iteration. *)
Definition stamped (f : DraftFeedbackItem) : Prop :=
  addressed f = true -> is_Some (addressed_in_iteration f).

(** What an implementer pass with resolved ids [resolved_ids] and iteration
    [iteration_id] does to one item. *)
Definition resolve_item (resolved_ids : gset string) (iteration_id : UUID)
    (f : DraftFeedbackItem) : DraftFeedbackItem :=
  if decide (uuid_str (fb_id f) ∈ resolved_ids)
  then {| fb_id := fb_id f; fb_severity := fb_severity f;
          addressed := true; addressed_in_iteration := Some iteration_id |}
  else f.

(** The local variables when the last cycle has run: what the loop that
    assembles the returned states reads. *)
Definition final_locals (w : World) (payload : Payload) : result Locals :=
  let '(project_uuid, first_draw) := resolve_project_uuid w (payload_project_id payload) in
  st ← writer_pass w project_uuid first_draw
         (build_meta_lookup (payload_subchapters payload));
  for_each (run_cycle w project_uuid) st
           (seq 0 (resolve_cycle_count (payload_cycle_count payload))).

(** The items a critic entry makes of its feedback when [first_draw] ids
    have been drawn: the i-th note gets the draw [first_draw + i]. *)
Definition new_items (w : World) (first_draw : nat) (notes : list CritiqueFeedback)
  : list DraftFeedbackItem :=
  imap (fun i feedback =>
          {| fb_id := uuid4 w (first_draw + i);
             fb_severity := cf_severity feedback;
             addressed := false;
             addressed_in_iteration := None |})
       notes.

(** Every id recorded in the state, of a feedback item or of an iteration,
    is one of the draws made so far. *)
Definition ids_drawn (w : World) (st : Locals) : Prop :=
  (forall k l f, feedback_map st !! k = Some l -> f ∈ l ->
     exists n, (n < draws st)%nat /\ fb_id f = uuid4 w n)
  /\ (forall k its it, iterations_map st !! k = Some its -> it ∈ its ->
       exists n, (n < draws st)%nat /\ it_id it = uuid4 w n).

(** No id is given twice: two feedback items at different places of the
    lists have different ids, and no feedback item has the id of an
    iteration. *)
Definition ids_unique (st : Locals) : Prop :=
  (forall k1 k2 l1 l2 i j f1 f2,
     feedback_map st !! k1 = Some l1 -> feedback_map st !! k2 = Some l2 ->
     l1 !! i = Some f1 -> l2 !! j = Some f2 ->
     fb_id f1 = fb_id f2 -> k1 = k2 /\ i = j)
  /\ (forall k1 k2 l its f it,
       feedback_map st !! k1 = Some l -> f ∈ l ->
       iterations_map st !! k2 = Some its -> it ∈ its ->
       fb_id f <> it_id it).

(** The word count recorded last: that of the last iteration a writer or an
    implementer recorded (a critic's iteration records none). *)
Definition is_critic (role : AgentRole) : bool :=
  match role with
  | WRITING_CRITIC_I | WRITING_CRITIC_II | WRITING_CRITIC_III => true
  | _ => false
  end.

Definition latest_word_count (its : list DraftIteration) : option N :=
  foldl (fun latest it => if is_critic (it_role it) then latest else it_word_count it)
        None its.

(** The word counts agree with the iterations recorded so far. *)
Definition counts_in_step (st : Locals) : Prop :=
  forall k its, iterations_map st !! k = Some its ->
                word_count_of st k = latest_word_count its.

(** The states the engine's passes can be in: the state the writer pass
    starts from, and every state one writer, critic or implementer entry
    leads to from such a state. *)
Inductive reachable (w : World) (project_uuid : UUID) : Locals -> Prop :=
  | reach_start (first_draw : nat) (meta_lookup : list (string * SubchapterMeta)) :
      reachable w project_uuid
        {| draws := first_draw;
           iterations_map := empty_lists meta_lookup;
           feedback_map := empty_lists meta_lookup;
           word_counts := ∅ |}
  | reach_writer (st st' : Locals) (entry : WriterDraftEntry) :
      reachable w project_uuid st ->
      writer_entry w project_uuid st entry = Ok st' ->
      reachable w project_uuid st'
  | reach_critic (cycle_index : nat) (st st' : Locals) (entry : CritiqueEntry) :
      reachable w project_uuid st ->
      critic_entry w project_uuid cycle_index st entry = Ok st' ->
      reachable w project_uuid st'
  | reach_implementer (cycle_index : nat) (st st' : Locals) (entry : ImplementationEntry) :
      reachable w project_uuid st ->
      implement_entry w project_uuid cycle_index st entry = Ok st' ->
      reachable w project_uuid st'.

(** *** A sample world

    An entropy source whose n-th draw is a canonical UUID text ending in
    the hexadecimal digits of n, and a constructor that accepts exactly the
    canonical lower-case form. *)
Definition sample_uuid4 (n : nat) : UUID :=
  "9f1c2d3e-0000-4000-8000-" +:+ Sha256.hex_fixed 12 (Z.of_nat n).

Definition is_hex (c : Ascii.ascii) : bool :=
  let n := Ascii.N_of_ascii c in
  ((48 <=? n) && (n <=? 57) || (97 <=? n) && (n <=? 102))%N.

Fixpoint canonical_from (pos : nat) (s : string) : bool :=
  match s with
  | EmptyString => (pos =? 36)%nat
  | String c s' =>
      (if (pos =? 8)%nat || (pos =? 13)%nat || (pos =? 18)%nat || (pos =? 23)%nat
       then (Ascii.N_of_ascii c =? 45)%N else is_hex c)
      && canonical_from (S pos) s'
  end.

Definition canonical_UUID (s : string) : option UUID :=
  if canonical_from 0 s then Some s else None.

Definition sample_sub : UUID := "c0ffee00-1111-4222-8333-444455556666".

Definition sample_payload (raw_project_id : option string) (cycles : Z) : Payload :=
  {| payload_project_id := raw_project_id;
     payload_subchapters :=
       [ {| meta_id := Some sample_sub; meta_chapter_order := 1; meta_sub_order := 1 |} ];
     payload_cycle_count := Some cycles |}.

(** A writer's draft, a critic's entry with one note, an implementer's
    revision. *)
Definition sample_draft (sub_id : UUID) (words : option N) : WriterDraftEntry :=
  {| wd_subchapter_id := sub_id;
     wd_content := "The harbour woke before the town did.";
     wd_summary := Some "Opening scene.";
     wd_word_count := words |}.

Definition sample_note (severity : CritiqueSeverity) : CritiqueFeedback :=
  {| cf_message := "Name the harbour in the first paragraph.";
     cf_severity := severity;
     cf_category := Some "clarity";
     cf_rationale := None |}.

Definition sample_critique (sub_id : UUID) (severity : CritiqueSeverity) : CritiqueEntry :=
  {| ce_subchapter_id := sub_id;
     ce_overview := "Vivid, but the setting stays unnamed.";
     ce_feedback := [ sample_note severity ] |}.

Definition sample_revision (sub_id : UUID) (words : option N) (resolved : list UUID)
  : ImplementationEntry :=
  {| ie_subchapter_id := sub_id;
     ie_content := "Port Ness woke before the town did.";
     ie_summary := Some "Named the harbour.";
     ie_word_count := words;
     ie_resolved_feedback := resolved;
     ie_notes := None |}.

(** The writer drafts the subchapter with [words] words; every critic
    emits one warning; the implementer of each cycle reports [resolved]
    and the same word count. *)
Definition sample_world (uuid4 : nat -> UUID) (words : option N)
    (resolved : nat -> list UUID) : World :=
  {| uuid4 := uuid4;
     UUID_ctor := canonical_UUID;
     writer_reply :=
       Parsed {| wd_subchapters :=
                   [ sample_draft sample_sub words ] |};
     critic_reply := fun _ =>
       Parsed {| ce_subchapters := [ sample_critique sample_sub WARNING ] |};
     implementer_reply := fun cycle_index =>
       Parsed {| ie_subchapters :=
                   [ sample_revision sample_sub words (resolved cycle_index) ] |} |}.

End Writing.

(** ** Creative guidelines stage (orchestrator/app/guidelines/engine.py) *)

Module Guidelines.

Inductive GuidelineStatus : Type := status_draft | status_final | status_needs_review.
Inductive BatchReadiness : Type := batch_draft | batch_ready.

Record CreativeGuideline : Type := {
  g_id : UUID;
  g_project_id : UUID;
  g_subchapter_id : UUID;
  g_status : GuidelineStatus;
  g_created_by : AgentRole;
  g_version : Z;
}.

Record CreativeGuidelineBatch : Type := {
  batch_project_id : UUID;
  version : Z;
  readiness : BatchReadiness;
  guidelines : list CreativeGuideline;
}.

Record CreativeGuidelineResult : Type := {
  batch : CreativeGuidelineBatch;
  critique : option string;
}.

Record Payload : Type := {
  payload_has_project_id : bool;           (* "project_id" in payload *)
  payload_project_id : option string;      (* its value, None for null *)
  payload_target_version : option Z;       (* payload.get("target_version") *)
}.

(* payload.get("project_id", "") *)
Definition get_project_id (payload : Payload) : option string :=
  if payload_has_project_id payload then payload_project_id payload else Some "".

(* int(payload.get("target_version") or 1) *)
Definition get_target_version (payload : Payload) : Z :=
  match payload_target_version payload with
  | Some v => if v =? 0 then 1 else v
  | None => 1
  end.

(* [project_id or other]: None and the empty string are falsy *)
Definition or_else (project_id : option string) (other : UUID) : UUID :=
  match project_id with
  | Some s => if String.eqb s "" then other else s
  | None => other
  end.

Definition _ensure_final_metadata (batch : CreativeGuidelineBatch)
    (project_id : option string) (target_version : Z) : CreativeGuidelineBatch :=
  let final_guidelines :=
    foldl (fun final_guidelines guideline =>
             (final_guidelines ++
               [ {| g_id := g_id guideline;
                    g_project_id := or_else project_id (g_project_id guideline);
                    g_subchapter_id := g_subchapter_id guideline;
                    g_status := status_final;
                    g_created_by := CREATIVE_DIRECTOR_FINAL;
                    g_version := target_version |} ])%list)
          [] (guidelines batch) in
  {| batch_project_id := or_else project_id (batch_project_id batch);
     version := target_version;
     readiness := batch_ready;
     guidelines := final_guidelines |}.

(** The answers of the three agent calls. *)
Record World : Type := {
  proposal_reply : reply CreativeGuidelineBatch;
  critique_reply : result string;
  final_reply : reply CreativeGuidelineBatch;
}.

(* async def _request_batch(provider, provider_config, prompt, override) *)
Definition _request_batch_params : list string :=
  ["provider"; "provider_config"; "prompt"; "override"].

(* async def _request_text(provider, provider_config, prompt, override) *)
Definition _request_text_params : list string :=
  ["provider"; "provider_config"; "prompt"; "override"].

(* Both bodies end in a call of generate_with_cache, a name this module
   never imports. *)
Definition _request_body {A} (answer : result A) : result A :=
  Raise (NameError "generate_with_cache").

(** The engine calls [_request_batch(provider, prompt, effective_override)]
    and [_request_text(provider, prompt, effective_override)]: three
    positional arguments each. *)
Definition generate_creative_guidelines (w : World) (payload : Payload)
  : result CreativeGuidelineResult :=
  let project_id := get_project_id payload in
  let target_version := get_target_version payload in
  proposal_response ←
    call_positional "_request_batch" _request_batch_params 3
      (_request_body (Ok (proposal_reply w)));
  proposal ← parse_reply "Creative guideline response" proposal_response;
  critique_text ←
    call_positional "_request_text" _request_text_params 3
      (_request_body (critique_reply w));
  final_response ←
    call_positional "_request_batch" _request_batch_params 3
      (_request_body (Ok (final_reply w)));
  final_batch ← parse_reply "Creative guideline response" final_response;
  let normalised_batch := _ensure_final_metadata final_batch project_id target_version in
  Ok {| batch := normalised_batch;
        critique := if String.eqb critique_text "" then None else Some critique_text |}.

(** apps/api/app/main.py, [_build_guidelines_payload]: the payload the API
    submits for a project whose stored guideline run has version
    [stored_version] ([None] when no run is stored or the column is null). *)
Definition current_version (stored_version : option Z) : Z :=
  match stored_version with
  | Some v => if v =? 0 then 0 else v
  | None => 0
  end.

Definition _build_guidelines_payload (project_id : UUID) (stored_version : option Z)
  : Payload :=
  {| payload_has_project_id := true;
     payload_project_id := Some (uuid_str project_id);
     payload_target_version := Some (current_version stored_version + 1) |}.

End Guidelines.

(** ** json.dumps(value, sort_keys=True, ensure_ascii=False) *)

Module Json.

Inductive json : Type :=
  | JNull
  | JBool (b : bool)
  | JInt (z : Z)
  | JFloat (f : pyfloat)
  | JStr (s : string)
  | JList (items : list json)
  | JDict (items : list (string * json)).

Definition char (n : N) : Ascii.ascii := Ascii.ascii_of_N n.
Definition str1 (n : N) : string := String (char n) EmptyString.
Definition dquote : string := str1 34.
Definition backslash : string := str1 92.

(* ESCAPE_DCT of json.encoder, used when ensure_ascii is false *)
Definition escape_char (c : Ascii.ascii) : string :=
  let n := Ascii.N_of_ascii c in
  if (n =? 34)%N then backslash +:+ dquote
  else if (n =? 92)%N then backslash +:+ backslash
  else if (n =? 8)%N then backslash +:+ "b"
  else if (n =? 12)%N then backslash +:+ "f"
  else if (n =? 10)%N then backslash +:+ "n"
  else if (n =? 13)%N then backslash +:+ "r"
  else if (n =? 9)%N then backslash +:+ "t"
  else if (n <? 32)%N then backslash +:+ "u" +:+ Sha256.hex_fixed 4 (Z.of_N n)
  else String c EmptyString.

Fixpoint escape (s : string) : string :=
  match s with
  | EmptyString => EmptyString
  | String c s' => escape_char c +:+ escape s'
  end.

Definition encode_str (s : string) : string := dquote +:+ escape s +:+ dquote.

(* sort the items of a dict by key *)
Fixpoint insert_item {V} (x : string * V) (xs : list (string * V)) : list (string * V) :=
  match xs with
  | [] => [x]
  | y :: ys => if String.leb y.1 x.1 then y :: insert_item x ys else x :: y :: ys
  end.

Definition sort_items {V} (xs : list (string * V)) : list (string * V) :=
  foldl (fun acc x => insert_item x acc) [] xs.

(* an object whose values are already rendered, keys sorted *)
Definition dumps_dict (rendered : list (string * string)) : string :=
  "{" +:+ join ", " (map (fun kv => encode_str kv.1 +:+ ": " +:+ kv.2) (sort_items rendered))
      +:+ "}".

Fixpoint dumps (v : json) : string :=
  match v with
  | JNull => "null"
  | JBool true => "true"
  | JBool false => "false"
  | JInt z => pretty z
  | JFloat f => f
  | JStr s => encode_str s
  | JList items => "[" +:+ join ", " (map dumps items) +:+ "]"
  | JDict items =>
      dumps_dict (map (fun kv => match kv with (k, v) => (k, dumps v) end) items)
  end.

(* json.loads(json.dumps(value, sort_keys=True)): the same value with the
   keys of every dict in sorted order *)
Fixpoint roundtrip (v : json) : json :=
  match v with
  | JList items => JList (map roundtrip items)
  | JDict items =>
      JDict (sort_items (map (fun kv => match kv with (k, v) => (k, roundtrip v) end) items))
  | _ => v
  end.

Definition of_str (s : option string) : json :=
  match s with Some s => JStr s | None => JNull end.
Definition of_int (z : option Z) : json :=
  match z with Some z => JInt z | None => JNull end.
Definition of_float (f : option pyfloat) : json :=
  match f with Some f => JFloat f | None => JNull end.
Definition of_bool (b : option bool) : json :=
  match b with Some b => JBool b | None => JNull end.

(** Reading back the first character of an escaped text. *)
Definition hex_value (c : Ascii.ascii) : N :=
  let n := Ascii.N_of_ascii c in
  if (n <? 58)%N then (n - 48)%N else (n - 87)%N.

Definition unescape_head (s : string) : option (Ascii.ascii * string) :=
  match s with
  | EmptyString => None
  | String c rest =>
      if negb (Ascii.N_of_ascii c =? 92)%N then Some (c, rest)
      else match rest with
           | EmptyString => None
           | String e rest =>
               let n := Ascii.N_of_ascii e in
               if (n =? 34)%N then Some (char 34, rest)
               else if (n =? 92)%N then Some (char 92, rest)
               else if (n =? 98)%N then Some (char 8, rest)
               else if (n =? 102)%N then Some (char 12, rest)
               else if (n =? 110)%N then Some (char 10, rest)
               else if (n =? 114)%N then Some (char 13, rest)
               else if (n =? 116)%N then Some (char 9, rest)
               else match rest with
                    | String _ (String _ (String a (String b rest))) =>
                        Some (char (16 * hex_value a + hex_value b), rest)
                    | _ => None
                    end
           end
  end.

End Json.

(** ** Prompt trimming (orchestrator/app/context.py) *)

Module Context.

Definition newline : string := Json.str1 10.

Definition summarise_prompt (_DEFAULT_LIMIT : Z) (prompt : string) (token_limit : option Z)
  : string * bool :=
  if String.eqb prompt "" then (prompt, false)
  else
    let limit := Z.max (match token_limit with
                        | Some l => if l =? 0 then _DEFAULT_LIMIT else l
                        | None => _DEFAULT_LIMIT
                        end) 256 in
    let approx_tokens := Z.of_nat (Text.len prompt) / 4 in
    if approx_tokens <=? limit then (prompt, false)
    else
      let max_chars := limit * 4 in
      let head_length := max_chars / 2 in
      let tail_length := max_chars - head_length in
      let head := Text.strip (Text.head_slice (Z.to_nat head_length) prompt) in
      let tail := Text.strip (Text.tail_slice (Z.to_nat tail_length) prompt) in
      let trimmed_prompt :=
        "[context trimmed to ~" +:+ pretty limit +:+ " tokens]" +:+ newline
        +:+ newline +:+ "-- begin excerpt --" +:+ newline
        +:+ head +:+ newline
        +:+ newline +:+ "..." +:+ newline
        +:+ tail +:+ newline
        +:+ "-- end excerpt --" in
      (trimmed_prompt, true).

End Context.

(** ** Response cache (orchestrator/app/cache.py) *)

Module Cache.

Record ProviderConfig : Type := {
  config_name : string;
  config_model : string;
}.

Record trimming : Type := {
  applied : bool;
  limit_tokens : option Z;
  original_hash : option string;
}.

Record ProviderRequest : Type := {
  prompt : string;
  system_prompt : option string;
  json_schema : option Json.json;
  temperature : option pyfloat;
  max_output_tokens : option Z;
  top_p : option pyfloat;
  reasoning_effort : option string;
  verbosity : option string;
  thinking_budget : option Z;
  include_thoughts : option bool;
  metadata_trimming : option trimming;      (* request.metadata.get("trimming") *)
  metadata_agent : option string;           (* request.metadata.get("agent") *)
}.

Record ProviderResponse : Type := {
  text : string;
  raw_cached : bool;
  response_model : string;
  prompt_tokens : Z;
  completion_tokens : Z;
  cost_usd : option pyfloat;
  latency_ms : option pyfloat;
}.

(* the dict _encode_response builds *)
Record encoded : Type := {
  enc_text : string;
  enc_model : string;
  enc_prompt_tokens : Z;
  enc_completion_tokens : Z;
  enc_cost_usd : option pyfloat;
  enc_latency_ms : option pyfloat;
}.

(** The cache object, without a Redis connection ([self._redis is None]). *)
Record StageCache : Type := {
  _ttl_seconds : Z;
  _prompt_limit : Z;
  _local : gmap string (encoded * Z);
}.

Definition _hash_text (text : string) : string := Sha256.hexdigest text.

Definition _normalise (value : option Json.json) : Json.json :=
  match value with
  | None => Json.JNull
  | Some (Json.JStr s) => Json.JStr s
  | Some (Json.JInt z) => Json.JInt z
  | Some (Json.JFloat f) => Json.JFloat f
  | Some (Json.JBool b) => Json.JBool b
  | Some v => Json.roundtrip v
  end.

Definition key_payload (provider_config : ProviderConfig) (request : ProviderRequest)
    (stage_name : string) (original_prompt : string) : Json.json :=
  Json.JDict
    [ ("provider", Json.JStr (config_name provider_config));
      ("model", Json.JStr (config_model provider_config));
      ("stage", Json.JStr stage_name);
      ("prompt", Json.JStr original_prompt);
      ("system", Json.of_str (system_prompt request));
      ("json_schema", _normalise (json_schema request));
      ("temperature", Json.of_float (temperature request));
      ("max_output_tokens", Json.of_int (max_output_tokens request));
      ("top_p", Json.of_float (top_p request));
      ("reasoning_effort", Json.of_str (reasoning_effort request));
      ("verbosity", Json.of_str (verbosity request));
      ("thinking_budget", Json.of_int (thinking_budget request));
      ("include_thoughts", Json.of_bool (include_thoughts request)) ].

Definition serialised (provider_config : ProviderConfig) (request : ProviderRequest)
    (stage_name : string) (original_prompt : string) : string :=
  Json.dumps (key_payload provider_config request stage_name original_prompt).

Definition _build_key (provider_config : ProviderConfig) (request : ProviderRequest)
    (stage_name : string) (original_prompt : string) : string :=
  _hash_text (serialised provider_config request stage_name original_prompt).

Definition _get (self : StageCache) (now : Z) (key : string) : option encoded * StageCache :=
  match _local self !! key with
  | None => (None, self)
  | Some (value, expires_at) =>
      if expires_at <? now
      then (None, {| _ttl_seconds := _ttl_seconds self;
                     _prompt_limit := _prompt_limit self;
                     _local := delete key (_local self) |})
      else (Some value, self)
  end.

Definition _set (self : StageCache) (now : Z) (key : string) (value : encoded) : StageCache :=
  {| _ttl_seconds := _ttl_seconds self;
     _prompt_limit := _prompt_limit self;
     _local := <[key := (value, now + _ttl_seconds self)]> (_local self) |}.

Definition _encode_response (response : ProviderResponse) : encoded :=
  {| enc_text := text response;
     enc_model := response_model response;
     enc_prompt_tokens := prompt_tokens response;
     enc_completion_tokens := completion_tokens response;
     enc_cost_usd := cost_usd response;
     enc_latency_ms := latency_ms response |}.

Definition _decode_response (payload : encoded) : ProviderResponse :=
  {| text := enc_text payload;
     raw_cached := true;
     response_model := enc_model payload;
     prompt_tokens := enc_prompt_tokens payload;
     completion_tokens := enc_completion_tokens payload;
     cost_usd := enc_cost_usd payload;
     (* payload.get("latency_ms") or 0.0: None and the two zeros are falsy *)
     latency_ms := match enc_latency_ms payload with
                   | Some l => if String.eqb l "0.0" || String.eqb l "-0.0"
                               then Some "0.0" else Some l
                   | None => Some "0.0"
                   end |}.

Definition set_prompt (request : ProviderRequest) (new_prompt : string)
    (info : option trimming) : ProviderRequest :=
  {| prompt := new_prompt;
     system_prompt := system_prompt request;
     json_schema := json_schema request;
     temperature := temperature request;
     max_output_tokens := max_output_tokens request;
     top_p := top_p request;
     reasoning_effort := reasoning_effort request;
     verbosity := verbosity request;
     thinking_budget := thinking_budget request;
     include_thoughts := include_thoughts request;
     metadata_trimming := info;
     metadata_agent := metadata_agent request |}.

(** What one call of [StageCache.generate] leaves behind: the response, the
    cache, the request object as mutated, and the key it used.

    The call reads the clock twice: [now] is the [time.time()] of [_get],
    [stored_at] the one of [_set], read when the provider has answered. *)
Record outcome : Type := {
  out_response : ProviderResponse;
  out_cache : StageCache;
  out_request : ProviderRequest;
  out_key : string;
  out_hit : bool;
}.

Definition generate (_DEFAULT_LIMIT : Z) (self : StageCache) (now stored_at : Z)
    (provider_config : ProviderConfig)
    (provider : ProviderRequest -> result ProviderResponse)
    (request : ProviderRequest) (stage_name : string) : result outcome :=
  let original_prompt := prompt request in
  let cache_key := _build_key provider_config request stage_name original_prompt in
  let '(cached, self) := _get self now cache_key in
  match cached with
  | Some payload =>
      Ok {| out_response := _decode_response payload; out_cache := self;
            out_request := request; out_key := cache_key; out_hit := true |}
  | None =>
      let '(trimmed_prompt, was_trimmed) :=
        Context.summarise_prompt _DEFAULT_LIMIT original_prompt (Some (_prompt_limit self)) in
      let request :=
        if was_trimmed
        then set_prompt request trimmed_prompt
               (Some {| applied := true;
                        limit_tokens := Some (_prompt_limit self);
                        original_hash := Some (_hash_text original_prompt) |})
        else set_prompt request (prompt request)
               (match metadata_trimming request with
                | Some info => Some info
                | None => Some {| applied := false; limit_tokens := None;
                                  original_hash := None |}
                end) in
      response ← provider request;
      Ok {| out_response := response;
            out_cache := _set self stored_at cache_key (_encode_response response);
            out_request := request; out_key := cache_key; out_hit := false |}
  end.

(** *** Vocabulary of the properties: the keyed fields one by one *)

Inductive field : Type :=
  | F_provider | F_model | F_stage | F_prompt | F_system | F_json_schema
  | F_temperature | F_max_output_tokens | F_top_p | F_reasoning_effort
  | F_verbosity | F_thinking_budget | F_include_thoughts.

(** A call site of [_build_key]. *)
Record keyed : Type := {
  k_config : ProviderConfig;
  k_request : ProviderRequest;
  k_stage : string;
  k_prompt : string;
}.

(** The value a field contributes to the payload that is hashed. *)
Definition value (f : field) (k : keyed) : Json.json :=
  match f with
  | F_provider => Json.JStr (config_name (k_config k))
  | F_model => Json.JStr (config_model (k_config k))
  | F_stage => Json.JStr (k_stage k)
  | F_prompt => Json.JStr (k_prompt k)
  | F_system => Json.of_str (system_prompt (k_request k))
  | F_json_schema => _normalise (json_schema (k_request k))
  | F_temperature => Json.of_float (temperature (k_request k))
  | F_max_output_tokens => Json.of_int (max_output_tokens (k_request k))
  | F_top_p => Json.of_float (top_p (k_request k))
  | F_reasoning_effort => Json.of_str (reasoning_effort (k_request k))
  | F_verbosity => Json.of_str (verbosity (k_request k))
  | F_thinking_budget => Json.of_int (thinking_budget (k_request k))
  | F_include_thoughts => Json.of_bool (include_thoughts (k_request k))
  end.

Definition key_of (k : keyed) : string :=
  _build_key (k_config k) (k_request k) (k_stage k) (k_prompt k).

Definition text_of (k : keyed) : string :=
  serialised (k_config k) (k_request k) (k_stage k) (k_prompt k).

(** The text [repr] prints for a float is never the JSON literal of None. *)
Definition float_texts (k : keyed) : Prop :=
  temperature (k_request k) <> Some "null" /\ top_p (k_request k) <> Some "null".

(** A prompt of [n] letters. *)
Fixpoint long_prompt (n : nat) : string :=
  match n with
  | O => EmptyString
  | S n' => String (Json.char 97) (long_prompt n')
  end.

Definition sample_request (prompt : string) : ProviderRequest :=
  {| prompt := prompt; system_prompt := Some "You are a careful editor.";
     json_schema := Some (Json.JDict [("type", Json.JStr "object")]);
     temperature := Some "0.7"; max_output_tokens := None; top_p := None;
     reasoning_effort := None; verbosity := None; thinking_budget := None;
     include_thoughts := None; metadata_trimming := None;
     metadata_agent := Some "writer" |}.

Definition sample_config : ProviderConfig :=
  {| config_name := "mock"; config_model := "mock" |}.

Definition sample_cache (limit : Z) : StageCache :=
  {| _ttl_seconds := 900; _prompt_limit := limit; _local := ∅ |}.

Definition sample_provider (request : ProviderRequest) : result ProviderResponse :=
  Ok {| text := "{}"; raw_cached := false; response_model := "mock";
        prompt_tokens := Z.of_nat (String.length (prompt request)) / 4;
        completion_tokens := 1; cost_usd := Some "0.0"; latency_ms := Some "0.0" |}.

End Cache.

(** ** Further vocabulary of the writing engine's properties *)

Module WritingTerms.
Import Writing.

(** Not later in reading order: by chapter, then by subchapter. *)
Definition reads_before (a b : string * SubchapterMeta) : Prop :=
  meta_chapter_order a.2 < meta_chapter_order b.2
  \/ (meta_chapter_order a.2 = meta_chapter_order b.2
      /\ meta_sub_order a.2 <= meta_sub_order b.2).

(** The roles of the three implementers. *)
Definition is_implementer (role : AgentRole) : bool :=
  match role with
  | WRITING_IMPLEMENTATION_I | WRITING_IMPLEMENTATION_II | WRITING_IMPLEMENTATION_III => true
  | _ => false
  end.

(** An iteration a run of [cycle_count] cycles can record: the writer's
    draft, at cycle 0, or the critic's or the implementer's iteration of one
    of the cycles. *)
Definition in_step (cycle_count : nat) (it : DraftIteration) : Prop :=
  (it_role it = WRITER_INITIAL /\ it_cycle it = 0%nat)
  \/ ((it_cycle it < cycle_count)%nat
      /\ (it_role it = critic_roles (it_cycle it)
          \/ it_role it = implement_roles (it_cycle it))).

(** A list of iterations that opens with a writer's draft. *)
Definition starts_with_draft (its : list DraftIteration) : Prop :=
  exists it rest, its = it :: rest /\ it_role it = WRITER_INITIAL /\ it_cycle it = 0%nat
                  /\ it_feedback it = [].

(** A feedback item that, when addressed, names an implementer's iteration
    of [its], and names none when it is not. *)
Definition linked (its : list DraftIteration) (f : DraftFeedbackItem) : Prop :=
  if addressed f
  then exists it, it ∈ its /\ addressed_in_iteration f = Some (it_id it)
                  /\ is_implementer (it_role it) = true
  else addressed_in_iteration f = None.

(** The two maps of the state have the keys [K]. *)
Definition keys_are (K : gset string) (st : Locals) : Prop :=
  dom (iterations_map st) = K /\ dom (feedback_map st) = K.

(** The ids of the iterations recorded so far are draws of the entropy
    source, and no id is recorded at two places. *)
Definition fresh_ids (w : World) (st : Locals) : Prop :=
  (forall k its it, iterations_map st !! k = Some its -> it ∈ its ->
     exists n, (n < draws st)%nat /\ it_id it = uuid4 w n)
  /\ (forall k1 k2 its1 its2 i j it1 it2,
        iterations_map st !! k1 = Some its1 -> iterations_map st !! k2 = Some its2 ->
        its1 !! i = Some it1 -> its2 !! j = Some it2 ->
        it_id it1 = it_id it2 -> k1 = k2 /\ i = j).

(** In every list of the state, the live feedback and the snapshots the
    iterations carry are linked to the iterations of the same subchapter. *)
Definition all_linked (st : Locals) : Prop :=
  forall k its, iterations_map st !! k = Some its ->
    Forall (fun it => Forall (linked its) (it_feedback it)) its
    /\ forall fb, feedback_map st !! k = Some fb -> Forall (linked its) fb.

(** *** Sample runs *)

(** An entropy source that never repeats a value: the n-th draw ends in the
    decimal digits of n. *)
Definition counting_uuid4 (n : nat) : UUID := "9f1c2d3e-0000-4000-8000-" +:+ pretty n.

Definition second_sub : UUID := "c0ffee00-1111-4222-8333-444455557777".

(** A request for two subchapters of one chapter, the later one first, and
    two cycles. *)
Definition two_subchapters : Payload :=
  {| payload_project_id := None;
     payload_subchapters :=
       [ {| meta_id := Some second_sub; meta_chapter_order := 1; meta_sub_order := 2 |};
         {| meta_id := Some sample_sub; meta_chapter_order := 1; meta_sub_order := 1 |} ];
     payload_cycle_count := Some 2 |}.

(** The writer drafts both subchapters; every critic comments on both; the
    implementer of each cycle revises the first and reports [resolved]. *)
Definition two_subchapters_world (resolved : nat -> list UUID) : World :=
  {| uuid4 := counting_uuid4;
     UUID_ctor := canonical_UUID;
     writer_reply :=
       Parsed {| wd_subchapters :=
                   [ sample_draft sample_sub (Some 240%N);
                     sample_draft second_sub None ] |};
     critic_reply := fun _ =>
       Parsed {| ce_subchapters :=
                   [ sample_critique second_sub WARNING;
                     sample_critique sample_sub INFO ] |};
     implementer_reply := fun cycle_index =>
       Parsed {| ie_subchapters :=
                   [ sample_revision sample_sub (Some 250%N) (resolved cycle_index) ] |} |}.

(** The implementer of the first cycle reports the first note on the first
    subchapter as resolved. *)
Definition first_note_resolved (cycle_index : nat) : list UUID :=
  match cycle_index with
  | O => [counting_uuid4 5]
  | S _ => []
  end.

Definition stray_sub : UUID := "deadbeef-1111-4222-8333-444455556666".

(** The writer drafts the requested subchapter and one nobody asked for. *)
Definition stray_world : World :=
  {| uuid4 := counting_uuid4;
     UUID_ctor := canonical_UUID;
     writer_reply :=
       Parsed {| wd_subchapters :=
                   [ sample_draft sample_sub (Some 240%N);
                     sample_draft stray_sub (Some 10%N) ] |};
     critic_reply := fun _ => NotJson;
     implementer_reply := fun _ => NotJson |}.

(** A draft that is blank once stripped: a space, a tab, a no-break space
    (U+00A0) and a line feed. *)
Definition blank_draft (sub_id : UUID) : WriterDraftEntry :=
  {| wd_subchapter_id := sub_id;
     wd_content := String.string_of_list_ascii (map Ascii.ascii_of_N [32; 9; 194; 160; 10]%N);
     wd_summary := None;
     wd_word_count := Some 0%N |}.

(** The same batch, the draft nobody asked for being blank. *)
Definition blank_stray_world : World :=
  {| uuid4 := counting_uuid4;
     UUID_ctor := canonical_UUID;
     writer_reply :=
       Parsed {| wd_subchapters :=
                   [ sample_draft sample_sub (Some 240%N);
                     blank_draft stray_sub ] |};
     critic_reply := fun _ => NotJson;
     implementer_reply := fun _ => NotJson |}.

End WritingTerms.

(** ** The requests of the writing agents (orchestrator/app/writing/engine.py)

    The [ProviderRequest] objects that [_request_writer], [_request_critic]
    and [_request_implementer] build and hand to the cache.
    [WRITING_SYSTEM_PROMPT] and the three JSON schemas pydantic derives from
    the agents' output models are constants of the module; they are
    arguments here. *)

Module Requests.

(* _resolve_param(name, override, default): [field] is getattr(override, name) *)
Definition _resolve_param {A} (field : Overrides.ProviderOverride -> option A)
    (override : option Overrides.ProviderOverride) (default : option A) : option A :=
  match override with
  | None => default
  | Some o =>
      match field o with
      | Some value => Some value
      | None => default
      end
  end.

(* the [request] that _request_writer builds *)
Definition writer_request (WRITING_SYSTEM_PROMPT : string) (WRITER_BATCH_SCHEMA : Json.json)
    (prompt : string) (override : option Overrides.ProviderOverride)
  : Cache.ProviderRequest :=
  {| Cache.prompt := prompt;
     Cache.system_prompt := Some WRITING_SYSTEM_PROMPT;
     Cache.json_schema := Some WRITER_BATCH_SCHEMA;
     Cache.temperature := _resolve_param Overrides.temperature override (Some "0.7");
     Cache.max_output_tokens := _resolve_param Overrides.max_output_tokens override None;
     Cache.top_p := _resolve_param Overrides.top_p override None;
     Cache.reasoning_effort := _resolve_param Overrides.reasoning_effort override None;
     Cache.verbosity := _resolve_param Overrides.verbosity override None;
     Cache.thinking_budget := _resolve_param Overrides.thinking_budget override None;
     Cache.include_thoughts := _resolve_param Overrides.include_thoughts override None;
     Cache.metadata_trimming := None;
     Cache.metadata_agent := Some "writer" |}.

(* the [request] that _request_critic builds *)
Definition critic_request (WRITING_SYSTEM_PROMPT : string) (CRITIQUE_BATCH_SCHEMA : Json.json)
    (prompt : string) (override : option Overrides.ProviderOverride)
  : Cache.ProviderRequest :=
  {| Cache.prompt := prompt;
     Cache.system_prompt := Some WRITING_SYSTEM_PROMPT;
     Cache.json_schema := Some CRITIQUE_BATCH_SCHEMA;
     Cache.temperature := _resolve_param Overrides.temperature override (Some "0.2");
     Cache.max_output_tokens := _resolve_param Overrides.max_output_tokens override None;
     Cache.top_p := _resolve_param Overrides.top_p override None;
     Cache.reasoning_effort := _resolve_param Overrides.reasoning_effort override None;
     Cache.verbosity := _resolve_param Overrides.verbosity override None;
     Cache.thinking_budget := _resolve_param Overrides.thinking_budget override None;
     Cache.include_thoughts := _resolve_param Overrides.include_thoughts override None;
     Cache.metadata_trimming := None;
     Cache.metadata_agent := Some "critic" |}.

(* the [request] that _request_implementer builds *)
Definition implementer_request (WRITING_SYSTEM_PROMPT : string)
    (IMPLEMENT_BATCH_SCHEMA : Json.json)
    (prompt : string) (override : option Overrides.ProviderOverride)
  : Cache.ProviderRequest :=
  {| Cache.prompt := prompt;
     Cache.system_prompt := Some WRITING_SYSTEM_PROMPT;
     Cache.json_schema := Some IMPLEMENT_BATCH_SCHEMA;
     Cache.temperature := _resolve_param Overrides.temperature override (Some "0.5");
     Cache.max_output_tokens := _resolve_param Overrides.max_output_tokens override None;
     Cache.top_p := _resolve_param Overrides.top_p override None;
     Cache.reasoning_effort := _resolve_param Overrides.reasoning_effort override None;
     Cache.verbosity := _resolve_param Overrides.verbosity override None;
     Cache.thinking_budget := _resolve_param Overrides.thinking_budget override None;
     Cache.include_thoughts := _resolve_param Overrides.include_thoughts override None;
     Cache.metadata_trimming := None;
     Cache.metadata_agent := Some "implementer" |}.

(** *** Vocabulary of the properties *)

(** The value of a field in the stage override when it has one, else in
    the run override when it has one, else the default. *)
Definition first_set {A} (field : Overrides.ProviderOverride -> option A)
    (stage_override run_override : option Overrides.ProviderOverride)
    (default : option A) : option A :=
  match stage_override ≫= field with
  | Some value => Some value
  | None =>
      match run_override ≫= field with
      | Some value => Some value
      | None => default
      end
  end.

End Requests.

(** ** Further vocabulary: prompts, coverage, JSON objects *)

Module ContextTerms.

(** The limit [summarise_prompt] works with: the limit given, or the default
    when none (or 0) is given, and at least 256. *)
Definition effective_limit (_DEFAULT_LIMIT : Z) (token_limit : option Z) : Z :=
  Z.max (match token_limit with
         | Some 0 | None => _DEFAULT_LIMIT
         | Some l => l
         end) 256.

(** A prompt of [n] characters of two bytes each (U+00E9). *)
Fixpoint accented_prompt (n : nat) : string :=
  match n with
  | O => EmptyString
  | S n' => String (Json.char 195) (String (Json.char 169) (accented_prompt n'))
  end.

End ContextTerms.

Module CoverageTerms.
Import FactMapping.

(** The facts of [fs] mapped to one of the subchapters [subs]. *)
Definition mapped_inside (subs : list Subchapter) (fs : list ResearchFact)
  : list ResearchFact :=
  filter (fun fact => subchapter_id fact ∈ map sub_id subs) fs.

End CoverageTerms.

Module JsonTerms.
Import Json.

(** The order in which [sort_keys] lists the items of an object. *)
Definition key_order {V} (a b : string * V) : Prop := String.leb a.1 b.1 = true.

(** *** The shape of a JSON text *)

Definition code (c : Ascii.ascii) : N := Ascii.N_of_ascii c.

(** What can follow a value in a JSON text: nothing, a comma or a closing
    bracket. *)
Definition closing (c : Ascii.ascii) : bool :=
  (code c =? 44)%N || (code c =? 93)%N || (code c =? 125)%N.

Definition closes (r : string) : bool :=
  match r with
  | EmptyString => true
  | String c _ => closing c
  end.

(** The characters of [null], [true], [false] and of numbers: anything but
    the quote, the comma and the brackets. *)
Definition atom_char (c : Ascii.ascii) : bool :=
  negb (closing c || (code c =? 34)%N || (code c =? 91)%N || (code c =? 123)%N).

Definition atom_text (s : string) : bool :=
  negb (String.eqb s "") && forallb atom_char (String.list_ascii_of_string s).

(** The characters of the decimal text of an int. *)
Definition int_char (c : Ascii.ascii) : bool :=
  (48 <=? code c)%N && (code c <=? 57)%N || (code c =? 45)%N.

(** The text of a float as [repr] and [json.dumps] print it: digits with a
    sign, a point or an exponent, or one of [inf], [nan], [Infinity] and
    [NaN].  It has a character that the text of an int lacks (the point,
    [e], [n] or [N]). *)
Definition float_char (c : Ascii.ascii) : bool :=
  int_char c || (code c =? 43)%N || (code c =? 46)%N
  || existsb (N.eqb (code c)) [101; 73; 110; 102; 105; 116; 121; 78; 97]%N.

Definition float_mark (c : Ascii.ascii) : bool :=
  (code c =? 46)%N || (code c =? 101)%N || (code c =? 110)%N || (code c =? 78)%N.

Definition float_text (f : pyfloat) : bool :=
  forallb float_char (String.list_ascii_of_string f)
  && existsb float_mark (String.list_ascii_of_string f).

(** Every float inside a value has such a text. *)
Fixpoint float_texts_in (v : json) : bool :=
  match v with
  | JFloat f => float_text f
  | JList items => forallb float_texts_in items
  | JDict items => forallb (fun kv => float_texts_in kv.2) items
  | _ => true
  end.

(** The character a value's text opens with: the quote for a string, a
    bracket for a list or an object, a character of an atom otherwise. *)
Definition opens (v : json) (c : Ascii.ascii) : Prop :=
  match v with
  | JStr _ => c = char 34
  | JList _ => c = char 91
  | JDict _ => c = char 123
  | _ => atom_char c = true
  end.

Definition is_atom (v : json) : bool :=
  match v with
  | JStr _ | JList _ | JDict _ => false
  | _ => true
  end.

(** What follows the first item of a list or an object: each further item
    after a comma and a space, then the closing bracket, then [r]. *)
Fixpoint items_text (close : string) (rendered : list string) (r : string) : string :=
  match rendered with
  | [] => close +:+ r
  | d :: ds => ", " +:+ d +:+ items_text close ds r
  end.

(** An item of an object as it is printed. *)
Definition item_text (kv : string * json) : string :=
  encode_str kv.1 +:+ ": " +:+ dumps kv.2.

End JsonTerms.

(** ** Further vocabulary of the cache key's properties *)

Module CacheKeyTerms.
Import Cache.

(** The floats of the request's schema are printed as floats are. *)
Definition schema_float_texts (k : keyed) : Prop :=
  JsonTerms.float_texts_in (value F_json_schema k) = true.

(** Two different texts with the same SHA-256 digest. *)
Definition collision (a b : string) : Prop :=
  a <> b /\ Sha256.hexdigest a = Sha256.hexdigest b.

(** A request with a schema that nests objects and holds a float. *)
Definition nested_schema (minimum : pyfloat) : Json.json :=
  Json.JDict
    [ ("type", Json.JStr "object");
      ("required", Json.JList [Json.JStr "title"; Json.JStr "score"]);
      ("properties",
       Json.JDict
         [ ("title", Json.JDict [("type", Json.JStr "string")]);
           ("score", Json.JDict [("type", Json.JStr "number");
                                 ("minimum", Json.JFloat minimum)]) ]) ].

Definition schema_request (schema : Json.json) : ProviderRequest :=
  {| prompt := "Draft the opening scene."; system_prompt := None;
     json_schema := Some schema;
     temperature := Some "0.7"; max_output_tokens := Some 2048; top_p := None;
     reasoning_effort := None; verbosity := None; thinking_budget := None;
     include_thoughts := None; metadata_trimming := None;
     metadata_agent := Some "writer" |}.

End CacheKeyTerms.

(** ** Sessions and project access (apps/api/app/main.py)

    The tables are maps from their unique keys to rows: [user_sessions] by
    [token_hash], [app_users] by [id], [project_members] by
    [(project_id, user_id)].  A [datetime] is a number of microseconds;
    [datetime.utcnow()] and SQL's [NOW()] are the one clock [now]. *)

Module Access.

Definition HTTP_401_UNAUTHORIZED : Z := 401.
Definition HTTP_403_FORBIDDEN : Z := 403.

Definition GLOBAL_ROLE_PRIORITY : gmap string Z :=
  {[ "member" := 1; "admin" := 10 ]}.

Definition PROJECT_ROLE_PRIORITY : gmap string Z :=
  {[ "viewer" := 1; "editor" := 5; "owner" := 10 ]}.

(* d.get(key, default) *)
Definition get {V} (d : gmap string V) (key : string) (default : V) : V :=
  match d !! key with
  | Some v => v
  | None => default
  end.

Record SessionUser : Type := {
  id : UUID;
  email : string;
  role : string;
}.

Record session_row : Type := {
  session_id : UUID;
  session_user_id : option UUID;     (* user_id UUID REFERENCES app_users(id) *)
  expires_at : Z;
  last_seen_at : Z;
}.

Record user_row : Type := {
  user_email : string;
  user_role : string;
}.

Record Tables : Type := {
  user_sessions : gmap string session_row;
  app_users : gmap UUID user_row;
  project_members : gmap (UUID * UUID) string;
}.

Definition _hash_token (token : string) : string := Sha256.hexdigest token.

Definition _is_admin_user (user : SessionUser) : bool :=
  get GLOBAL_ROLE_PRIORITY (role user) 0 >=? get GLOBAL_ROLE_PRIORITY "admin" 100.

(* DELETE FROM user_sessions WHERE id = %s *)
Definition delete_session (sid : UUID) (sessions : gmap string session_row)
  : gmap string session_row :=
  filter (fun kv => session_id kv.2 <> sid) sessions.

(* UPDATE user_sessions SET last_seen_at = NOW() WHERE id = %s *)
Definition touch_session (sid : UUID) (now : Z) (sessions : gmap string session_row)
  : gmap string session_row :=
  (fun row => if decide (session_id row = sid)
              then {| session_id := session_id row;
                      session_user_id := session_user_id row;
                      expires_at := expires_at row;
                      last_seen_at := now |}
              else row) <$> sessions.

Definition with_sessions (db : Tables) (sessions : gmap string session_row) : Tables :=
  {| user_sessions := sessions;
     app_users := app_users db;
     project_members := project_members db |}.

(* SELECT ... FROM user_sessions s JOIN app_users u ON u.id = s.user_id
   WHERE s.token_hash = %s *)
Definition session_with_user (db : Tables) (token_hash : string)
  : option (session_row * UUID * user_row) :=
  row ← user_sessions db !! token_hash;
  user_id ← session_user_id row;
  user ← app_users db !! user_id;
  Some (row, user_id, user).

Definition _lookup_session_user (db : Tables) (now : Z) (token : string)
  : option SessionUser * Tables :=
  let token_hash := _hash_token token in
  match session_with_user db token_hash with
  | None => (None, db)
  | Some (row, user_id, user) =>
      if expires_at row <? now
      then (None, with_sessions db (delete_session (session_id row) (user_sessions db)))
      else (Some {| id := user_id; email := user_email user; role := user_role user |},
            with_sessions db (touch_session (session_id row) now (user_sessions db)))
  end.

(* the dependency require_role(min_role) returns, run on a request whose
   session cookie is [cookie] *)
Definition require_role (min_role : string) (db : Tables) (now : Z) (cookie : option string)
  : result SessionUser * Tables :=
  match cookie with
  | None => (Raise (HTTPException HTTP_401_UNAUTHORIZED "Authentication required"), db)
  | Some token =>
      if String.eqb token ""
      then (Raise (HTTPException HTTP_401_UNAUTHORIZED "Authentication required"), db)
      else
        match _lookup_session_user db now token with
        | (None, db) =>
            (Raise (HTTPException HTTP_401_UNAUTHORIZED "Session expired or invalid"), db)
        | (Some user, db) =>
            if get GLOBAL_ROLE_PRIORITY (role user) 0 <? get GLOBAL_ROLE_PRIORITY min_role 0
            then (Raise (HTTPException HTTP_403_FORBIDDEN "Insufficient global permissions"),
                  db)
            else (Ok user, db)
        end
  end.

(* SELECT role FROM project_members WHERE user_id = %s AND project_id = %s *)
Definition _fetch_project_membership (db : Tables) (user_id project_id : UUID)
  : option string :=
  project_members db !! (project_id, user_id).

Definition _ensure_project_access (db : Tables) (project_id : UUID) (user : SessionUser)
    (required_role : string) : result unit :=
  if _is_admin_user user then Ok tt
  else
    match _fetch_project_membership db (id user) project_id with
    | None => Raise (HTTPException Budget.HTTP_404_NOT_FOUND "Project not found")
    | Some role =>
        if get PROJECT_ROLE_PRIORITY role 0 <? get PROJECT_ROLE_PRIORITY required_role 0
        then Raise (HTTPException HTTP_403_FORBIDDEN "Insufficient project permissions")
        else Ok tt
    end.

(** *** Vocabulary of the properties *)

(** What a project role may do: the role names it covers. *)
Definition covers (role required_role : string) : Prop :=
  get PROJECT_ROLE_PRIORITY required_role 0 <= get PROJECT_ROLE_PRIORITY role 0.

End Access.

(** ** Costs and budgets (apps/api/app/main.py)

    A dollar amount handed to these functions is represented by the integer
    [int(round(float(value) * 100))] evaluates to, [None] when [float] or
    [round] raises [TypeError] or [ValueError] on it (a value that is no
    number, or NaN).  Infinite amounts, on which [round] raises
    [OverflowError], are left out. *)

Module Ledger.
Import Budget.

Definition usd : Type := option Z.

Definition _usd_to_cents (value : usd) : Z :=
  match value with
  | Some cents => Z.max cents 0
  | None => 0          (* except (TypeError, ValueError): return 0 *)
  end.

(* UPDATE projects SET total_cost_cents = total_cost_cents + %s WHERE id = %s *)
Definition add_cost (cents : Z) (row : project_row) : project_row :=
  {| spend_limit_cents := spend_limit_cents row;
     total_cost_cents := (fun total => total + cents) <$> total_cost_cents row |}.

Definition _increment_project_cost (projects : gmap UUID project_row) (project_id : UUID)
    (delta_usd : usd) : result (gmap UUID project_row) :=
  let cents := _usd_to_cents delta_usd in
  if cents <=? 0 then Ok projects
  else
    match projects !! project_id with
    | None => Raise (HTTPException HTTP_404_NOT_FOUND "Project not found")
    | Some row => Ok (<[project_id := add_cost cents row]> projects)
    end.

(** The part of an orchestrator stage result that carries a cost. *)
Record stage_result : Type := {
  cost_usd : option usd;            (* stage_result.get("cost_usd") *)
  extras_cost_usd : option usd;     (* (stage_result.get("extras") or {}).get("cost_usd") *)
}.

Definition _apply_stage_cost (projects : gmap UUID project_row) (project_id : UUID)
    (stage_result : stage_result) : result (gmap UUID project_row) :=
  let cost := match cost_usd stage_result with
              | Some cost => Some cost
              | None => extras_cost_usd stage_result
              end in
  match cost with
  | None => Ok projects
  | Some None => Ok projects       (* float(cost) raised *)
  | Some delta => _increment_project_cost projects project_id delta
  end.

(* UPDATE projects SET spend_limit_cents = %s, last_updated = NOW() WHERE id = %s *)
Definition _set_project_budget (projects : gmap UUID project_row) (project_id : UUID)
    (spend_limit_usd : option usd) : result (gmap UUID project_row) :=
  let cents := match spend_limit_usd with
               | None => None
               | Some value => Some (_usd_to_cents value)
               end in
  match projects !! project_id with
  | None => Raise (HTTPException HTTP_404_NOT_FOUND "Project not found")
  | Some row =>
      Ok (<[project_id := {| spend_limit_cents := cents;
                             total_cost_cents := total_cost_cents row |}]> projects)
  end.

(** The budget fields of [_row_to_project_summary], in cents.
    [nine_tenths limit] stands for [int(spend_limit_cents * 0.9)], a float
    product. *)
Definition budget_status (nine_tenths : Z -> Z) (row : project_row)
  : string * option Z :=
  let total_cents := int_or_0 (total_cost_cents row) in
  match spend_limit_cents row with
  | None => ("unlimited", None)
  | Some spend_limit_cents =>
      let remaining_cents := Z.max (spend_limit_cents - total_cents) 0 in
      if total_cents >=? spend_limit_cents then ("exceeded", Some 0)
      else if (spend_limit_cents >? 0) && (total_cents >=? nine_tenths spend_limit_cents)
           then ("warning", Some remaining_cents)
           else ("ok", Some remaining_cents)
  end.

(** *** Vocabulary of the properties *)

(** The accumulated cost the budget guard compares with the limit. *)
Definition spent (projects : gmap UUID project_row) (project_id : UUID) : Z :=
  match projects !! project_id with
  | Some row => int_or_0 (total_cost_cents row)
  | None => 0
  end.

Definition limit_of (projects : gmap UUID project_row) (project_id : UUID) : option Z :=
  projects !! project_id ≫= spend_limit_cents.

(** A project with a limit of 5.00 that has spent 4.80. *)
Definition sample_project : UUID := "7d3f0c1e-5a52-4a43-9d7e-2b1c5e8f9a10".

Definition sample_projects : gmap UUID project_row :=
  {[ sample_project := {| spend_limit_cents := Some 500; total_cost_cents := Some 480 |} ]}.

End Ledger.

(** ** Provider configuration (orchestrator/app/providers.py,
       book_creator_providers/config.py) *)

Module Providers.
Import Overrides.

Record ProviderSettings : Type := {
  s_temperature : pyfloat;
  s_max_output_tokens : option Z;
  s_top_p : option pyfloat;
  s_json_mode : bool;
  s_reasoning_effort : option string;
  s_verbosity : option string;
  s_thinking_budget : option Z;
  s_include_thoughts : bool;
}.

(* ProviderSettings(): the defaults of the fields *)
Definition default_settings : ProviderSettings :=
  {| s_temperature := "0.4";
     s_max_output_tokens := None;
     s_top_p := None;
     s_json_mode := false;
     s_reasoning_effort := None;
     s_verbosity := None;
     s_thinking_budget := None;
     s_include_thoughts := false |}.

Record ProviderConfig : Type := {
  cfg_name : string;
  cfg_api_key : string;
  cfg_model : string;
  cfg_settings : ProviderSettings;
}.

Definition mock_config : ProviderConfig :=
  {| cfg_name := "mock"; cfg_api_key := "mock"; cfg_model := "mock";
     cfg_settings := default_settings |}.

(* settings_updates[field] = value, when the override has one *)
Definition updated {A} (value : option A) (current : A) : A :=
  match value with
  | Some v => v
  | None => current
  end.

(* config.settings.model_copy(update=settings_updates): a copy without
   updates equals the settings it copies *)
Definition update_settings (o : ProviderOverride) (s : ProviderSettings) : ProviderSettings :=
  {| s_temperature := updated (temperature o) (s_temperature s);
     s_max_output_tokens := if_not_none (max_output_tokens o) (s_max_output_tokens s);
     s_top_p := if_not_none (top_p o) (s_top_p s);
     s_json_mode := updated (json_mode o) (s_json_mode s);
     s_reasoning_effort := if_not_none (reasoning_effort o) (s_reasoning_effort s);
     s_verbosity := if_not_none (verbosity o) (s_verbosity s);
     s_thinking_budget := if_not_none (thinking_budget o) (s_thinking_budget s);
     s_include_thoughts := updated (include_thoughts o) (s_include_thoughts s) |}.

Section resolve.

(** [str.lower], the process environment, and [load_provider_config], which
    reads the provider's settings from the environment. *)
Variable lower : string -> string.
Variable getenv : string -> option string.
Variable load_provider_config : option string -> result ProviderConfig.

Definition resolve_provider_config (override : option ProviderOverride)
  : result ProviderConfig :=
  (* override.name if override and override.name *)
  let override_name :=
    match override with
    | Some o => if str_truthy (name o) then name o else None
    | None => None
    end in
  let provider_name :=
    match override_name with
    | Some n => n
    | None => default "mock" (getenv "LLM_PROVIDER")
    end in
  if negb (String.eqb provider_name "") && String.eqb (lower provider_name) "mock"
  then Ok mock_config
  else
    config ← load_provider_config override_name;
    match override with
    | None => Ok config
    | Some o =>
        Ok {| cfg_name := cfg_name config;
              cfg_api_key := cfg_api_key config;
              cfg_model := if str_truthy (model o) then default "" (model o)
                           else cfg_model config;
              cfg_settings := update_settings o (cfg_settings config) |}
    end.

End resolve.

(** *** Vocabulary of the properties *)

(* [value] when it is truthy *)
Definition nonempty (value : option string) : option string :=
  if str_truthy value then value else None.

(** The provider name the overrides ask for: that of the stage override
    when it has a non-empty one, else that of the run override. *)
Definition requested_name (stage_override run_override : option ProviderOverride)
  : option string :=
  match nonempty (stage_override ≫= name) with
  | Some n => Some n
  | None => nonempty (run_override ≫= name)
  end.

Definition requested_model (stage_override run_override : option ProviderOverride)
  : option string :=
  match nonempty (stage_override ≫= model) with
  | Some m => Some m
  | None => nonempty (run_override ≫= model)
  end.

End Providers.

(** ** The book structure (book_creator_schemas/models/book.py) *)

Module Book.

Record Subchapter : Type := {
  id : UUID;
  title : string;
  order : Z;
}.

Record Chapter : Type := {
  chapter_id : UUID;
  chapter_title : string;
  chapter_order : Z;
  subchapters : list Subchapter;
}.

(* list(range(1, len(items) + 1)) *)
Definition range_from_1 {A} (items : list A) : list Z :=
  seqZ 1 (Z.of_nat (length items) + 1 - 1).

(* the validator of BookStructure.chapters *)
Definition validate_ordering (chapters : list Chapter) : result (list Chapter) :=
  let expected_order := range_from_1 chapters in
  let actual_order := map chapter_order chapters in
  if bool_decide (actual_order <> expected_order)
  then Raise (ValueError "Chapter order must be contiguous starting at 1")
  else
    _ ← for_each (fun (_ : unit) chapter =>
           let sub_expected := range_from_1 (subchapters chapter) in
           let sub_actual := map order (subchapters chapter) in
           if bool_decide (sub_actual <> sub_expected)
           then Raise (ValueError
                  ("Subchapter order must be contiguous starting at 1 in chapter "
                   +:+ chapter_title chapter))
           else Ok tt) tt chapters;
    Ok chapters.

(** *** Vocabulary of the properties *)

(** The i-th order value (counting from 0) is i + 1. *)
Definition contiguous (orders : list Z) : Prop :=
  forall (i : nat) (o : Z), orders !! i = Some o -> o = Z.of_nat i + 1.

Definition well_ordered (chapter : Chapter) : Prop :=
  contiguous (map order (subchapters chapter)).

(** The (chapter order, subchapter order) pairs of a structure, as listed. *)
Definition positions (chapters : list Chapter) : list (Z * Z) :=
  chapter ← chapters;
  (fun sub => (chapter_order chapter, order sub)) <$> subchapters chapter.

(** Strictly earlier in reading order. *)
Definition before (a b : Z * Z) : Prop :=
  a.1 < b.1 \/ (a.1 = b.1 /\ a.2 < b.2).

End Book.

(** ** The structure timeline (apps/api/app/main.py)

    A [datetime] is the number of microseconds since a fixed instant; dates
    outside the range of [datetime], on which its arithmetic raises
    [OverflowError], are left out. *)

Module Timeline.

Record StructureTimelineEntry : Type := {
  id : string;
  role : string;
  title : string;
  content : string;
  timestamp : Z;
}.

(* timedelta(minutes=n) *)
Definition minutes (n : Z) : Z := n * 60000000.

(** [synopsis] is [structure.get("synopsis")] ([None] when the key is
    missing or null, or [structure] is no dict), [utcnow] the clock. *)
Definition _build_iterations (utcnow : Z) (synopsis : option string) (summary : string)
    (critiques : list string) (updated_at : option Z) : list StructureTimelineEntry :=
  let base_time := default utcnow updated_at in
  let start_time := base_time - minutes (Z.of_nat (length critiques) + 1) in
  let entries :=
    [ {| id := "proposal";
         role := "proposal";
         title := "Initial Outline Created";
         content := match synopsis with
                    | Some text => if String.eqb text ""
                                   then "Initial outline generated by proposal agent."
                                   else text
                    | None => "Initial outline generated by proposal agent."
                    end;
         timestamp := start_time |} ] in
  let entries :=
    foldl (fun entries '(index, critique) =>
             (entries ++
              [ {| id := "critique-" +:+ pretty index;
                   role := "critique";
                   title := "Critique " +:+ pretty index;
                   content := critique;
                   timestamp := start_time + minutes index |} ])%list)
          entries
          (zip (seqZ 1 (Z.of_nat (length critiques))) critiques) in
  (entries ++
   [ {| id := "summary";
        role := "summary";
        title := "Final Summary";
        content := summary;
        timestamp := base_time |} ])%list.

(** *** Vocabulary of the properties *)

(** The entry of the critique with the given index (counted from 1). *)
Definition critique_entry (start_time index : Z) (critique : string)
  : StructureTimelineEntry :=
  {| id := "critique-" +:+ pretty index;
     role := "critique";
     title := "Critique " +:+ pretty index;
     content := critique;
     timestamp := start_time + minutes index |}.

End Timeline.

(** * Properties *)

(** ** General lemmas on the error monad and loops *)

Lemma bind_Ok {A B} (m : result A) (k : A -> result B) (b : B) :
  (m ≫= k) = Ok b -> exists a, m = Ok a /\ k a = Ok b.
Proof. destruct m as [a|e]; simpl; [eauto | discriminate]. Qed.

Lemma for_each_app {A S} (body : S -> A -> result S) (st : S) (xs ys : list A) :
  for_each body st (xs ++ ys) = (for_each body st xs ≫= fun st' => for_each body st' ys).
Proof.
  revert st. induction xs as [|x xs IH]; intros st; simpl; [reflexivity|].
  destruct (body st x) as [st'|e]; simpl; [apply IH | reflexivity].
Qed.

(** An invariant of the loop body that holds before a loop holds after it. *)
Lemma for_each_invariant {A S} (P : S -> Prop) (body : S -> A -> result S) (xs : list A) :
  (forall st x st', x ∈ xs -> P st -> body st x = Ok st' -> P st') ->
  forall st st', P st -> for_each body st xs = Ok st' -> P st'.
Proof.
  induction xs as [|x xs IH]; intros Hbody st st' HP Hrun; simpl in Hrun.
  - congruence.
  - apply bind_Ok in Hrun as (st1 & H1 & H2).
    eapply IH; [ | | exact H2].
    + intros s y s' Hy. apply Hbody. by right.
    + eapply Hbody; [ | exact HP | exact H1]. by left.
Qed.

Lemma filter_none {A} (P : A -> Prop) `{!forall x, Decision (P x)} (l : list A) :
  (forall x, x ∈ l -> ~ P x) -> filter P l = [].
Proof.
  induction l as [|x l IH]; intros Hall; [reflexivity|].
  rewrite filter_cons_False by (apply Hall; by left).
  apply IH. intros y Hy. apply Hall. by right.
Qed.

(** A loop that appends one element per round builds a [map]. *)
Lemma foldl_snoc_map {A B} (f : A -> B) (xs : list A) (acc : list B) :
  foldl (fun acc x => (acc ++ [f x])%list) acc xs = (acc ++ map f xs)%list.
Proof.
  revert acc. induction xs as [|x xs IH]; intros acc; simpl.
  - by rewrite app_nil_r.
  - rewrite IH, <- app_assoc. reflexivity.
Qed.

(** ** Budget gate *)

Module BudgetTheory.
Import Budget.

Lemma int_or_0_default (v : option Z) : int_or_0 v = default 0 v.
Proof. destruct v as [z|]; simpl; [|reflexivity]. destruct (Z.eqb_spec z 0); congruence. Qed.

(** C7. For a project with spend limit [L] (nullable) and accumulated cost
    [C], the budget guard rejects the stage with the HTTP 402 "budget
    exhausted" exception exactly when [L] is set and [C >= L]; in particular
    [C = L] rejects; when [L] is null the guard never rejects; and the guard
    has no other outcome than that rejection or admission. *)
Theorem budget_gate (projects : gmap UUID project_row) (project_id : UUID)
    (row : project_row) :
  projects !! project_id = Some row ->
  let L := spend_limit_cents row in
  let C := default 0 (total_cost_cents row) in
  (_guard_project_budget projects project_id = Raise budget_exhausted
     <-> exists l, L = Some l /\ l <= C)
  /\ (_guard_project_budget projects project_id = Ok tt
     <-> ~ exists l, L = Some l /\ l <= C)
  /\ (L = Some C -> _guard_project_budget projects project_id = Raise budget_exhausted)
  /\ (L = None -> _guard_project_budget projects project_id = Ok tt).
Proof.
  intros Hrow L C.
  assert (Hguard : _guard_project_budget projects project_id =
                   match L with
                   | Some l => if C >=? l then Raise budget_exhausted else Ok tt
                   | None => Ok tt
                   end).
  { unfold _guard_project_budget, _fetch_budget_state. rewrite Hrow. simpl.
    rewrite int_or_0_default. reflexivity. }
  rewrite Hguard. subst L C.
  destruct (spend_limit_cents row) as [l|]; simpl.
  - destruct (Z.geb_spec (default 0 (total_cost_cents row)) l) as [Hge|Hlt].
    + split; [|split; [|split]].
      * split; [intros _; exists l; split; [done | lia] | done].
      * split; [done | intros H; exfalso; apply H; exists l; split; [done | lia]].
      * done.
      * done.
    + split; [|split; [|split]].
      * split; [done | intros (l' & Heq & Hle); injection Heq as <-; lia].
      * split; [intros _ (l' & Heq & Hle); injection Heq as <-; lia | done].
      * intros Heq; injection Heq as ->; lia.
      * done.
  - split; [|split; [|split]].
    + split; [done | intros (l & Hl & _); discriminate].
    + split; [intros _ (l & Hl & _); discriminate | done].
    + done.
    + done.
Qed.

Lemma budget_gate_witness :
  let projects : gmap UUID project_row :=
    {[ "7d3f0c1e-5a52-4a43-9d7e-2b1c5e8f9a10" :=
         {| spend_limit_cents := Some 500; total_cost_cents := Some 500 |} ]} in
  projects !! "7d3f0c1e-5a52-4a43-9d7e-2b1c5e8f9a10"
    = Some {| spend_limit_cents := Some 500; total_cost_cents := Some 500 |}
  /\ _guard_project_budget projects "7d3f0c1e-5a52-4a43-9d7e-2b1c5e8f9a10"
     = Raise budget_exhausted.
Proof.
  intros projects.
  assert (Hrow : projects !! "7d3f0c1e-5a52-4a43-9d7e-2b1c5e8f9a10"
                 = Some {| spend_limit_cents := Some 500; total_cost_cents := Some 500 |})
    by reflexivity.
  split; [exact Hrow|].
  apply (budget_gate projects _ _ Hrow). reflexivity.
Defined.

End BudgetTheory.

(** ** Override merge *)

Module OverridesTheory.
Import Overrides.

(** C4, as stated, fails: a stage override whose [name] is the empty string
    (a non-null value) does not win over the run override's name. *)
Lemma merge_empty_name_counterexample :
  let stage := {| name := Some ""; model := None; temperature := None;
                  max_output_tokens := None; json_mode := None; top_p := None;
                  reasoning_effort := None; verbosity := None;
                  thinking_budget := None; include_thoughts := None |} in
  let run := {| name := Some "openai"; model := None; temperature := None;
                max_output_tokens := None; json_mode := None; top_p := None;
                reasoning_effort := None; verbosity := None;
                thinking_budget := None; include_thoughts := None |} in
  name stage <> None
  /\ (name <$> _merge_overrides (Some stage) (Some run)) = Some (Some "openai")
  /\ (name <$> _merge_overrides (Some stage) (Some run)) <> Some (name stage).
Proof. repeat split; discriminate. Qed.

(** C4, amended. Merging with an absent side returns the other side
    unchanged.  With both present, [name] and [model] take the stage value
    when it is neither null nor the empty string, else the run value; every
    other field takes the stage value when it is non-null, else the run
    value. *)
Theorem merge_overrides_precedence :
  (forall run, _merge_overrides None run = run)
  /\ (forall stage, _merge_overrides stage None = stage)
  /\ (forall stage run, exists merged,
        _merge_overrides (Some stage) (Some run) = Some merged
        /\ name merged = match name stage with
                         | Some n => if String.eqb n "" then name run else Some n
                         | None => name run
                         end
        /\ model merged = match model stage with
                          | Some n => if String.eqb n "" then model run else Some n
                          | None => model run
                          end
        /\ temperature merged = from_option Some (temperature run) (temperature stage)
        /\ max_output_tokens merged
           = from_option Some (max_output_tokens run) (max_output_tokens stage)
        /\ json_mode merged = from_option Some (json_mode run) (json_mode stage)
        /\ top_p merged = from_option Some (top_p run) (top_p stage)
        /\ reasoning_effort merged
           = from_option Some (reasoning_effort run) (reasoning_effort stage)
        /\ verbosity merged = from_option Some (verbosity run) (verbosity stage)
        /\ thinking_budget merged
           = from_option Some (thinking_budget run) (thinking_budget stage)
        /\ include_thoughts merged
           = from_option Some (include_thoughts run) (include_thoughts stage)).
Proof.
  split; [reflexivity|]. split; [by intros [s|]|].
  intros s r. eexists. split; [reflexivity|]. simpl.
  unfold py_or, str_truthy, if_not_none.
  repeat split;
    match goal with
    | |- context [name s] => destruct (name s) as [n|]; [destruct (String.eqb n "")|]
    | |- context [model s] => destruct (model s) as [n|]; [destruct (String.eqb n "")|]
    | |- _ => idtac
    end; try reflexivity.
  all: match goal with |- context [from_option _ _ ?x] => by destruct x end.
Qed.

End OverridesTheory.

(** ** Fact-mapping coverage *)

Module FactMappingTheory.
Import FactMapping.

Lemma count_facts_acc (fs : list ResearchFact) (counts : gmap string nat) (u : UUID) :
  default 0%nat
    (foldl (fun counts fact =>
              let key := uuid_str (subchapter_id fact) in
              <[key := (default 0%nat (counts !! key) + 1)%nat]> counts) counts fs !! u)
  = (default 0%nat (counts !! u) + facts_for u fs)%nat.
Proof.
  revert counts. induction fs as [|fact fs IH]; intros counts; simpl.
  - unfold facts_for. simpl. lia.
  - rewrite IH. unfold facts_for, uuid_str. rewrite filter_cons.
    case_decide as Hu.
    + rewrite Hu, lookup_insert_eq. simpl. rewrite <- Nat.add_assoc. reflexivity.
    + rewrite lookup_insert_ne by done. lia.
Qed.

Lemma count_facts_lookup (fs : list ResearchFact) (u : UUID) :
  default 0%nat (count_facts fs !! u) = facts_for u fs.
Proof. unfold count_facts. rewrite count_facts_acc. by rewrite lookup_empty. Qed.

Lemma build_coverage_map (structure : BookStructure) (mapping : FactMappingBatch) :
  _build_coverage structure mapping
  = map (fun sub => {| cov_subchapter_id := sub_id sub;
                       fact_count := facts_for (sub_id sub) (facts mapping) |})
        (structure_subchapters structure).
Proof.
  unfold _build_coverage, structure_subchapters.
  set (row := fun sub => {| cov_subchapter_id := sub_id sub;
                            fact_count := facts_for (sub_id sub) (facts mapping) |}).
  assert (Hinner : forall subs acc,
             foldl (fun coverage subchapter =>
                      (coverage ++
                         [ {| cov_subchapter_id := sub_id subchapter;
                              fact_count :=
                                default 0%nat
                                  (count_facts (facts mapping) !! uuid_str (sub_id subchapter)) |} ])%list)
                   acc subs
             = (acc ++ map row subs)%list).
  { induction subs as [|sub subs IH]; intros acc; simpl.
    - by rewrite app_nil_r.
    - rewrite IH, <- app_assoc. simpl. unfold row at 2.
      by rewrite count_facts_lookup. }
  assert (Houter : forall chs acc,
             foldl (fun coverage chapter =>
                      foldl (fun coverage subchapter =>
                               (coverage ++
                                  [ {| cov_subchapter_id := sub_id subchapter;
                                       fact_count :=
                                         default 0%nat
                                           (count_facts (facts mapping)
                                              !! uuid_str (sub_id subchapter)) |} ])%list)
                            coverage (subchapters chapter))
                   acc chs
             = (acc ++ map row (concat (map subchapters chs)))%list).
  { induction chs as [|ch chs IH]; intros acc; simpl.
    - by rewrite app_nil_r.
    - rewrite Hinner, IH, map_app, app_assoc. reflexivity. }
  apply (Houter (chapters structure) []).
Qed.

Lemma one_record_per_id (fs : list ResearchFact) (subs : list Subchapter) (sub : Subchapter) :
  NoDup (map sub_id subs) -> sub ∈ subs ->
  filter (fun c => cov_subchapter_id c = sub_id sub)
         (map (fun sub => {| cov_subchapter_id := sub_id sub;
                             fact_count := facts_for (sub_id sub) fs |}) subs)
  = [ {| cov_subchapter_id := sub_id sub; fact_count := facts_for (sub_id sub) fs |} ].
Proof.
  induction subs as [|s subs IH]; intros Hnodup Hsub; [by inversion Hsub|].
  simpl in Hnodup. apply NoDup_cons in Hnodup as [Hnotin Hnodup].
  rewrite map_cons, filter_cons. simpl.
  destruct (decide (sub_id s = sub_id sub)) as [Heq|Hne].
  - rewrite Heq. f_equal.
    apply filter_none. intros c Hc.
    apply list_elem_of_fmap in Hc as (s' & -> & Hs'). simpl.
    intros Heq'. apply Hnotin. rewrite Heq, <- Heq'.
    apply list_elem_of_fmap. eauto.
  - apply IH; [done|]. apply elem_of_cons in Hsub as [->|Hsub]; done.
Qed.

(** C6. A fact-mapping run over a structure returns a coverage list with one
    record per subchapter of the structure, in document order, whose
    [fact_count] is the number of facts of the returned batch mapped to that
    subchapter (zero when there is none); when the subchapter ids are
    pairwise distinct, each id has exactly one record; and the coverage the
    model itself returned plays no part: any other value in its place gives
    the same result. *)
Theorem coverage_recount (structure : BookStructure)
    (proposal : reply FactMappingBatch) (critique_text : result string)
    (final : reply FactMappingBatch) (res : FactMappingResult) :
  generate_fact_mapping (Some structure) proposal critique_text final = Ok res ->
  coverage (batch res)
    = map (fun sub => {| cov_subchapter_id := sub_id sub;
                         fact_count := facts_for (sub_id sub) (facts (batch res)) |})
          (structure_subchapters structure)
  /\ (NoDup (map sub_id (structure_subchapters structure)) ->
      forall sub, sub ∈ structure_subchapters structure ->
        filter (fun c => cov_subchapter_id c = sub_id sub) (coverage (batch res))
        = [ {| cov_subchapter_id := sub_id sub;
               fact_count := facts_for (sub_id sub) (facts (batch res)) |} ])
  /\ (exists final_mapping, final = Parsed final_mapping
      /\ facts (batch res) = facts final_mapping
      /\ forall model_coverage,
           generate_fact_mapping (Some structure) proposal critique_text
             (Parsed (set_coverage final_mapping model_coverage)) = Ok res).
Proof.
  intros Hrun. unfold generate_fact_mapping in Hrun. simpl in Hrun.
  apply bind_Ok in Hrun as (mapping & Hprop & Hrun).
  apply bind_Ok in Hrun as (crit & Hcrit & Hrun).
  apply bind_Ok in Hrun as (fm & Hfinal & Hrun).
  injection Hrun as <-. simpl.
  assert (Hcov : _build_coverage structure fm
                 = map (fun sub => {| cov_subchapter_id := sub_id sub;
                                      fact_count := facts_for (sub_id sub) (facts fm) |})
                       (structure_subchapters structure))
    by apply build_coverage_map.
  split; [exact Hcov|]. split.
  - intros Hnodup sub Hsub. rewrite Hcov. by apply one_record_per_id.
  - destruct final as [fb| | |]; simpl in Hfinal; try discriminate.
    injection Hfinal as ->. exists fm. split; [done|]. split; [done|].
    intros cov'. unfold generate_fact_mapping. simpl.
    rewrite Hprop. simpl. rewrite Hcrit. simpl. reflexivity.
Qed.

Lemma coverage_recount_witness :
  let s1 := "5b0a5c3e-0000-4000-8000-000000000001" in
  let s2 := "5b0a5c3e-0000-4000-8000-000000000002" in
  let structure :=
    {| structure_project_id := "5b0a5c3e-0000-4000-8000-000000000000";
       chapters := [ {| chapter_id := "5b0a5c3e-0000-4000-8000-00000000000c";
                        chapter_order := 1;
                        subchapters := [ {| sub_id := s1; sub_order := 1 |};
                                         {| sub_id := s2; sub_order := 2 |} ] |} ] |} in
  let mapping :=
    {| project_id := "5b0a5c3e-0000-4000-8000-000000000000";
       facts := [ {| fact_id := "5b0a5c3e-0000-4000-8000-0000000000f1"; subchapter_id := s1 |};
                  {| fact_id := "5b0a5c3e-0000-4000-8000-0000000000f2"; subchapter_id := s1 |} ];
       coverage := [ {| cov_subchapter_id := s1; fact_count := 7 |} ] |} in
  exists res,
    generate_fact_mapping (Some structure) (Parsed mapping) (Ok "fine") (Parsed mapping) = Ok res
    /\ coverage (batch res)
       = [ {| cov_subchapter_id := s1; fact_count := 2 |};
           {| cov_subchapter_id := s2; fact_count := 0 |} ].
Proof.
  intros s1 s2 structure mapping. eexists. split; [reflexivity|].
  match goal with
  | |- coverage (batch ?r) = _ =>
      rewrite (proj1 (coverage_recount structure (Parsed mapping) (Ok "fine")
                        (Parsed mapping) r eq_refl))
  end.
  reflexivity.
Defined.

End FactMappingTheory.

(** ** Writing stage *)

Module WritingTheory.
Import Writing.

(** *** Taking a successful run apart *)

Lemma run_Ok_inv (w : World) (payload : Payload) (res : WritingResult) :
  generate_writing_batch w payload = Ok res ->
  exists project_uuid first_draw st0 st states total,
    resolve_project_uuid w (payload_project_id payload) = (project_uuid, first_draw)
    /\ writer_pass w project_uuid first_draw
         (build_meta_lookup (payload_subchapters payload)) = Ok st0
    /\ for_each (run_cycle w project_uuid) st0
         (seq 0 (resolve_cycle_count (payload_cycle_count payload))) = Ok st
    /\ for_each (assemble_state w st) ([], 0%N)
         (sorted_by sort_key (build_meta_lookup (payload_subchapters payload)))
       = Ok (states, total)
    /\ batch res =
       {| project_id := project_uuid;
          cycle_count := resolve_cycle_count (payload_cycle_count payload);
          readiness := if forallb status_is_ready states
                       then readiness_ready else readiness_draft;
          subchapters := states;
          total_word_count := if (total =? 0)%N then None else Some total |}.
Proof.
  unfold generate_writing_batch.
  destruct (resolve_project_uuid w (payload_project_id payload)) as [project_uuid first_draw].
  intros Hrun.
  apply bind_Ok in Hrun as (st0 & Hwriter & Hrun).
  apply bind_Ok in Hrun as (st & Hcycles & Hrun).
  apply bind_Ok in Hrun as ([states total] & Hassemble & Hrun).
  injection Hrun as <-. simpl.
  exists project_uuid, first_draw, st0, st, states, total. auto.
Qed.

Lemma assemble_state_inv (w : World) (st : Locals) (states states' : list SubchapterDraftState)
    (total total' : N) (item : string * SubchapterMeta) :
  assemble_state w st (states, total) item = Ok (states', total') ->
  exists its fb u,
    iterations_map st !! item.1 = Some its
    /\ feedback_map st !! item.1 = Some fb
    /\ UUID_ctor w item.1 = Some u
    /\ total' = (total + default 0 (word_count_of st item.1))%N
    /\ states' =
       (states ++
         [ {| st_subchapter_id := u;
              current_cycle := max_cycle its;
              status := match its with
                        | [] => draft
                        | _ => match filter (fun f => addressed f = false) fb with
                               | [] => ready
                               | _ => in_review
                               end
                        end;
              iterations := its;
              outstanding_feedback := filter (fun f => addressed f = false) fb;
              final_iteration_id := it_id <$> last its;
              final_word_count := word_count_of st item.1 |} ])%list.
Proof.
  unfold assemble_state, dict_get. intros Hrun.
  destruct (iterations_map st !! item.1) as [its|] eqn:Hits; simpl in Hrun; [|discriminate].
  destruct (feedback_map st !! item.1) as [fb|] eqn:Hfb; simpl in Hrun; [|discriminate].
  destruct (UUID_ctor w item.1) as [u|] eqn:Hu; simpl in Hrun; [|discriminate].
  injection Hrun as <- <-.
  exists its, fb, u. repeat split; try done.
  destruct (word_count_of st item.1) as [n|]; simpl; [|by rewrite N.add_0_r].
  destruct (N.eqb_spec n 0) as [->|_]; [by rewrite N.add_0_r | done].
Qed.

(** The loop that assembles the states only appends to its accumulator, and
    every state it appends satisfies whatever one round establishes. *)
Lemma assemble_loop (w : World) (st : Locals) (P : SubchapterDraftState -> Prop)
    (items : list (string * SubchapterMeta)) :
  (forall states total item states' total',
      assemble_state w st (states, total) item = Ok (states', total') ->
      exists s, states' = (states ++ [s])%list /\ P s
                /\ total' = (total + default 0 (final_word_count s))%N) ->
  forall states total states' total',
    Forall P states -> total = sum_word_counts states ->
    for_each (assemble_state w st) (states, total) items = Ok (states', total') ->
    Forall P states' /\ total' = sum_word_counts states'.
Proof.
  intros Hstep. induction items as [|item items IH];
    intros states total states' total' HP Htotal Hrun; simpl in Hrun.
  - injection Hrun as <- <-. done.
  - apply bind_Ok in Hrun as ([states1 total1] & H1 & Hrun).
    apply Hstep in H1 as (s & -> & Hs & ->).
    eapply IH; [ | | exact Hrun].
    + apply Forall_app. split; [done|]. by constructor.
    + subst total. clear. induction states as [|x xs IHxs]; simpl.
      * by rewrite N.add_0_r, N.add_0_l.
      * rewrite <- IHxs. lia.
Qed.

Lemma forallb_ready (states : list SubchapterDraftState) :
  forallb status_is_ready states = true <-> forall s, s ∈ states -> status s = ready.
Proof.
  rewrite forallb_forall. split; intros H s Hs.
  - apply list_elem_of_In, H in Hs. unfold status_is_ready in Hs.
    by destruct (status s).
  - apply list_elem_of_In, H in Hs. unfold status_is_ready. by rewrite Hs.
Qed.

Lemma final_locals_Ok (w : World) (payload : Payload) (project_uuid : UUID)
    (first_draw : nat) (st0 st : Locals) :
  resolve_project_uuid w (payload_project_id payload) = (project_uuid, first_draw) ->
  writer_pass w project_uuid first_draw (build_meta_lookup (payload_subchapters payload))
  = Ok st0 ->
  for_each (run_cycle w project_uuid) st0
    (seq 0 (resolve_cycle_count (payload_cycle_count payload))) = Ok st ->
  final_locals w payload = Ok st.
Proof.
  intros Hid Hwriter Hcycles. unfold final_locals. rewrite Hid, Hwriter. simpl.
  exact Hcycles.
Qed.

Lemma filter_nil_iff {A} (P : A -> Prop) `{!forall x, Decision (P x)} (l : list A) :
  filter P l = [] <-> forall x, x ∈ l -> ~ P x.
Proof.
  split.
  - intros Hnil x Hx HP.
    assert (Hin : x ∈ filter P l) by (by apply list_elem_of_filter).
    rewrite Hnil in Hin. by apply elem_of_nil in Hin.
  - intros Hall. destruct (filter P l) as [|y ys] eqn:Hf; [done|].
    assert (Hin : y ∈ filter P l) by (rewrite Hf; by left).
    apply list_elem_of_filter in Hin as [HP Hy]. by destruct (Hall y Hy).
Qed.

(** C1. In the batch a successful writing run returns, every subchapter
    state is built from the lists the passes left for one subchapter id: its
    iterations are that subchapter's iterations, and its outstanding feedback
    consists of all the unaddressed items of that subchapter's feedback, in
    their order.  The state is [ready] iff it has at least one iteration and
    none of the subchapter's feedback items is unaddressed, [in_review] iff it
    has iterations and some item is unaddressed, [draft] iff it has no
    iteration; and the batch readiness is [ready] iff every subchapter is
    [ready] (else it is [draft]). *)
Theorem batch_statuses (w : World) (payload : Payload) (res : WritingResult) :
  generate_writing_batch w payload = Ok res ->
  (exists st,
     final_locals w payload = Ok st
     /\ forall s, s ∈ subchapters (batch res) ->
          exists sub_id all_feedback,
            UUID_ctor w sub_id = Some (st_subchapter_id s)
            /\ iterations_map st !! sub_id = Some (iterations s)
            /\ feedback_map st !! sub_id = Some all_feedback
            /\ outstanding_feedback s = filter (fun f => addressed f = false) all_feedback
            /\ (status s = ready
                <-> iterations s <> []
                    /\ forall f, f ∈ all_feedback -> addressed f = true)
            /\ (status s = in_review
                <-> iterations s <> []
                    /\ exists f, f ∈ all_feedback /\ addressed f = false)
            /\ (status s = draft <-> iterations s = []))
  /\ (forall s, s ∈ subchapters (batch res) ->
       (status s = ready <-> iterations s <> [] /\ outstanding_feedback s = [])
       /\ (status s = in_review <-> iterations s <> [] /\ outstanding_feedback s <> [])
       /\ (status s = draft <-> iterations s = [])
       /\ Forall (fun f => addressed f = false) (outstanding_feedback s))
  /\ (readiness (batch res) = readiness_ready
      <-> forall s, s ∈ subchapters (batch res) -> status s = ready)
  /\ (readiness (batch res) = readiness_draft
      <-> ~ forall s, s ∈ subchapters (batch res) -> status s = ready).
Proof.
  intros Hrun.
  apply run_Ok_inv in Hrun
    as (project_uuid & first_draw & st0 & st & states & total
        & Hid & Hwriter & Hcycles & Hasm & ->).
  simpl.
  set (P := fun s : SubchapterDraftState =>
         (exists sub_id all_feedback,
            UUID_ctor w sub_id = Some (st_subchapter_id s)
            /\ iterations_map st !! sub_id = Some (iterations s)
            /\ feedback_map st !! sub_id = Some all_feedback
            /\ outstanding_feedback s = filter (fun f => addressed f = false) all_feedback
            /\ (status s = ready
                <-> iterations s <> []
                    /\ forall f, f ∈ all_feedback -> addressed f = true)
            /\ (status s = in_review
                <-> iterations s <> []
                    /\ exists f, f ∈ all_feedback /\ addressed f = false)
            /\ (status s = draft <-> iterations s = []))
         /\ (status s = ready <-> iterations s <> [] /\ outstanding_feedback s = [])
         /\ (status s = in_review <-> iterations s <> [] /\ outstanding_feedback s <> [])
         /\ (status s = draft <-> iterations s = [])
         /\ Forall (fun f => addressed f = false) (outstanding_feedback s)).
  assert (Hall : Forall P states).
  { eapply (assemble_loop w st P) in Hasm as [Hall _];
      [exact Hall | | by constructor | reflexivity].
    clear. intros states total item states' total' Hstep.
    apply assemble_state_inv in Hstep as (its & fb & u & Hits & Hfb & Hu & -> & ->).
    eexists. split; [reflexivity|]. simpl. split; [|reflexivity].
    assert (Hout : Forall (fun f => addressed f = false)
                          (filter (fun f => addressed f = false) fb)).
    { apply Forall_forall. intros f Hf. by apply list_elem_of_filter in Hf as [? _]. }
    assert (Hnone : filter (fun f => addressed f = false) fb = []
                    <-> forall f, f ∈ fb -> addressed f = true).
    { rewrite filter_nil_iff. split; intros H f Hf; specialize (H f Hf).
      - by destruct (addressed f).
      - by rewrite H. }
    assert (Hsome : filter (fun f => addressed f = false) fb <> []
                    <-> exists f, f ∈ fb /\ addressed f = false).
    { split.
      - destruct (filter (fun f => addressed f = false) fb) as [|f fs] eqn:Hf; [done|].
        intros _. assert (Hin : f ∈ filter (fun f => addressed f = false) fb)
          by (rewrite Hf; by left).
        apply list_elem_of_filter in Hin as [? ?]. by exists f.
      - intros (f & Hf & Hopen) Hnil. rewrite (proj1 Hnone Hnil f Hf) in Hopen.
        discriminate. }
    unfold P. simpl. split.
    - exists item.1, fb. split; [done|]. split; [done|]. split; [done|]. split; [done|].
      rewrite <- Hnone, <- Hsome.
      destruct its as [|it its];
        destruct (filter (fun f => addressed f = false) fb) as [|f fs];
        repeat split; try done; try (by intros [? ?]); try (by intros [_ ?]).
    - destruct its as [|it its];
        destruct (filter (fun f => addressed f = false) fb) as [|f fs];
        repeat split; try done; try (by intros [? ?]); try (by intros [_ ?]). }
  rewrite Forall_forall in Hall.
  split; [|split].
  - exists st. split; [by eapply final_locals_Ok|].
    intros s Hs. by destruct (Hall s Hs) as [? _].
  - intros s Hs. by destruct (Hall s Hs) as [_ ?].
  - destruct (forallb status_is_ready states) eqn:Hready.
    + pose proof (proj1 (forallb_ready states) Hready) as Hr.
      split; split; try done; intros Hnot; by destruct Hnot.
    + assert (Hnot : ~ forall s, s ∈ states -> status s = ready).
      { intros H. apply (proj2 (forallb_ready states)) in H. congruence. }
      split; split; try done.
Qed.

Lemma batch_statuses_witness :
  exists res,
    generate_writing_batch (sample_world sample_uuid4 (Some 240%N) (fun _ => []))
                           (sample_payload None 1) = Ok res
    /\ readiness (batch res) = readiness_draft
    /\ (status <$> subchapters (batch res)) = [in_review]
    /\ exists st s note,
         final_locals (sample_world sample_uuid4 (Some 240%N) (fun _ => []))
                      (sample_payload None 1) = Ok st
         /\ subchapters (batch res) = [s]
         /\ feedback_map st !! uuid_str sample_sub = Some [note]
         /\ outstanding_feedback s = [note].
Proof.
  eexists. split; [vm_compute; reflexivity|].
  split; [|split; [vm_compute; reflexivity|]].
  - match goal with
    | |- readiness (batch ?r) = _ =>
        apply (proj2 (proj2 (proj2 (batch_statuses
                 (sample_world sample_uuid4 (Some 240%N) (fun _ => []))
                 (sample_payload None 1) r ltac:(vm_compute; reflexivity)))))
    end.
    intros Hall. specialize (Hall _ ltac:(vm_compute; left)). vm_compute in Hall.
    discriminate.
  - eexists. eexists. eexists.
    split; [vm_compute; reflexivity|]. split; [reflexivity|].
    split; [vm_compute; reflexivity|]. reflexivity.
Defined.

(** *** An invariant of every pass is an invariant of the run *)

Lemma dict_get_Ok {V} (d : gmap string V) (k : string) (v : V) :
  dict_get d k = Ok v <-> d !! k = Some v.
Proof. unfold dict_get. destruct (d !! k); split; congruence. Qed.

Lemma dict_append_Ok {V} (d d' : gmap string (list V)) (k : string) (v : V) :
  dict_append d k v = Ok d' ->
  exists l, d !! k = Some l /\ d' = <[k := (l ++ [v])%list]> d.
Proof.
  unfold dict_append. intros H. apply bind_Ok in H as (l & Hl & H).
  apply dict_get_Ok in Hl. injection H as <-. eauto.
Qed.

Lemma empty_lists_lookup {V} (meta_lookup : list (string * SubchapterMeta))
    (k : string) (l : list V) :
  empty_lists meta_lookup !! k = Some l -> l = [].
Proof.
  unfold empty_lists. intros H. apply elem_of_list_to_map_2 in H.
  apply list_elem_of_fmap in H as (kv & Heq & _). by injection Heq.
Qed.

Lemma run_invariant (w : World) (project_uuid : UUID) (I : Locals -> Prop)
    (first_draw : nat) (meta_lookup : list (string * SubchapterMeta))
    (cycles : list nat) (st0 st : Locals) :
  I {| draws := first_draw; iterations_map := empty_lists meta_lookup;
       feedback_map := empty_lists meta_lookup; word_counts := ∅ |} ->
  (forall s e s', I s -> writer_entry w project_uuid s e = Ok s' -> I s') ->
  (forall c s e s', I s -> critic_entry w project_uuid c s e = Ok s' -> I s') ->
  (forall c s e s', I s -> implement_entry w project_uuid c s e = Ok s' -> I s') ->
  writer_pass w project_uuid first_draw meta_lookup = Ok st0 ->
  for_each (run_cycle w project_uuid) st0 cycles = Ok st ->
  I st0 /\ I st.
Proof.
  intros Hinit Hwriter Hcritic Himplement Hwp Hcycles.
  assert (H0 : I st0).
  { unfold writer_pass in Hwp.
    apply bind_Ok in Hwp as (writer_batch & _ & Hwp).
    apply bind_Ok in Hwp as ([] & _ & Hwp).
    revert Hwp. apply for_each_invariant; [|exact Hinit].
    intros s e s' _ Hs He. by eapply Hwriter. }
  split; [exact H0|].
  revert Hcycles. apply for_each_invariant; [|exact H0].
  intros s c s' _ Hs Hcycle. unfold run_cycle in Hcycle.
  apply bind_Ok in Hcycle as (critic_batch & _ & Hcycle).
  apply bind_Ok in Hcycle as (s1 & Hc & Hcycle).
  apply bind_Ok in Hcycle as (implementation_batch & _ & Hi).
  assert (Hs1 : I s1).
  { revert Hc. apply for_each_invariant; [|exact Hs].
    intros a e a' _ Ha He. by eapply Hcritic. }
  revert Hi. apply for_each_invariant; [|exact Hs1].
  intros a e a' _ Ha He. by eapply Himplement.
Qed.

(** *** The word counts follow the iterations *)

Lemma latest_word_count_snoc (its : list DraftIteration) (it : DraftIteration) :
  latest_word_count (its ++ [it])
  = if is_critic (it_role it) then latest_word_count its else it_word_count it.
Proof. unfold latest_word_count. by rewrite foldl_app. Qed.

Lemma critic_feedback_keeps (w : World) (sub_id : string) (a a' : Locals * list DraftFeedbackItem)
    (feedback : CritiqueFeedback) :
  critic_feedback w sub_id a feedback = Ok a' ->
  iterations_map a'.1 = iterations_map a.1 /\ word_counts a'.1 = word_counts a.1.
Proof.
  destruct a as [s acc]. unfold critic_feedback. intros H.
  apply bind_Ok in H as ([] & _ & H).
    apply bind_Ok in H as (fm & _ & H). by injection H as <-.
Qed.

Lemma counts_in_step_record (st st' : Locals) (sub_id : string) (l : list DraftIteration)
    (it : DraftIteration) (count : option N) :
  counts_in_step st ->
  iterations_map st !! sub_id = Some l ->
  iterations_map st' = <[sub_id := (l ++ [it])%list]> (iterations_map st) ->
  word_counts st' = <[sub_id := count]> (word_counts st) ->
  is_critic (it_role it) = false -> it_word_count it = count ->
  counts_in_step st'.
Proof.
  intros Hst Hl Him Hwc Hrole Hcount k its Hk.
  unfold word_count_of. rewrite Hwc. rewrite Him in Hk.
  destruct (decide (sub_id = k)) as [<-|Hne].
  - rewrite lookup_insert_eq in Hk. rewrite lookup_insert_eq. injection Hk as <-.
    rewrite latest_word_count_snoc, Hrole. simpl. done.
  - rewrite lookup_insert_ne in Hk by done. rewrite lookup_insert_ne by done.
    by apply Hst.
Qed.

Lemma critic_role_is_critic (cycle_index : nat) : is_critic (critic_roles cycle_index) = true.
Proof. by destruct cycle_index as [|[|?]]. Qed.

Lemma implement_role_not_critic (cycle_index : nat) :
  is_critic (implement_roles cycle_index) = false.
Proof. by destruct cycle_index as [|[|?]]. Qed.

Lemma run_counts_in_step (w : World) (project_uuid : UUID) (first_draw : nat)
    (meta_lookup : list (string * SubchapterMeta)) (cycles : list nat) (st0 st : Locals) :
  writer_pass w project_uuid first_draw meta_lookup = Ok st0 ->
  for_each (run_cycle w project_uuid) st0 cycles = Ok st ->
  counts_in_step st.
Proof.
  intros Hwp Hcycles.
  apply (run_invariant w project_uuid counts_in_step first_draw meta_lookup cycles st0 st);
    try done.
  - intros k its Hk. simpl in Hk. apply empty_lists_lookup in Hk as ->.
    unfold word_count_of. simpl. by rewrite lookup_empty.
  - intros s e s' Hs He. unfold writer_entry in He.
    apply bind_Ok in He as ([] & _ & He).
    apply bind_Ok in He as (m & Happ & He). injection He as <-.
    apply dict_append_Ok in Happ as (l & Hl & ->).
    by eapply counts_in_step_record.
  - intros c s e s' Hs He. unfold critic_entry in He.
    apply bind_Ok in He as ([s1 new_feedback] & Hfb & He).
    apply bind_Ok in He as ([] & _ & He).
    apply bind_Ok in He as (m & Happ & He). injection He as <-.
    apply dict_append_Ok in Happ as (l & Hl & ->).
    assert (Hkeep : iterations_map s1 = iterations_map s /\ word_counts s1 = word_counts s).
    { apply (for_each_invariant
               (fun a => iterations_map a.1 = iterations_map s /\ word_counts a.1 = word_counts s)
               (critic_feedback w (uuid_str (ce_subchapter_id e))) (ce_feedback e))
        with (st := (s, [])) (st' := (s1, new_feedback)); [ | done | exact Hfb].
      intros a fb a' _ [Ha1 Ha2] Hstep. apply critic_feedback_keeps in Hstep as [-> ->]. done. }
    destruct Hkeep as [Him Hwc]. rewrite Him in Hl.
    intros k its Hk. unfold word_count_of. simpl in *. rewrite Hwc. rewrite Him in Hk.
    destruct (decide (uuid_str (ce_subchapter_id e) = k)) as [<-|Hne].
    + rewrite lookup_insert_eq in Hk. injection Hk as <-.
      rewrite latest_word_count_snoc. simpl. rewrite critic_role_is_critic. by apply Hs.
    + rewrite lookup_insert_ne in Hk by done. by apply Hs.
  - intros c s e s' Hs He. unfold implement_entry in He.
    apply bind_Ok in He as (fb & _ & He).
    apply bind_Ok in He as ([] & _ & He).
    apply bind_Ok in He as (m & Happ & He). injection He as <-.
    apply dict_append_Ok in Happ as (l & Hl & ->).
    eapply counts_in_step_record; try done. apply implement_role_not_critic.
Qed.

(** C9, as stated, fails: a run whose only subchapter reports a word count
    of 0 returns a null total although a subchapter reports a count. *)
Lemma null_total_with_reported_count_counterexample :
  exists res s,
    generate_writing_batch (sample_world sample_uuid4 (Some 0%N) (fun _ => []))
                           (sample_payload None 1) = Ok res
    /\ subchapters (batch res) = [s]
    /\ final_word_count s = Some 0%N
    /\ total_word_count (batch res) = None.
Proof. eexists. eexists. split; [vm_compute; reflexivity|]. repeat split. Qed.

(** C9, amended. The total word count of the returned batch is the sum of
    the subchapters' latest word counts, a null count being 0, except that a
    sum of 0 is returned as null: the total is null exactly when no
    subchapter's latest word count is a positive number (none reports one,
    or all reported counts are 0).  A subchapter's latest word count is the
    one its last writer or implementer iteration recorded. *)
Theorem total_word_count_sum (w : World) (payload : Payload) (res : WritingResult) :
  generate_writing_batch w payload = Ok res ->
  let sum := sum_word_counts (subchapters (batch res)) in
  total_word_count (batch res) = (if (sum =? 0)%N then None else Some sum)
  /\ (forall s, s ∈ subchapters (batch res) ->
        final_word_count s = latest_word_count (iterations s))
  /\ (total_word_count (batch res) = None
      <-> forall s, s ∈ subchapters (batch res) ->
            final_word_count s = None \/ final_word_count s = Some 0%N).
Proof.
  intros Hrun.
  apply run_Ok_inv in Hrun
    as (project_uuid & first_draw & st0 & st & states & total & _ & Hwp & Hcycles & Hasm & ->).
  simpl.
  pose proof (run_counts_in_step _ _ _ _ _ _ _ Hwp Hcycles) as Hcounts.
  eapply (assemble_loop w st
            (fun s => final_word_count s = latest_word_count (iterations s)))
    in Hasm as [Hlatest ->]; [ | | by constructor | reflexivity].
  2:{ intros states0 total0 item states' total' Hstep.
      apply assemble_state_inv in Hstep as (its & fb & u & Hits & _ & _ & -> & ->).
      eexists. split; [reflexivity|]. simpl. split; [|reflexivity]. by apply Hcounts. }
  split; [reflexivity|].
  split; [intros s Hs; rewrite Forall_forall in Hlatest; by apply Hlatest|].
  assert (Hzero : sum_word_counts states = 0%N
                  <-> forall s, s ∈ states ->
                        final_word_count s = None \/ final_word_count s = Some 0%N).
  { clear. induction states as [|x xs IH]; simpl.
    - split; [intros _ s Hs; by inversion Hs | done].
    - split.
      + intros Hsum s Hs.
        assert (default 0%N (final_word_count x) = 0%N /\ sum_word_counts xs = 0%N)
          as [Hx Hxs] by lia.
        apply elem_of_cons in Hs as [->|Hs]; [|by apply IH].
        destruct (final_word_count x) as [n|]; simpl in Hx; [right; by subst | by left].
      + intros Hall.
        assert (Hxs : sum_word_counts xs = 0%N).
        { apply IH. intros s Hs. apply Hall. by right. }
        rewrite Hxs. destruct (Hall x ltac:(by left)) as [-> | ->]; reflexivity. }
  destruct (N.eqb_spec (sum_word_counts states) 0) as [Hz|Hnz].
  - split; [intros _; by apply Hzero | done].
  - split; [done | intros H; by apply Hzero in H].
Qed.

Lemma total_word_count_sum_witness :
  exists res,
    generate_writing_batch (sample_world sample_uuid4 (Some 315%N) (fun _ => []))
                           (sample_payload None 1) = Ok res
    /\ total_word_count (batch res) = Some 315%N.
Proof.
  eexists. split; [vm_compute; reflexivity|].
  match goal with
  | |- total_word_count (batch ?r) = _ =>
      rewrite (proj1 (total_word_count_sum
                        (sample_world sample_uuid4 (Some 315%N) (fun _ => []))
                        (sample_payload None 1) r ltac:(vm_compute; reflexivity)))
  end.
  vm_compute. reflexivity.
Defined.

(** *** The missing-draft check *)

Lemma dict_set_keys {V} (d : list (string * V)) (k : string) (v : V) (k' : string) :
  k' ∈ map fst (dict_set d k v) <-> k' ∈ map fst d \/ k' = k.
Proof.
  induction d as [|[k0 v0] d IH]; simpl.
  - rewrite list_elem_of_singleton. split; [by right | intros [H|H]; [by inversion H | done]].
  - destruct (String.eqb_spec k0 k) as [->|Hne]; simpl.
    + rewrite !elem_of_cons. tauto.
    + rewrite !elem_of_cons, IH. tauto.
Qed.

Lemma build_meta_lookup_keys (items : list SubchapterMeta) (sub_id : string) :
  sub_id ∈ map fst (build_meta_lookup items)
  <-> sub_id <> "" /\ exists item, item ∈ items /\ py_str (meta_id item) = sub_id.
Proof.
  unfold build_meta_lookup.
  assert (Hgen : forall d,
             sub_id ∈ map fst
               (foldl (fun meta_lookup item =>
                         let sub_id := py_str (meta_id item) in
                         if String.eqb sub_id "" then meta_lookup
                         else dict_set meta_lookup sub_id item) d items)
             <-> sub_id ∈ map fst d
                 \/ (sub_id <> "" /\ exists item, item ∈ items /\ py_str (meta_id item) = sub_id)).
  { induction items as [|item items IH]; intros d; simpl.
    - split; [by left | intros [H|(_ & i & Hi & _)]; [done | by inversion Hi]].
    - rewrite IH. destruct (String.eqb_spec (py_str (meta_id item)) "") as [Hempty|Hne].
      + split; (intros [H|(Hk & i & Hi & Hid)]; [by left | right]);
          (split; [done|]).
        * exists i. split; [by right | done].
        * apply elem_of_cons in Hi as [->|Hi]; [congruence | eauto].
      + rewrite dict_set_keys. split.
        * intros [[H | ->] | (Hk & i & Hi & Hid)]; [by left | right | right].
          -- split; [done|]. exists item. split; [by left | done].
          -- split; [done|]. exists i. split; [by right | done].
        * intros [H|(Hk & i & Hi & Hid)]; [left; by left|].
          apply elem_of_cons in Hi as [->|Hi]; [left; right; done | right; eauto]. }
  rewrite Hgen. simpl. split; [intros [H|H]; [by inversion H | done] | by right].
Qed.

Lemma writer_ids_drafted (writer_batch : WriterDraftBatch) (sub_id : string) :
  sub_id ∈ writer_ids writer_batch <-> drafted writer_batch sub_id.
Proof.
  unfold writer_ids, drafted. rewrite elem_of_list_to_set, list_elem_of_fmap.
  split; intros (entry & H1 & H2); exists entry; done.
Qed.

Lemma insert_str_length (x : string) (xs : list string) :
  length (insert_str x xs) = S (length xs).
Proof.
  induction xs as [|y ys IH]; simpl; [done|].
  destruct (String.leb y x); simpl; [by rewrite IH | done].
Qed.

Lemma sorted_str_length (xs : list string) : length (sorted_str xs) = length xs.
Proof.
  unfold sorted_str.
  assert (Hgen : forall acc, length (foldl (fun acc x => insert_str x acc) acc xs)
                             = (length acc + length xs)%nat).
  { induction xs as [|x xs IH]; intros acc; simpl; [lia|].
    rewrite IH, insert_str_length. lia. }
  apply (Hgen []).
Qed.

Lemma check_missing_Ok (meta_lookup : list (string * SubchapterMeta))
    (writer_batch : WriterDraftBatch) :
  check_missing meta_lookup writer_batch = Ok tt
  <-> forall sub_id, sub_id ∈ map fst meta_lookup -> sub_id ∈ writer_ids writer_batch.
Proof.
  unfold check_missing, missing_ids.
  set (missing := filter (fun sub_id => sub_id ∉ writer_ids writer_batch) (map fst meta_lookup)).
  pose proof (sorted_str_length missing) as Hlen.
  split.
  - intros Hok sub_id Hin.
    destruct (sorted_str missing) as [|m ms]; [|discriminate].
    destruct missing as [|m ms] eqn:Hmissing; [|discriminate].
    destruct (decide (sub_id ∈ writer_ids writer_batch)) as [|Hnot]; [done|].
    assert (sub_id ∈ missing) as Habs by (apply list_elem_of_filter; done).
    rewrite Hmissing in Habs. by inversion Habs.
  - intros Hall.
    assert (missing = []) as Hnil.
    { apply filter_none. intros x Hx Hnot. by apply Hnot, Hall. }
    rewrite Hnil in Hlen |- *. reflexivity.
Qed.

Lemma check_missing_Raise (meta_lookup : list (string * SubchapterMeta))
    (writer_batch : WriterDraftBatch) :
  check_missing meta_lookup writer_batch = Ok tt
  \/ exists msg, check_missing meta_lookup writer_batch = Raise (ProviderResponseError msg).
Proof.
  unfold check_missing. destruct (missing_ids meta_lookup writer_batch); eauto.
Qed.

(** C3. When the writer's answer parses but lacks a draft for some
    subchapter id of the request's metadata (the [str] of an item's id; an
    item whose id is the empty string names no subchapter and is skipped),
    [generate_writing_batch] raises [ProviderResponseError]; the run gets
    past the writer pass, and a fortiori returns a batch, only when every
    requested id is among the drafted ids. *)
Theorem no_partial_runs (w : World) (payload : Payload) (writer_batch : WriterDraftBatch) :
  writer_reply w = Parsed writer_batch ->
  ((exists sub_id, requested payload sub_id /\ ~ drafted writer_batch sub_id) ->
     exists msg, generate_writing_batch w payload = Raise (ProviderResponseError msg))
  /\ (forall project_uuid first_draw st,
        writer_pass w project_uuid first_draw
          (build_meta_lookup (payload_subchapters payload)) = Ok st ->
        forall sub_id, requested payload sub_id -> drafted writer_batch sub_id)
  /\ (forall res, generate_writing_batch w payload = Ok res ->
        forall sub_id, requested payload sub_id -> drafted writer_batch sub_id).
Proof.
  intros Hreply.
  assert (Hpass : forall project_uuid first_draw st,
             writer_pass w project_uuid first_draw
               (build_meta_lookup (payload_subchapters payload)) = Ok st ->
             forall sub_id, requested payload sub_id -> drafted writer_batch sub_id).
  { intros project_uuid first_draw st Hwp sub_id Hreq.
    unfold writer_pass in Hwp. rewrite Hreply in Hwp. simpl in Hwp.
    apply bind_Ok in Hwp as ([] & Hcheck & _).
    apply writer_ids_drafted. apply (proj1 (check_missing_Ok _ _) Hcheck).
    by apply build_meta_lookup_keys. }
  split; [|split; [exact Hpass|]].
  - intros (sub_id & Hreq & Hnot).
    unfold generate_writing_batch.
    destruct (resolve_project_uuid w (payload_project_id payload)) as [project_uuid first_draw].
    unfold writer_pass. rewrite Hreply. simpl.
    destruct (check_missing_Raise (build_meta_lookup (payload_subchapters payload)) writer_batch)
      as [Hok|(msg & Hmsg)].
    + exfalso. apply Hnot, writer_ids_drafted.
      apply (proj1 (check_missing_Ok _ _) Hok). by apply build_meta_lookup_keys.
    + rewrite Hmsg. simpl. eauto.
  - intros res Hrun.
    apply run_Ok_inv in Hrun as (project_uuid & first_draw & st0 & _ & _ & _ & _ & Hwp & _).
    by eapply Hpass.
Qed.

Lemma no_partial_runs_witness :
  let w := {| uuid4 := sample_uuid4; UUID_ctor := canonical_UUID;
              writer_reply := Parsed {| wd_subchapters := [] |};
              critic_reply := fun _ => NotJson;
              implementer_reply := fun _ => NotJson |} in
  writer_reply w = Parsed {| wd_subchapters := [] |}
  /\ generate_writing_batch w (sample_payload None 1)
     = Raise (ProviderResponseError
                "Writing stage omitted drafts for subchapters: c0ffee00-1111-4222-8333-444455556666").
Proof.
  intros w. split; [reflexivity|].
  destruct (proj1 (no_partial_runs w (sample_payload None 1) {| wd_subchapters := [] |} eq_refl))
    as (msg & Hmsg).
  - exists sample_sub. split.
    + split; [discriminate|]. eexists. split; [by left | reflexivity].
    + intros (entry & Hentry & _). by inversion Hentry.
  - vm_compute. reflexivity.
Defined.

(** *** Invariants of the passes *)

Lemma all_iterations_append (P : DraftIteration -> Prop) (st : Locals)
    (k : string) (it : DraftIteration) (m : gmap string (list DraftIteration)) :
  all_iterations P st -> P it ->
  dict_append (iterations_map st) k it = Ok m ->
  forall k' its, m !! k' = Some its -> Forall P its.
Proof.
  intros Hall Hit Happ k' its Hk'.
  apply dict_append_Ok in Happ as (l & Hl & ->).
  destruct (decide (k = k')) as [<-|Hne].
  - rewrite lookup_insert_eq in Hk'. injection Hk' as <-.
    apply Forall_app. split; [by eapply Hall | by constructor].
  - rewrite lookup_insert_ne in Hk' by done. by eapply Hall.
Qed.

Lemma critic_feedback_iterations (w : World) (sub_id : string)
    (st st' : Locals) (acc acc' : list DraftFeedbackItem) (feedback : CritiqueFeedback) :
  critic_feedback w sub_id (st, acc) feedback = Ok (st', acc') ->
  iterations_map st' = iterations_map st.
Proof.
  unfold critic_feedback. intros H. apply bind_Ok in H as ([] & _ & H).
    apply bind_Ok in H as (fm & _ & H).
  by injection H as <- _.
Qed.

Lemma critic_entry_iterations (w : World) (project_uuid : UUID) (cycle_index : nat)
    (P : DraftIteration -> Prop) (st st' : Locals) (entry : CritiqueEntry) :
  (forall it, it_project_id it = project_uuid -> P it) ->
  all_iterations P st ->
  critic_entry w project_uuid cycle_index st entry = Ok st' ->
  all_iterations P st'.
Proof.
  intros HP Hst Hentry. unfold critic_entry in Hentry.
  apply bind_Ok in Hentry as ([st1 new_feedback] & Hfb & Hentry).
  apply bind_Ok in Hentry as ([] & _ & Hentry).
    apply bind_Ok in Hentry as (m & Happ & Hentry). injection Hentry as <-.
  assert (Hst1 : all_iterations P st1).
  { apply (for_each_invariant (fun a => all_iterations P a.1)
             (critic_feedback w (uuid_str (ce_subchapter_id entry)))
             (ce_feedback entry)) with (st := (st, [])) (st' := (st1, new_feedback));
      [ | exact Hst | exact Hfb].
    intros [s1 a1] fb [s2 a2] _ Hs1 Hstep. simpl in *.
    apply critic_feedback_iterations in Hstep. unfold all_iterations. by rewrite Hstep. }
  intros k its. simpl. eapply all_iterations_append; [exact Hst1 | | exact Happ].
  by apply HP.
Qed.

Lemma implement_entry_iterations (w : World) (project_uuid : UUID) (cycle_index : nat)
    (P : DraftIteration -> Prop) (st st' : Locals) (entry : ImplementationEntry) :
  (forall it, it_project_id it = project_uuid -> P it) ->
  all_iterations P st ->
  implement_entry w project_uuid cycle_index st entry = Ok st' ->
  all_iterations P st'.
Proof.
  intros HP Hst Hentry. unfold implement_entry in Hentry.
  apply bind_Ok in Hentry as (fb & _ & Hentry).
  apply bind_Ok in Hentry as ([] & _ & Hentry).
    apply bind_Ok in Hentry as (m & Happ & Hentry). injection Hentry as <-.
  intros k its. simpl. eapply all_iterations_append; [exact Hst | | exact Happ].
  by apply HP.
Qed.

Lemma run_preserves_iterations (w : World) (project_uuid : UUID) (P : DraftIteration -> Prop) :
  (forall it, it_project_id it = project_uuid -> P it) ->
  forall cycles st st',
    all_iterations P st ->
    for_each (run_cycle w project_uuid) st cycles = Ok st' ->
    all_iterations P st'.
Proof.
  intros HP cycles. apply for_each_invariant.
  intros st cycle_index st' _ Hst Hcycle. unfold run_cycle in Hcycle.
  apply bind_Ok in Hcycle as (critic_batch & _ & Hcycle).
  apply bind_Ok in Hcycle as (st1 & Hcritic & Hcycle).
  apply bind_Ok in Hcycle as (implementation_batch & _ & Himpl).
  assert (Hst1 : all_iterations P st1).
  { revert Hcritic. apply for_each_invariant; [|exact Hst].
    intros s e s' _ Hs He. by eapply critic_entry_iterations. }
  revert Himpl. apply for_each_invariant; [|exact Hst1].
  intros s e s' _ Hs He. by eapply implement_entry_iterations.
Qed.

Lemma writer_pass_iterations (w : World) (project_uuid : UUID) (first_draw : nat)
    (meta_lookup : list (string * SubchapterMeta)) (P : DraftIteration -> Prop) (st : Locals) :
  (forall it, it_project_id it = project_uuid -> P it) ->
  writer_pass w project_uuid first_draw meta_lookup = Ok st ->
  all_iterations P st.
Proof.
  intros HP Hwp. unfold writer_pass in Hwp.
  apply bind_Ok in Hwp as (writer_batch & _ & Hwp).
  apply bind_Ok in Hwp as ([] & _ & Hwp).
  revert Hwp. apply for_each_invariant.
  - intros s entry s' _ Hs Hentry. unfold writer_entry in Hentry.
    apply bind_Ok in Hentry as ([] & _ & Hentry).
    apply bind_Ok in Hentry as (m & Happ & Hentry). injection Hentry as <-.
    intros k its. simpl. eapply all_iterations_append; [exact Hs | | exact Happ].
    by apply HP.
  - intros k its Hk. simpl in Hk. apply empty_lists_lookup in Hk as ->. constructor.
Qed.

(** Every iteration of the returned batch was recorded by one of the passes. *)
Lemma returned_iterations (w : World) (payload : Payload) (res : WritingResult)
    (P : DraftIteration -> Prop) :
  (forall it, it_project_id it = project_id (batch res) -> P it) ->
  generate_writing_batch w payload = Ok res ->
  forall s it, s ∈ subchapters (batch res) -> it ∈ iterations s -> P it.
Proof.
  intros HP Hrun.
  apply run_Ok_inv in Hrun
    as (project_uuid & first_draw & st0 & st & states & total & _ & Hwp & Hcycles & Hasm & Hbatch).
  rewrite Hbatch in HP |- *. simpl in *.
  eapply writer_pass_iterations in Hwp; [|exact HP].
  eapply run_preserves_iterations in Hcycles; [|exact HP|exact Hwp].
  eapply (assemble_loop w st (fun s => Forall P (iterations s))) in Hasm as [Hall _];
    [ | | by constructor | reflexivity].
  - intros s it Hs Hit. rewrite Forall_forall in Hall.
    specialize (Hall s Hs). rewrite Forall_forall in Hall. by apply Hall.
  - intros states0 total0 item states' total' Hstep.
    apply assemble_state_inv in Hstep as (its & fb & u & Hits & _ & _ & -> & ->).
    eexists. split; [reflexivity|]. simpl. split; [|reflexivity].
    by eapply Hcycles.
Qed.

(** C10. When the payload's project id is missing or not parseable as a
    UUID (the constructor rejects [str(raw_project_id)], which is ["None"]
    for a missing id), the engine does not raise: it takes the next
    [uuid4()] as project id.  That id is the project id of the returned
    batch and of every iteration in it, so two runs on the same payload
    whose entropy differs return different project ids. *)
Theorem random_project_id_fallback (w : World) (payload : Payload) :
  UUID_ctor w (py_str (payload_project_id payload)) = None ->
  resolve_project_uuid w (payload_project_id payload) = (uuid4 w 0, 1%nat)
  /\ (forall res, generate_writing_batch w payload = Ok res ->
        project_id (batch res) = uuid4 w 0
        /\ forall s it, s ∈ subchapters (batch res) -> it ∈ iterations s ->
             it_project_id it = uuid4 w 0)
  /\ (forall w' res res',
        UUID_ctor w' (py_str (payload_project_id payload)) = None ->
        uuid4 w' 0 <> uuid4 w 0 ->
        generate_writing_batch w payload = Ok res ->
        generate_writing_batch w' payload = Ok res' ->
        project_id (batch res') <> project_id (batch res)).
Proof.
  intros Hbad.
  assert (Hres : forall w0, UUID_ctor w0 (py_str (payload_project_id payload)) = None ->
                 resolve_project_uuid w0 (payload_project_id payload) = (uuid4 w0 0, 1%nat)).
  { intros w0 H0. unfold resolve_project_uuid. by rewrite H0. }
  assert (Hpid : forall w0 res0,
             UUID_ctor w0 (py_str (payload_project_id payload)) = None ->
             generate_writing_batch w0 payload = Ok res0 ->
             project_id (batch res0) = uuid4 w0 0).
  { intros w0 res0 H0 Hrun.
    apply run_Ok_inv in Hrun as (p & d & st0 & st & states & total & Hr & _ & _ & _ & ->).
    rewrite Hres in Hr by done. by injection Hr as <- _. }
  split; [by apply Hres|]. split.
  - intros res Hrun. split; [by apply Hpid|].
    rewrite <- (Hpid w res Hbad Hrun).
    by apply (returned_iterations w payload res (fun it => it_project_id it = project_id (batch res))).
  - intros w' res res' Hbad' Hne Hrun Hrun'.
    rewrite (Hpid w res Hbad Hrun), (Hpid w' res' Hbad' Hrun'). done.
Qed.

Lemma random_project_id_fallback_witness :
  let w := sample_world sample_uuid4 (Some 240%N) (fun _ => []) in
  let w' := sample_world (fun n => sample_uuid4 (n + 16)) (Some 240%N) (fun _ => []) in
  UUID_ctor w (py_str (payload_project_id (sample_payload None 1))) = None
  /\ exists res res',
       generate_writing_batch w (sample_payload None 1) = Ok res
       /\ generate_writing_batch w' (sample_payload None 1) = Ok res'
       /\ project_id (batch res) = "9f1c2d3e-0000-4000-8000-000000000000"
       /\ project_id (batch res') <> project_id (batch res).
Proof.
  intros w w'.
  assert (Hbad : UUID_ctor w (py_str (payload_project_id (sample_payload None 1))) = None)
    by reflexivity.
  split; [exact Hbad|].
  destruct (random_project_id_fallback w (sample_payload None 1) Hbad) as (_ & Hsame & Hdiff).
  eexists. eexists.
  split; [vm_compute; reflexivity|]. split; [vm_compute; reflexivity|].
  split.
  - apply Hsame. vm_compute. reflexivity.
  - apply (Hdiff w'); [reflexivity | vm_compute; discriminate
                       | vm_compute; reflexivity | vm_compute; reflexivity].
Defined.

(** *** The life of a feedback item *)

Lemma stamp_mark (resolved_ids : gset string) (iteration_id : UUID) (f : DraftFeedbackItem) :
  stamped f ->
  stamp_iteration iteration_id (mark_resolved resolved_ids f)
  = resolve_item resolved_ids iteration_id f.
Proof.
  intros Hf. unfold mark_resolved, resolve_item. case_decide; [reflexivity|].
  unfold stamp_iteration, stamped in *.
  destruct (addressed f); [|reflexivity].
  destruct (Hf eq_refl) as [i ->]. reflexivity.
Qed.

Lemma resolve_item_stamped (resolved_ids : gset string) (iteration_id : UUID)
    (f : DraftFeedbackItem) :
  stamped f -> stamped (resolve_item resolved_ids iteration_id f).
Proof. unfold resolve_item, stamped. case_decide; simpl; eauto. Qed.

(** A critic's feedback is appended to its subchapter's list, unaddressed and
    unstamped, under the id the entropy source gives next; nothing else
    changes. *)
Lemma critic_feedback_appends (w : World) (sub_id : string) (st st' : Locals)
    (acc acc' : list DraftFeedbackItem) (feedback : CritiqueFeedback) :
  critic_feedback w sub_id (st, acc) feedback = Ok (st', acc') ->
  let item := {| fb_id := uuid4 w (draws st); fb_severity := cf_severity feedback;
                 addressed := false; addressed_in_iteration := None |} in
  exists l, feedback_map st !! sub_id = Some l
            /\ feedback_map st' = <[sub_id := (l ++ [item])%list]> (feedback_map st)
            /\ draws st' = S (draws st)
            /\ acc' = (acc ++ [item])%list.
Proof.
  unfold critic_feedback. intros H. apply bind_Ok in H as ([] & _ & H).
    apply bind_Ok in H as (fm & Happ & H).
  apply dict_append_Ok in Happ as (l & Hl & ->).
  injection H as <- <-. exists l. auto.
Qed.

Lemma critic_entry_feedback (w : World) (project_uuid : UUID) (cycle_index : nat)
    (st st' : Locals) (entry : CritiqueEntry) :
  critic_entry w project_uuid cycle_index st entry = Ok st' ->
  forall k l', feedback_map st' !! k = Some l' ->
    exists l new,
      feedback_map st !! k = Some l /\ l' = (l ++ new)%list
      /\ Forall (fun f => addressed f = false /\ addressed_in_iteration f = None
                          /\ exists n, (draws st <= n < draws st')%nat /\ fb_id f = uuid4 w n)
                new.
Proof.
  intros Hentry. unfold critic_entry in Hentry.
  apply bind_Ok in Hentry as ([st1 new_feedback] & Hfb & Hentry).
  apply bind_Ok in Hentry as ([] & _ & Hentry).
    apply bind_Ok in Hentry as (m & _ & Hentry). injection Hentry as <-. simpl.
  set (Q := fun a : Locals * list DraftFeedbackItem =>
              (draws st <= draws a.1)%nat
              /\ forall k l', feedback_map a.1 !! k = Some l' ->
                   exists l new,
                     feedback_map st !! k = Some l /\ l' = (l ++ new)%list
                     /\ Forall (fun f => addressed f = false /\ addressed_in_iteration f = None
                                         /\ exists n, (draws st <= n < draws a.1)%nat
                                                      /\ fb_id f = uuid4 w n) new).
  assert (HQ : Q (st1, new_feedback)).
  { apply (for_each_invariant Q (critic_feedback w (uuid_str (ce_subchapter_id entry)))
             (ce_feedback entry)) with (st := (st, [])); [ | | exact Hfb].
    - intros [s a] fb [s' a'] _ [Hle Hs] Hstep. simpl in *.
      apply critic_feedback_appends in Hstep as (l0 & Hl0 & Hfm & Hdraws & _).
      unfold Q. simpl. split; [lia|]. intros k l' Hk. rewrite Hfm in Hk.
      destruct (decide (uuid_str (ce_subchapter_id entry) = k)) as [<-|Hne].
      + rewrite lookup_insert_eq in Hk. injection Hk as <-.
        destruct (Hs _ _ Hl0) as (l & new & Hl & -> & Hnew).
        exists l, (new ++ [ {| fb_id := uuid4 w (draws s); fb_severity := cf_severity fb;
                               addressed := false; addressed_in_iteration := None |} ])%list.
        split; [done|]. split; [by rewrite app_assoc|].
        apply Forall_app. split.
        * eapply Forall_impl; [exact Hnew|]. intros f (? & ? & n & ? & ?).
          repeat split; try done. exists n. split; [lia | done].
        * constructor; [|constructor]. simpl. repeat split. exists (draws s). split; [lia | done].
      + rewrite lookup_insert_ne in Hk by done.
        destruct (Hs _ _ Hk) as (l & new & Hl & -> & Hnew).
        exists l, new. repeat split; try done.
        eapply Forall_impl; [exact Hnew|]. intros f (? & ? & n & ? & ?).
        repeat split; try done. exists n. split; [lia | done].
    - unfold Q. simpl. split; [lia|]. intros k l' Hk. exists l', [].
      split; [done|]. split; [by rewrite app_nil_r | constructor]. }
  destruct HQ as [Hle HQ]. simpl in *. intros k l' Hk.
  destruct (HQ _ _ Hk) as (l & new & Hl & -> & Hnew). exists l, new.
  repeat split; try done.
  eapply Forall_impl; [exact Hnew|]. intros f (? & ? & n & ? & ?).
  repeat split; try done. exists n. split; [lia | done].
Qed.

(** An implementer entry, on lists whose addressed items are stamped: the
    items whose id it reports become addressed and carry the id of the
    iteration it records; every other item, of this and of every other
    subchapter, is left as it was; the recorded iteration snapshots the
    updated list. *)
Lemma implement_entry_feedback (w : World) (project_uuid : UUID) (cycle_index : nat)
    (st st' : Locals) (entry : ImplementationEntry) :
  all_feedback stamped st ->
  implement_entry w project_uuid cycle_index st entry = Ok st' ->
  let sub_id := uuid_str (ie_subchapter_id entry) in
  let resolved_ids : gset string := list_to_set (map uuid_str (ie_resolved_feedback entry)) in
  let iteration_id := uuid4 w (draws st) in
  exists l its,
    feedback_map st !! sub_id = Some l
    /\ feedback_map st'
       = <[sub_id := map (resolve_item resolved_ids iteration_id) l]> (feedback_map st)
    /\ iterations_map st !! sub_id = Some its
    /\ iterations_map st'
       = <[sub_id := (its ++
             [ {| it_id := iteration_id; it_project_id := project_uuid;
                  it_subchapter_id := ie_subchapter_id entry; it_cycle := cycle_index;
                  it_role := implement_roles cycle_index;
                  it_word_count := ie_word_count entry;
                  it_feedback := map (resolve_item resolved_ids iteration_id) l |} ])%list]>
           (iterations_map st).
Proof.
  intros Hst Hentry. unfold implement_entry in Hentry.
  apply bind_Ok in Hentry as (l & Hl & Hentry). apply dict_get_Ok in Hl.
  apply bind_Ok in Hentry as ([] & _ & Hentry).
    apply bind_Ok in Hentry as (m & Happ & Hentry). injection Hentry as <-.
  apply dict_append_Ok in Happ as (its & Hits & ->). simpl.
  assert (Hmap : map (stamp_iteration (uuid4 w (draws st)))
                     (map (mark_resolved
                             (list_to_set (map uuid_str (ie_resolved_feedback entry)))) l)
                 = map (resolve_item
                          (list_to_set (map uuid_str (ie_resolved_feedback entry)))
                          (uuid4 w (draws st))) l).
  { rewrite map_map. apply map_ext_in. intros f Hf. apply stamp_mark.
    specialize (Hst _ _ Hl). rewrite Forall_forall in Hst.
    apply Hst. by apply list_elem_of_In. }
  rewrite Hmap. exists l, its. auto.
Qed.

Lemma implement_entry_stamped (w : World) (project_uuid : UUID) (cycle_index : nat)
    (st st' : Locals) (entry : ImplementationEntry) :
  all_feedback stamped st ->
  implement_entry w project_uuid cycle_index st entry = Ok st' ->
  all_feedback stamped st'.
Proof.
  intros Hst Hentry.
  destruct (implement_entry_feedback _ _ _ _ _ _ Hst Hentry) as (l & its & Hl & Hfm & _).
  intros k l' Hk. rewrite Hfm in Hk.
  destruct (decide (uuid_str (ie_subchapter_id entry) = k)) as [<-|Hne].
  - rewrite lookup_insert_eq in Hk. injection Hk as <-.
    apply Forall_forall. intros f Hf. apply list_elem_of_fmap in Hf as (f0 & -> & Hf0).
    apply resolve_item_stamped. specialize (Hst _ _ Hl). rewrite Forall_forall in Hst.
    by apply Hst.
  - rewrite lookup_insert_ne in Hk by done. by eapply Hst.
Qed.

Lemma critic_entry_stamped (w : World) (project_uuid : UUID) (cycle_index : nat)
    (st st' : Locals) (entry : CritiqueEntry) :
  all_feedback stamped st ->
  critic_entry w project_uuid cycle_index st entry = Ok st' ->
  all_feedback stamped st'.
Proof.
  intros Hst Hentry k l' Hk.
  destruct (critic_entry_feedback _ _ _ _ _ _ Hentry _ _ Hk) as (l & new & Hl & -> & Hnew).
  apply Forall_app. split; [by eapply Hst|].
  eapply Forall_impl; [exact Hnew|]. intros f (Hf & _) Hadd. congruence.
Qed.

(** Every state of a run is reachable, and in a reachable state every
    addressed item carries a stamp. *)
Lemma run_reachable (w : World) (project_uuid : UUID) (first_draw : nat)
    (meta_lookup : list (string * SubchapterMeta)) (cycles : list nat) (st0 st : Locals) :
  writer_pass w project_uuid first_draw meta_lookup = Ok st0 ->
  for_each (run_cycle w project_uuid) st0 cycles = Ok st ->
  reachable w project_uuid st0 /\ reachable w project_uuid st.
Proof.
  apply run_invariant.
  - apply reach_start.
  - intros s e s' Hs He. by eapply reach_writer.
  - intros c s e s' Hs He. by eapply reach_critic.
  - intros c s e s' Hs He. by eapply reach_implementer.
Qed.

Lemma reachable_stamped (w : World) (project_uuid : UUID) (st : Locals) :
  reachable w project_uuid st -> all_feedback stamped st.
Proof.
  induction 1 as [first_draw meta_lookup | st st' entry _ IH Hentry
                  | cycle_index st st' entry _ IH Hentry
                  | cycle_index st st' entry _ IH Hentry].
  - intros k l Hk. simpl in Hk. apply empty_lists_lookup in Hk as ->. constructor.
  - unfold writer_entry in Hentry.
    apply bind_Ok in Hentry as ([] & _ & Hentry).
    apply bind_Ok in Hentry as (m & _ & Hentry). by injection Hentry as <-.
  - by eapply critic_entry_stamped.
  - by eapply implement_entry_stamped.
Qed.


(** *** Every id is drawn once *)

Lemma new_items_cons (w : World) (first_draw : nat) (note : CritiqueFeedback)
    (notes : list CritiqueFeedback) :
  new_items w first_draw (note :: notes)
  = {| fb_id := uuid4 w first_draw; fb_severity := cf_severity note;
       addressed := false; addressed_in_iteration := None |}
    :: new_items w (S first_draw) notes.
Proof.
  unfold new_items. simpl. rewrite Nat.add_0_r. f_equal.
  apply imap_ext. intros i x _. simpl.
  by replace (first_draw + S i)%nat with (S (first_draw + i)) by lia.
Qed.

Lemma new_items_ids (w : World) (first_draw : nat) (notes : list CritiqueFeedback) :
  fb_id <$> new_items w first_draw notes = uuid4 w <$> seq first_draw (length notes).
Proof.
  revert first_draw. induction notes as [|note notes IH]; intros first_draw; [done|].
  rewrite new_items_cons. simpl. f_equal. apply IH.
Qed.

Lemma new_items_unaddressed (w : World) (first_draw : nat) (notes : list CritiqueFeedback) :
  Forall (fun f => addressed f = false /\ addressed_in_iteration f = None)
         (new_items w first_draw notes).
Proof.
  revert first_draw. induction notes as [|note notes IH]; intros first_draw.
  - constructor.
  - rewrite new_items_cons. constructor; [done | apply IH].
Qed.

(** The loop over a critic entry's notes appends the new items, one draw
    each, to the subchapter's feedback. *)
Lemma critic_feedback_items (w : World) (sub_id : string) (notes : list CritiqueFeedback)
    (st st' : Locals) (acc acc' l : list DraftFeedbackItem) :
  feedback_map st !! sub_id = Some l ->
  for_each (critic_feedback w sub_id) (st, acc) notes = Ok (st', acc') ->
  feedback_map st'
  = <[sub_id := (l ++ new_items w (draws st) notes)%list]> (feedback_map st)
  /\ acc' = (acc ++ new_items w (draws st) notes)%list
  /\ draws st' = (draws st + length notes)%nat
  /\ iterations_map st' = iterations_map st
  /\ word_counts st' = word_counts st.
Proof.
  revert st acc l. induction notes as [|note notes IH]; intros st acc l Hl Hrun;
    simpl in Hrun.
  - injection Hrun as <- <-. unfold new_items. simpl. rewrite !app_nil_r.
    rewrite insert_id by done. repeat split. lia.
  - apply bind_Ok in Hrun as ([s1 a1] & H1 & Hrun).
    pose proof (critic_feedback_keeps w sub_id (st, acc) (s1, a1) note H1) as [Hi1 Hw1].
    simpl in Hi1, Hw1.
    apply critic_feedback_appends in H1 as (l0 & Hl0 & Hfm & Hd & ->).
    rewrite Hl in Hl0. injection Hl0 as <-.
    eapply IH in Hrun; [|by rewrite Hfm, lookup_insert_eq].
    destruct Hrun as (Hfm' & -> & Hd' & Hi & Hw).
    rewrite new_items_cons, Hfm', Hfm, insert_insert_eq, Hd, <- !app_assoc. simpl.
    repeat split; try done; try congruence. lia.
Qed.

(** The two maps of a reachable state have the same keys. *)
Lemma reachable_same_keys (w : World) (project_uuid : UUID) (st : Locals) :
  reachable w project_uuid st -> dom (iterations_map st) = dom (feedback_map st).
Proof.
  induction 1 as [first_draw meta_lookup | st st' entry _ IH Hentry
                  | cycle_index st st' entry _ IH Hentry
                  | cycle_index st st' entry _ IH Hentry].
  - simpl. unfold empty_lists. rewrite !dom_list_to_map_L.
    by rewrite <- !list_fmap_compose.
  - unfold writer_entry in Hentry.
    apply bind_Ok in Hentry as ([] & _ & Hentry).
    apply bind_Ok in Hentry as (m & Happ & Hentry). injection Hentry as <-. simpl.
    apply dict_append_Ok in Happ as (its & Hits & ->).
    rewrite dom_insert_L, <- IH.
    apply subseteq_union_1_L, singleton_subseteq_l. by apply elem_of_dom_2 in Hits.
  - unfold critic_entry in Hentry.
    apply bind_Ok in Hentry as ([s1 new] & Hloop & Hentry).
    apply bind_Ok in Hentry as ([] & _ & Hentry).
    apply bind_Ok in Hentry as (m & Happ & Hentry). injection Hentry as <-. simpl.
    apply dict_append_Ok in Happ as (its & Hits & ->).
    assert (Hsame : iterations_map s1 = iterations_map st
                    /\ dom (feedback_map s1) = dom (feedback_map st)).
    { revert Hloop.
      apply (for_each_invariant
               (fun a : Locals * list DraftFeedbackItem =>
                  iterations_map a.1 = iterations_map st
                  /\ dom (feedback_map a.1) = dom (feedback_map st))); [|done].
      intros [s a] note [s' a'] _ [Hi Hf] Hstep. simpl in *.
      pose proof (critic_feedback_keeps w _ (s, a) (s', a') note Hstep) as [Hi' _].
      simpl in Hi'.
      apply critic_feedback_appends in Hstep as (l0 & Hl0 & Hfm & _ & _).
      split; [congruence|]. rewrite Hfm, dom_insert_L, <- Hf.
      apply subseteq_union_1_L, singleton_subseteq_l. by apply elem_of_dom_2 in Hl0. }
    destruct Hsame as [Hi Hf]. rewrite Hi in Hits |- *.
    rewrite dom_insert_L, Hf, <- IH.
    apply subseteq_union_1_L, singleton_subseteq_l. by apply elem_of_dom_2 in Hits.
  - unfold implement_entry in Hentry.
    apply bind_Ok in Hentry as (l & Hl & Hentry). apply dict_get_Ok in Hl.
    apply bind_Ok in Hentry as ([] & _ & Hentry).
    apply bind_Ok in Hentry as (m & Happ & Hentry). injection Hentry as <-. simpl.
    apply dict_append_Ok in Happ as (its & Hits & ->).
    rewrite !dom_insert_L, <- IH. done.
Qed.

(** What a critic entry records: the new items after the subchapter's
    feedback, and an iteration under the draw that follows theirs. *)
Lemma critic_entry_items (w : World) (project_uuid : UUID) (cycle_index : nat)
    (st st' : Locals) (entry : CritiqueEntry) :
  reachable w project_uuid st ->
  critic_entry w project_uuid cycle_index st entry = Ok st' ->
  let sub_id := uuid_str (ce_subchapter_id entry) in
  let new := new_items w (draws st) (ce_feedback entry) in
  exists l its it,
    feedback_map st !! sub_id = Some l
    /\ feedback_map st' = <[sub_id := (l ++ new)%list]> (feedback_map st)
    /\ iterations_map st !! sub_id = Some its
    /\ iterations_map st' = <[sub_id := (its ++ [it])%list]> (iterations_map st)
    /\ it_id it = uuid4 w (draws st + length (ce_feedback entry))
    /\ it_feedback it = new
    /\ draws st' = S (draws st + length (ce_feedback entry)).
Proof.
  intros Hst Hentry sub_id new. unfold critic_entry in Hentry.
  apply bind_Ok in Hentry as ([s1 acc] & Hloop & Hentry).
  apply bind_Ok in Hentry as ([] & _ & Hentry).
  apply bind_Ok in Hentry as (m & Happ & Hentry). injection Hentry as <-. simpl.
  apply dict_append_Ok in Happ as (its & Hits & ->).
  assert (Hsame : iterations_map s1 = iterations_map st).
  { revert Hloop.
    apply (for_each_invariant
             (fun a : Locals * list DraftFeedbackItem =>
                iterations_map a.1 = iterations_map st)); [|done].
    intros [s a] note [s' a'] _ Hi Hstep. simpl in *.
    pose proof (critic_feedback_keeps w _ (s, a) (s', a') note Hstep) as [Hi' _].
    simpl in Hi'. congruence. }
  assert (Hits0 : iterations_map st !! sub_id = Some its) by (by rewrite <- Hsame).
  assert (Hkey : is_Some (feedback_map st !! sub_id)).
  { apply elem_of_dom. rewrite <- (reachable_same_keys _ _ _ Hst).
    by apply elem_of_dom_2 in Hits0. }
  destruct Hkey as [l Hl].
  destruct (critic_feedback_items _ _ _ _ _ _ _ _ Hl Hloop) as (Hfm & Hacc & Hd & Hi & _).
  simpl in Hacc. subst acc.
  eexists l, its, _. rewrite Hi, Hd.
  split; [done|]. split; [done|]. split; [done|]. split; [reflexivity|]. done.
Qed.

Lemma implement_entry_draws (w : World) (project_uuid : UUID) (cycle_index : nat)
    (st st' : Locals) (entry : ImplementationEntry) :
  implement_entry w project_uuid cycle_index st entry = Ok st' ->
  draws st' = S (draws st).
Proof.
  unfold implement_entry. intros Hentry.
  apply bind_Ok in Hentry as (l & _ & Hentry).
  apply bind_Ok in Hentry as ([] & _ & Hentry).
  apply bind_Ok in Hentry as (m & _ & Hentry). by injection Hentry as <-.
Qed.

Lemma resolve_item_ids (resolved_ids : gset string) (iteration_id : UUID)
    (l : list DraftFeedbackItem) :
  fb_id <$> map (resolve_item resolved_ids iteration_id) l = fb_id <$> l.
Proof.
  induction l as [|f l IH]; simpl; [done|]. f_equal; [|exact IH].
  unfold resolve_item. by case_decide.
Qed.

(** One entry of any pass, as far as ids go: the subchapter's feedback
    keeps its ids and gains [n] new ones, the draws from [draws st] on, and
    the subchapter gains an iteration under a later draw. *)
Lemma ids_step (w : World) (st st' : Locals) (sub_id : string)
    (l l' : list DraftFeedbackItem) (its : list DraftIteration) (it : DraftIteration)
    (n : nat) :
  feedback_map st !! sub_id = Some l ->
  feedback_map st' = <[sub_id := l']> (feedback_map st) ->
  fb_id <$> l' = ((fb_id <$> l) ++ (uuid4 w <$> seq (draws st) n))%list ->
  iterations_map st !! sub_id = Some its ->
  iterations_map st' = <[sub_id := (its ++ [it])%list]> (iterations_map st) ->
  it_id it = uuid4 w (draws st + n) ->
  draws st' = S (draws st + n) ->
  (ids_drawn w st -> ids_drawn w st')
  /\ (Inj (=) (=) (uuid4 w) -> ids_drawn w st -> ids_unique st -> ids_unique st').
Proof.
  intros Hl Hfm Hids Hits Him Hit Hd.
  assert (Hplace : forall i f, l' !! i = Some f ->
            (exists f0, l !! i = Some f0 /\ fb_id f0 = fb_id f)
            \/ (exists m, (m < n)%nat /\ fb_id f = uuid4 w (draws st + m)
                          /\ i = (length l + m)%nat)).
  { intros i f Hf.
    assert (Hi : (fb_id <$> l') !! i = Some (fb_id f)) by (by rewrite list_lookup_fmap, Hf).
    rewrite Hids in Hi. apply lookup_app_Some in Hi as [Hi|[Hlen Hi]].
    - left. rewrite list_lookup_fmap in Hi.
      destruct (l !! i) as [f0|]; [|done]. injection Hi as Hi. by exists f0.
    - right. rewrite length_fmap in Hlen, Hi. rewrite list_lookup_fmap in Hi.
      destruct (seq (draws st) n !! (i - length l)%nat) as [m|] eqn:Hm; [|done].
      injection Hi as Hi. apply lookup_seq in Hm as [-> Hm].
      exists (i - length l)%nat. split; [done|]. split; [done | lia]. }
  assert (Hin : forall f, f ∈ l' ->
            (exists f0, f0 ∈ l /\ fb_id f0 = fb_id f)
            \/ (exists m, (m < n)%nat /\ fb_id f = uuid4 w (draws st + m))).
  { intros f Hf. apply list_elem_of_lookup in Hf as [i Hf].
    destruct (Hplace i f Hf) as [(f0 & Hf0 & Heq)|(m & Hm & Heq & _)].
    - left. exists f0. split; [by eapply list_elem_of_lookup_2 | done].
    - right. by exists m. }
  assert (Hfeedback : forall k lk f, feedback_map st' !! k = Some lk -> f ∈ lk ->
            (exists l0 f0, feedback_map st !! k = Some l0 /\ f0 ∈ l0 /\ fb_id f0 = fb_id f)
            \/ (exists m, (m < n)%nat /\ fb_id f = uuid4 w (draws st + m))).
  { intros k lk f Hk Hf. rewrite Hfm in Hk.
    destruct (decide (sub_id = k)) as [<-|Hne].
    - rewrite lookup_insert_eq in Hk. injection Hk as <-.
      destruct (Hin f Hf) as [(f0 & Hf0 & Heq)|Hnew]; [left|by right].
      by exists l, f0.
    - rewrite lookup_insert_ne in Hk by done. left. by exists lk, f. }
  assert (Hiteration : forall k itk x, iterations_map st' !! k = Some itk -> x ∈ itk ->
            (exists its0, iterations_map st !! k = Some its0 /\ x ∈ its0)
            \/ it_id x = uuid4 w (draws st + n)).
  { intros k itk x Hk Hx. rewrite Him in Hk.
    destruct (decide (sub_id = k)) as [<-|Hne].
    - rewrite lookup_insert_eq in Hk. injection Hk as <-.
      apply elem_of_app in Hx as [Hx|Hx]; [left; by exists its|right].
      apply list_elem_of_singleton in Hx. by subst x.
    - rewrite lookup_insert_ne in Hk by done. left. by exists itk. }
  split.
  - intros [Hdf Hdi]. split.
    + intros k lk f Hk Hf.
      destruct (Hfeedback k lk f Hk Hf) as [(l0 & f0 & Hl0 & Hf0 & Heq)|(m & Hm & Heq)].
      * destruct (Hdf _ _ _ Hl0 Hf0) as (d & Hlt & Hid).
        exists d. split; [lia | congruence].
      * exists (draws st + m)%nat. split; [lia | done].
    + intros k itk x Hk Hx.
      destruct (Hiteration k itk x Hk Hx) as [(its0 & Hits0 & Hx0)|Hnew].
      * destruct (Hdi _ _ _ Hits0 Hx0) as (d & Hlt & Hid). exists d. split; [lia | done].
      * exists (draws st + n)%nat. split; [lia | done].
  - intros Hinj [Hdf Hdi] [Huf Hui]. split.
    + intros k1 k2 l1 l2 i j f1 f2 Hk1 Hk2 Hi Hj Heq. rewrite Hfm in Hk1, Hk2.
      assert (Hold : forall k lk i f, feedback_map st !! k = Some lk -> lk !! i = Some f ->
                exists d, (d < draws st)%nat /\ fb_id f = uuid4 w d).
      { intros k lk i0 f Hk Hf. eapply Hdf; [exact Hk|]. by eapply list_elem_of_lookup_2. }
      destruct (decide (sub_id = k1)) as [<-|Hne1];
        [rewrite lookup_insert_eq in Hk1 | rewrite lookup_insert_ne in Hk1 by done];
        (destruct (decide (sub_id = k2)) as [<-|Hne2];
         [rewrite lookup_insert_eq in Hk2 | rewrite lookup_insert_ne in Hk2 by done]).
      * injection Hk1 as <-. injection Hk2 as <-. split; [done|].
        destruct (Hplace i f1 Hi) as [(g1 & Hg1 & He1)|(m1 & Hm1 & He1 & ->)];
          destruct (Hplace j f2 Hj) as [(g2 & Hg2 & He2)|(m2 & Hm2 & He2 & ->)].
        -- eapply (Huf sub_id sub_id l l i j g1 g2); try done. congruence.
        -- destruct (Hold _ _ _ _ Hl Hg1) as (d & Hlt & Hid).
           assert (d = (draws st + m2)%nat) by (apply Hinj; congruence). lia.
        -- destruct (Hold _ _ _ _ Hl Hg2) as (d & Hlt & Hid).
           assert (d = (draws st + m1)%nat) by (apply Hinj; congruence). lia.
        -- assert ((draws st + m1)%nat = (draws st + m2)%nat) by (apply Hinj; congruence).
           lia.
      * injection Hk1 as <-.
        destruct (Hplace i f1 Hi) as [(g1 & Hg1 & He1)|(m1 & Hm1 & He1 & ->)].
        -- eapply (Huf sub_id k2 l l2 i j g1 f2) in Hg1 as [? ?]; try done. congruence.
        -- destruct (Hold _ _ _ _ Hk2 Hj) as (d & Hlt & Hid).
           assert (d = (draws st + m1)%nat) by (apply Hinj; congruence). lia.
      * injection Hk2 as <-.
        destruct (Hplace j f2 Hj) as [(g2 & Hg2 & He2)|(m2 & Hm2 & He2 & ->)].
        -- eapply (Huf k1 sub_id l1 l i j f1 g2) in Hi as [? ?]; try done. congruence.
        -- destruct (Hold _ _ _ _ Hk1 Hi) as (d & Hlt & Hid).
           assert (d = (draws st + m2)%nat) by (apply Hinj; congruence). lia.
      * by eapply (Huf k1 k2 l1 l2 i j f1 f2).
    + intros k1 k2 lk itk f x Hk1 Hf Hk2 Hx Heq.
      destruct (Hfeedback k1 lk f Hk1 Hf) as [(l0 & f0 & Hl0 & Hf0 & He)|(m & Hm & He)];
        destruct (Hiteration k2 itk x Hk2 Hx) as [(its0 & Hits0 & Hx0)|Hnew].
      * eapply (Hui k1 k2 l0 its0 f0 x); try done. congruence.
      * destruct (Hdf _ _ _ Hl0 Hf0) as (d & Hlt & Hid).
        assert (d = (draws st + n)%nat) by (apply Hinj; congruence). lia.
      * destruct (Hdi _ _ _ Hits0 Hx0) as (d & Hlt & Hid).
        assert (d = (draws st + m)%nat) by (apply Hinj; congruence). lia.
      * assert ((draws st + m)%nat = (draws st + n)%nat) by (apply Hinj; congruence). lia.
Qed.

(** Every entry of every pass is such a step. *)
Lemma reachable_steps (w : World) (project_uuid : UUID) (I : Locals -> Prop) :
  (forall first_draw meta_lookup,
      I {| draws := first_draw; iterations_map := empty_lists meta_lookup;
           feedback_map := empty_lists meta_lookup; word_counts := ∅ |}) ->
  (forall st st' sub_id l l' its it n,
      I st ->
      feedback_map st !! sub_id = Some l ->
      feedback_map st' = <[sub_id := l']> (feedback_map st) ->
      fb_id <$> l' = ((fb_id <$> l) ++ (uuid4 w <$> seq (draws st) n))%list ->
      iterations_map st !! sub_id = Some its ->
      iterations_map st' = <[sub_id := (its ++ [it])%list]> (iterations_map st) ->
      it_id it = uuid4 w (draws st + n) ->
      draws st' = S (draws st + n) ->
      I st') ->
  forall st, reachable w project_uuid st -> I st.
Proof.
  intros Hstart Hstep st Hst.
  induction Hst as [first_draw meta_lookup | st st' entry Hst IH Hentry
                    | cycle_index st st' entry Hst IH Hentry
                    | cycle_index st st' entry Hst IH Hentry].
  - apply Hstart.
  - unfold writer_entry in Hentry.
    apply bind_Ok in Hentry as ([] & _ & Hentry).
    apply bind_Ok in Hentry as (m & Happ & Hentry). injection Hentry as <-.
    apply dict_append_Ok in Happ as (its & Hits & ->).
    assert (Hkey : is_Some (feedback_map st !! uuid_str (wd_subchapter_id entry))).
    { apply elem_of_dom. rewrite <- (reachable_same_keys _ _ _ Hst).
      by apply elem_of_dom_2 in Hits. }
    destruct Hkey as [l Hl].
    eapply (Hstep st _ _ l l its _ 0%nat IH Hl); simpl.
    + by rewrite insert_id.
    + by rewrite app_nil_r.
    + exact Hits.
    + reflexivity.
    + by rewrite Nat.add_0_r.
    + by rewrite Nat.add_0_r.
  - destruct (critic_entry_items _ _ _ _ _ _ Hst Hentry)
      as (l & its & it & Hl & Hfm & Hits & Him & Hit & _ & Hd).
    eapply (Hstep st st' _ l _ its it _ IH Hl Hfm); [|exact Hits|exact Him|exact Hit|exact Hd].
    by rewrite fmap_app, new_items_ids.
  - destruct (implement_entry_feedback _ _ _ _ _ _ (reachable_stamped _ _ _ Hst) Hentry)
      as (l & its & Hl & Hfm & Hits & Him).
    apply implement_entry_draws in Hentry.
    eapply (Hstep st st' _ l _ its _ 0%nat IH Hl Hfm); [|exact Hits|exact Him| |]; simpl.
    + by rewrite app_nil_r, resolve_item_ids.
    + by rewrite Nat.add_0_r.
    + by rewrite Nat.add_0_r.
Qed.

Lemma reachable_ids_drawn (w : World) (project_uuid : UUID) (st : Locals) :
  reachable w project_uuid st -> ids_drawn w st.
Proof.
  apply reachable_steps.
  - intros first_draw meta_lookup. split; simpl.
    + intros k l f Hk Hf. apply empty_lists_lookup in Hk as ->. by apply elem_of_nil in Hf.
    + intros k l f Hk Hf. apply empty_lists_lookup in Hk as ->. by apply elem_of_nil in Hf.
  - intros s s' sub_id l l' its it n Hs Hl Hfm Hids Hits Him Hit Hd.
    by apply (ids_step w s s' sub_id l l' its it n).
Qed.

Lemma reachable_ids_unique (w : World) (project_uuid : UUID) (st : Locals) :
  Inj (=) (=) (uuid4 w) -> reachable w project_uuid st -> ids_unique st.
Proof.
  intros Hinj Hst.
  cut (ids_drawn w st /\ ids_unique st); [by intros [_ ?]|].
  revert st Hst. apply reachable_steps.
  - intros first_draw meta_lookup. split; [split|split]; simpl.
    + intros k l f Hk Hf. apply empty_lists_lookup in Hk as ->. by apply elem_of_nil in Hf.
    + intros k l f Hk Hf. apply empty_lists_lookup in Hk as ->. by apply elem_of_nil in Hf.
    + intros k1 k2 l1 l2 i j f1 f2 Hk1 _ Hi. apply empty_lists_lookup in Hk1 as ->.
      done.
    + intros k1 k2 l its f it Hk Hf. apply empty_lists_lookup in Hk as ->.
      by apply elem_of_nil in Hf.
  - intros s s' sub_id l l' its it n [Hdrawn Hunique] Hl Hfm Hids Hits Him Hit Hd.
    destruct (ids_step w s s' sub_id l l' its it n) as [H1 H2]; try done.
    split; [by apply H1 | by apply H2].
Qed.



End WritingTheory.

(** ** Creative guidelines stage *)

Module GuidelinesTheory.
Import Guidelines.

Lemma final_guidelines_map (batch : CreativeGuidelineBatch) (project_id : option string)
    (target_version : Z) :
  guidelines (_ensure_final_metadata batch project_id target_version)
  = map (fun guideline =>
           {| g_id := g_id guideline;
              g_project_id := or_else project_id (g_project_id guideline);
              g_subchapter_id := g_subchapter_id guideline;
              g_status := status_final;
              g_created_by := CREATIVE_DIRECTOR_FINAL;
              g_version := target_version |})
        (guidelines batch).
Proof.
  unfold _ensure_final_metadata. simpl.
  exact (foldl_snoc_map
           (fun guideline =>
              {| g_id := g_id guideline;
                 g_project_id := or_else project_id (g_project_id guideline);
                 g_subchapter_id := g_subchapter_id guideline;
                 g_status := status_final;
                 g_created_by := CREATIVE_DIRECTOR_FINAL;
                 g_version := target_version |})
           (guidelines batch) []).
Qed.

(** What [_ensure_final_metadata] stamps on the batch it is given, whatever
    that batch carries: the target version, readiness [ready], and on every
    guideline status [final], the final-agent role and the target version;
    the project id of the request when that is a non-empty text, the batch's
    own otherwise.  For a payload built by the API the target version is the
    stored version plus one. *)
Lemma ensure_final_metadata_stamps (batch : CreativeGuidelineBatch)
    (project_id : option string) (target_version : Z) :
  let final := _ensure_final_metadata batch project_id target_version in
  version final = target_version
  /\ readiness final = batch_ready
  /\ length (guidelines final) = length (guidelines batch)
  /\ (forall g, g ∈ guidelines final ->
        g_status g = status_final /\ g_created_by g = CREATIVE_DIRECTOR_FINAL
        /\ g_version g = target_version)
  /\ (forall request_id, project_id = Some request_id -> request_id <> "" ->
        batch_project_id final = request_id
        /\ forall g, g ∈ guidelines final -> g_project_id g = request_id).
Proof.
  intros final. subst final.
  split; [reflexivity|]. split; [reflexivity|].
  rewrite final_guidelines_map. split; [by rewrite length_map|]. split.
  - intros g Hg. apply list_elem_of_fmap in Hg as (g0 & -> & _). auto.
  - intros request_id -> Hne.
    assert (Hor : forall other, or_else (Some request_id) other = request_id).
    { intros other. unfold or_else. by destruct (String.eqb_spec request_id ""). }
    split; [apply Hor|].
    intros g Hg. apply list_elem_of_fmap in Hg as (g0 & -> & _). apply Hor.
Qed.

Lemma api_target_version (project_id : UUID) (stored_version : option Z) :
  0 <= default 0 stored_version ->
  get_target_version (_build_guidelines_payload project_id stored_version)
  = default 0 stored_version + 1
  /\ get_project_id (_build_guidelines_payload project_id stored_version) = Some project_id.
Proof.
  intros Hnonneg. unfold get_target_version, get_project_id, _build_guidelines_payload,
    current_version. simpl. split; [|reflexivity].
  destruct stored_version as [v|]; simpl in *; [|reflexivity].
  destruct (Z.eqb_spec v 0) as [->|_]; [reflexivity|].
  destruct (Z.eqb_spec (v + 1) 0); [lia | reflexivity].
Qed.

Lemma call_with_too_few_arguments {A} (fname : string) (params : list string)
    (nargs : nat) (body : result A) :
  (nargs < length params)%nat ->
  exists msg, call_positional fname params nargs body = Raise (TypeError msg).
Proof.
  intros Hlt. unfold call_positional.
  destruct (drop nargs params) as [|missing [|another rest]] eqn:Hdrop; [|eauto..].
  apply (f_equal length) in Hdrop. rewrite length_drop in Hdrop. simpl in Hdrop. lia.
Qed.

(** C8, at the inputs where the code departs from it, which are all of
    them.  The engine calls [_request_batch] with three positional
    arguments, the function takes four, and Python raises [TypeError] before
    any agent is asked: no guidelines run returns, so no batch with stamped
    metadata is ever handed back.  The stamping the engine would apply to
    the final batch is as C8 describes it. *)
Theorem guidelines_run_never_returns (w : World) (payload : Payload) :
  generate_creative_guidelines w payload
  = Raise (TypeError "_request_batch() missing 1 required positional argument: 'override'")
  /\ (forall res, generate_creative_guidelines w payload <> Ok res)
  /\ (forall final_batch,
        let stamped :=
          _ensure_final_metadata final_batch (get_project_id payload)
                                 (get_target_version payload) in
        version stamped = get_target_version payload
        /\ readiness stamped = batch_ready
        /\ forall g, g ∈ guidelines stamped ->
             g_status g = status_final /\ g_created_by g = CREATIVE_DIRECTOR_FINAL
             /\ g_version g = get_target_version payload).
Proof.
  assert (Hraise : generate_creative_guidelines w payload
                   = Raise (TypeError
                              "_request_batch() missing 1 required positional argument: 'override'")).
  { reflexivity. }
  split; [exact Hraise|]. split.
  - intros res Hres. unfold generate_creative_guidelines in Hres.
    destruct (call_with_too_few_arguments (A := reply CreativeGuidelineBatch)
                "_request_batch" _request_batch_params 3
                (_request_body (Ok (proposal_reply w)))) as (msg & Hmsg);
      [simpl; lia|].
    rewrite Hmsg in Hres. discriminate.
  - intros final_batch stamped.
    destruct (ensure_final_metadata_stamps final_batch (get_project_id payload)
                (get_target_version payload)) as (Hv & Hr & _ & Hg & _).
    auto.
Qed.

End GuidelinesTheory.

(** ** Response-cache key *)

Module CacheTheory.
Import Cache.

(** *** Texts *)

Lemma append_inv_head (a x y : string) : a +:+ x = a +:+ y -> x = y.
Proof. induction a as [|c a IH]; simpl; [done|]. intros [= H]. auto. Qed.

Lemma append_assoc (a b c : string) : (a +:+ b) +:+ c = a +:+ (b +:+ c).
Proof.
  induction a as [|x a IH]; [done|].
  change (String x ((a +:+ b) +:+ c) = String x (a +:+ (b +:+ c))). by rewrite IH.
Qed.

Lemma append_nil_r (a : string) : a +:+ "" = a.
Proof.
  induction a as [|x a IH]; [done|].
  change (String x (a +:+ "") = String x a). by rewrite IH.
Qed.

Lemma append_to_list (a b : string) :
  String.list_ascii_of_string (a +:+ b)
  = (String.list_ascii_of_string a ++ String.list_ascii_of_string b)%list.
Proof. induction a as [|c a IH]; simpl; [done|]. by rewrite IH. Qed.

Lemma append_inv_tail (x y b : string) : x +:+ b = y +:+ b -> x = y.
Proof.
  intros H. apply (f_equal String.list_ascii_of_string) in H.
  rewrite !append_to_list in H. apply app_inv_tail in H.
  rewrite <- (String.string_of_list_ascii_of_string x),
          <- (String.string_of_list_ascii_of_string y).
  by rewrite H.
Qed.

Lemma unescape_escape_char (c : Ascii.ascii) (rest : string) :
  Json.unescape_head (Json.escape_char c +:+ rest) = Some (c, rest).
Proof. destruct c as [[] [] [] [] [] [] [] []]; reflexivity. Qed.

Lemma escape_inj (s s' : string) : Json.escape s = Json.escape s' -> s = s'.
Proof.
  revert s'. induction s as [|c s IH]; intros [|c' s'] H; simpl in H.
  - done.
  - apply (f_equal Json.unescape_head) in H.
    rewrite unescape_escape_char in H. discriminate.
  - apply (f_equal Json.unescape_head) in H.
    rewrite unescape_escape_char in H. discriminate.
  - apply (f_equal Json.unescape_head) in H.
    rewrite !unescape_escape_char in H. injection H as -> H. f_equal. by apply IH.
Qed.

Lemma encode_str_inj (s s' : string) : Json.encode_str s = Json.encode_str s' -> s = s'.
Proof.
  unfold Json.encode_str. intros H.
  apply append_inv_head, append_inv_tail in H. by apply escape_inj.
Qed.

Lemma encode_str_not_null (s : string) : Json.encode_str s <> "null".
Proof. unfold Json.encode_str. intros H. vm_compute in H. discriminate. Qed.

Lemma pretty_N_go_not_n (x : N) (s s' : string) :
  s <> "n" +:+ s' -> pretty_N_go x s <> "n" +:+ s'.
Proof.
  revert s. induction (N.lt_wf_0 x) as [x _ IH]; intros s Hs.
  assert (x = 0 \/ 0 < x)%N as [->|Hpos] by lia.
  - by rewrite pretty_N_go_0.
  - rewrite pretty_N_go_step by done. apply IH.
    { by apply N.div_lt. }
    unfold pretty_N_char. by repeat case_match.
Qed.

Lemma pretty_Z_not_null (z : Z) : pretty z <> "null".
Proof.
  destruct z as [|p|p]; [done| |done].
  unfold pretty, pretty_Z, pretty, pretty_positive, pretty, pretty_N.
  case_decide; [done|]. by apply (pretty_N_go_not_n _ "" "ull").
Qed.

(** *** Each kind of value is read back from its JSON text *)

Lemma of_str_inj (a b : option string) :
  Json.dumps (Json.of_str a) = Json.dumps (Json.of_str b) -> a = b.
Proof.
  destruct a as [a|], b as [b|]; simpl; intros H.
  - f_equal. by apply encode_str_inj.
  - by apply encode_str_not_null in H.
  - symmetry in H. by apply encode_str_not_null in H.
  - done.
Qed.

Lemma of_int_inj (a b : option Z) :
  Json.dumps (Json.of_int a) = Json.dumps (Json.of_int b) -> a = b.
Proof.
  destruct a as [a|], b as [b|]; simpl; intros H.
  - f_equal. by apply (inj pretty).
  - by apply pretty_Z_not_null in H.
  - symmetry in H. by apply pretty_Z_not_null in H.
  - done.
Qed.

Lemma of_float_inj (a b : option pyfloat) :
  a <> Some "null" -> b <> Some "null" ->
  Json.dumps (Json.of_float a) = Json.dumps (Json.of_float b) -> a = b.
Proof.
  destruct a as [a|], b as [b|]; simpl; intros Ha Hb H.
  - by rewrite H.
  - exfalso. apply Ha. by rewrite H.
  - exfalso. apply Hb. by rewrite <- H.
  - done.
Qed.

Lemma of_bool_inj (a b : option bool) :
  Json.dumps (Json.of_bool a) = Json.dumps (Json.of_bool b) -> a = b.
Proof. destruct a as [[]|], b as [[]|]; simpl; intros H; done. Qed.

(** *** The text that is hashed *)

Lemma dumps_dict_shape (d_provider d_model d_stage d_prompt d_system d_json_schema d_temperature d_max_output_tokens d_top_p d_reasoning_effort d_verbosity d_thinking_budget d_include_thoughts : string) :
  Json.dumps_dict
      [ ("provider", d_provider);
        ("model", d_model);
        ("stage", d_stage);
        ("prompt", d_prompt);
        ("system", d_system);
        ("json_schema", d_json_schema);
        ("temperature", d_temperature);
        ("max_output_tokens", d_max_output_tokens);
        ("top_p", d_top_p);
        ("reasoning_effort", d_reasoning_effort);
        ("verbosity", d_verbosity);
        ("thinking_budget", d_thinking_budget);
        ("include_thoughts", d_include_thoughts) ]
  = "{" +:+ (Json.encode_str "include_thoughts" +:+ ": " +:+ d_include_thoughts +:+ ", "
    +:+ Json.encode_str "json_schema" +:+ ": " +:+ d_json_schema +:+ ", "
    +:+ Json.encode_str "max_output_tokens" +:+ ": " +:+ d_max_output_tokens +:+ ", "
    +:+ Json.encode_str "model" +:+ ": " +:+ d_model +:+ ", "
    +:+ Json.encode_str "prompt" +:+ ": " +:+ d_prompt +:+ ", "
    +:+ Json.encode_str "provider" +:+ ": " +:+ d_provider +:+ ", "
    +:+ Json.encode_str "reasoning_effort" +:+ ": " +:+ d_reasoning_effort +:+ ", "
    +:+ Json.encode_str "stage" +:+ ": " +:+ d_stage +:+ ", "
    +:+ Json.encode_str "system" +:+ ": " +:+ d_system +:+ ", "
    +:+ Json.encode_str "temperature" +:+ ": " +:+ d_temperature +:+ ", "
    +:+ Json.encode_str "thinking_budget" +:+ ": " +:+ d_thinking_budget +:+ ", "
    +:+ Json.encode_str "top_p" +:+ ": " +:+ d_top_p +:+ ", "
    +:+ Json.encode_str "verbosity" +:+ ": " +:+ d_verbosity) +:+ "}".
Proof. vm_compute. reflexivity. Qed.

Lemma text_of_fields (k : keyed) :
  text_of k
  = Json.dumps_dict
      [ ("provider", Json.dumps (value F_provider k));
        ("model", Json.dumps (value F_model k));
        ("stage", Json.dumps (value F_stage k));
        ("prompt", Json.dumps (value F_prompt k));
        ("system", Json.dumps (value F_system k));
        ("json_schema", Json.dumps (value F_json_schema k));
        ("temperature", Json.dumps (value F_temperature k));
        ("max_output_tokens", Json.dumps (value F_max_output_tokens k));
        ("top_p", Json.dumps (value F_top_p k));
        ("reasoning_effort", Json.dumps (value F_reasoning_effort k));
        ("verbosity", Json.dumps (value F_verbosity k));
        ("thinking_budget", Json.dumps (value F_thinking_budget k));
        ("include_thoughts", Json.dumps (value F_include_thoughts k)) ].
Proof. reflexivity. Qed.

Lemma key_of_text (k : keyed) : key_of k = Sha256.hexdigest (text_of k).
Proof. reflexivity. Qed.

(** Requests that agree on every keyed field are hashed from the same text. *)
Lemma same_fields_same_text (k k' : keyed) :
  (forall f, value f k = value f k') -> text_of k = text_of k'.
Proof.
  intros Hsame. rewrite !text_of_fields.
  by rewrite (Hsame F_provider), (Hsame F_model), (Hsame F_stage), (Hsame F_prompt),
    (Hsame F_system), (Hsame F_json_schema), (Hsame F_temperature),
    (Hsame F_max_output_tokens), (Hsame F_top_p), (Hsame F_reasoning_effort),
    (Hsame F_verbosity), (Hsame F_thinking_budget), (Hsame F_include_thoughts).
Qed.

Ltac cancel_heads H :=
  repeat match type of H with
         | ?a +:+ ?x = ?a +:+ ?y => apply (append_inv_head a x y) in H
         end.

Ltac cancel_tail H :=
  match type of H with
  | ?x +:+ ?b = ?y +:+ ?b => apply (append_inv_tail x y b) in H
  end.

(** Two call sites that differ in one keyed field other than the schema are
    hashed from different texts. *)
Lemma one_field_changes_text (f : field) (k k' : keyed) :
  f <> F_json_schema -> float_texts k -> float_texts k' ->
  (forall g, g <> f -> value g k = value g k') ->
  text_of k = text_of k' -> value f k = value f k'.
Proof.
  intros Hf [Ht Hp] [Ht' Hp'] Hothers H.
  rewrite !text_of_fields, !dumps_dict_shape in H.
  destruct f; try done.
  all: try (rewrite (Hothers F_provider) in H by discriminate).
  all: try (rewrite (Hothers F_model) in H by discriminate).
  all: try (rewrite (Hothers F_stage) in H by discriminate).
  all: try (rewrite (Hothers F_prompt) in H by discriminate).
  all: try (rewrite (Hothers F_system) in H by discriminate).
  all: try (rewrite (Hothers F_json_schema) in H by discriminate).
  all: try (rewrite (Hothers F_temperature) in H by discriminate).
  all: try (rewrite (Hothers F_max_output_tokens) in H by discriminate).
  all: try (rewrite (Hothers F_top_p) in H by discriminate).
  all: try (rewrite (Hothers F_reasoning_effort) in H by discriminate).
  all: try (rewrite (Hothers F_verbosity) in H by discriminate).
  all: try (rewrite (Hothers F_thinking_budget) in H by discriminate).
  all: try (rewrite (Hothers F_include_thoughts) in H by discriminate).
  all: cancel_heads H; cancel_tail H; cancel_heads H; try cancel_tail H; simpl value in *.
  - f_equal. by apply encode_str_inj.
  - f_equal. by apply encode_str_inj.
  - f_equal. by apply encode_str_inj.
  - f_equal. by apply encode_str_inj.
  - f_equal. by apply of_str_inj.
  - f_equal. by apply of_float_inj.
  - f_equal. by apply of_int_inj.
  - f_equal. by apply of_float_inj.
  - f_equal. by apply of_str_inj.
  - f_equal. by apply of_str_inj.
  - f_equal. by apply of_int_inj.
  - f_equal. by apply of_bool_inj.
Qed.

(** *** The key a cached call uses *)

Lemma _get_cases (self : StageCache) (now : Z) (key : string) :
  (exists payload expires_at,
      _local self !! key = Some (payload, expires_at) /\ now <= expires_at
      /\ _get self now key = (Some payload, self))
  \/ ((_local self !! key = None
       \/ exists payload expires_at,
            _local self !! key = Some (payload, expires_at) /\ expires_at < now)
      /\ _get self now key
         = (None, {| _ttl_seconds := _ttl_seconds self;
                     _prompt_limit := _prompt_limit self;
                     _local := delete key (_local self) |})).
Proof.
  unfold _get. destruct (_local self !! key) as [[payload expires_at]|] eqn:Hentry.
  - destruct (Z.ltb_spec expires_at now) as [Hlt|Hge].
    + right. split; [right; by exists payload, expires_at | done].
    + left. by exists payload, expires_at.
  - right. split; [by left|]. destruct self as [ttl limit entries]. simpl in *.
    by rewrite delete_id.
Qed.

Lemma generate_key (_DEFAULT_LIMIT : Z) (self : StageCache) (now stored_at : Z)
    (provider_config : ProviderConfig)
    (provider : ProviderRequest -> result ProviderResponse)
    (request : ProviderRequest) (stage_name : string) (out : outcome) :
  generate _DEFAULT_LIMIT self now stored_at provider_config provider request stage_name
  = Ok out ->
  out_key out = _build_key provider_config request stage_name (prompt request)
  /\ (out_hit out = true ->
      exists payload expires_at,
        _local self !! out_key out = Some (payload, expires_at) /\ now <= expires_at
        /\ out_response out = _decode_response payload
        /\ out_cache out = self)
  /\ (out_hit out = false ->
      _local (out_cache out)
      = <[out_key out := (_encode_response (out_response out), stored_at + _ttl_seconds self)]>
          (_local self)
      /\ _ttl_seconds (out_cache out) = _ttl_seconds self
      /\ _prompt_limit (out_cache out) = _prompt_limit self
      /\ (_local self !! out_key out = None
          \/ exists payload expires_at,
               _local self !! out_key out = Some (payload, expires_at)
               /\ expires_at < now)).
Proof.
  unfold generate.
  destruct (_get_cases self now
              (_build_key provider_config request stage_name (prompt request)))
    as [(payload & expires_at & Hentry & Hle & ->)|[Hwhy ->]].
  - intros [= <-]. simpl. split; [reflexivity|]. split; [|discriminate].
    intros _. by exists payload, expires_at.
  - destruct (Context.summarise_prompt _ _ _) as [trimmed_prompt was_trimmed].
    intros H. apply bind_Ok in H as (response & _ & H). injection H as <-. simpl.
    split; [reflexivity|]. split; [discriminate|]. intros _.
    by rewrite insert_delete_eq.
Qed.

Lemma length_append (a b : string) :
  String.length (a +:+ b) = (String.length a + String.length b)%nat.
Proof. induction a as [|c a IH]; simpl; [done | by rewrite IH]. Qed.

Lemma hex_fixed_length (n : nat) (x : Z) : String.length (Sha256.hex_fixed n x) = n.
Proof.
  revert x. induction n as [|n IH]; intros x; simpl; [done|].
  rewrite length_append, IH. simpl. lia.
Qed.

End CacheTheory.

(** ** The writing engine: order, cycles, ids and feedback links *)

Module WritingRunTheory.
Import Writing WritingTerms WritingTheory.

Lemma key_le_reads_before (a b : string * SubchapterMeta) :
  key_le (sort_key a) (sort_key b) = true <-> reads_before a b.
Proof.
  unfold key_le, sort_key, reads_before. simpl.
  rewrite orb_true_iff, andb_true_iff, Z.ltb_lt, Z.eqb_eq, Z.leb_le. tauto.
Qed.

Lemma key_le_spec (a b : Z * Z) :
  key_le a b = true <-> a.1 < b.1 \/ (a.1 = b.1 /\ a.2 <= b.2).
Proof.
  unfold key_le. rewrite orb_true_iff, andb_true_iff, Z.ltb_lt, Z.eqb_eq, Z.leb_le. tauto.
Qed.

Lemma key_le_total (a b : Z * Z) : key_le a b = false -> key_le b a = true.
Proof.
  intros H. apply key_le_spec. apply not_true_iff_false in H.
  rewrite key_le_spec in H. lia.
Qed.

Lemma key_le_trans (a b c : Z * Z) :
  key_le a b = true -> key_le b c = true -> key_le a c = true.
Proof. rewrite !key_le_spec. lia. Qed.

Lemma key_le_antisym (a b : Z * Z) :
  key_le a b = true -> key_le b a = true -> a = b.
Proof. rewrite !key_le_spec. destruct a, b. simpl. intros. f_equal; lia. Qed.

Lemma insert_by_perm {A} (key : A -> Z * Z) (x : A) (xs : list A) :
  insert_by key x xs ≡ₚ x :: xs.
Proof.
  induction xs as [|y ys IH]; simpl; [done|].
  destruct (key_le (key y) (key x)); [|done].
  rewrite IH. apply Permutation_swap.
Qed.

Lemma sorted_by_perm {A} (key : A -> Z * Z) (xs : list A) : sorted_by key xs ≡ₚ xs.
Proof.
  unfold sorted_by.
  assert (Hgen : forall acc, foldl (fun acc x => insert_by key x acc) acc xs ≡ₚ acc ++ xs).
  { induction xs as [|x xs IH]; intros acc; simpl; [by rewrite app_nil_r|].
    rewrite IH, insert_by_perm. simpl. apply Permutation_middle. }
  apply (Hgen []).
Qed.

Lemma insert_by_sorted {A} (key : A -> Z * Z) (x : A) (xs : list A) :
  StronglySorted (fun a b => key_le (key a) (key b) = true) xs ->
  StronglySorted (fun a b => key_le (key a) (key b) = true) (insert_by key x xs).
Proof.
  induction 1 as [|y ys Hys IH Hy]; simpl.
  - repeat constructor.
  - destruct (key_le (key y) (key x)) eqn:Hyx.
    + constructor; [exact IH|].
      rewrite (insert_by_perm key x ys). constructor; [done|exact Hy].
    + apply key_le_total in Hyx. constructor; [by constructor|].
      constructor; [done|].
      eapply Forall_impl; [exact Hy|]. intros z Hz. by eapply key_le_trans.
Qed.

Lemma sorted_by_sorted {A} (key : A -> Z * Z) (xs : list A) :
  StronglySorted (fun a b => key_le (key a) (key b) = true) (sorted_by key xs).
Proof.
  unfold sorted_by.
  assert (Hgen : forall acc,
             StronglySorted (fun a b => key_le (key a) (key b) = true) acc ->
             StronglySorted (fun a b => key_le (key a) (key b) = true)
               (foldl (fun acc x => insert_by key x acc) acc xs)).
  { induction xs as [|x xs IH]; intros acc Hacc; simpl; [done|].
    by apply IH, insert_by_sorted. }
  apply Hgen. constructor.
Qed.

(** The sort is stable: items of equal key keep the order they had. *)
Lemma insert_by_stable {A} (key : A -> Z * Z) (x : A) (xs : list A) (k : Z * Z) :
  StronglySorted (fun a b => key_le (key a) (key b) = true) xs ->
  filter (fun a => key a = k) (insert_by key x xs)
  = (filter (fun a => key a = k) xs ++ filter (fun a => key a = k) [x])%list.
Proof.
  induction 1 as [|y ys Hys IH Hy]; simpl; [done|].
  destruct (key_le (key y) (key x)) eqn:Hyx.
  - rewrite !filter_cons. rewrite IH. by case_decide.
  - destruct (decide (key x = k)) as [Hk|Hk].
    + rewrite (filter_cons _ x), decide_True by done.
      rewrite (filter_none (fun a => key a = k) (y :: ys)).
      { rewrite filter_cons, decide_True by done. done. }
      intros z Hz Hzk.
      assert (Hyz : key_le (key y) (key z) = true).
      { apply elem_of_cons in Hz as [->|Hz].
        - apply key_le_spec. lia.
        - rewrite Forall_forall in Hy. by apply Hy. }
      rewrite Hzk, <- Hk in Hyz. congruence.
    + rewrite (filter_cons _ x), decide_False by done.
      rewrite (filter_cons _ x []), decide_False by done.
      by rewrite filter_nil, app_nil_r.
Qed.

Lemma sorted_by_stable {A} (key : A -> Z * Z) (xs : list A) (k : Z * Z) :
  filter (fun a => key a = k) (sorted_by key xs) = filter (fun a => key a = k) xs.
Proof.
  unfold sorted_by.
  assert (Hgen : forall acc,
             StronglySorted (fun a b => key_le (key a) (key b) = true) acc ->
             filter (fun a => key a = k) (foldl (fun acc x => insert_by key x acc) acc xs)
             = (filter (fun a => key a = k) acc ++ filter (fun a => key a = k) xs)%list).
  { induction xs as [|x xs IH]; intros acc Hacc; simpl; [by rewrite app_nil_r|].
    rewrite IH by (by apply insert_by_sorted).
    rewrite insert_by_stable by done. rewrite <- app_assoc. f_equal.
    by rewrite <- filter_app. }
  by rewrite Hgen by constructor.
Qed.

Lemma dict_set_NoDup {V} (d : list (string * V)) (k : string) (v : V) :
  NoDup (map fst d) -> NoDup (map fst (dict_set d k v)).
Proof.
  induction d as [|[k0 v0] d IH]; simpl; intros Hd.
  - apply NoDup_singleton.
  - apply NoDup_cons in Hd as [Hnotin Hd].
    destruct (String.eqb_spec k0 k) as [->|Hne]; simpl.
    + by apply NoDup_cons.
    + apply NoDup_cons. split; [|by apply IH].
      rewrite WritingTheory.dict_set_keys. intros [H| ->]; done.
Qed.

Lemma build_meta_lookup_NoDup (items : list SubchapterMeta) :
  NoDup (map fst (build_meta_lookup items)).
Proof.
  unfold build_meta_lookup.
  assert (Hgen : forall d, NoDup (map fst d) ->
             NoDup (map fst
               (foldl (fun meta_lookup item =>
                         let sub_id := py_str (meta_id item) in
                         if String.eqb sub_id "" then meta_lookup
                         else dict_set meta_lookup sub_id item) d items))).
  { induction items as [|item items IH]; intros d Hd; simpl; [done|].
    apply IH. destruct (String.eqb _ _); [done | by apply dict_set_NoDup]. }
  apply Hgen. constructor.
Qed.

(** The loop that assembles the states pairs each appended state with the
    item it was assembled for. *)
Lemma assemble_zip (w : World) (st : Locals)
    (R : SubchapterDraftState -> string * SubchapterMeta -> Prop)
    (items : list (string * SubchapterMeta)) :
  (forall states total item states' total',
      assemble_state w st (states, total) item = Ok (states', total') ->
      exists s, states' = (states ++ [s])%list /\ R s item) ->
  forall states total states' total',
    for_each (assemble_state w st) (states, total) items = Ok (states', total') ->
    exists new, states' = (states ++ new)%list /\ Forall2 R new items.
Proof.
  intros Hstep. induction items as [|item items IH];
    intros states total states' total' Hrun; simpl in Hrun.
  - injection Hrun as <- _. exists []. split; [by rewrite app_nil_r | constructor].
  - apply bind_Ok in Hrun as ([states1 total1] & H1 & Hrun).
    apply Hstep in H1 as (s & -> & Hs).
    apply IH in Hrun as (new & -> & Hnew).
    exists (s :: new). split; [by rewrite <- app_assoc | by constructor].
Qed.

Lemma strongly_sorted_weaken {A} (R R' : A -> A -> Prop) (xs : list A) :
  (forall a b, R a b -> R' a b) -> StronglySorted R xs -> StronglySorted R' xs.
Proof.
  intros HR. induction 1 as [|x xs Hxs IH Hx]; constructor; [done|].
  eapply Forall_impl; [exact Hx|]. intros b. apply HR.
Qed.

(** *** What one entry of a pass records *)

Lemma writer_entry_shape (w : World) (project_uuid : UUID) (st st' : Locals)
    (entry : WriterDraftEntry) :
  writer_entry w project_uuid st entry = Ok st' ->
  let sub_id := uuid_str (wd_subchapter_id entry) in
  exists its,
    iterations_map st !! sub_id = Some its
    /\ st' = {| draws := S (draws st);
               iterations_map :=
                 <[sub_id := (its ++ [ {| it_id := uuid4 w (draws st);
                                          it_project_id := project_uuid;
                                          it_subchapter_id := wd_subchapter_id entry;
                                          it_cycle := 0;
                                          it_role := WRITER_INITIAL;
                                          it_word_count := wd_word_count entry;
                                          it_feedback := [] |} ])%list]> (iterations_map st);
               feedback_map := feedback_map st;
               word_counts := <[sub_id := wd_word_count entry]> (word_counts st) |}.
Proof.
  unfold writer_entry. intros H. apply bind_Ok in H as ([] & _ & H).
    apply bind_Ok in H as (m & Happ & H).
  apply dict_append_Ok in Happ as (its & Hits & ->). injection H as <-. eauto.
Qed.

Lemma critic_feedback_shape (w : World) (sub_id : string) (st st' : Locals)
    (acc acc' : list DraftFeedbackItem) (feedback : CritiqueFeedback) :
  critic_feedback w sub_id (st, acc) feedback = Ok (st', acc') ->
  let item := {| fb_id := uuid4 w (draws st); fb_severity := cf_severity feedback;
                 addressed := false; addressed_in_iteration := None |} in
  exists l, feedback_map st !! sub_id = Some l
            /\ st' = {| draws := S (draws st);
                       iterations_map := iterations_map st;
                       feedback_map := <[sub_id := (l ++ [item])%list]> (feedback_map st);
                       word_counts := word_counts st |}
            /\ acc' = (acc ++ [item])%list.
Proof.
  unfold critic_feedback. intros H. apply bind_Ok in H as ([] & _ & H).
    apply bind_Ok in H as (fm & Happ & H).
  apply dict_append_Ok in Happ as (l & Hl & ->).
  injection H as <- <-. exists l. auto.
Qed.

Lemma critic_feedback_loop (w : World) (sub_id : string) (fbs : list CritiqueFeedback)
    (st st' : Locals) (acc acc' : list DraftFeedbackItem) :
  for_each (critic_feedback w sub_id) (st, acc) fbs = Ok (st', acc') ->
  exists new,
    acc' = (acc ++ new)%list
    /\ length new = length fbs
    /\ draws st' = (draws st + length fbs)%nat
    /\ iterations_map st' = iterations_map st
    /\ word_counts st' = word_counts st
    /\ dom (feedback_map st') = dom (feedback_map st)
    /\ (forall k l', feedback_map st' !! k = Some l' ->
          exists l, feedback_map st !! k = Some l
                    /\ l' = (l ++ if decide (k = sub_id) then new else [])%list)
    /\ Forall (fun f => addressed f = false /\ addressed_in_iteration f = None
                        /\ exists n, (draws st <= n < draws st')%nat /\ fb_id f = uuid4 w n)
              new.
Proof.
  revert st acc. induction fbs as [|fb fbs IH]; intros st acc Hrun; simpl in Hrun.
  - injection Hrun as <- <-. exists []. rewrite app_nil_r. simpl.
    split; [done|]. split; [done|]. split; [lia|]. split; [done|]. split; [done|].
    split; [done|]. split; [|constructor].
    intros k l' Hk. exists l'. split; [done|]. case_decide; by rewrite app_nil_r.
  - apply bind_Ok in Hrun as ([s1 a1] & H1 & Hrun).
    apply critic_feedback_shape in H1 as (l0 & Hl0 & -> & ->).
    apply IH in Hrun as (new & -> & Hlen & Hd & Him & Hwc & Hdom & Hfb & Hnew).
    simpl in *.
    set (item := {| fb_id := uuid4 w (draws st); fb_severity := cf_severity fb;
                    addressed := false; addressed_in_iteration := None |}) in *.
    exists (item :: new). rewrite <- app_assoc. simpl.
    split; [done|]. split; [by rewrite Hlen|]. split; [lia|].
    split; [done|]. split; [done|]. split.
    { rewrite Hdom, dom_insert_L. apply subseteq_union_1_L, singleton_subseteq_l.
      by apply elem_of_dom_2 in Hl0. }
    split.
    { intros k l' Hk. destruct (Hfb _ _ Hk) as (l & Hl & ->).
      destruct (decide (k = sub_id)) as [->|Hne].
      - rewrite lookup_insert_eq in Hl. injection Hl as <-.
        exists l0. split; [done|]. by rewrite <- app_assoc.
      - rewrite lookup_insert_ne in Hl by done. exists l. split; [done|]. done. }
    constructor.
    { simpl. repeat split. exists (draws st). split; [lia | done]. }
    eapply Forall_impl; [exact Hnew|]. intros f (? & ? & n & ? & ?).
    repeat split; try done. exists n. split; [lia | done].
Qed.

Lemma critic_entry_shape (w : World) (project_uuid : UUID) (cycle_index : nat)
    (st st' : Locals) (entry : CritiqueEntry) :
  critic_entry w project_uuid cycle_index st entry = Ok st' ->
  let sub_id := uuid_str (ce_subchapter_id entry) in
  exists its new n,
    iterations_map st !! sub_id = Some its
    /\ (draws st <= n)%nat /\ draws st' = S n
    /\ iterations_map st'
       = <[sub_id := (its ++ [ {| it_id := uuid4 w n;
                                  it_project_id := project_uuid;
                                  it_subchapter_id := ce_subchapter_id entry;
                                  it_cycle := cycle_index;
                                  it_role := critic_roles cycle_index;
                                  it_word_count := None;
                                  it_feedback := new |} ])%list]> (iterations_map st)
    /\ word_counts st' = word_counts st
    /\ dom (feedback_map st') = dom (feedback_map st)
    /\ (forall k l', feedback_map st' !! k = Some l' ->
          exists l, feedback_map st !! k = Some l
                    /\ l' = (l ++ if decide (k = sub_id) then new else [])%list)
    /\ Forall (fun f => addressed f = false /\ addressed_in_iteration f = None
                        /\ exists m, (draws st <= m < n)%nat /\ fb_id f = uuid4 w m)
              new.
Proof.
  unfold critic_entry. intros H.
  apply bind_Ok in H as ([s1 new] & Hloop & H).
  apply bind_Ok in H as ([] & _ & H).
    apply bind_Ok in H as (m & Happ & H). injection H as <-.
  apply critic_feedback_loop in Hloop as (new' & Hn & _ & Hd & Him & Hwc & Hdom & Hfb & Hnew).
  simpl in Hn. subst new'.
  apply dict_append_Ok in Happ as (its & Hits & ->). rewrite Him in Hits.
  exists its, new, (draws s1). simpl. rewrite Him.
  repeat split; try done. lia.
Qed.

Lemma implement_entry_shape (w : World) (project_uuid : UUID) (cycle_index : nat)
    (st st' : Locals) (entry : ImplementationEntry) :
  implement_entry w project_uuid cycle_index st entry = Ok st' ->
  let sub_id := uuid_str (ie_subchapter_id entry) in
  let resolved_ids : gset string := list_to_set (map uuid_str (ie_resolved_feedback entry)) in
  let iteration_id := uuid4 w (draws st) in
  exists l its,
    feedback_map st !! sub_id = Some l
    /\ iterations_map st !! sub_id = Some its
    /\ let feedback := map (stamp_iteration iteration_id) (map (mark_resolved resolved_ids) l) in
       st' = {| draws := S (draws st);
                iterations_map :=
                  <[sub_id := (its ++ [ {| it_id := iteration_id;
                                           it_project_id := project_uuid;
                                           it_subchapter_id := ie_subchapter_id entry;
                                           it_cycle := cycle_index;
                                           it_role := implement_roles cycle_index;
                                           it_word_count := ie_word_count entry;
                                           it_feedback := feedback |} ])%list]>
                    (iterations_map st);
                feedback_map := <[sub_id := feedback]> (feedback_map st);
                word_counts := <[sub_id := ie_word_count entry]> (word_counts st) |}.
Proof.
  unfold implement_entry. intros H.
  apply bind_Ok in H as (l & Hl & H). apply dict_get_Ok in Hl.
  apply bind_Ok in H as ([] & _ & H).
    apply bind_Ok in H as (m & Happ & H). injection H as <-.
  apply dict_append_Ok in Happ as (its & Hits & ->).
  exists l, its. auto.
Qed.

(** A run's invariant, with the cycle of each critic and implementer entry
    known to be one of the cycles run. *)
Lemma run_invariant_in (w : World) (project_uuid : UUID) (I : Locals -> Prop)
    (first_draw : nat) (meta_lookup : list (string * SubchapterMeta))
    (cycles : list nat) (st0 st : Locals) :
  I {| draws := first_draw; iterations_map := empty_lists meta_lookup;
       feedback_map := empty_lists meta_lookup; word_counts := ∅ |} ->
  (forall s e s', I s -> writer_entry w project_uuid s e = Ok s' -> I s') ->
  (forall c s e s', c ∈ cycles -> I s -> critic_entry w project_uuid c s e = Ok s' -> I s') ->
  (forall c s e s', c ∈ cycles -> I s -> implement_entry w project_uuid c s e = Ok s' -> I s') ->
  writer_pass w project_uuid first_draw meta_lookup = Ok st0 ->
  for_each (run_cycle w project_uuid) st0 cycles = Ok st ->
  I st0 /\ I st.
Proof.
  intros Hinit Hwriter Hcritic Himplement Hwp Hcycles.
  assert (H0 : I st0).
  { unfold writer_pass in Hwp.
    apply bind_Ok in Hwp as (writer_batch & _ & Hwp).
    apply bind_Ok in Hwp as ([] & _ & Hwp).
    revert Hwp. apply for_each_invariant; [|exact Hinit].
    intros s e s' _ Hs He. by eapply Hwriter. }
  split; [exact H0|].
  revert Hcycles. apply for_each_invariant; [|exact H0].
  intros s c s' Hc Hs Hcycle. unfold run_cycle in Hcycle.
  apply bind_Ok in Hcycle as (critic_batch & _ & Hcycle).
  apply bind_Ok in Hcycle as (s1 & Hcr & Hcycle).
  apply bind_Ok in Hcycle as (implementation_batch & _ & Hi).
  assert (Hs1 : I s1).
  { revert Hcr. apply for_each_invariant; [|exact Hs].
    intros a e a' _ Ha He. by eapply Hcritic. }
  revert Hi. apply for_each_invariant; [|exact Hs1].
  intros a e a' _ Ha He. by eapply Himplement.
Qed.

(** X1.  A successful run returns one state per requested subchapter id,
    each id once however often the payload repeats it, in reading order: by
    chapter order, then by subchapter order, and, among subchapters at the
    same position, in the order of the lookup table built from the payload. *)
Theorem subchapters_in_reading_order (w : World) (payload : Payload) (res : WritingResult) :
  generate_writing_batch w payload = Ok res ->
  let meta_lookup := build_meta_lookup (payload_subchapters payload) in
  exists sorted_meta,
    Forall2 (fun s item => UUID_ctor w item.1 = Some (st_subchapter_id s))
            (subchapters (batch res)) sorted_meta
    /\ sorted_meta ≡ₚ meta_lookup
    /\ NoDup (map fst meta_lookup)
    /\ (forall sub_id, sub_id ∈ map fst meta_lookup <-> requested payload sub_id)
    /\ StronglySorted reads_before sorted_meta
    /\ (forall position,
          filter (fun item => sort_key item = position) sorted_meta
          = filter (fun item => sort_key item = position) meta_lookup).
Proof.
  intros Hrun meta_lookup.
  apply run_Ok_inv in Hrun
    as (project_uuid & first_draw & st0 & st & states & total & _ & _ & _ & Hasm & ->).
  simpl. exists (sorted_by sort_key meta_lookup).
  split; [|split; [|split; [|split; [|split]]]].
  - eapply assemble_zip in Hasm as (new & -> & Hnew); [exact Hnew|].
    intros states0 total0 item states' total' Hstep.
    apply assemble_state_inv in Hstep as (its & fb & u & _ & _ & Hu & _ & ->).
    eexists. split; [reflexivity | done].
  - apply sorted_by_perm.
  - apply build_meta_lookup_NoDup.
  - intros sub_id. apply build_meta_lookup_keys.
  - eapply strongly_sorted_weaken; [|apply (sorted_by_sorted sort_key)].
    intros a b. apply key_le_reads_before.
  - intros position. apply sorted_by_stable.
Qed.

Lemma subchapters_in_reading_order_witness :
  exists res,
    generate_writing_batch (two_subchapters_world first_note_resolved) two_subchapters
    = Ok res
    /\ exists sorted_meta,
         Forall2 (fun s item => canonical_UUID item.1 = Some (st_subchapter_id s))
                 (subchapters (batch res)) sorted_meta
         /\ sorted_meta ≡ₚ build_meta_lookup (payload_subchapters two_subchapters)
         /\ StronglySorted reads_before sorted_meta.
Proof.
  destruct (generate_writing_batch (two_subchapters_world first_note_resolved)
              two_subchapters) as [res|e] eqn:Hrun;
    [|vm_compute in Hrun; discriminate].
  exists res. split; [reflexivity|].
  destruct (subchapters_in_reading_order _ _ res Hrun)
    as (sorted_meta & Hzip & Hperm & _ & _ & Hsorted & _).
  exists sorted_meta. split; [exact Hzip|]. split; [exact Hperm|exact Hsorted].
Defined.

Lemma seq_lt (c n : nat) : c ∈ seq 0 n -> (c < n)%nat.
Proof. rewrite elem_of_seq. lia. Qed.

Lemma resolve_cycle_count_bounds (raw : option Z) :
  (1 <= resolve_cycle_count raw <= 3)%nat.
Proof. unfold resolve_cycle_count. lia. Qed.

Lemma all_iterations_insert (P : DraftIteration -> Prop) (st : Locals)
    (m : gmap string (list DraftIteration)) (k : string) (its : list DraftIteration)
    (it : DraftIteration) :
  all_iterations P st -> iterations_map st !! k = Some its -> P it ->
  m = <[k := (its ++ [it])%list]> (iterations_map st) ->
  forall k' its', m !! k' = Some its' -> Forall P its'.
Proof.
  intros Hall Hits Hit -> k' its' Hk'.
  destruct (decide (k = k')) as [<-|Hne].
  - rewrite lookup_insert_eq in Hk'. injection Hk' as <-.
    apply Forall_app. split; [by eapply Hall | by constructor].
  - rewrite lookup_insert_ne in Hk' by done. by eapply Hall.
Qed.

Lemma run_in_step (w : World) (project_uuid : UUID) (first_draw : nat)
    (meta_lookup : list (string * SubchapterMeta)) (cycle_count : nat) (st0 st : Locals) :
  writer_pass w project_uuid first_draw meta_lookup = Ok st0 ->
  for_each (run_cycle w project_uuid) st0 (seq 0 cycle_count) = Ok st ->
  all_iterations (in_step cycle_count) st.
Proof.
  intros Hwp Hcycles.
  apply (run_invariant_in w project_uuid (all_iterations (in_step cycle_count))
           first_draw meta_lookup (seq 0 cycle_count) st0 st); try done.
  - intros k its Hk. simpl in Hk. apply empty_lists_lookup in Hk as ->. constructor.
  - intros s e s' Hs He. apply writer_entry_shape in He as (its & Hits & ->).
    intros k' its'. simpl. eapply all_iterations_insert; try done. by left.
  - intros c s e s' Hc Hs He.
    apply critic_entry_shape in He as (its & new & n & Hits & _ & _ & Him & _).
    intros k' its'. rewrite Him. eapply all_iterations_insert; try done.
    right. simpl. split; [by apply seq_lt | by left].
  - intros c s e s' Hc Hs He.
    apply implement_entry_shape in He as (l & its & _ & Hits & ->).
    intros k' its'. simpl. eapply all_iterations_insert; try done.
    right. simpl. split; [by apply seq_lt | by right].
Qed.

Lemma max_cycle_bound (n : nat) (its : list DraftIteration) :
  Forall (fun it => (it_cycle it < n)%nat) its -> (0 < n)%nat -> (max_cycle its < n)%nat.
Proof.
  intros Hall Hn. induction Hall as [|it its Hit _ IH]; simpl; [done|]. lia.
Qed.

Lemma max_cycle_upper (its : list DraftIteration) (it : DraftIteration) :
  it ∈ its -> (it_cycle it <= max_cycle its)%nat.
Proof.
  induction its as [|x xs IH]; intros Hin; [by inversion Hin|].
  simpl. apply elem_of_cons in Hin as [->|Hin]; [lia|]. specialize (IH Hin). lia.
Qed.

(** X2.  The number of cycles of a returned batch is the requested count
    brought into the range 1..3, and 3 when the payload gives none or 0.
    Every subchapter's current cycle is below that number; every iteration
    returned is the writer's draft at cycle 0 or the iteration of the critic
    or the implementer of a cycle below that number, with the role of that
    cycle, and no iteration has a cycle above its subchapter's current one. *)
Theorem cycles_and_roles (w : World) (payload : Payload) (res : WritingResult) :
  generate_writing_batch w payload = Ok res ->
  let n := cycle_count (batch res) in
  (1 <= n <= 3)%nat
  /\ Z.of_nat n = Z.max 1 (Z.min 3 (match payload_cycle_count payload with
                                    | Some 0 | None => 3
                                    | Some c => c
                                    end))
  /\ forall s, s ∈ subchapters (batch res) ->
       (current_cycle s < n)%nat
       /\ forall it, it ∈ iterations s ->
            in_step n it /\ (it_cycle it <= current_cycle s)%nat.
Proof.
  intros Hrun.
  apply run_Ok_inv in Hrun
    as (project_uuid & first_draw & st0 & st & states & total & _ & Hwp & Hcycles & Hasm & ->).
  simpl.
  pose proof (resolve_cycle_count_bounds (payload_cycle_count payload)) as Hb.
  split; [exact Hb|]. split.
  { unfold resolve_cycle_count. rewrite Z2Nat.id by lia.
    destruct (payload_cycle_count payload) as [[|p|p]|]; reflexivity. }
  pose proof (run_in_step _ _ _ _ _ _ _ Hwp Hcycles) as Hstep.
  eapply (assemble_loop w st
            (fun s => (current_cycle s < resolve_cycle_count (payload_cycle_count payload))%nat
                      /\ forall it, it ∈ iterations s ->
                           in_step (resolve_cycle_count (payload_cycle_count payload)) it
                           /\ (it_cycle it <= current_cycle s)%nat))
    in Hasm as [Hall _]; [ | | by constructor | reflexivity].
  - intros s Hs. rewrite Forall_forall in Hall. by apply Hall.
  - intros states0 total0 item states' total' Hone.
    apply assemble_state_inv in Hone as (its & fb & u & Hits & _ & _ & -> & ->).
    eexists. split; [reflexivity|]. simpl. split; [|reflexivity].
    specialize (Hstep _ _ Hits). split.
    + apply max_cycle_bound; [|lia].
      eapply Forall_impl; [exact Hstep|]. intros it [[_ ->]|[? _]]; lia.
    + intros it Hit. split; [|by apply max_cycle_upper].
      rewrite Forall_forall in Hstep. by apply Hstep.
Qed.

Lemma cycles_and_roles_witness :
  exists res,
    generate_writing_batch (two_subchapters_world first_note_resolved) two_subchapters
    = Ok res
    /\ cycle_count (batch res) = 2%nat
    /\ forall s, s ∈ subchapters (batch res) ->
         (current_cycle s < 2)%nat
         /\ forall it, it ∈ iterations s -> in_step 2 it.
Proof.
  destruct (generate_writing_batch (two_subchapters_world first_note_resolved)
              two_subchapters) as [res|e] eqn:Hrun;
    [|vm_compute in Hrun; discriminate].
  exists res. split; [reflexivity|].
  destruct (cycles_and_roles _ _ res Hrun) as (_ & Hcount & Hall).
  assert (Hn : cycle_count (batch res) = 2%nat).
  { change (payload_cycle_count two_subchapters) with (Some 2) in Hcount. lia. }
  split; [exact Hn|]. rewrite Hn in Hall.
  intros s Hs. destruct (Hall s Hs) as [Hcur Hits]. split; [exact Hcur|].
  intros it Hit. exact (proj1 (Hits it Hit)).
Defined.

(** *** The keys of the two maps *)


Lemma empty_lists_dom {V} (meta_lookup : list (string * SubchapterMeta)) :
  dom (empty_lists (V := V) meta_lookup) = list_to_set (map fst meta_lookup).
Proof.
  unfold empty_lists. rewrite dom_list_to_map_L. f_equal.
  rewrite <- list_fmap_compose. done.
Qed.

Lemma dom_insert_present {V} (m : gmap string V) (k : string) (v v' : V) :
  m !! k = Some v -> dom (<[k := v']> m) = dom m.
Proof.
  intros Hk. rewrite dom_insert_L. apply subseteq_union_1_L, singleton_subseteq_l.
  by apply elem_of_dom_2 in Hk.
Qed.

Lemma writer_entry_keys (w : World) (project_uuid : UUID) (K : gset string)
    (st st' : Locals) (entry : WriterDraftEntry) :
  keys_are K st -> writer_entry w project_uuid st entry = Ok st' -> keys_are K st'.
Proof.
  intros [Hi Hf] He. apply writer_entry_shape in He as (its & Hits & ->).
  split; simpl; [|done]. by erewrite dom_insert_present.
Qed.

Lemma critic_entry_keys (w : World) (project_uuid : UUID) (cycle_index : nat)
    (K : gset string) (st st' : Locals) (entry : CritiqueEntry) :
  keys_are K st -> critic_entry w project_uuid cycle_index st entry = Ok st' -> keys_are K st'.
Proof.
  intros [Hi Hf] He.
  apply critic_entry_shape in He as (its & new & n & Hits & _ & _ & Him & _ & Hdom & _).
  split; [|by rewrite Hdom]. rewrite Him. by erewrite dom_insert_present.
Qed.

Lemma implement_entry_keys (w : World) (project_uuid : UUID) (cycle_index : nat)
    (K : gset string) (st st' : Locals) (entry : ImplementationEntry) :
  keys_are K st -> implement_entry w project_uuid cycle_index st entry = Ok st' ->
  keys_are K st'.
Proof.
  intros [Hi Hf] He. apply implement_entry_shape in He as (l & its & Hl & Hits & ->).
  split; simpl; by erewrite dom_insert_present.
Qed.

Lemma run_keys (w : World) (project_uuid : UUID) (first_draw : nat)
    (meta_lookup : list (string * SubchapterMeta)) (cycles : list nat) (st0 st : Locals) :
  writer_pass w project_uuid first_draw meta_lookup = Ok st0 ->
  for_each (run_cycle w project_uuid) st0 cycles = Ok st ->
  keys_are (list_to_set (map fst meta_lookup)) st0
  /\ keys_are (list_to_set (map fst meta_lookup)) st.
Proof.
  apply run_invariant.
  - split; simpl; apply empty_lists_dom.
  - intros s e s'. apply writer_entry_keys.
  - intros c s e s'. apply critic_entry_keys.
  - intros c s e s'. apply implement_entry_keys.
Qed.

Lemma reachable_keys (w : World) (project_uuid : UUID) (st : Locals) :
  reachable w project_uuid st -> dom (feedback_map st) = dom (iterations_map st).
Proof.
  intros Hst.
  assert (exists K, keys_are K st) as (K & -> & ->); [|done].
  induction Hst as [first_draw meta_lookup | st st' entry _ [K IH] Hentry
                    | cycle_index st st' entry _ [K IH] Hentry
                    | cycle_index st st' entry _ [K IH] Hentry].
  - exists (list_to_set (map fst meta_lookup)). split; simpl; apply empty_lists_dom.
  - exists K. by eapply writer_entry_keys.
  - exists K. by eapply critic_entry_keys.
  - exists K. by eapply implement_entry_keys.
Qed.

(** A loop that succeeds ran its body on every element. *)
Lemma for_each_Ok_Forall {A S} (I : S -> Prop) (Q : A -> Prop)
    (body : S -> A -> result S) (xs : list A) :
  (forall st x st', I st -> body st x = Ok st' -> I st' /\ Q x) ->
  forall st st', I st -> for_each body st xs = Ok st' -> I st' /\ Forall Q xs.
Proof.
  intros Hbody. induction xs as [|x xs IH]; intros st st' HI Hrun; simpl in Hrun.
  - injection Hrun as <-. split; [done | constructor].
  - apply bind_Ok in Hrun as (st1 & H1 & H2).
    destruct (Hbody _ _ _ HI H1) as [HI1 HQ].
    destruct (IH _ _ HI1 H2) as [HI' HQs]. split; [done | by constructor].
Qed.

(** The first element on which the body raises ends the loop. *)
Lemma for_each_Raise {A S} (body : S -> A -> result S) (st st1 : S)
    (pre post : list A) (x : A) (e : exn) :
  for_each body st pre = Ok st1 -> body st1 x = Raise e ->
  for_each body st (pre ++ x :: post) = Raise e.
Proof. intros Hpre Hx. rewrite for_each_app, Hpre. simpl. by rewrite Hx. Qed.

Lemma dict_append_missing {V} (d : gmap string (list V)) (k : string) (v : V) :
  d !! k = None -> dict_append d k v = Raise (KeyError k).
Proof. intros H. unfold dict_append, dict_get. by rewrite H. Qed.

Lemma writer_entry_unknown (w : World) (project_uuid : UUID) (st : Locals)
    (entry : WriterDraftEntry) :
  uuid_str (wd_subchapter_id entry) ∉ dom (iterations_map st) ->
  writer_entry w project_uuid st entry
  = if Text.min_length 1 (Text.strip (wd_content entry))
       && Text.max_length 600 (wd_summary entry)
    then Raise (KeyError (uuid_str (wd_subchapter_id entry)))
    else Raise ValidationError.
Proof.
  intros H. apply not_elem_of_dom in H. unfold writer_entry, DraftIteration_texts.
  destruct (Text.min_length 1 _ && Text.max_length 600 _); simpl; [|done].
  by rewrite dict_append_missing.
Qed.

Lemma writer_entry_known (w : World) (project_uuid : UUID) (st : Locals)
    (entry : WriterDraftEntry) :
  uuid_str (wd_subchapter_id entry) ∈ dom (iterations_map st) ->
  DraftIteration_texts (Text.strip (wd_content entry)) (wd_summary entry) = Ok tt ->
  exists st', writer_entry w project_uuid st entry = Ok st'.
Proof.
  intros H Htexts. apply elem_of_dom in H as [its Hits].
  unfold writer_entry, dict_append, dict_get.
  rewrite Htexts, Hits. simpl. eauto.
Qed.

Lemma parse_reply_Ok {A} (what : string) (r : reply A) (a : A) :
  parse_reply what r = Ok a -> r = Parsed a.
Proof. destruct r; simpl; congruence. Qed.

Lemma requested_keys (payload : Payload) (sub_id : string) :
  sub_id ∈ (list_to_set (map fst (build_meta_lookup (payload_subchapters payload)))
              : gset string)
  <-> requested payload sub_id.
Proof. rewrite elem_of_list_to_set. apply build_meta_lookup_keys. Qed.

(** X3.  When a run succeeds, every subchapter id in the writer's batch,
    and in the critic's and the implementer's batch of every cycle that ran,
    is one the payload asked for. *)
Theorem agents_name_requested_subchapters (w : World) (payload : Payload)
    (res : WritingResult) :
  generate_writing_batch w payload = Ok res ->
  (exists writer_batch,
      writer_reply w = Parsed writer_batch
      /\ forall entry, entry ∈ wd_subchapters writer_batch ->
           requested payload (uuid_str (wd_subchapter_id entry)))
  /\ forall cycle_index, (cycle_index < cycle_count (batch res))%nat ->
       (exists critic_batch,
           critic_reply w cycle_index = Parsed critic_batch
           /\ forall entry, entry ∈ ce_subchapters critic_batch ->
                requested payload (uuid_str (ce_subchapter_id entry)))
       /\ (exists implementation_batch,
              implementer_reply w cycle_index = Parsed implementation_batch
              /\ forall entry, entry ∈ ie_subchapters implementation_batch ->
                   requested payload (uuid_str (ie_subchapter_id entry))).
Proof.
  remember (list_to_set (map fst (build_meta_lookup (payload_subchapters payload)))
            : gset string) as K eqn:HK.
  intros Hrun.
  apply run_Ok_inv in Hrun
    as (project_uuid & first_draw & st0 & st & states & total & _ & Hwp & Hcycles & _ & ->).
  simpl.
  assert (Hkey : forall s k (v : list DraftIteration),
             keys_are K s -> iterations_map s !! k = Some v -> requested payload k).
  { intros s k v [Hd _] Hk. apply requested_keys. rewrite <- HK, <- Hd.
    by apply elem_of_dom_2 in Hk. }
  split.
  - unfold writer_pass in Hwp.
    apply bind_Ok in Hwp as (writer_batch & Hreply & Hwp).
    apply parse_reply_Ok in Hreply.
    apply bind_Ok in Hwp as ([] & _ & Hwp).
    exists writer_batch. split; [done|].
    apply (for_each_Ok_Forall (keys_are K)
             (fun entry => requested payload (uuid_str (wd_subchapter_id entry))))
      in Hwp as [_ Hall].
    + intros entry Hentry. rewrite Forall_forall in Hall. by apply Hall.
    + intros s e s' Hs He. split; [by eapply writer_entry_keys|].
      apply writer_entry_shape in He as (its & Hits & _). by eapply Hkey.
    + rewrite HK. split; simpl; apply empty_lists_dom.
  - pose proof (run_keys _ _ _ _ _ _ _ Hwp Hcycles) as [Hk0 _]. rewrite <- HK in Hk0.
    apply (for_each_Ok_Forall (keys_are K)
             (fun c =>
                (exists critic_batch,
                    critic_reply w c = Parsed critic_batch
                    /\ forall entry, entry ∈ ce_subchapters critic_batch ->
                         requested payload (uuid_str (ce_subchapter_id entry)))
                /\ (exists implementation_batch,
                       implementer_reply w c = Parsed implementation_batch
                       /\ forall entry, entry ∈ ie_subchapters implementation_batch ->
                            requested payload (uuid_str (ie_subchapter_id entry)))))
      in Hcycles as [_ Hall]; [ | | exact Hk0].
    + intros c Hc. rewrite Forall_forall in Hall. apply Hall. apply elem_of_seq. lia.
    + intros s c s' Hs Hcycle. unfold run_cycle in Hcycle.
      apply bind_Ok in Hcycle as (critic_batch & Hcr & Hcycle).
      apply parse_reply_Ok in Hcr.
      apply bind_Ok in Hcycle as (s1 & Hc1 & Hcycle).
      apply bind_Ok in Hcycle as (implementation_batch & Hir & Hi).
      apply parse_reply_Ok in Hir.
      apply (for_each_Ok_Forall (keys_are K)
               (fun entry => requested payload (uuid_str (ce_subchapter_id entry))))
        in Hc1 as [Hs1 Hcall]; [ | | exact Hs].
      2:{ intros a e a' Ha He. split; [by eapply critic_entry_keys|].
          apply critic_entry_shape in He as (its & new & n & Hits & _). by eapply Hkey. }
      apply (for_each_Ok_Forall (keys_are K)
               (fun entry => requested payload (uuid_str (ie_subchapter_id entry))))
        in Hi as [Hs' Hiall]; [ | | exact Hs1].
      2:{ intros a e a' Ha He. split; [by eapply implement_entry_keys|].
          apply implement_entry_shape in He as (l & its & _ & Hits & _). by eapply Hkey. }
      split; [done|]. split.
      * exists critic_batch. split; [done|]. intros e He.
        rewrite Forall_forall in Hcall. by apply Hcall.
      * exists implementation_batch. split; [done|]. intros e He.
        rewrite Forall_forall in Hiall. by apply Hiall.
Qed.

Lemma agents_name_requested_subchapters_witness :
  exists res,
    generate_writing_batch (two_subchapters_world first_note_resolved) two_subchapters
    = Ok res
    /\ exists writer_batch,
         writer_reply (two_subchapters_world first_note_resolved) = Parsed writer_batch
         /\ forall entry, entry ∈ wd_subchapters writer_batch ->
              requested two_subchapters (uuid_str (wd_subchapter_id entry)).
Proof.
  destruct (generate_writing_batch (two_subchapters_world first_note_resolved)
              two_subchapters) as [res|e] eqn:Hrun;
    [|vm_compute in Hrun; discriminate].
  exists res. split; [reflexivity|].
  exact (proj1 (agents_name_requested_subchapters _ _ res Hrun)).
Defined.

Lemma writer_loop_known (w : World) (project_uuid : UUID) (K : gset string)
    (entries : list WriterDraftEntry) (st : Locals) :
  keys_are K st ->
  (forall entry, entry ∈ entries ->
     uuid_str (wd_subchapter_id entry) ∈ K
     /\ DraftIteration_texts (Text.strip (wd_content entry)) (wd_summary entry) = Ok tt) ->
  exists st', for_each (writer_entry w project_uuid) st entries = Ok st' /\ keys_are K st'.
Proof.
  revert st. induction entries as [|e es IH]; intros st Hst Hall; simpl.
  - eauto.
  - destruct (writer_entry_known w project_uuid st e) as [st1 H1].
    { destruct Hst as [-> _]. apply Hall. by left. }
    { apply Hall. by left. }
    rewrite H1. simpl. apply IH; [by eapply writer_entry_keys|].
    intros entry Hentry. apply Hall. by right.
Qed.

(** X4.  A writer batch that drafts every requested subchapter and also
    one nobody asked for makes the run fail at the first such entry, the
    entries before it being requested and their texts valid: the iteration
    is built first, so a draft that is blank once stripped, or a summary of
    more than 600 characters, raises pydantic's [ValidationError]; otherwise
    the run fails with a [KeyError] that names the id.  The entry is not
    skipped. *)
Theorem unrequested_subchapter_raises_KeyError (w : World) (payload : Payload)
    (writer_batch : WriterDraftBatch) (pre post : list WriterDraftEntry)
    (entry : WriterDraftEntry) :
  writer_reply w = Parsed writer_batch ->
  (forall sub_id, requested payload sub_id -> drafted writer_batch sub_id) ->
  wd_subchapters writer_batch = (pre ++ entry :: post)%list ->
  (forall e, e ∈ pre ->
     requested payload (uuid_str (wd_subchapter_id e))
     /\ DraftIteration_texts (Text.strip (wd_content e)) (wd_summary e) = Ok tt) ->
  ~ requested payload (uuid_str (wd_subchapter_id entry)) ->
  generate_writing_batch w payload
  = if Text.min_length 1 (Text.strip (wd_content entry))
       && Text.max_length 600 (wd_summary entry)
    then Raise (KeyError (uuid_str (wd_subchapter_id entry)))
    else Raise ValidationError.
Proof.
  intros Hreply Hdrafted Hsplit Hpre Hnot.
  unfold generate_writing_batch.
  destruct (resolve_project_uuid w (payload_project_id payload)) as [project_uuid first_draw].
  unfold writer_pass. rewrite Hreply. simpl.
  assert (Hcheck : check_missing (build_meta_lookup (payload_subchapters payload)) writer_batch
                   = Ok tt).
  { apply check_missing_Ok. intros sub_id Hsub. apply writer_ids_drafted, Hdrafted.
    by apply build_meta_lookup_keys. }
  rewrite Hcheck. simpl. rewrite Hsplit.
  set (K := list_to_set (map fst (build_meta_lookup (payload_subchapters payload)))
            : gset string).
  destruct (writer_loop_known w project_uuid K pre
              {| draws := first_draw;
                 iterations_map := empty_lists (build_meta_lookup (payload_subchapters payload));
                 feedback_map := empty_lists (build_meta_lookup (payload_subchapters payload));
                 word_counts := ∅ |}) as (st1 & Hrun & [Hd _]).
  { split; simpl; apply empty_lists_dom. }
  { intros e He. destruct (Hpre e He) as [Hreq Htexts]. split; [|done].
    by apply requested_keys. }
  assert (Hentry := writer_entry_unknown w project_uuid st1 entry).
  rewrite Hd in Hentry.
  specialize (Hentry ltac:(intros Hin; by apply Hnot, requested_keys)).
  destruct (Text.min_length 1 (Text.strip (wd_content entry))
            && Text.max_length 600 (wd_summary entry));
    (erewrite for_each_Raise; [done | exact Hrun | exact Hentry]).
Qed.

Lemma unrequested_subchapter_raises_KeyError_witness :
  generate_writing_batch stray_world (sample_payload None 1)
  = Raise (KeyError stray_sub)
  /\ generate_writing_batch blank_stray_world (sample_payload None 1)
     = Raise ValidationError.
Proof.
  split.
  - apply (unrequested_subchapter_raises_KeyError stray_world (sample_payload None 1)
             {| wd_subchapters := [ sample_draft sample_sub (Some 240%N);
                                    sample_draft stray_sub (Some 10%N) ] |}
             [ sample_draft sample_sub (Some 240%N) ] []
             (sample_draft stray_sub (Some 10%N))).
    + reflexivity.
    + intros sub_id [_ (item & Hitem & <-)].
      apply list_elem_of_singleton in Hitem as ->.
      eexists. split; [by left|reflexivity].
    + reflexivity.
    + intros e He. apply list_elem_of_singleton in He as ->.
      split; [|reflexivity].
      split; [discriminate|]. eexists. split; [by left|reflexivity].
    + intros [_ (item & Hitem & Heq)].
      apply list_elem_of_singleton in Hitem as ->. discriminate.
  - apply (unrequested_subchapter_raises_KeyError blank_stray_world (sample_payload None 1)
             {| wd_subchapters := [ sample_draft sample_sub (Some 240%N);
                                    blank_draft stray_sub ] |}
             [ sample_draft sample_sub (Some 240%N) ] []
             (blank_draft stray_sub)).
    + reflexivity.
    + intros sub_id [_ (item & Hitem & <-)].
      apply list_elem_of_singleton in Hitem as ->.
      eexists. split; [by left|reflexivity].
    + reflexivity.
    + intros e He. apply list_elem_of_singleton in He as ->.
      split; [|reflexivity].
      split; [discriminate|]. eexists. split; [by left|reflexivity].
    + intros [_ (item & Hitem & Heq)].
      apply list_elem_of_singleton in Hitem as ->. discriminate.
Defined.

(** An invariant of the critic and implementer entries is an invariant of
    the cycles. *)
Lemma cycles_invariant (w : World) (project_uuid : UUID) (I : Locals -> Prop)
    (cycles : list nat) (st0 st : Locals) :
  (forall c s e s', I s -> critic_entry w project_uuid c s e = Ok s' -> I s') ->
  (forall c s e s', I s -> implement_entry w project_uuid c s e = Ok s' -> I s') ->
  I st0 ->
  for_each (run_cycle w project_uuid) st0 cycles = Ok st ->
  I st.
Proof.
  intros Hcritic Himplement H0 Hcycles.
  revert Hcycles. apply for_each_invariant; [|exact H0].
  intros s c s' _ Hs Hcycle. unfold run_cycle in Hcycle.
  apply bind_Ok in Hcycle as (critic_batch & _ & Hcycle).
  apply bind_Ok in Hcycle as (s1 & Hcr & Hcycle).
  apply bind_Ok in Hcycle as (implementation_batch & _ & Hi).
  assert (Hs1 : I s1).
  { revert Hcr. apply for_each_invariant; [|exact Hs].
    intros a e a' _ Ha He. by eapply Hcritic. }
  revert Hi. apply for_each_invariant; [|exact Hs1].
  intros a e a' _ Ha He. by eapply Himplement.
Qed.

(** *** Every subchapter opens with the writer's draft *)

Lemma starts_with_draft_snoc (its : list DraftIteration) (it : DraftIteration) :
  starts_with_draft its -> starts_with_draft (its ++ [it]).
Proof. intros (x & rest & -> & H). exists x, (rest ++ [it])%list. done. Qed.

Lemma writer_loop_drafts (w : World) (project_uuid : UUID)
    (entries : list WriterDraftEntry) (st st' : Locals) :
  for_each (writer_entry w project_uuid) st entries = Ok st' ->
  (forall k its, iterations_map st !! k = Some its -> its = [] \/ starts_with_draft its) ->
  forall k its', iterations_map st' !! k = Some its' ->
    (forall entry, entry ∈ entries -> uuid_str (wd_subchapter_id entry) <> k)
    \/ starts_with_draft its'.
Proof.
  revert st. induction entries as [|e es IH]; intros st Hrun Hst k its' Hk; simpl in Hrun.
  - left. intros entry Hentry. by inversion Hentry.
  - apply bind_Ok in Hrun as (st1 & H1 & Hrun).
    apply writer_entry_shape in H1 as (its & Hits & ->).
    set (it := {| it_id := uuid4 w (draws st); it_project_id := project_uuid;
                  it_subchapter_id := wd_subchapter_id e; it_cycle := 0;
                  it_role := WRITER_INITIAL; it_word_count := wd_word_count e;
                  it_feedback := [] |}) in *.
    assert (Hnew : starts_with_draft (its ++ [it])).
    { destruct (Hst _ _ Hits) as [->|Hs]; [|by apply starts_with_draft_snoc].
      exists it, []. done. }
    assert (Hst1 : forall k0 its0,
               <[uuid_str (wd_subchapter_id e) := (its ++ [it])%list]> (iterations_map st) !! k0
               = Some its0 -> its0 = [] \/ starts_with_draft its0).
    { intros k0 its0 Hk0. destruct (decide (uuid_str (wd_subchapter_id e) = k0)) as [<-|Hne].
      - rewrite lookup_insert_eq in Hk0. injection Hk0 as <-. by right.
      - rewrite lookup_insert_ne in Hk0 by done. by eapply Hst. }
    destruct (IH _ Hrun Hst1 k its' Hk) as [Hnone|Hs]; [|by right].
    destruct (decide (uuid_str (wd_subchapter_id e) = k)) as [<-|Hne].
    + right.
      (* the list of this key after the remaining entries *)
      assert (Hkeep : forall es0 s s', for_each (writer_entry w project_uuid) s es0 = Ok s' ->
                forall k0 l, iterations_map s !! k0 = Some l -> starts_with_draft l ->
                exists l', iterations_map s' !! k0 = Some l' /\ starts_with_draft l').
      { clear. induction es0 as [|e0 es0 IH0]; intros s s' Hr k0 l Hl Hd; simpl in Hr.
        - injection Hr as <-. eauto.
        - apply bind_Ok in Hr as (s1 & H1 & Hr).
          apply writer_entry_shape in H1 as (its & Hits & ->).
          destruct (decide (uuid_str (wd_subchapter_id e0) = k0)) as [<-|Hne].
          + eapply IH0; [exact Hr | simpl; apply lookup_insert_eq |].
            rewrite Hits in Hl. injection Hl as <-. by apply starts_with_draft_snoc.
          + eapply IH0; [exact Hr | simpl; by rewrite lookup_insert_ne | done]. }
      destruct (Hkeep _ _ _ Hrun (uuid_str (wd_subchapter_id e)) (its ++ [it])%list)
        as (l' & Hl' & Hd'); [simpl; apply lookup_insert_eq | done |].
      rewrite Hk in Hl'. by injection Hl' as <-.
    + left. intros entry Hentry. apply elem_of_cons in Hentry as [->|Hentry]; [done|].
      by apply Hnone.
Qed.

Lemma writer_pass_drafts (w : World) (project_uuid : UUID) (first_draw : nat)
    (meta_lookup : list (string * SubchapterMeta)) (st0 : Locals) :
  writer_pass w project_uuid first_draw meta_lookup = Ok st0 ->
  forall k its, iterations_map st0 !! k = Some its -> starts_with_draft its.
Proof.
  intros Hwp k its Hk.
  assert (Hkeys : keys_are (list_to_set (map fst meta_lookup)) st0).
  { eapply (run_keys w project_uuid first_draw meta_lookup [] st0 st0); done. }
  unfold writer_pass in Hwp.
  apply bind_Ok in Hwp as (writer_batch & _ & Hwp).
  apply bind_Ok in Hwp as ([] & Hcheck & Hwp).
  eapply writer_loop_drafts in Hwp as [Hnone|Hd]; [ | done | | exact Hk].
  - exfalso.
    assert (Hin : k ∈ map fst meta_lookup).
    { destruct Hkeys as [Hd _]. apply elem_of_dom_2 in Hk. rewrite Hd in Hk.
      by apply elem_of_list_to_set in Hk. }
    apply (proj1 (check_missing_Ok _ _) Hcheck) in Hin.
    apply writer_ids_drafted in Hin as (entry & Hentry & Hsub).
    by apply (Hnone entry).
  - intros k0 its0 Hk0. simpl in Hk0. apply empty_lists_lookup in Hk0. by left.
Qed.

Lemma run_drafts (w : World) (project_uuid : UUID) (first_draw : nat)
    (meta_lookup : list (string * SubchapterMeta)) (cycles : list nat) (st0 st : Locals) :
  writer_pass w project_uuid first_draw meta_lookup = Ok st0 ->
  for_each (run_cycle w project_uuid) st0 cycles = Ok st ->
  forall k its, iterations_map st !! k = Some its -> starts_with_draft its.
Proof.
  intros Hwp Hcycles.
  apply (cycles_invariant w project_uuid
           (fun s => forall k its, iterations_map s !! k = Some its -> starts_with_draft its)
           cycles st0 st); try done.
  - intros c s e s' Hs He.
    apply critic_entry_shape in He as (its & new & n & Hits & _ & _ & Him & _).
    intros k its'. rewrite Him.
    destruct (decide (uuid_str (ce_subchapter_id e) = k)) as [<-|Hne].
    + rewrite lookup_insert_eq. intros [= <-]. apply starts_with_draft_snoc. by eapply Hs.
    + rewrite lookup_insert_ne by done. apply Hs.
  - intros c s e s' Hs He.
    apply implement_entry_shape in He as (l & its & _ & Hits & ->).
    intros k its'. simpl.
    destruct (decide (uuid_str (ie_subchapter_id e) = k)) as [<-|Hne].
    + rewrite lookup_insert_eq. intros [= <-]. apply starts_with_draft_snoc. by eapply Hs.
    + rewrite lookup_insert_ne by done. apply Hs.
  - by eapply writer_pass_drafts.
Qed.

(** X5.  In a returned batch the iterations of every subchapter open with
    the writer's draft (cycle 0, no feedback attached), no subchapter is left
    in status draft, and the final iteration id of a subchapter is the id of
    its last iteration. *)
Theorem every_subchapter_opens_with_draft (w : World) (payload : Payload)
    (res : WritingResult) :
  generate_writing_batch w payload = Ok res ->
  forall s, s ∈ subchapters (batch res) ->
    starts_with_draft (iterations s)
    /\ status s <> draft
    /\ exists it, last (iterations s) = Some it /\ final_iteration_id s = Some (it_id it).
Proof.
  intros Hrun.
  apply run_Ok_inv in Hrun
    as (project_uuid & first_draw & st0 & st & states & total & _ & Hwp & Hcycles & Hasm & ->).
  simpl.
  assert (Hd : forall k its, iterations_map st !! k = Some its -> starts_with_draft its).
  { by eapply run_drafts. }
  eapply (assemble_loop w st
            (fun s => starts_with_draft (iterations s)
                      /\ status s <> draft
                      /\ exists it, last (iterations s) = Some it
                                    /\ final_iteration_id s = Some (it_id it)))
    in Hasm as [Hall _]; [ | | by constructor | reflexivity].
  - intros s Hs. rewrite Forall_forall in Hall. by apply Hall.
  - intros states0 total0 item states' total' Hone.
    apply assemble_state_inv in Hone as (its & fb & u & Hits & _ & _ & -> & ->).
    eexists. split; [reflexivity|]. simpl. split; [|reflexivity].
    pose proof (Hd _ _ Hits) as Hstart. split; [done|].
    assert (Hlast : exists it, last its = Some it).
    { destruct Hstart as (x & rest & -> & _).
      destruct (last (x :: rest)) as [it|] eqn:E; [eauto|].
      apply last_None in E. discriminate. }
    destruct Hlast as [it Hlast]. split.
    + destruct Hstart as (x & rest & -> & _). by destruct (filter _ fb).
    + exists it. by rewrite Hlast.
Qed.

Lemma every_subchapter_opens_with_draft_witness :
  exists res,
    generate_writing_batch (two_subchapters_world first_note_resolved) two_subchapters
    = Ok res
    /\ forall s, s ∈ subchapters (batch res) ->
         starts_with_draft (iterations s)
         /\ status s <> draft
         /\ exists it, last (iterations s) = Some it
                       /\ final_iteration_id s = Some (it_id it).
Proof.
  destruct (generate_writing_batch (two_subchapters_world first_note_resolved)
              two_subchapters) as [res|e] eqn:Hrun;
    [|vm_compute in Hrun; discriminate].
  exists res. split; [reflexivity|].
  exact (every_subchapter_opens_with_draft _ _ res Hrun).
Defined.

Lemma lookup_record {V} (m : gmap string (list V)) (k k1 : string) (l l1 : list V)
    (v x : V) (i : nat) :
  m !! k = Some l ->
  <[k := (l ++ [v])%list]> m !! k1 = Some l1 -> l1 !! i = Some x ->
  (exists l0, m !! k1 = Some l0 /\ l0 !! i = Some x)
  \/ (k1 = k /\ i = length l /\ x = v).
Proof.
  intros Hl Hk1 Hi. destruct (decide (k = k1)) as [<-|Hne].
  - rewrite lookup_insert_eq in Hk1. injection Hk1 as <-.
    apply lookup_app_Some in Hi as [Hi|[Hlen Hi]].
    + left. eauto.
    + right. apply list_lookup_singleton_Some in Hi as [Hz ->].
      split; [done|]. split; [lia | done].
  - rewrite lookup_insert_ne in Hk1 by done. left. eauto.
Qed.

Lemma fresh_ids_record (w : World) (st st' : Locals) (k : string)
    (its : list DraftIteration) (it : DraftIteration) (n : nat) :
  Inj (=) (=) (uuid4 w) ->
  fresh_ids w st ->
  iterations_map st !! k = Some its ->
  iterations_map st' = <[k := (its ++ [it])%list]> (iterations_map st) ->
  it_id it = uuid4 w n -> (draws st <= n < draws st')%nat ->
  fresh_ids w st'.
Proof.
  intros Hinj [Hdrawn Honce] Hits Him Hid Hn. split.
  - intros k1 its1 it1 Hk1 Hin. rewrite Him in Hk1.
    apply list_elem_of_lookup in Hin as [i Hi].
    destruct (lookup_record _ _ _ _ _ _ _ _ Hits Hk1 Hi) as [(l0 & Hl0 & Hi0)|(_ & _ & ->)].
    + destruct (Hdrawn k1 l0 it1 Hl0) as (m & Hm & Hidm); [by eapply list_elem_of_lookup_2|].
      exists m. split; [lia | done].
    + exists n. split; [lia | done].
  - intros k1 k2 its1 its2 i j it1 it2 Hk1 Hk2 Hi Hj Heq. rewrite Him in Hk1, Hk2.
    destruct (lookup_record _ _ _ _ _ _ _ _ Hits Hk1 Hi) as [(l1 & Hl1 & Hi1)|(-> & -> & ->)];
      destruct (lookup_record _ _ _ _ _ _ _ _ Hits Hk2 Hj) as [(l2 & Hl2 & Hj2)|(-> & -> & ->)].
    + by eapply Honce.
    + exfalso. destruct (Hdrawn k1 l1 it1 Hl1) as (m & Hm & Hidm);
        [by eapply list_elem_of_lookup_2|].
      rewrite Hidm, Hid in Heq. apply Hinj in Heq. lia.
    + exfalso. destruct (Hdrawn k2 l2 it2 Hl2) as (m & Hm & Hidm);
        [by eapply list_elem_of_lookup_2|].
      rewrite Hidm, Hid in Heq. apply Hinj in Heq. lia.
    + done.
Qed.

Lemma run_fresh_ids (w : World) (project_uuid : UUID) (first_draw : nat)
    (meta_lookup : list (string * SubchapterMeta)) (cycles : list nat) (st0 st : Locals) :
  Inj (=) (=) (uuid4 w) ->
  writer_pass w project_uuid first_draw meta_lookup = Ok st0 ->
  for_each (run_cycle w project_uuid) st0 cycles = Ok st ->
  fresh_ids w st.
Proof.
  intros Hinj Hwp Hcycles.
  apply (run_invariant w project_uuid (fresh_ids w) first_draw meta_lookup cycles st0 st);
    try done.
  - split.
    + intros k its it Hk Hin. simpl in Hk. apply empty_lists_lookup in Hk as ->.
      by inversion Hin.
    + intros k1 k2 its1 its2 i j it1 it2 Hk1 _ Hi. simpl in Hk1.
      apply empty_lists_lookup in Hk1 as ->. done.
  - intros s e s' Hs He. apply writer_entry_shape in He as (its & Hits & ->).
    eapply (fresh_ids_record w s _ _ its _ (draws s)); try done. simpl. lia.
  - intros c s e s' Hs He.
    apply critic_entry_shape in He as (its & new & n & Hits & Hle & Hd & Him & _).
    eapply (fresh_ids_record w s s' _ its _ n); try done. lia.
  - intros c s e s' Hs He.
    apply implement_entry_shape in He as (l & its & _ & Hits & ->).
    eapply (fresh_ids_record w s _ _ its _ (draws s)); try done. simpl. lia.
Qed.

Lemma elem_of_concat {A} (x : A) (ls : list (list A)) :
  x ∈ concat ls <-> exists l, x ∈ l /\ l ∈ ls.
Proof.
  induction ls as [|l0 ls IH]; simpl.
  - split; [intros H; by inversion H | intros (l & _ & H); by inversion H].
  - rewrite elem_of_app, IH. split.
    + intros [H|(l & Hx & Hl)]; [exists l0; split; [done | by left] | exists l; split; [done | by right]].
    + intros (l & Hx & Hl). apply elem_of_cons in Hl as [->|Hl]; [by left | right; eauto].
Qed.

Lemma NoDup_concat_pairwise {A} (ls : list (list A)) :
  (forall p1 p2 l1 l2 i j x,
      ls !! p1 = Some l1 -> ls !! p2 = Some l2 -> l1 !! i = Some x -> l2 !! j = Some x ->
      p1 = p2 /\ i = j) ->
  NoDup (concat ls).
Proof.
  induction ls as [|l ls IH]; intros Hpair; simpl; [constructor|].
  apply NoDup_app. split; [|split].
  - apply NoDup_alt. intros i j x Hi Hj.
    by destruct (Hpair 0%nat 0%nat l l i j x eq_refl eq_refl Hi Hj).
  - intros x Hx Hin. apply list_elem_of_lookup in Hx as [i Hi].
    apply elem_of_concat in Hin as (l' & Hxl' & Hl').
    apply list_elem_of_lookup in Hl' as [p Hp]. apply list_elem_of_lookup in Hxl' as [j Hj].
    by destruct (Hpair 0%nat (S p) l l' i j x eq_refl Hp Hi Hj).
  - apply IH. intros p1 p2 l1 l2 i j x Hp1 Hp2 Hi Hj.
    destruct (Hpair (S p1) (S p2) l1 l2 i j x Hp1 Hp2 Hi Hj) as [Hp ->].
    split; [lia | done].
Qed.

(** X6.  As long as the entropy source never repeats a value, no two
    iterations of a returned batch share an id, within a subchapter or across
    subchapters; and every iteration id is a draw of that source. *)
Theorem iteration_ids_are_fresh (w : World) (payload : Payload) (res : WritingResult) :
  Inj (=) (=) (uuid4 w) ->
  generate_writing_batch w payload = Ok res ->
  NoDup (concat (map (fun s => map it_id (iterations s)) (subchapters (batch res))))
  /\ forall s it, s ∈ subchapters (batch res) -> it ∈ iterations s ->
       exists n, it_id it = uuid4 w n.
Proof.
  intros Hinj Hrun.
  apply run_Ok_inv in Hrun
    as (project_uuid & first_draw & st0 & st & states & total & _ & Hwp & Hcycles & Hasm & ->).
  simpl.
  pose proof (run_fresh_ids _ _ _ _ _ _ _ Hinj Hwp Hcycles) as [Hdrawn Honce].
  eapply assemble_zip
    with (R := fun s item => iterations_map st !! item.1 = Some (iterations s))
    in Hasm as (new & -> & Hzip).
  2:{ intros states0 total0 item states' total' Hone.
      apply assemble_state_inv in Hone as (its & fb & u & Hits & _ & _ & _ & ->).
      eexists. split; [reflexivity | done]. }
  simpl.
  set (sorted_meta := sorted_by sort_key (build_meta_lookup (payload_subchapters payload))) in *.
  assert (Hnodup : NoDup (map fst sorted_meta)).
  { unfold sorted_meta. rewrite (sorted_by_perm sort_key).
    apply build_meta_lookup_NoDup. }
  split.
  - apply NoDup_concat_pairwise.
    intros p1 p2 l1 l2 i j x Hp1 Hp2 Hi Hj.
    rewrite list_lookup_fmap in Hp1, Hp2.
    destruct (new !! p1) as [s1|] eqn:Hs1; [|done].
    destruct (new !! p2) as [s2|] eqn:Hs2; [|done].
    injection Hp1 as <-. injection Hp2 as <-.
    rewrite list_lookup_fmap in Hi, Hj.
    destruct (iterations s1 !! i) as [it1|] eqn:Hit1; [|done].
    destruct (iterations s2 !! j) as [it2|] eqn:Hit2; [|done].
    injection Hi as Hx1. injection Hj as Hx2.
    destruct (Forall2_lookup_l _ _ _ _ _ Hzip Hs1) as (item1 & Hitem1 & Hk1).
    destruct (Forall2_lookup_l _ _ _ _ _ Hzip Hs2) as (item2 & Hitem2 & Hk2).
    destruct (Honce _ _ _ _ _ _ _ _ Hk1 Hk2 Hit1 Hit2) as [Hkeys ->]; [congruence|].
    split; [|done].
    eapply NoDup_lookup; [exact Hnodup | |].
    + rewrite list_lookup_fmap, Hitem1. reflexivity.
    + rewrite list_lookup_fmap, Hitem2. simpl. by rewrite Hkeys.
  - intros s it Hs Hit.
    apply list_elem_of_lookup in Hs as [p Hp].
    destruct (Forall2_lookup_l _ _ _ _ _ Hzip Hp) as (item & _ & Hk).
    destruct (Hdrawn _ _ _ Hk Hit) as (n & _ & Hn). eauto.
Qed.

Lemma counting_uuid4_inj : Inj (=) (=) counting_uuid4.
Proof.
  intros a b H. unfold counting_uuid4 in H.
  by apply CacheTheory.append_inv_head, (inj pretty) in H.
Qed.

Lemma iteration_ids_are_fresh_witness :
  exists res,
    generate_writing_batch (two_subchapters_world first_note_resolved) two_subchapters
    = Ok res
    /\ NoDup (concat (map (fun s => map it_id (iterations s)) (subchapters (batch res)))).
Proof.
  destruct (generate_writing_batch (two_subchapters_world first_note_resolved)
              two_subchapters) as [res|e] eqn:Hrun;
    [|vm_compute in Hrun; discriminate].
  exists res. split; [reflexivity|].
  exact (proj1 (iteration_ids_are_fresh (two_subchapters_world first_note_resolved)
                  two_subchapters res counting_uuid4_inj Hrun)).
Defined.

Lemma linked_snoc (its : list DraftIteration) (it : DraftIteration) (f : DraftFeedbackItem) :
  linked its f -> linked (its ++ [it]) f.
Proof.
  unfold linked. destruct (addressed f); [|done].
  intros (x & Hx & H). exists x. split; [|done]. apply elem_of_app. by left.
Qed.

Lemma linked_fresh (its : list DraftIteration) (f : DraftFeedbackItem) :
  addressed f = false -> addressed_in_iteration f = None -> linked its f.
Proof. unfold linked. by intros -> ->. Qed.

Lemma implement_role_is_implementer (cycle_index : nat) :
  is_implementer (implement_roles cycle_index) = true.
Proof. by destruct cycle_index as [|[|?]]. Qed.

Lemma linked_resolved (its : list DraftIteration) (it : DraftIteration)
    (resolved_ids : gset string) (f : DraftFeedbackItem) :
  is_implementer (it_role it) = true ->
  linked its f ->
  linked (its ++ [it]) (stamp_iteration (it_id it) (mark_resolved resolved_ids f)).
Proof.
  intros Hrole Hf. unfold mark_resolved. case_decide.
  - unfold stamp_iteration, linked. simpl. exists it.
    split; [apply elem_of_app; right; by left | done].
  - apply linked_snoc.
    unfold stamp_iteration. unfold linked in Hf.
    destruct (addressed f) eqn:Ha; [|by unfold linked; rewrite Ha].
    destruct Hf as (x & Hx & Hstamp & Hr). rewrite Hstamp.
    unfold linked. rewrite Ha. eauto.
Qed.

(** Appending an iteration whose snapshot is linked keeps a list linked. *)
Lemma all_linked_record (st st' : Locals) (k : string) (its : list DraftIteration)
    (it : DraftIteration) (fb' : list DraftFeedbackItem) :
  all_linked st ->
  iterations_map st !! k = Some its ->
  iterations_map st' = <[k := (its ++ [it])%list]> (iterations_map st) ->
  Forall (linked (its ++ [it])) (it_feedback it) ->
  (forall k' fb0, k' <> k -> feedback_map st' !! k' = Some fb0 ->
                  feedback_map st !! k' = Some fb0) ->
  (forall fb0, feedback_map st' !! k = Some fb0 -> Forall (linked (its ++ [it])) fb0) ->
  all_linked st'.
Proof.
  intros Hst Hits Him Hsnap Hother Hthis k' its' Hk'. rewrite Him in Hk'.
  destruct (decide (k = k')) as [<-|Hne].
  - rewrite lookup_insert_eq in Hk'. injection Hk' as <-.
    destruct (Hst _ _ Hits) as [Hold _]. split; [|exact Hthis].
    apply Forall_app. split; [|by constructor].
    eapply Forall_impl; [exact Hold|]. intros x Hx.
    eapply Forall_impl; [exact Hx|]. intros f. apply linked_snoc.
  - rewrite lookup_insert_ne in Hk' by done.
    destruct (Hst _ _ Hk') as [Hold Hfb]. split; [done|].
    intros fb0 Hfb0. apply Hfb. by apply Hother.
Qed.

Lemma run_all_linked (w : World) (project_uuid : UUID) (first_draw : nat)
    (meta_lookup : list (string * SubchapterMeta)) (cycles : list nat) (st0 st : Locals) :
  writer_pass w project_uuid first_draw meta_lookup = Ok st0 ->
  for_each (run_cycle w project_uuid) st0 cycles = Ok st ->
  all_linked st.
Proof.
  intros Hwp Hcycles.
  apply (run_invariant w project_uuid all_linked first_draw meta_lookup cycles st0 st);
    try done.
  - intros k its Hk. simpl in Hk. apply empty_lists_lookup in Hk as ->.
    split; [constructor|]. intros fb Hfb. simpl in Hfb.
    apply empty_lists_lookup in Hfb as ->. constructor.
  - intros s e s' Hs He. apply writer_entry_shape in He as (its & Hits & ->).
    eapply all_linked_record; try done.
    + constructor.
    + intros fb0 Hfb0. simpl in Hfb0. destruct (Hs _ _ Hits) as [_ Hfb].
      eapply Forall_impl; [by apply Hfb|]. intros f. apply linked_snoc.
  - intros c s e s' Hs He.
    apply critic_entry_shape in He
      as (its & new & n & Hits & _ & _ & Him & _ & _ & Hfb & Hnew).
    eapply all_linked_record; try done.
    + simpl. eapply Forall_impl; [exact Hnew|]. intros f (Ha & Hs0 & _).
      by apply linked_fresh.
    + intros k' fb0 Hne Hk'. destruct (Hfb _ _ Hk') as (l & Hl & ->).
      rewrite decide_False by done. by rewrite app_nil_r.
    + intros fb0 Hk'. destruct (Hfb _ _ Hk') as (l & Hl & ->).
      rewrite decide_True by done. apply Forall_app. split.
      * destruct (Hs _ _ Hits) as [_ Hlive].
        eapply Forall_impl; [by apply Hlive|]. intros f. apply linked_snoc.
      * eapply Forall_impl; [exact Hnew|]. intros f (Ha & Hs0 & _). by apply linked_fresh.
  - intros c s e s' Hs He.
    apply implement_entry_shape in He as (l & its & Hl & Hits & ->).
    destruct (Hs _ _ Hits) as [_ Hlive]. specialize (Hlive _ Hl).
    set (it := {| it_id := uuid4 w (draws s); it_project_id := project_uuid;
                  it_subchapter_id := ie_subchapter_id e; it_cycle := c;
                  it_role := implement_roles c; it_word_count := ie_word_count e;
                  it_feedback := _ |}).
    assert (Hnewfb : Forall (linked (its ++ [it]))
                       (map (stamp_iteration (uuid4 w (draws s)))
                          (map (mark_resolved
                                  (list_to_set (map uuid_str (ie_resolved_feedback e)))) l))).
    { rewrite map_map. apply Forall_forall. intros f Hf.
      apply list_elem_of_fmap in Hf as (f0 & -> & Hf0).
      apply (linked_resolved its it); [apply implement_role_is_implementer|].
      rewrite Forall_forall in Hlive. by apply Hlive. }
    eapply (all_linked_record s _ _ its it); try done.
    + intros k' fb0 Hne. simpl. by rewrite lookup_insert_ne.
    + intros fb0. simpl. rewrite lookup_insert_eq. by intros [= <-].
Qed.

(** X7.  In a returned batch every feedback item, in the snapshot an
    iteration carries or in a subchapter's outstanding list, that is marked
    addressed names an iteration of the same subchapter recorded by an
    implementer; an item that is not addressed names none. *)
Theorem addressed_feedback_names_an_implementer_iteration (w : World) (payload : Payload)
    (res : WritingResult) :
  generate_writing_batch w payload = Ok res ->
  forall s, s ∈ subchapters (batch res) ->
    (forall it f, it ∈ iterations s -> f ∈ it_feedback it -> linked (iterations s) f)
    /\ (forall f, f ∈ outstanding_feedback s -> linked (iterations s) f).
Proof.
  intros Hrun.
  apply run_Ok_inv in Hrun
    as (project_uuid & first_draw & st0 & st & states & total & _ & Hwp & Hcycles & Hasm & ->).
  simpl.
  pose proof (run_all_linked _ _ _ _ _ _ _ Hwp Hcycles) as Hlinked.
  eapply (assemble_loop w st
            (fun s => (forall it f, it ∈ iterations s -> f ∈ it_feedback it ->
                                    linked (iterations s) f)
                      /\ (forall f, f ∈ outstanding_feedback s -> linked (iterations s) f)))
    in Hasm as [Hall _]; [ | | by constructor | reflexivity].
  - intros s Hs. rewrite Forall_forall in Hall. by apply Hall.
  - intros states0 total0 item states' total' Hone.
    apply assemble_state_inv in Hone as (its & fb & u & Hits & Hfb & _ & -> & ->).
    eexists. split; [reflexivity|]. simpl. split; [|reflexivity].
    destruct (Hlinked _ _ Hits) as [Hsnap Hlive]. specialize (Hlive _ Hfb). split.
    + intros it f Hit Hf. rewrite Forall_forall in Hsnap.
      specialize (Hsnap _ Hit). rewrite Forall_forall in Hsnap. by apply Hsnap.
    + intros f Hf. apply list_elem_of_filter in Hf as [_ Hf].
      rewrite Forall_forall in Hlive. by apply Hlive.
Qed.

Lemma addressed_feedback_names_an_implementer_iteration_witness :
  exists res,
    generate_writing_batch (two_subchapters_world first_note_resolved) two_subchapters
    = Ok res
    /\ forall s, s ∈ subchapters (batch res) ->
         (forall it f, it ∈ iterations s -> f ∈ it_feedback it -> linked (iterations s) f)
         /\ (forall f, f ∈ outstanding_feedback s -> linked (iterations s) f).
Proof.
  destruct (generate_writing_batch (two_subchapters_world first_note_resolved)
              two_subchapters) as [res|e] eqn:Hrun;
    [|vm_compute in Hrun; discriminate].
  exists res. split; [reflexivity|].
  exact (addressed_feedback_names_an_implementer_iteration _ _ res Hrun).
Defined.

End WritingRunTheory.

(** ** The requests of the writing agents *)

Module RequestsTheory.
Import Requests.

Lemma resolve_merged {A} (field : Overrides.ProviderOverride -> option A)
    (stage_override run_override : option Overrides.ProviderOverride) (default : option A) :
  (forall s r merged,
      Overrides._merge_overrides (Some s) (Some r) = Some merged ->
      field merged = Overrides.if_not_none (field s) (field r)) ->
  _resolve_param field (Overrides._merge_overrides stage_override run_override) default
  = first_set field stage_override run_override default.
Proof.
  intros Hfield. unfold first_set.
  destruct stage_override as [s|], run_override as [r|]; simpl.
  - rewrite (Hfield s r _ eq_refl). unfold Overrides.if_not_none.
    destruct (field s), (field r); reflexivity.
  - destruct (field s); reflexivity.
  - destruct (field r); reflexivity.
  - reflexivity.
Qed.

(** X8.  The requests of the three writing agents take each sampling
    parameter from the stage override when it sets it, else from the run
    override, else the default: temperature 0.7 for the writer, 0.2 for the
    critic and 0.5 for the implementer, so a temperature is always sent, and
    nothing for the other parameters.  The prompt and the system prompt go
    out as given. *)
Theorem sampling_parameters_precedence (WRITING_SYSTEM_PROMPT : string)
    (WRITER_BATCH_SCHEMA CRITIQUE_BATCH_SCHEMA IMPLEMENT_BATCH_SCHEMA : Json.json)
    (prompt : string) (stage_override run_override : option Overrides.ProviderOverride) :
  let effective_override := Overrides._merge_overrides stage_override run_override in
  let writer :=
    writer_request WRITING_SYSTEM_PROMPT WRITER_BATCH_SCHEMA prompt effective_override in
  let critic :=
    critic_request WRITING_SYSTEM_PROMPT CRITIQUE_BATCH_SCHEMA prompt effective_override in
  let implementer :=
    implementer_request WRITING_SYSTEM_PROMPT IMPLEMENT_BATCH_SCHEMA prompt
      effective_override in
  Cache.temperature writer
  = first_set Overrides.temperature stage_override run_override (Some "0.7")
  /\ Cache.temperature critic
     = first_set Overrides.temperature stage_override run_override (Some "0.2")
  /\ Cache.temperature implementer
     = first_set Overrides.temperature stage_override run_override (Some "0.5")
  /\ Forall (fun request =>
               is_Some (Cache.temperature request)
               /\ Cache.max_output_tokens request
                  = first_set Overrides.max_output_tokens stage_override run_override None
               /\ Cache.top_p request
                  = first_set Overrides.top_p stage_override run_override None
               /\ Cache.reasoning_effort request
                  = first_set Overrides.reasoning_effort stage_override run_override None
               /\ Cache.verbosity request
                  = first_set Overrides.verbosity stage_override run_override None
               /\ Cache.thinking_budget request
                  = first_set Overrides.thinking_budget stage_override run_override None
               /\ Cache.include_thoughts request
                  = first_set Overrides.include_thoughts stage_override run_override None
               /\ Cache.prompt request = prompt
               /\ Cache.system_prompt request = Some WRITING_SYSTEM_PROMPT)
            [writer; critic; implementer].
Proof.
  intros effective_override writer critic implementer.
  assert (Htemp : forall default,
             _resolve_param Overrides.temperature effective_override default
             = first_set Overrides.temperature stage_override run_override default).
  { intros default. apply resolve_merged. by intros s r merged [= <-]. }
  split; [apply Htemp|]. split; [apply Htemp|]. split; [apply Htemp|].
  assert (Hset : forall t, is_Some (first_set Overrides.temperature stage_override
                                      run_override (Some t))).
  { intros t. unfold first_set.
    destruct (stage_override ≫= Overrides.temperature); [eauto|].
    destruct (run_override ≫= Overrides.temperature); eauto. }
  repeat constructor; simpl;
    try (rewrite Htemp; apply Hset);
    try (apply resolve_merged; by intros s r merged [= <-]).
Qed.

End RequestsTheory.

(** ** The lifetime of a cached response *)

Module CacheLifetimeTheory.
Import Cache CacheTheory.

Lemma get_live (self : StageCache) (now : Z) (key : string) (value : encoded)
    (expires_at : Z) :
  _local self !! key = Some (value, expires_at) -> now <= expires_at ->
  _get self now key = (Some value, self).
Proof.
  intros Hk Hlive. unfold _get. rewrite Hk.
  destruct (Z.ltb_spec expires_at now); [lia | done].
Qed.

Lemma get_expired (self : StageCache) (now : Z) (key : string) (value : encoded)
    (expires_at : Z) :
  _local self !! key = Some (value, expires_at) -> expires_at < now ->
  _get self now key
  = (None, {| _ttl_seconds := _ttl_seconds self; _prompt_limit := _prompt_limit self;
              _local := delete key (_local self) |}).
Proof.
  intros Hk Hdead. unfold _get. rewrite Hk.
  destruct (Z.ltb_spec expires_at now); [done | lia].
Qed.

(** X9.  A call that misses the cache stores the provider's answer when
    the provider has returned, at the time [stored_at] the clock shows then.
    From then on a request equal to the one first given is answered from the
    cache, without consulting the provider and without changing the cache, at
    every time up to and including [stored_at] plus the time to live.  After
    that time it is a miss again: the provider is asked and its answer stored
    under the same key, to expire one time to live after it is stored, and a
    provider error is the error of the call.  A cached answer has the text,
    model, token counts and cost of the original and is marked as cached; its
    latency is the original's, or 0.0 when that is missing or zero. *)
Theorem cached_response_lifetime (_DEFAULT_LIMIT : Z) (self : StageCache) (now stored_at : Z)
    (provider_config : ProviderConfig)
    (provider : ProviderRequest -> result ProviderResponse)
    (request : ProviderRequest) (stage_name : string) (out : outcome) :
  generate _DEFAULT_LIMIT self now stored_at provider_config provider request stage_name
  = Ok out ->
  out_hit out = false ->
  let expires_at := stored_at + _ttl_seconds self in
  (forall default_limit' now' stored_at' provider',
      now' <= expires_at ->
      generate default_limit' (out_cache out) now' stored_at' provider_config provider'
               request stage_name
      = Ok {| out_response := _decode_response (_encode_response (out_response out));
              out_cache := out_cache out;
              out_request := request;
              out_key := out_key out;
              out_hit := true |})
  /\ (forall default_limit' now' stored_at' provider',
        expires_at < now' ->
        (forall out',
            generate default_limit' (out_cache out) now' stored_at' provider_config provider'
                     request stage_name = Ok out' ->
            out_hit out' = false
            /\ provider' (out_request out') = Ok (out_response out')
            /\ _local (out_cache out') !! out_key out
               = Some (_encode_response (out_response out'),
                       stored_at' + _ttl_seconds self))
        /\ (forall e, (forall r, provider' r = Raise e) ->
              generate default_limit' (out_cache out) now' stored_at' provider_config
                       provider' request stage_name = Raise e))
  /\ (let cached := _decode_response (_encode_response (out_response out)) in
      text cached = text (out_response out)
      /\ response_model cached = response_model (out_response out)
      /\ prompt_tokens cached = prompt_tokens (out_response out)
      /\ completion_tokens cached = completion_tokens (out_response out)
      /\ cost_usd cached = cost_usd (out_response out)
      /\ raw_cached cached = true
      /\ latency_ms cached
         = match latency_ms (out_response out) with
           | Some latency =>
               if String.eqb latency "0.0" || String.eqb latency "-0.0"
               then Some "0.0" else Some latency
           | None => Some "0.0"
           end).
Proof.
  intros Hrun Hmiss expires_at.
  apply generate_key in Hrun as (Hkey & _ & Hstored).
  destruct (Hstored Hmiss) as (Hlocal & Httl & _).
  assert (Hentry : _local (out_cache out) !! out_key out
                   = Some (_encode_response (out_response out), expires_at)).
  { by rewrite Hlocal, lookup_insert_eq. }
  split; [|split].
  - intros dl' now' stored_at' provider' Hlive. unfold generate.
    rewrite <- Hkey. erewrite get_live; [reflexivity | exact Hentry | done].
  - intros dl' now' stored_at' provider' Hdead. split.
    + intros out' Hrun'. unfold generate in Hrun'. rewrite <- Hkey in Hrun'.
      erewrite get_expired in Hrun'; [ | exact Hentry | done].
      destruct (Context.summarise_prompt _ _ _) as [trimmed_prompt was_trimmed].
      apply bind_Ok in Hrun' as (response & Hresp & Hrun'). injection Hrun' as <-.
      simpl. split; [done|]. split; [done|].
      rewrite lookup_insert_eq. by rewrite Httl.
    + intros e He. unfold generate. rewrite <- Hkey.
      erewrite get_expired; [ | exact Hentry | done].
      destruct (Context.summarise_prompt _ _ _) as [trimmed_prompt was_trimmed].
      by rewrite He.
  - done.
Qed.

Lemma cached_response_lifetime_witness :
  exists out,
    generate 12000 (sample_cache 12000) 0 40 sample_config sample_provider
             (sample_request "Draft the opening.") "WRITING" = Ok out
    /\ out_hit out = false
    /\ generate 12000 (out_cache out) 940 941 sample_config
                (fun _ => Raise (ProviderResponseError "offline"))
                (sample_request "Draft the opening.") "WRITING"
       = Ok {| out_response := _decode_response (_encode_response (out_response out));
               out_cache := out_cache out;
               out_request := sample_request "Draft the opening.";
               out_key := out_key out;
               out_hit := true |}.
Proof.
  eexists. split; [vm_compute; reflexivity|]. split; [reflexivity|].
  match goal with
  | |- generate _ (out_cache ?o) _ _ _ _ _ _ = _ =>
      apply (proj1 (cached_response_lifetime 12000 (sample_cache 12000) 0 40 sample_config
                      sample_provider (sample_request "Draft the opening.") "WRITING" o
                      ltac:(vm_compute; reflexivity) eq_refl))
  end.
  simpl. lia.
Defined.

End CacheLifetimeTheory.

(** ** Key order and normal forms of JSON objects *)

Module JsonTheory.
Import Json JsonTerms.

(** *** The order on keys *)

Lemma ascii_compare_eq (a b : Ascii.ascii) : Ascii.compare a b = Eq -> a = b.
Proof.
  unfold Ascii.compare. intros H. apply N.compare_eq in H.
  rewrite <- (Ascii.ascii_N_embedding a), <- (Ascii.ascii_N_embedding b). by rewrite H.
Qed.

Lemma string_compare_trans (c : comparison) (s1 s2 s3 : string) :
  String.compare s1 s2 = c -> String.compare s2 s3 = c -> String.compare s1 s3 = c.
Proof.
  revert s2 s3. induction s1 as [|a1 s1 IH]; intros [|a2 s2] [|a3 s3]; simpl; try congruence.
  unfold Ascii.compare.
  destruct (N.compare_spec (Ascii.N_of_ascii a1) (Ascii.N_of_ascii a2)) as [H12|H12|H12];
    destruct (N.compare_spec (Ascii.N_of_ascii a2) (Ascii.N_of_ascii a3)) as [H23|H23|H23];
    destruct (N.compare_spec (Ascii.N_of_ascii a1) (Ascii.N_of_ascii a3)) as [H13|H13|H13];
    try congruence; try lia; try (intros; by eapply IH).
Qed.

Lemma string_leb_trans (s1 s2 s3 : string) :
  String.leb s1 s2 = true -> String.leb s2 s3 = true -> String.leb s1 s3 = true.
Proof.
  unfold String.leb.
  destruct (String.compare s1 s2) eqn:H12; try done;
    destruct (String.compare s2 s3) eqn:H23; try done; intros _ _.
  - apply String.compare_eq_iff in H12 as ->. by rewrite H23.
  - apply String.compare_eq_iff in H12 as ->. by rewrite H23.
  - apply String.compare_eq_iff in H23 as <-. by rewrite H12.
  - by rewrite (string_compare_trans Lt s1 s2 s3).
Qed.

(** *** Sorting the items of an object *)


Lemma insert_item_perm {V} (x : string * V) (xs : list (string * V)) :
  insert_item x xs ≡ₚ x :: xs.
Proof.
  induction xs as [|y ys IH]; simpl; [done|].
  destruct (String.leb y.1 x.1); [|done]. rewrite IH. apply Permutation_swap.
Qed.

Lemma sort_items_perm {V} (xs : list (string * V)) : sort_items xs ≡ₚ xs.
Proof.
  unfold sort_items.
  assert (Hgen : forall acc, foldl (fun acc x => insert_item x acc) acc xs ≡ₚ acc ++ xs).
  { induction xs as [|x xs IH]; intros acc; simpl; [by rewrite app_nil_r|].
    rewrite IH, insert_item_perm. simpl. apply Permutation_middle. }
  apply (Hgen []).
Qed.

Lemma insert_item_sorted {V} (x : string * V) (xs : list (string * V)) :
  StronglySorted key_order xs -> StronglySorted key_order (insert_item x xs).
Proof.
  induction 1 as [|y ys Hys IH Hy]; simpl.
  - repeat constructor.
  - destruct (String.leb y.1 x.1) eqn:Hyx.
    + constructor; [exact IH|]. rewrite (insert_item_perm x ys). by constructor.
    + assert (Hxy : String.leb x.1 y.1 = true).
      { destruct (String.leb_total x.1 y.1) as [H|H]; [done | congruence]. }
      constructor; [by constructor|]. constructor; [done|].
      eapply Forall_impl; [exact Hy|]. intros z Hz. by eapply string_leb_trans.
Qed.

Lemma sort_items_sorted {V} (xs : list (string * V)) :
  StronglySorted key_order (sort_items xs).
Proof.
  unfold sort_items.
  assert (Hgen : forall acc, StronglySorted key_order acc ->
             StronglySorted key_order (foldl (fun acc x => insert_item x acc) acc xs)).
  { induction xs as [|x xs IH]; intros acc Hacc; simpl; [done|].
    by apply IH, insert_item_sorted. }
  apply Hgen. constructor.
Qed.

(** Two sorted lists with the same items, no key twice, are the same list. *)
Lemma sorted_items_unique {V} (l l' : list (string * V)) :
  StronglySorted key_order l -> StronglySorted key_order l' ->
  l ≡ₚ l' -> NoDup (map fst l) -> l = l'.
Proof.
  intros Hl. revert l'. induction Hl as [|x xs Hxs IH Hx]; intros l' Hl' Hperm Hnodup.
  - by apply Permutation_nil_l in Hperm.
  - destruct Hl' as [|y ys Hys Hy].
    { by apply Permutation_nil_r in Hperm. }
    assert (Hxy : x = y).
    { assert (Hyin : y ∈ x :: xs) by (rewrite Hperm; by left).
      assert (Hxin : x ∈ y :: ys) by (rewrite <- Hperm; by left).
      apply elem_of_cons in Hyin as [->|Hyin]; [done|].
      apply elem_of_cons in Hxin as [->|Hxin]; [done|].
      exfalso.
      rewrite Forall_forall in Hx, Hy.
      pose proof (String.leb_antisym _ _ (Hx _ Hyin) (Hy _ Hxin)) as Hkey.
      simpl in Hnodup. apply NoDup_cons in Hnodup as [Hnotin _]. apply Hnotin.
      rewrite Hkey. apply list_elem_of_fmap. by exists y. }
    subst y. f_equal. apply IH; [done | by eapply Permutation_cons_inv|].
    simpl in Hnodup. by apply NoDup_cons in Hnodup as [_ ?].
Qed.

Lemma sort_items_order_irrelevant {V} (items items' : list (string * V)) :
  NoDup (map fst items) -> items ≡ₚ items' -> sort_items items = sort_items items'.
Proof.
  intros Hnodup Hperm. apply sorted_items_unique.
  - apply sort_items_sorted.
  - apply sort_items_sorted.
  - by rewrite !sort_items_perm.
  - by rewrite sort_items_perm.
Qed.

(** Sorting looks at the keys only. *)
Lemma insert_item_map {V W} (f : string * V -> string * W) (x : string * V)
    (xs : list (string * V)) :
  (forall y, (f y).1 = y.1) ->
  insert_item (f x) (map f xs) = map f (insert_item x xs).
Proof.
  intros Hf. induction xs as [|y ys IH]; simpl; [done|].
  rewrite !Hf. destruct (String.leb y.1 x.1); simpl; [by rewrite IH | done].
Qed.

Lemma sort_items_map {V W} (f : string * V -> string * W) (xs : list (string * V)) :
  (forall y, (f y).1 = y.1) -> sort_items (map f xs) = map f (sort_items xs).
Proof.
  intros Hf. unfold sort_items.
  assert (Hgen : forall acc,
             foldl (fun acc x => insert_item x acc) (map f acc) (map f xs)
             = map f (foldl (fun acc x => insert_item x acc) acc xs)).
  { induction xs as [|x xs IH]; intros acc; simpl; [done|].
    rewrite insert_item_map by done. apply IH. }
  apply (Hgen []).
Qed.

(** X10.  The order in which a JSON object lists its keys plays no part
    in the cache key: two schemas with the same distinct keys and values in a
    different order have the same JSON text and the same normal form, and two
    calls that differ only in that order have the same key. *)
Theorem schema_key_order_is_irrelevant (items items' : list (string * json)) :
  NoDup (map fst items) -> items ≡ₚ items' ->
  dumps (JDict items) = dumps (JDict items')
  /\ Cache._normalise (Some (JDict items)) = Cache._normalise (Some (JDict items'))
  /\ forall k k' : Cache.keyed,
       Cache.json_schema (Cache.k_request k) = Some (JDict items) ->
       Cache.json_schema (Cache.k_request k') = Some (JDict items') ->
       (forall f, f <> Cache.F_json_schema -> Cache.value f k = Cache.value f k') ->
       Cache.key_of k = Cache.key_of k'.
Proof.
  intros Hnodup Hperm.
  assert (Hnorm : Cache._normalise (Some (JDict items))
                  = Cache._normalise (Some (JDict items'))).
  { simpl. f_equal.
    rewrite !(sort_items_map (fun kv => match kv with (k, v) => (k, roundtrip v) end))
      by (by intros []).
    by rewrite (sort_items_order_irrelevant items items'). }
  split; [|split; [exact Hnorm|]].
  - simpl. unfold dumps_dict.
    rewrite !(sort_items_map (fun kv => match kv with (k, v) => (k, dumps v) end))
      by (by intros []).
    by rewrite (sort_items_order_irrelevant items items').
  - intros k k' Hk Hk' Hothers. rewrite !CacheTheory.key_of_text. f_equal.
    apply CacheTheory.same_fields_same_text. intros f.
    destruct f; try (apply Hothers; discriminate).
    simpl. by rewrite Hk, Hk'.
Qed.

Lemma schema_key_order_is_irrelevant_witness :
  let items := [ ("type", JStr "object"); ("properties", JDict []) ] in
  let items' := [ ("properties", JDict []); ("type", JStr "object") ] in
  NoDup (map fst items) /\ items ≡ₚ items'
  /\ dumps (JDict items) = dumps (JDict items').
Proof.
  intros items items'.
  assert (Hnodup : NoDup (map fst items)).
  { apply NoDup_cons. split; [|apply NoDup_singleton].
    intros Hin. apply list_elem_of_singleton in Hin. discriminate. }
  assert (Hperm : items ≡ₚ items') by apply Permutation_swap.
  split; [exact Hnodup|]. split; [exact Hperm|].
  exact (proj1 (schema_key_order_is_irrelevant items items' Hnodup Hperm)).
Defined.

(** *** Normalising a value does not change its text *)

Lemma insert_item_last {V} (x : string * V) (xs : list (string * V)) :
  Forall (fun y => key_order y x) xs -> insert_item x xs = (xs ++ [x])%list.
Proof.
  induction 1 as [|y ys Hy _ IH]; simpl; [done|].
  unfold key_order in Hy. by rewrite Hy, IH.
Qed.

Lemma sorted_app_below {V} (acc : list (string * V)) (x : string * V)
    (xs : list (string * V)) :
  StronglySorted key_order (acc ++ x :: xs) -> Forall (fun y => key_order y x) acc.
Proof.
  induction acc as [|y ys IH]; simpl; intros Hs; [constructor|].
  apply StronglySorted_inv in Hs as [Hs Hy]. constructor; [|by apply IH].
  rewrite Forall_forall in Hy. apply Hy. apply elem_of_app. right. by left.
Qed.

Lemma sort_items_sorted_id {V} (xs : list (string * V)) :
  StronglySorted key_order xs -> sort_items xs = xs.
Proof.
  unfold sort_items.
  assert (Hgen : forall acc, StronglySorted key_order (acc ++ xs) ->
             foldl (fun acc x => insert_item x acc) acc xs = (acc ++ xs)%list).
  { induction xs as [|x xs IH]; intros acc Hs; simpl; [by rewrite app_nil_r|].
    rewrite insert_item_last by (by eapply sorted_app_below).
    rewrite IH; rewrite <- app_assoc; done. }
  intros Hs. by apply (Hgen []).
Qed.

Lemma sort_items_idemp {V} (xs : list (string * V)) :
  sort_items (sort_items xs) = sort_items xs.
Proof. apply sort_items_sorted_id, sort_items_sorted. Qed.

Lemma dumps_roundtrip (v : json) : dumps (roundtrip v) = dumps v.
Proof.
  revert v. fix IH 1. intros [ | b | z | f | s | items | items]; try reflexivity.
  - assert (Hitems : map dumps (map roundtrip items) = map dumps items).
    { induction items as [|x xs IHxs]; simpl; [done|]. by rewrite IH, IHxs. }
    simpl. by rewrite Hitems.
  - assert (Hitems : map (fun kv => match kv with (k, v) => (k, dumps v) end)
                         (map (fun kv => match kv with (k, v) => (k, roundtrip v) end) items)
                     = map (fun kv => match kv with (k, v) => (k, dumps v) end) items).
    { induction items as [|[k x] xs IHxs]; simpl; [done|]. by rewrite IH, IHxs. }
    simpl. unfold dumps_dict.
    rewrite (sort_items_map (fun kv => match kv with (k, v) => (k, dumps v) end)
               (sort_items _)) by (by intros []).
    rewrite sort_items_idemp.
    rewrite <- (sort_items_map (fun kv => match kv with (k, v) => (k, dumps v) end))
      by (by intros []).
    by rewrite Hitems.
Qed.

Lemma roundtrip_idemp (v : json) : roundtrip (roundtrip v) = roundtrip v.
Proof.
  revert v. fix IH 1. intros [ | b | z | f | s | items | items]; try reflexivity.
  - assert (Hitems : map roundtrip (map roundtrip items) = map roundtrip items).
    { induction items as [|x xs IHxs]; simpl; [done|]. by rewrite IH, IHxs. }
    simpl. by rewrite Hitems.
  - assert (Hitems : map (fun kv => match kv with (k, v) => (k, roundtrip v) end)
                         (map (fun kv => match kv with (k, v) => (k, roundtrip v) end) items)
                     = map (fun kv => match kv with (k, v) => (k, roundtrip v) end) items).
    { induction items as [|[k x] xs IHxs]; simpl; [done|]. by rewrite IH, IHxs. }
    simpl. f_equal.
    rewrite (sort_items_map (fun kv => match kv with (k, v) => (k, roundtrip v) end)
               (sort_items _)) by (by intros []).
    rewrite sort_items_idemp.
    rewrite <- (sort_items_map (fun kv => match kv with (k, v) => (k, roundtrip v) end))
      by (by intros []).
    by rewrite Hitems.
Qed.

Lemma normalise_roundtrip (v : json) : Cache._normalise (Some v) = roundtrip v.
Proof. by destruct v. Qed.

(** X11.  Normalising a JSON value does not change the text it is dumped
    as, and normalising twice is normalising once; so the text whose digest is
    the cache key is the dump of the keyed fields as the request gives them,
    the schema included. *)
Theorem normalising_the_schema_keeps_the_text :
  (forall v, dumps (Cache._normalise (Some v)) = dumps v)
  /\ dumps (Cache._normalise None) = "null"
  /\ (forall value, Cache._normalise (Some (Cache._normalise value)) = Cache._normalise value)
  /\ (forall provider_config request stage_name original_prompt,
        Cache.serialised provider_config request stage_name original_prompt
        = dumps (JDict
            [ ("provider", JStr (Cache.config_name provider_config));
              ("model", JStr (Cache.config_model provider_config));
              ("stage", JStr stage_name);
              ("prompt", JStr original_prompt);
              ("system", of_str (Cache.system_prompt request));
              ("json_schema", from_option id JNull (Cache.json_schema request));
              ("temperature", of_float (Cache.temperature request));
              ("max_output_tokens", of_int (Cache.max_output_tokens request));
              ("top_p", of_float (Cache.top_p request));
              ("reasoning_effort", of_str (Cache.reasoning_effort request));
              ("verbosity", of_str (Cache.verbosity request));
              ("thinking_budget", of_int (Cache.thinking_budget request));
              ("include_thoughts", of_bool (Cache.include_thoughts request)) ])).
Proof.
  assert (Htext : forall v, dumps (Cache._normalise (Some v)) = dumps v).
  { intros v. rewrite normalise_roundtrip. apply dumps_roundtrip. }
  split; [exact Htext|]. split; [reflexivity|]. split.
  - intros [v|]; [|reflexivity]. rewrite !normalise_roundtrip. apply roundtrip_idemp.
  - intros provider_config request stage_name original_prompt.
    unfold Cache.serialised, Cache.key_payload.
    change (dumps (JDict ?l))
      with (dumps_dict (map (fun kv => match kv with (k, v) => (k, dumps v) end) l)).
    cbn [map]. destruct (Cache.json_schema request) as [v|]; [|reflexivity].
    by rewrite Htext.
Qed.

End JsonTheory.

(** ** The cache key and the fields it is built from *)

Module CacheKeyTheory.
Import Json JsonTerms Cache CacheKeyTerms CacheTheory.

(** *** Induction on JSON values *)

Lemma json_values_ind (P : json -> Prop) :
  P JNull -> (forall b, P (JBool b)) -> (forall z, P (JInt z)) ->
  (forall f, P (JFloat f)) -> (forall s, P (JStr s)) ->
  (forall items, Forall P items -> P (JList items)) ->
  (forall items, Forall (fun kv => P kv.2) items -> P (JDict items)) ->
  forall v, P v.
Proof.
  intros Hnull Hbool Hint Hfloat Hstr Hlist Hdict. fix IH 1.
  intros [ | b | z | f | s | items | items].
  - exact Hnull.
  - apply Hbool.
  - apply Hint.
  - apply Hfloat.
  - apply Hstr.
  - apply Hlist. induction items as [|x xs IHxs]; constructor; [apply IH | exact IHxs].
  - apply Hdict. induction items as [|[k x] xs IHxs]; constructor; [apply IH | exact IHxs].
Qed.

(** *** Atoms: [null], [true], [false] and numbers *)

Lemma append_cons (c : Ascii.ascii) (a r : string) : String c a +:+ r = String c (a +:+ r).
Proof. reflexivity. Qed.

Lemma atom_not_closing (c : Ascii.ascii) : atom_char c = true -> closing c = false.
Proof. unfold atom_char. by destruct (closing c). Qed.

Lemma int_char_atom (c : Ascii.ascii) : int_char c = true -> atom_char c = true.
Proof. destruct c as [[] [] [] [] [] [] [] []]; vm_compute; congruence. Qed.

Lemma int_char_no_mark (c : Ascii.ascii) : int_char c = true -> float_mark c = false.
Proof. destruct c as [[] [] [] [] [] [] [] []]; vm_compute; congruence. Qed.

Lemma float_char_atom (c : Ascii.ascii) : float_char c = true -> atom_char c = true.
Proof. destruct c as [[] [] [] [] [] [] [] []]; vm_compute; congruence. Qed.

(** An atom ends where the text that follows it begins. *)
Lemma atom_split (a b r r' : string) :
  forallb atom_char (String.list_ascii_of_string a) = true ->
  forallb atom_char (String.list_ascii_of_string b) = true ->
  closes r = true -> closes r' = true ->
  a +:+ r = b +:+ r' -> a = b /\ r = r'.
Proof.
  revert b. induction a as [|c a IH]; intros [|c' b] Ha Hb Hr Hr' H.
  - done.
  - change (r = String c' (b +:+ r')) in H. subst r. simpl in Hr, Hb.
    apply andb_prop in Hb as [Hc _]. apply atom_not_closing in Hc. congruence.
  - change (String c (a +:+ r) = r') in H. subst r'. simpl in Hr', Ha.
    apply andb_prop in Ha as [Hc _]. apply atom_not_closing in Hc. congruence.
  - rewrite !append_cons in H. injection H as -> H. simpl in Ha, Hb.
    apply andb_prop in Ha as [_ Ha]. apply andb_prop in Hb as [_ Hb].
    destruct (IH b Ha Hb Hr Hr' H) as [-> ->]. done.
Qed.

Lemma pretty_N_go_int_chars (x : N) (s : string) :
  forallb int_char (String.list_ascii_of_string s) = true ->
  forallb int_char (String.list_ascii_of_string (pretty_N_go x s)) = true.
Proof.
  revert s. induction (N.lt_wf_0 x) as [x _ IH]; intros s Hs.
  assert (x = 0 \/ 0 < x)%N as [->|Hpos] by lia.
  - by rewrite pretty_N_go_0.
  - rewrite pretty_N_go_step by done. apply IH.
    { by apply N.div_lt. }
    simpl. rewrite Hs, andb_true_r.
    unfold pretty_N_char. by repeat case_match.
Qed.

Lemma pretty_N_go_nonempty (x : N) (s : string) : s <> "" -> pretty_N_go x s <> "".
Proof.
  revert s. induction (N.lt_wf_0 x) as [x _ IH]; intros s Hs.
  assert (x = 0 \/ 0 < x)%N as [->|Hpos] by lia.
  - by rewrite pretty_N_go_0.
  - rewrite pretty_N_go_step by done. apply IH; [by apply N.div_lt | done].
Qed.

Lemma pretty_N_int_chars (n : N) :
  forallb int_char (String.list_ascii_of_string (pretty n)) = true /\ pretty n <> "".
Proof.
  unfold pretty, pretty_N. case_decide; [done|]. split.
  - by apply pretty_N_go_int_chars.
  - rewrite pretty_N_go_step by lia. by apply pretty_N_go_nonempty.
Qed.

Lemma pretty_Z_int_chars (z : Z) :
  forallb int_char (String.list_ascii_of_string (pretty z)) = true /\ pretty z <> "".
Proof.
  destruct z as [|p|p].
  - done.
  - apply (pretty_N_int_chars (N.pos p)).
  - destruct (pretty_N_int_chars (N.pos p)) as [Hchars Hne]. split; [|done].
    change (pretty (Z.neg p)) with ("-" +:+ pretty (N.pos p)). simpl. exact Hchars.
Qed.

Lemma forallb_impl {A} (f g : A -> bool) (l : list A) :
  (forall x, f x = true -> g x = true) -> forallb f l = true -> forallb g l = true.
Proof.
  intros Hfg. induction l as [|x l IH]; simpl; [done|].
  intros H. apply andb_prop in H as [Hx Hl]. by rewrite (Hfg x Hx), IH.
Qed.

Lemma int_chars_no_mark (l : list Ascii.ascii) :
  forallb int_char l = true -> existsb float_mark l = false.
Proof.
  induction l as [|c l IH]; simpl; [done|].
  intros H. apply andb_prop in H as [Hc Hl]. by rewrite (int_char_no_mark c Hc), IH.
Qed.

(** The text of an atom consists of characters of atoms. *)
Lemma atom_dumps (v : json) :
  is_atom v = true -> float_texts_in v = true -> atom_text (dumps v) = true.
Proof.
  destruct v as [ | [] | z | f | s | items | items]; try done; intros _ Hf.
  - destruct (pretty_Z_int_chars z) as [Hchars Hne]. unfold atom_text. simpl.
    apply andb_true_intro. split.
    + apply negb_true_iff. by apply String.eqb_neq.
    + apply (forallb_impl int_char atom_char); [apply int_char_atom | exact Hchars].
  - simpl in Hf |- *. unfold float_text in Hf. apply andb_prop in Hf as [Hchars Hmark].
    unfold atom_text. apply andb_true_intro. split.
    + apply negb_true_iff, String.eqb_neq. intros ->. discriminate.
    + apply (forallb_impl float_char atom_char); [apply float_char_atom | exact Hchars].
Qed.

(** Two atoms with the same text are the same value. *)
Lemma atom_inj (v v' : json) :
  is_atom v = true -> is_atom v' = true ->
  float_texts_in v = true -> float_texts_in v' = true ->
  dumps v = dumps v' -> v = v'.
Proof.
  assert (Hint : forall (z : Z) s,
             forallb int_char (String.list_ascii_of_string s) = false -> pretty z <> s).
  { intros z s Hs <-. destruct (pretty_Z_int_chars z) as [Hchars _]. congruence. }
  assert (Hfloat : forall f s, float_text s = false -> float_text f = true -> f <> s).
  { intros f s Hs Hf ->. congruence. }
  assert (Hmix : forall (z : Z) f, float_text f = true -> pretty z <> f).
  { intros z f Hf <-. unfold float_text in Hf. apply andb_prop in Hf as [_ Hmark].
    destruct (pretty_Z_int_chars z) as [Hchars _].
    apply int_chars_no_mark in Hchars. congruence. }
  intros Ha Ha' Hf Hf' H.
  destruct v as [ | [] | z | f | s | items | items]; try discriminate Ha;
    destruct v' as [ | [] | z' | f' | s' | items' | items']; try discriminate Ha';
    try reflexivity;
    change (dumps JNull) with "null" in H;
    change (dumps (JBool true)) with "true" in H;
    change (dumps (JBool false)) with "false" in H;
    repeat match type of H with
           | context [dumps (JInt ?x)] => change (dumps (JInt x)) with (pretty x) in H
           | context [dumps (JFloat ?x)] => change (dumps (JFloat x)) with x in H
           end;
    change (float_texts_in (JFloat ?x)) with (float_text x) in *.
  all: try discriminate H.
  all: match type of H with
       | pretty ?x = pretty ?y => f_equal; exact (inj pretty x y H)
       | pretty ?x = ?t =>
           exfalso; first [exact (Hmix x t Hf' H) | exact (Hint x t eq_refl H)]
       | ?t = pretty ?x =>
           exfalso;
           first [exact (Hmix x t Hf (eq_sym H)) | exact (Hint x t eq_refl (eq_sym H))]
       | ?t = ?t' =>
           first [exfalso; exact (Hfloat t t' eq_refl Hf H)
                 | exfalso; exact (Hfloat t' t eq_refl Hf' (eq_sym H))
                 | by f_equal]
       end.
Qed.

(** *** How a value's text opens *)

Lemma dumps_opens (v : json) (r : string) :
  float_texts_in v = true ->
  exists c t, dumps v +:+ r = String c t /\ closing c = false /\ opens v c.
Proof.
  intros Hf.
  destruct (is_atom v) eqn:Hatom.
  - pose proof (atom_dumps v Hatom Hf) as Htext. unfold atom_text in Htext.
    apply andb_prop in Htext as [Hne Hchars].
    destruct (dumps v) as [|c t] eqn:Hd; [done|].
    simpl in Hchars. apply andb_prop in Hchars as [Hc _].
    exists c, (t +:+ r). split; [done|]. split; [by apply atom_not_closing|].
    by destruct v.
  - destruct v as [ | b | z | f | s | items | items]; try done.
    + eexists _, _. split; [reflexivity|]. done.
    + eexists _, _. split; [reflexivity|]. done.
    + eexists _, _. split; [reflexivity|]. done.
Qed.

(** Two values of different kinds have different texts. *)
Lemma opens_agree (v v' : json) (r r' : string) :
  float_texts_in v = true -> float_texts_in v' = true ->
  dumps v +:+ r = dumps v' +:+ r' ->
  exists c, opens v c /\ opens v' c.
Proof.
  intros Hf Hf' H.
  destruct (dumps_opens v r Hf) as (c & t & Hc & _ & Ho).
  destruct (dumps_opens v' r' Hf') as (c' & t' & Hc' & _ & Ho').
  rewrite Hc, Hc' in H. injection H as -> _. by exists c'.
Qed.

(** *** Strings *)

Lemma escape_split (s s' R R' : string) :
  escape s +:+ (dquote +:+ R) = escape s' +:+ (dquote +:+ R') -> s = s' /\ R = R'.
Proof.
  revert s'. induction s as [|c s IH]; intros [|c' s'] H.
  - by apply (append_inv_head dquote) in H.
  - exfalso. change (escape (String c' s')) with (escape_char c' +:+ escape s') in H.
    rewrite append_assoc in H. pose proof H as H0.
    apply (f_equal unescape_head) in H. rewrite unescape_escape_char in H.
    injection H as <- _. vm_compute in H0. discriminate.
  - exfalso. change (escape (String c s)) with (escape_char c +:+ escape s) in H.
    rewrite append_assoc in H. pose proof H as H0.
    apply (f_equal unescape_head) in H. rewrite unescape_escape_char in H.
    injection H as -> _. vm_compute in H0. discriminate.
  - change (escape (String c s)) with (escape_char c +:+ escape s) in H.
    change (escape (String c' s')) with (escape_char c' +:+ escape s') in H.
    rewrite !append_assoc in H.
    apply (f_equal unescape_head) in H. rewrite !unescape_escape_char in H.
    injection H as -> H. destruct (IH s' H) as [-> ->]. done.
Qed.

Lemma string_split (s s' R R' : string) :
  encode_str s +:+ R = encode_str s' +:+ R' -> s = s' /\ R = R'.
Proof.
  unfold encode_str. rewrite !append_assoc. intros H.
  apply (append_inv_head dquote) in H. by apply escape_split.
Qed.

(** *** Lists and objects *)

Lemma join_items (rendered : list string) (close r : string) :
  join ", " rendered +:+ (close +:+ r)
  = match rendered with
    | [] => close +:+ r
    | d :: ds => d +:+ items_text close ds r
    end.
Proof.
  destruct rendered as [|d ds]; [reflexivity|].
  revert d. induction ds as [|d' ds IH]; intros d; [reflexivity|].
  change (join ", " (d :: d' :: ds)) with (d +:+ (", " +:+ join ", " (d' :: ds))).
  rewrite !append_assoc, IH. reflexivity.
Qed.

Lemma closes_items_text (c : Ascii.ascii) (rendered : list string) (r : string) :
  closing c = true -> closes (items_text (String c "") rendered r) = true.
Proof. intros Hc. by destruct rendered. Qed.

Section items.
Context {A : Type} (render : A -> string) (E : A -> A -> Prop) (good : A -> Prop).
Context (c : Ascii.ascii).
Hypothesis closing_c : closing c = true.
Hypothesis not_comma : c <> Json.char 44.
Hypothesis render_opens :
  forall x R, good x -> exists c' t, render x +:+ R = String c' t /\ closing c' = false.

(** The items after the first, when each item can be told from what follows
    it. *)
Lemma items_split (xs : list A) :
  Forall (fun x => forall x' R R', good x' -> closes R = true -> closes R' = true ->
                     render x +:+ R = render x' +:+ R' -> E x x' /\ R = R') xs ->
  forall xs' r r',
    Forall good xs' ->
    items_text (String c "") (map render xs) r
    = items_text (String c "") (map render xs') r' ->
    Forall2 E xs xs' /\ r = r'.
Proof.
  induction 1 as [|x xs Hx _ IH]; intros [|x' xs'] r r' Hgood H.
  - apply (append_inv_head (String c "")) in H. by split; [constructor|].
  - exfalso. injection H as H _. by apply not_comma.
  - exfalso. injection H as H _. by apply not_comma.
  - apply Forall_cons in Hgood as [Hx' Hgood].
    change (", " +:+ (render x +:+ items_text (String c "") (map render xs) r)
            = ", " +:+ (render x' +:+ items_text (String c "") (map render xs') r')) in H.
    apply (append_inv_head ", ") in H.
    apply Hx in H as [HE H]; [|done|by apply closes_items_text..].
    destruct (IH xs' r r' Hgood H) as [Hrest ->]. by split; [constructor|].
Qed.

(** The items of a list or an object, after the opening bracket. *)
Lemma sequence_split (xs xs' : list A) (r r' : string) :
  Forall (fun x => forall x' R R', good x' -> closes R = true -> closes R' = true ->
                     render x +:+ R = render x' +:+ R' -> E x x' /\ R = R') xs ->
  Forall good xs -> Forall good xs' ->
  join ", " (map render xs) +:+ (String c "" +:+ r)
  = join ", " (map render xs') +:+ (String c "" +:+ r') ->
  Forall2 E xs xs' /\ r = r'.
Proof.
  intros Hxs Hgood Hgood' H. rewrite !join_items in H.
  destruct xs as [|x xs]; destruct xs' as [|x' xs'].
  - apply (append_inv_head (String c "")) in H. by split; [constructor|].
  - exfalso. apply Forall_cons in Hgood' as [Hx' _].
    destruct (render_opens x' (items_text (String c "") (map render xs') r') Hx')
      as (c' & t & Hc' & Hopen).
    simpl in H. rewrite Hc' in H. injection H as -> _. congruence.
  - exfalso. apply Forall_cons in Hgood as [Hx _].
    destruct (render_opens x (items_text (String c "") (map render xs) r) Hx)
      as (c' & t & Hc' & Hopen).
    simpl in H. rewrite Hc' in H. injection H as <- _. congruence.
  - apply Forall_cons in Hxs as [Hx Hxs]. apply Forall_cons in Hgood' as [Hx' Hgood'].
    simpl in H.
    apply Hx in H as [HE H]; [|done|by apply closes_items_text..].
    destruct (items_split xs Hxs xs' r r' Hgood' H) as [Hrest ->].
    by split; [constructor|].
Qed.

End items.

(** *** A value is read back from its text *)

Lemma forallb_Forall {A} (f : A -> bool) (l : list A) :
  forallb f l = true -> Forall (fun x => f x = true) l.
Proof.
  induction l as [|x l IH]; simpl; [constructor|].
  intros H. apply andb_prop in H as [Hx Hl]. constructor; [done | by apply IH].
Qed.

Lemma dumps_list (items : list json) :
  dumps (JList items) = "[" +:+ (join ", " (map dumps items) +:+ "]").
Proof. reflexivity. Qed.

Lemma dumps_object (items : list (string * json)) :
  dumps (JDict items) = "{" +:+ (join ", " (map item_text (sort_items items)) +:+ "}").
Proof.
  change (dumps (JDict items))
    with (dumps_dict (map (fun kv => match kv with (k, v) => (k, dumps v) end) items)).
  unfold dumps_dict.
  rewrite (JsonTheory.sort_items_map (fun kv => match kv with (k, v) => (k, dumps v) end))
    by (by intros []).
  rewrite map_map. do 2 f_equal. f_equal. apply map_ext. by intros [k v].
Qed.

Lemma roundtrip_object (items : list (string * json)) :
  roundtrip (JDict items)
  = JDict (map (fun kv => (kv.1, roundtrip kv.2)) (sort_items items)).
Proof.
  change (roundtrip (JDict items))
    with (JDict (sort_items
                   (map (fun kv => match kv with (k, v) => (k, roundtrip v) end) items))).
  rewrite (JsonTheory.sort_items_map (fun kv => match kv with (k, v) => (k, roundtrip v) end))
    by (by intros []).
  f_equal. apply map_ext. by intros [k v].
Qed.

Ltac other_kind Hf Hf' H :=
  exfalso;
  let c := fresh "c" in
  let Ho := fresh "Ho" in
  let Ho' := fresh "Ho'" in
  destruct (opens_agree _ _ _ _ Hf Hf' H) as (c & Ho & Ho');
  simpl in Ho, Ho';
  first [rewrite Ho in Ho' | rewrite Ho' in Ho];
  vm_compute in Ho, Ho'; discriminate.

Lemma atom_value_split (v v' : json) (r r' : string) :
  is_atom v = true ->
  float_texts_in v = true -> float_texts_in v' = true ->
  closes r = true -> closes r' = true ->
  dumps v +:+ r = dumps v' +:+ r' -> roundtrip v = roundtrip v' /\ r = r'.
Proof.
  intros Ha Hf Hf' Hr Hr' H.
  destruct (is_atom v') eqn:Ha'.
  - pose proof (atom_dumps v Ha Hf) as Ht. pose proof (atom_dumps v' Ha' Hf') as Ht'.
    unfold atom_text in Ht, Ht'.
    apply andb_prop in Ht as [_ Hchars]. apply andb_prop in Ht' as [_ Hchars'].
    destruct (atom_split _ _ _ _ Hchars Hchars' Hr Hr' H) as [Heq ->].
    apply atom_inj in Heq; try done. by subst.
  - destruct v as [ | b | z | f | s | items | items]; try done;
      destruct v' as [ | b' | z' | f' | s' | items' | items']; try done;
      other_kind Hf Hf' H.
Qed.

(** The text of a value, followed by whatever can follow a value, gives
    back the value up to the order of the keys of its objects, and what
    follows. *)
Lemma dumps_split (v : json) :
  float_texts_in v = true ->
  forall v' r r',
    float_texts_in v' = true -> closes r = true -> closes r' = true ->
    dumps v +:+ r = dumps v' +:+ r' -> roundtrip v = roundtrip v' /\ r = r'.
Proof.
  induction v as [ | b | z | f | s | items IH | items IH] using json_values_ind;
    intros Hf v' r r' Hf' Hr Hr' H.
  - by apply atom_value_split.
  - by apply atom_value_split.
  - by apply atom_value_split.
  - by apply atom_value_split.
  - destruct v' as [ | b' | z' | f' | s' | items' | items'];
      try (other_kind Hf Hf' H).
    apply string_split in H as [-> ->]. done.
  - destruct v' as [ | b' | z' | f' | s' | items' | items'];
      try (other_kind Hf Hf' H).
    rewrite !dumps_list, !append_assoc in H. apply (append_inv_head "[") in H.
    simpl in Hf, Hf'. apply forallb_Forall in Hf, Hf'.
    apply (sequence_split dumps (fun x x' => roundtrip x = roundtrip x')
             (fun x => float_texts_in x = true) (char 93)) in H as [Hall ->];
      try done.
    + split; [|done].
      change (JList (map roundtrip items) = JList (map roundtrip items')). f_equal.
      clear -Hall.
      induction Hall as [|x x' xs xs' Hx _ IHall]; simpl; [done|]. by rewrite Hx, IHall.
    + intros x R Hx. destruct (dumps_opens x R Hx) as (c' & t & Hc' & Hopen & _).
      by exists c', t.
    + clear H. induction IH as [|x xs Hx _ IHxs]; [constructor|].
      apply Forall_cons in Hf as [Hfx Hfxs].
      constructor; [by apply Hx | by apply IHxs].
  - destruct v' as [ | b' | z' | f' | s' | items' | items'];
      try (other_kind Hf Hf' H).
    rewrite !dumps_object, !append_assoc in H. apply (append_inv_head "{") in H.
    simpl in Hf, Hf'. apply forallb_Forall in Hf, Hf'.
    rewrite <- (JsonTheory.sort_items_perm items) in Hf, IH.
    rewrite <- (JsonTheory.sort_items_perm items') in Hf'.
    apply (sequence_split item_text
             (fun kv kv' => kv.1 = kv'.1 /\ roundtrip kv.2 = roundtrip kv'.2)
             (fun kv => float_texts_in kv.2 = true) (char 125)) in H as [Hall ->];
      try done.
    + split; [|done]. rewrite !roundtrip_object. f_equal.
      clear -Hall.
      induction Hall as [|x x' xs xs' [Hk Hx] _ IHall]; simpl; [done|].
      by rewrite Hk, Hx, IHall.
    + intros kv R _. by eexists _, _.
    + clear H.
      generalize dependent (sort_items items). intros sorted IH Hsorted.
      induction IH as [|kv kvs Hkv _ IHkvs]; [constructor|].
      apply Forall_cons in Hsorted as [Hfkv Hfkvs].
      constructor; [|by apply IHkvs].
      intros kv' R R' Hkv' HR HR' H. unfold item_text in H.
      rewrite !append_assoc in H. apply string_split in H as [Hk H].
      apply (append_inv_head ": ") in H.
      destruct (Hkv Hfkv kv'.2 R R' Hkv' HR HR' H) as [Hv ->]. done.
Qed.

(** The normalised schema is read back from its text. *)
Lemma normalise_fixed (schema : option json) :
  roundtrip (_normalise schema) = _normalise schema.
Proof.
  destruct schema as [v|]; [|done].
  rewrite JsonTheory.normalise_roundtrip. apply JsonTheory.roundtrip_idemp.
Qed.

Lemma schema_changes_text (k k' : keyed) :
  schema_float_texts k -> schema_float_texts k' ->
  (forall g, g <> F_json_schema -> value g k = value g k') ->
  text_of k = text_of k' -> value F_json_schema k = value F_json_schema k'.
Proof.
  intros Hk Hk' Hothers H.
  rewrite !text_of_fields, !dumps_dict_shape in H.
  rewrite (Hothers F_provider), (Hothers F_model), (Hothers F_stage), (Hothers F_prompt),
    (Hothers F_system), (Hothers F_temperature), (Hothers F_max_output_tokens),
    (Hothers F_top_p), (Hothers F_reasoning_effort), (Hothers F_verbosity),
    (Hothers F_thinking_budget), (Hothers F_include_thoughts) in H by discriminate.
  cancel_heads H. cancel_tail H. cancel_heads H.
  apply dumps_split in H as [H _]; try done.
  simpl value in *. by rewrite !normalise_fixed in H.
Qed.

Lemma keys_or_collision (k k' : keyed) :
  text_of k <> text_of k' ->
  key_of k <> key_of k' \/ collision (text_of k) (text_of k').
Proof.
  intros Htext. destruct (decide (key_of k = key_of k')) as [Hkey|Hkey]; [right|by left].
  split; [done|]. by rewrite <- !key_of_text.
Qed.



End CacheKeyTheory.

(** ** Prompt trimming *)

Module ContextTheory.
Import Context ContextTerms.

(** *** Characters *)

Lemma len_append (a b : string) : Text.len (a +:+ b) = (Text.len a + Text.len b)%nat.
Proof.
  induction a as [|c a IH]; simpl; [done|].
  destruct (Text.is_continuation c); simpl; by rewrite IH.
Qed.

Lemma concat_cons (g : string) (l : list string) :
  Text.concat (g :: l) = g +:+ Text.concat l.
Proof. reflexivity. Qed.

Lemma concat_app (l l' : list string) :
  Text.concat (l ++ l') = Text.concat l +:+ Text.concat l'.
Proof.
  induction l as [|g l IH]; [done|].
  change ((g :: l) ++ l')%list with (g :: (l ++ l'))%list.
  by rewrite !concat_cons, IH, CacheTheory.append_assoc.
Qed.

(** Every character has one leading byte. *)
Lemma chars_one (s : string) :
  Forall (fun g => exists c t, g = String c t /\ Text.len t = 0%nat) (Text.chars s).
Proof.
  induction s as [|c s IH]; simpl; [constructor|].
  destruct (Text.chars s) as [|ch rest]; [repeat constructor; by exists c, ""|].
  apply Forall_cons in IH as [(c' & t' & -> & Ht') Hrest]. simpl.
  destruct (Text.is_continuation c') eqn:Hc'.
  - constructor; [|done]. exists c, (String c' t'). split; [done|]. simpl.
    by rewrite Hc'.
  - constructor; [by exists c, ""|]. constructor; [|done]. by exists c', t'.
Qed.

Lemma concat_chars (s : string) : Text.concat (Text.chars s) = s.
Proof.
  induction s as [|c s IH]; [done|]. simpl.
  destruct (Text.chars s) as [|ch rest].
  - by rewrite <- IH.
  - rewrite concat_cons in IH.
    destruct (Text.continues ch); rewrite !concat_cons; [|rewrite IH]; by rewrite <- IH.
Qed.

Lemma len_concat_le (l : list string) :
  Forall (fun g => exists c t, g = String c t /\ Text.len t = 0%nat) l ->
  (Text.len (Text.concat l) <= length l)%nat.
Proof.
  induction 1 as [|g l (c & t & -> & Ht) _ IH]; [done|].
  rewrite concat_cons, len_append. simpl. rewrite Ht.
  destruct (Text.is_continuation c); lia.
Qed.

Lemma len_concat_rev (l : list string) :
  Text.len (Text.concat (rev l)) = Text.len (Text.concat l).
Proof.
  induction l as [|g l IH]; [done|]. simpl rev.
  rewrite concat_app, !concat_cons, !len_append, IH.
  change (Text.len (Text.concat [])) with 0%nat. lia.
Qed.

Lemma lstrip_chars_suffix (l : list string) :
  exists spaces, l = (spaces ++ Text.lstrip_chars l)%list.
Proof.
  induction l as [|g l [spaces IH]]; simpl; [by exists []|].
  destruct (Text.isspace g); [|by exists []].
  exists (g :: spaces). simpl. by rewrite <- IH.
Qed.

Lemma len_lstrip_chars (l : list string) :
  (Text.len (Text.concat (Text.lstrip_chars l)) <= Text.len (Text.concat l))%nat.
Proof.
  destruct (lstrip_chars_suffix l) as [spaces Hl].
  rewrite Hl at 2. rewrite concat_app, len_append. lia.
Qed.

(** [strip] removes characters, [s[:n]] and [s[-n:]] keep at most [n]. *)
Lemma strip_len (s : string) : (Text.len (Text.strip s) <= Text.len s)%nat.
Proof.
  unfold Text.strip. rewrite len_concat_rev.
  etrans; [apply len_lstrip_chars|]. rewrite len_concat_rev.
  etrans; [apply len_lstrip_chars|]. by rewrite concat_chars.
Qed.

Lemma head_slice_len (n : nat) (s : string) : (Text.len (Text.head_slice n s) <= n)%nat.
Proof.
  unfold Text.head_slice.
  etrans; [apply len_concat_le, Forall_take, chars_one|].
  rewrite length_take. lia.
Qed.

Lemma tail_slice_len (n : nat) (s : string) : (Text.len (Text.tail_slice n s) <= n)%nat.
Proof.
  unfold Text.tail_slice.
  etrans; [apply len_concat_le, Forall_drop, chars_one|].
  rewrite length_drop. lia.
Qed.

(** *** The two outcomes of [summarise_prompt] *)

Lemma summarise_prompt_cases (_DEFAULT_LIMIT : Z) (prompt : string) (token_limit : option Z) :
  let limit := effective_limit _DEFAULT_LIMIT token_limit in
  summarise_prompt _DEFAULT_LIMIT prompt token_limit
  = if Z.of_nat (Text.len prompt) / 4 <=? limit then (prompt, false)
    else ("[context trimmed to ~" +:+ pretty limit +:+ " tokens]" +:+ newline
          +:+ newline +:+ "-- begin excerpt --" +:+ newline
          +:+ Text.strip (Text.head_slice (Z.to_nat (limit * 4 / 2)) prompt) +:+ newline
          +:+ newline +:+ "..." +:+ newline
          +:+ Text.strip (Text.tail_slice (Z.to_nat (limit * 4 - limit * 4 / 2)) prompt)
          +:+ newline
          +:+ "-- end excerpt --", true).
Proof.
  intros limit. unfold summarise_prompt.
  assert (Hlimit : Z.max (match token_limit with
                          | Some l => if l =? 0 then _DEFAULT_LIMIT else l
                          | None => _DEFAULT_LIMIT
                          end) 256 = limit).
  { unfold limit, effective_limit. destruct token_limit as [[|p|p]|]; reflexivity. }
  rewrite Hlimit.
  destruct (String.eqb_spec prompt "") as [->|Hne]; [|reflexivity].
  change (Z.of_nat (Text.len "") / 4) with 0.
  assert (Hpos : (0 <=? limit) = true).
  { apply Z.leb_le. unfold limit, effective_limit. lia. }
  by rewrite Hpos.
Qed.

(** X12.  The limit a prompt is measured against is the limit given, the
    default when none or 0 is given, and never below 256.  A prompt is
    trimmed exactly when a quarter of its length in characters, rounded down,
    exceeds that limit; a prompt within the limit, and so every prompt
    shorter than 1028 characters, is returned unchanged; a prompt that is
    trimmed has at least 4 * limit + 4 characters. *)
Theorem prompt_trimming_threshold (_DEFAULT_LIMIT : Z) (prompt : string)
    (token_limit : option Z) :
  let limit := effective_limit _DEFAULT_LIMIT token_limit in
  let approx_tokens := Z.of_nat (Text.len prompt) / 4 in
  256 <= limit
  /\ (summarise_prompt _DEFAULT_LIMIT prompt token_limit).2 = negb (approx_tokens <=? limit)
  /\ (approx_tokens <= limit ->
      summarise_prompt _DEFAULT_LIMIT prompt token_limit = (prompt, false))
  /\ ((Text.len prompt < 1028)%nat ->
      summarise_prompt _DEFAULT_LIMIT prompt token_limit = (prompt, false))
  /\ ((summarise_prompt _DEFAULT_LIMIT prompt token_limit).2 = true ->
      4 * limit + 4 <= Z.of_nat (Text.len prompt)).
Proof.
  intros limit approx_tokens.
  assert (Hfloor : 256 <= limit) by (unfold limit, effective_limit; lia).
  rewrite summarise_prompt_cases. fold limit. fold approx_tokens.
  split; [done|].
  destruct (Z.leb_spec approx_tokens limit) as [Hle|Hgt]; simpl.
  - split; [done|]. split; [done|]. split; [done|]. discriminate.
  - split; [done|]. split; [lia|]. split.
    + intros Hshort. exfalso. unfold approx_tokens in Hgt.
      assert (Z.of_nat (Text.len prompt) / 4 <= 256); [|lia].
      apply Z.lt_succ_r. apply Z.div_lt_upper_bound; lia.
    + intros _. unfold approx_tokens in Hgt.
      pose proof (Z.mul_div_le (Z.of_nat (Text.len prompt)) 4 ltac:(lia)). lia.
Qed.



End ContextTheory.

(** ** Coverage totals *)

Module CoverageTheory.
Import FactMapping CoverageTerms FactMappingTheory.

Lemma facts_for_cons (u : UUID) (fact : ResearchFact) (fs : list ResearchFact) :
  facts_for u (fact :: fs)
  = ((if decide (subchapter_id fact = u) then 1 else 0) + facts_for u fs)%nat.
Proof. unfold facts_for. rewrite filter_cons. by case_decide. Qed.

Lemma sum_indicator (subs : list Subchapter) (u : UUID) :
  NoDup (map sub_id subs) ->
  sum_list (map (fun sub => if decide (u = sub_id sub) then 1%nat else 0%nat) subs)
  = if decide (u ∈ map sub_id subs) then 1%nat else 0%nat.
Proof.
  induction subs as [|s subs IH]; intros Hnodup.
  - destruct (decide (u ∈ map sub_id [])) as [H|_]; [by inversion H | done].
  - simpl in *. apply NoDup_cons in Hnodup as [Hnotin Hnodup]. rewrite IH by done.
    destruct (decide (u = sub_id s)) as [Heq|Hne];
      destruct (decide (u ∈ map sub_id subs)) as [Hin'|Hout'];
      destruct (decide (u ∈ sub_id s :: map sub_id subs)) as [Hin''|Hout''];
      try done.
    all: try (exfalso; apply Hnotin; by rewrite <- Heq).
    all: try (exfalso; apply Hout''; rewrite Heq; by left).
    all: try (exfalso; apply Hout''; by right).
    all: exfalso; apply elem_of_cons in Hin'' as [?|?]; done.
Qed.

Lemma coverage_sum (subs : list Subchapter) (fs : list ResearchFact) :
  NoDup (map sub_id subs) ->
  sum_list (map (fun sub => facts_for (sub_id sub) fs) subs)
  = length (mapped_inside subs fs).
Proof.
  intros Hnodup. induction fs as [|fact fs IH].
  - unfold facts_for, mapped_inside. simpl. induction subs; simpl; [done|].
    apply NoDup_cons in Hnodup as [_ Hnodup]. by rewrite IHsubs.
  - unfold mapped_inside in *. rewrite filter_cons.
    assert (Hsplit : sum_list (map (fun sub => facts_for (sub_id sub) (fact :: fs)) subs)
                     = (sum_list (map (fun sub => if decide (subchapter_id fact = sub_id sub)
                                                  then 1%nat else 0%nat) subs)
                        + sum_list (map (fun sub => facts_for (sub_id sub) fs) subs))%nat).
    { clear. induction subs as [|s subs IHs]; simpl; [done|].
      rewrite IHs, facts_for_cons. lia. }
    rewrite Hsplit, IH, sum_indicator by done.
    case_decide; simpl; lia.
Qed.

(** X14.  When the subchapter ids of the structure are distinct, the fact
    counts of the returned coverage add up to the number of returned facts
    that are mapped to a subchapter of the structure: never more than the
    number of facts, and as many exactly when no fact is mapped outside the
    structure. *)
Theorem coverage_counts_mapped_facts (structure : BookStructure)
    (proposal : reply FactMappingBatch) (critique_text : result string)
    (final : reply FactMappingBatch) (res : FactMappingResult) :
  generate_fact_mapping (Some structure) proposal critique_text final = Ok res ->
  NoDup (map sub_id (structure_subchapters structure)) ->
  let counted := sum_list (map fact_count (coverage (batch res))) in
  let inside := mapped_inside (structure_subchapters structure) (facts (batch res)) in
  counted = length inside
  /\ (counted <= length (facts (batch res)))%nat
  /\ (counted = length (facts (batch res))
      <-> forall fact, fact ∈ facts (batch res) ->
            subchapter_id fact ∈ map sub_id (structure_subchapters structure)).
Proof.
  intros Hrun Hnodup counted inside.
  assert (Hcov : coverage (batch res)
                 = map (fun sub => {| cov_subchapter_id := sub_id sub;
                                      fact_count := facts_for (sub_id sub) (facts (batch res)) |})
                       (structure_subchapters structure)).
  { unfold generate_fact_mapping in Hrun. simpl in Hrun.
    apply bind_Ok in Hrun as (mapping & _ & Hrun).
    apply bind_Ok in Hrun as (crit & _ & Hrun).
    apply bind_Ok in Hrun as (fm & _ & Hrun).
    injection Hrun as <-. simpl. apply build_coverage_map. }
  assert (Hcounted : counted = length inside).
  { unfold counted, inside. rewrite Hcov, map_map. simpl. by apply coverage_sum. }
  split; [done|]. rewrite Hcounted. unfold inside, mapped_inside.
  split; [apply length_filter|]. split.
  - intros Hlen fact Hfact.
    assert (Heq : filter (fun fact => subchapter_id fact ∈ map sub_id (structure_subchapters structure))
                         (facts (batch res)) = facts (batch res)).
    { clear -Hlen. revert Hlen. generalize (facts (batch res)). intros fs.
      induction fs as [|f fs IH]; [done|]. rewrite filter_cons. case_decide; simpl; intros Hl.
      - f_equal. apply IH. lia.
      - pose proof (length_filter
                      (fun fact => subchapter_id fact
                                     ∈ map sub_id (structure_subchapters structure)) fs). lia. }
    rewrite <- Heq in Hfact. by apply list_elem_of_filter in Hfact as [? _].
  - intros Hall. f_equal. clear -Hall. revert Hall. generalize (facts (batch res)). intros fs Hall.
    induction fs as [|f fs IH]; [done|]. rewrite filter_cons.
    rewrite decide_True by (apply Hall; by left). f_equal. apply IH.
    intros fact Hfact. apply Hall. by right.
Qed.

Lemma coverage_counts_mapped_facts_witness :
  let s1 := "5b0a5c3e-0000-4000-8000-000000000001" in
  let s2 := "5b0a5c3e-0000-4000-8000-000000000002" in
  let structure :=
    {| structure_project_id := "5b0a5c3e-0000-4000-8000-000000000000";
       chapters := [ {| chapter_id := "5b0a5c3e-0000-4000-8000-00000000000c";
                        chapter_order := 1;
                        subchapters := [ {| sub_id := s1; sub_order := 1 |};
                                         {| sub_id := s2; sub_order := 2 |} ] |} ] |} in
  let mapping :=
    {| project_id := "5b0a5c3e-0000-4000-8000-000000000000";
       facts := [ {| fact_id := "5b0a5c3e-0000-4000-8000-0000000000f1"; subchapter_id := s1 |};
                  {| fact_id := "5b0a5c3e-0000-4000-8000-0000000000f2";
                     subchapter_id := "5b0a5c3e-0000-4000-8000-00000000dead" |} ];
       coverage := [] |} in
  exists res,
    generate_fact_mapping (Some structure) (Parsed mapping) (Ok "fine") (Parsed mapping) = Ok res
    /\ NoDup (map sub_id (structure_subchapters structure))
    /\ sum_list (map fact_count (coverage (batch res)))
       = length (mapped_inside (structure_subchapters structure) (facts (batch res))).
Proof.
  intros s1 s2 structure mapping.
  assert (Hnodup : NoDup (map sub_id (structure_subchapters structure))).
  { apply NoDup_cons. split; [|apply NoDup_singleton].
    intros Hin. apply list_elem_of_singleton in Hin. discriminate. }
  eexists. split; [reflexivity|]. split; [exact Hnodup|].
  match goal with
  | |- sum_list (map fact_count (coverage (batch ?r))) = _ =>
      exact (proj1 (coverage_counts_mapped_facts structure (Parsed mapping) (Ok "fine")
                      (Parsed mapping) r eq_refl Hnodup))
  end.
Defined.

End CoverageTheory.

(** ** Sessions and project access *)

Module AccessTheory.
Import Access.

Lemma global_priority (r : string) :
  get GLOBAL_ROLE_PRIORITY r 0
  = if decide (r = "member") then 1 else if decide (r = "admin") then 10 else 0.
Proof.
  unfold get, GLOBAL_ROLE_PRIORITY.
  destruct (decide (r = "member")) as [->|Hm]; [reflexivity|].
  rewrite lookup_insert_ne by done.
  destruct (decide (r = "admin")) as [->|Ha]; [reflexivity|].
  by rewrite lookup_singleton_ne.
Qed.

Lemma project_priority (r : string) :
  get PROJECT_ROLE_PRIORITY r 0
  = if decide (r = "viewer") then 1
    else if decide (r = "editor") then 5
    else if decide (r = "owner") then 10 else 0.
Proof.
  unfold get, PROJECT_ROLE_PRIORITY.
  destruct (decide (r = "viewer")) as [->|Hv]; [reflexivity|].
  rewrite lookup_insert_ne by done.
  destruct (decide (r = "editor")) as [->|He]; [reflexivity|].
  rewrite lookup_insert_ne by done.
  destruct (decide (r = "owner")) as [->|Ho]; [reflexivity|].
  by rewrite lookup_singleton_ne.
Qed.

Lemma is_admin_user_spec (user : SessionUser) :
  _is_admin_user user = true <-> role user = "admin".
Proof.
  unfold _is_admin_user. rewrite !global_priority. simpl.
  destruct (decide (role user = "member")) as [Hm|Hm].
  - rewrite Hm. split; [intros H; discriminate H | discriminate].
  - destruct (decide (role user = "admin")) as [Ha|Ha]; [done|].
    split; [intros H; discriminate H | done].
Qed.

(** X15.  An administrator passes the project check for every project
    and every required role.  For anyone else a missing membership is
    answered 404 and a membership is enough exactly when its role ranks at
    least as high as the required one, 403 otherwise.  An owner passes every
    requirement, an editor all but owner, a viewer all but owner and editor;
    and who passes a requirement passes every weaker one. *)
Theorem project_access_by_role (db : Tables) (project_id : UUID) (user : SessionUser)
    (required_role : string) :
  (role user = "admin" -> _ensure_project_access db project_id user required_role = Ok tt)
  /\ (role user <> "admin" ->
      match project_members db !! (project_id, id user) with
      | None =>
          _ensure_project_access db project_id user required_role
          = Raise (HTTPException 404 "Project not found")
      | Some member_role =>
          (covers member_role required_role ->
           _ensure_project_access db project_id user required_role = Ok tt)
          /\ (~ covers member_role required_role ->
              _ensure_project_access db project_id user required_role
              = Raise (HTTPException 403 "Insufficient project permissions"))
      end)
  /\ (covers "owner" required_role)
  /\ (covers "editor" required_role <-> required_role <> "owner")
  /\ (covers "viewer" required_role <-> required_role <> "owner" /\ required_role <> "editor")
  /\ (forall member_role weaker_role,
        covers member_role required_role -> covers required_role weaker_role ->
        covers member_role weaker_role).
Proof.
  split; [|split; [|split; [|split; [|split]]]].
  - intros Hadmin. unfold _ensure_project_access.
    by rewrite (proj2 (is_admin_user_spec user) Hadmin).
  - intros Hnot. unfold _ensure_project_access.
    destruct (_is_admin_user user) eqn:Ha; [by apply is_admin_user_spec in Ha|].
    unfold _fetch_project_membership.
    destruct (project_members db !! (project_id, id user)) as [member_role|]; [|done].
    unfold covers.
    destruct (Z.ltb_spec (get PROJECT_ROLE_PRIORITY member_role 0)
                         (get PROJECT_ROLE_PRIORITY required_role 0)); split; try done; lia.
  - unfold covers. rewrite !project_priority. simpl. repeat case_decide; lia.
  - unfold covers. rewrite !project_priority. simpl.
    repeat case_decide; subst; split; try done; try lia.
  - unfold covers. rewrite !project_priority. simpl.
    repeat case_decide; subst; split; try done; try lia; try (intros [? ?]; done).
  - unfold covers. intros member_role weaker_role. lia.
Qed.

Lemma session_with_user_Some (db : Tables) (token_hash : string) (row : session_row)
    (user_id : UUID) (user : user_row) :
  session_with_user db token_hash = Some (row, user_id, user)
  <-> user_sessions db !! token_hash = Some row
      /\ session_user_id row = Some user_id
      /\ app_users db !! user_id = Some user.
Proof.
  unfold session_with_user. split.
  - intros H.
    destruct (user_sessions db !! token_hash) as [r|]; simpl in H; [|done].
    destruct (session_user_id r) as [u|] eqn:Hu; simpl in H; [|done].
    destruct (app_users db !! u) as [x|] eqn:Hx; simpl in H; [|done].
    injection H as -> -> ->. done.
  - intros (-> & Hu & Hx). simpl. rewrite Hu. simpl. by rewrite Hx.
Qed.

Lemma delete_session_lookup (sessions : gmap string session_row) (k : string)
    (row : session_row) :
  sessions !! k = Some row -> delete_session (session_id row) sessions !! k = None.
Proof.
  intros Hk. unfold delete_session. apply map_lookup_filter_None. right.
  intros row' Hk'. rewrite Hk in Hk'. injection Hk' as <-. simpl. by intros H.
Qed.

Lemma touch_session_dom (sid : UUID) (now : Z) (sessions : gmap string session_row) :
  dom (touch_session sid now sessions) = dom sessions.
Proof. unfold touch_session. apply dom_fmap_L. Qed.

(** X16.  A request passes only with a non-empty cookie whose hashed
    token is a stored session of an existing account, not past its expiry,
    and with a global role that ranks at least as high as the required one;
    the user returned is that account, and letting it pass leaves accounts
    and memberships as they are and removes no session.  A session past its expiry
    is answered 401 and, when it belongs to an account, deleted, so every
    later request with that cookie is answered 401 too.  A missing or empty
    cookie is answered 401 and changes nothing.  No required role ranks above
    admin. *)
Theorem session_authentication (min_role : string) (db : Tables) (now : Z)
    (cookie : option string) :
  (forall user db',
      require_role min_role db now cookie = (Ok user, db') ->
      exists token row account,
        cookie = Some token /\ token <> ""
        /\ user_sessions db !! _hash_token token = Some row
        /\ session_user_id row = Some (id user)
        /\ app_users db !! id user = Some account
        /\ email user = user_email account /\ role user = user_role account
        /\ now <= expires_at row
        /\ get GLOBAL_ROLE_PRIORITY min_role 0 <= get GLOBAL_ROLE_PRIORITY (role user) 0
        /\ app_users db' = app_users db
        /\ project_members db' = project_members db
        /\ dom (user_sessions db') = dom (user_sessions db))
  /\ (forall token row,
        cookie = Some token -> token <> "" ->
        user_sessions db !! _hash_token token = Some row ->
        expires_at row < now ->
        exists db',
          require_role min_role db now cookie
          = (Raise (HTTPException 401 "Session expired or invalid"), db')
          /\ (is_Some (session_with_user db (_hash_token token)) ->
              user_sessions db' !! _hash_token token = None
              /\ forall min_role' now',
                   require_role min_role' db' now' cookie
                   = (Raise (HTTPException 401 "Session expired or invalid"), db')))
  /\ ((cookie = None \/ cookie = Some "") ->
      require_role min_role db now cookie
      = (Raise (HTTPException 401 "Authentication required"), db))
  /\ get GLOBAL_ROLE_PRIORITY min_role 0 <= get GLOBAL_ROLE_PRIORITY "admin" 0.
Proof.
  split; [|split; [|split]].
  - intros user db' Hrun. unfold require_role in Hrun.
    destruct cookie as [token|]; [|by injection Hrun].
    destruct (String.eqb_spec token "") as [->|Hne]; [by injection Hrun|].
    unfold _lookup_session_user in Hrun.
    destruct (session_with_user db (_hash_token token)) as [[[row uid] account]|] eqn:Hs;
      [|by injection Hrun].
    apply session_with_user_Some in Hs as (Hrow & Huid & Hacc).
    destruct (Z.ltb_spec (expires_at row) now) as [Hdead|Hlive]; [by injection Hrun|].
    simpl in Hrun.
    destruct (Z.ltb_spec (get GLOBAL_ROLE_PRIORITY (user_role account) 0)
                         (get GLOBAL_ROLE_PRIORITY min_role 0)) as [Hlow|Hok];
      [by injection Hrun|].
    injection Hrun as <- <-. simpl.
    exists token, row, account. repeat split; try done. apply touch_session_dom.
  - intros token row -> Hne Hrow Hdead. unfold require_role.
    destruct (String.eqb_spec token "") as [->|_]; [done|].
    unfold _lookup_session_user.
    destruct (session_with_user db (_hash_token token)) as [[[row' uid] account]|] eqn:Hs.
    + apply session_with_user_Some in Hs as (Hrow' & Huid & Hacc).
      rewrite Hrow in Hrow'. injection Hrow' as <-.
      destruct (Z.ltb_spec (expires_at row) now) as [_|Hlive]; [|lia].
      eexists. split; [reflexivity|]. intros _. simpl.
      pose proof (delete_session_lookup _ _ _ Hrow) as Hgone.
      split; [done|]. intros min_role' now'. unfold require_role.
      destruct (String.eqb_spec token "") as [->|_]; [done|].
      unfold _lookup_session_user, session_with_user. simpl. by rewrite Hgone.
    + exists db. split; [reflexivity|]. by intros [x Hx].
  - intros [->| ->]; reflexivity.
  - rewrite !global_priority. simpl. repeat case_decide; lia.
Qed.

End AccessTheory.

(** ** Costs and budgets *)

Module LedgerTheory.
Import Budget Ledger.

Lemma usd_to_cents_nonneg (value : usd) : 0 <= _usd_to_cents value.
Proof. destruct value; simpl; lia. Qed.

Lemma int_or_0_id (v : Z) : int_or_0 (Some v) = v.
Proof. simpl. destruct (Z.eqb_spec v 0); congruence. Qed.

Lemma guard_cases (projects : gmap UUID project_row) (project_id : UUID) :
  _guard_project_budget projects project_id =
  match projects !! project_id with
  | None => Raise (HTTPException HTTP_404_NOT_FOUND "Project not found")
  | Some row =>
      match spend_limit_cents row with
      | Some limit =>
          if int_or_0 (total_cost_cents row) >=? limit then Raise budget_exhausted else Ok tt
      | None => Ok tt
      end
  end.
Proof.
  unfold _guard_project_budget, _fetch_budget_state.
  destruct (projects !! project_id) as [row|]; reflexivity.
Qed.

Lemma guard_rejects (projects : gmap UUID project_row) (project_id : UUID) :
  _guard_project_budget projects project_id = Raise budget_exhausted <->
  exists limit, limit_of projects project_id = Some limit
                /\ projects !! project_id <> None
                /\ limit <= spent projects project_id.
Proof.
  rewrite guard_cases. unfold limit_of, spent.
  destruct (projects !! project_id) as [row|]; simpl.
  - destruct (spend_limit_cents row) as [limit|].
    + destruct (Z.geb_spec (int_or_0 (total_cost_cents row)) limit) as [Hge|Hlt].
      * split; [intros _; exists limit; repeat split; [done|lia] | done].
      * split; [done|]. intros (l & [= <-] & _ & Hle). lia.
    + split; [done|]. by intros (l & ? & _).
  - split; [done|]. by intros (l & ? & _).
Qed.

Lemma guard_accepts (projects : gmap UUID project_row) (project_id : UUID) :
  _guard_project_budget projects project_id = Ok tt <->
  projects !! project_id <> None
  /\ match limit_of projects project_id with
     | Some limit => spent projects project_id < limit
     | None => True
     end.
Proof.
  rewrite guard_cases. unfold limit_of, spent.
  destruct (projects !! project_id) as [row|]; simpl.
  - destruct (spend_limit_cents row) as [limit|].
    + destruct (Z.geb_spec (int_or_0 (total_cost_cents row)) limit) as [Hge|Hlt].
      * split; [done|]. intros [_ Hlt]. lia.
      * split; [intros _; split; [done|lia] | done].
    + done.
  - split; [done|]. by intros [? _].
Qed.

Lemma add_cost_spent (cents : Z) (row : project_row) :
  0 <= cents ->
  int_or_0 (total_cost_cents row) <= int_or_0 (total_cost_cents (add_cost cents row)).
Proof.
  intros Hc. unfold add_cost. simpl. destruct (total_cost_cents row) as [t|]; simpl; [|lia].
  destruct (Z.eqb_spec t 0), (Z.eqb_spec (t + cents) 0); lia.
Qed.

Lemma increment_effect (projects projects' : gmap UUID project_row) (project_id : UUID)
    (delta : usd) :
  _increment_project_cost projects project_id delta = Ok projects' ->
  (forall p, limit_of projects' p = limit_of projects p)
  /\ (forall p, (projects' !! p = None <-> projects !! p = None))
  /\ (forall p, spent projects p <= spent projects' p)
  /\ (forall p, p <> project_id -> projects' !! p = projects !! p)
  /\ (forall row, projects !! project_id = Some row -> total_cost_cents row <> None ->
        spent projects' project_id = spent projects project_id + _usd_to_cents delta).
Proof.
  unfold _increment_project_cost. pose proof (usd_to_cents_nonneg delta) as Hnn.
  destruct (Z.leb_spec (_usd_to_cents delta) 0) as [Hle|Hpos].
  - intros [= <-]. repeat split; try done; try lia.
  - destruct (projects !! project_id) as [row|] eqn:Hrow; [|done].
    intros [= <-]. split; [|split; [|split; [|split]]].
    + intros p. unfold limit_of. destruct (decide (p = project_id)) as [->|Hne].
      * by rewrite lookup_insert_eq, Hrow.
      * by rewrite lookup_insert_ne.
    + intros p. destruct (decide (p = project_id)) as [->|Hne].
      * by rewrite lookup_insert_eq, Hrow.
      * by rewrite lookup_insert_ne.
    + intros p. unfold spent. destruct (decide (p = project_id)) as [->|Hne].
      * rewrite lookup_insert_eq, Hrow. by apply add_cost_spent.
      * rewrite lookup_insert_ne by done. lia.
    + intros p Hne. by rewrite lookup_insert_ne.
    + intros row' [= <-] Htotal. unfold spent. rewrite lookup_insert_eq, Hrow.
      unfold add_cost. simpl. destruct (total_cost_cents row) as [t|]; [|done].
      simpl fmap. rewrite !int_or_0_id. done.
Qed.

(** X17.  Applying the cost of a stage never lowers what a project has
    spent and never changes a spend limit, so a project the budget guard
    rejects is still rejected afterwards, whichever project the cost was
    booked on; only the row of that project is touched, and when its total
    is not NULL it grows by exactly the cost in cents. *)
Theorem stage_costs_only_accumulate (projects projects' : gmap UUID project_row)
    (project_id : UUID) (stage : stage_result) :
  _apply_stage_cost projects project_id stage = Ok projects' ->
  (forall p, limit_of projects' p = limit_of projects p)
  /\ (forall p, spent projects p <= spent projects' p)
  /\ (forall p, _guard_project_budget projects p = Raise budget_exhausted ->
                _guard_project_budget projects' p = Raise budget_exhausted)
  /\ (forall p, p <> project_id -> projects' !! p = projects !! p)
  /\ (forall row cost,
        projects !! project_id = Some row -> total_cost_cents row <> None ->
        (cost_usd stage = Some cost
         \/ (cost_usd stage = None /\ extras_cost_usd stage = Some cost)) ->
        spent projects' project_id = spent projects project_id + _usd_to_cents cost).
Proof.
  intros Happly.
  assert (Hinc : exists delta,
      _increment_project_cost projects project_id delta = Ok projects'
      /\ forall cost, (cost_usd stage = Some cost
          \/ (cost_usd stage = None /\ extras_cost_usd stage = Some cost)) ->
          _usd_to_cents cost = _usd_to_cents delta).
  { unfold _apply_stage_cost in Happly.
    destruct (cost_usd stage) as [[c|]|] eqn:Hcost.
    - exists (Some c). split; [done|]. intros cost [[= <-]|[? _]]; done.
    - exists None. injection Happly as <-. split; [done|].
      intros cost [[= <-]|[? _]]; done.
    - destruct (extras_cost_usd stage) as [[c|]|] eqn:Hextra.
      + exists (Some c). split; [done|]. intros cost [?|[_ [= <-]]]; done.
      + exists None. injection Happly as <-. split; [done|].
        intros cost [?|[_ [= <-]]]; done.
      + exists None. injection Happly as <-. split; [done|].
        intros cost [?|[_ ?]]; done. }
  destruct Hinc as (delta & Hinc & Hcost).
  destruct (increment_effect _ _ _ _ Hinc) as (Hlimit & Hdom & Hspent & Hframe & Hexact).
  split; [done|]. split; [done|]. split; [|split; [done|]].
  - intros p. rewrite !guard_rejects. intros (limit & Hl & Hp & Hle).
    exists limit. rewrite Hlimit, Hdom. split; [done|]. split; [done|].
    specialize (Hspent p). lia.
  - intros row cost Hrow Htotal Hsrc. rewrite (Hcost cost Hsrc). by eapply Hexact.
Qed.

Lemma sample_projects_row :
  sample_projects !! sample_project
  = Some {| spend_limit_cents := Some 500; total_cost_cents := Some 480 |}.
Proof. reflexivity. Qed.

Lemma stage_costs_only_accumulate_witness :
  let projects' :=
    <[sample_project := {| spend_limit_cents := Some 500; total_cost_cents := Some 517 |}]>
      sample_projects in
  _apply_stage_cost sample_projects sample_project
    {| cost_usd := None; extras_cost_usd := Some (Some 37) |} = Ok projects'
  /\ spent projects' sample_project = spent sample_projects sample_project + 37
  /\ _guard_project_budget projects' sample_project = Raise budget_exhausted.
Proof.
  intros projects'.
  assert (Hrun : _apply_stage_cost sample_projects sample_project
                   {| cost_usd := None; extras_cost_usd := Some (Some 37) |} = Ok projects').
  { unfold _apply_stage_cost, _increment_project_cost. cbn [cost_usd extras_cost_usd].
    change (_usd_to_cents (Some 37)) with 37. cbn [Z.leb Z.compare Pos.compare].
    rewrite sample_projects_row. reflexivity. }
  split; [exact Hrun|].
  destruct (stage_costs_only_accumulate _ _ _ _ Hrun) as (Hlimit & _ & _ & _ & Hexact).
  assert (Hspent : spent projects' sample_project = spent sample_projects sample_project + 37).
  { apply (Hexact _ (Some 37) sample_projects_row); [discriminate|].
    right. split; reflexivity. }
  split; [exact Hspent|].
  apply guard_rejects. exists 500. rewrite Hlimit, Hspent.
  unfold limit_of, spent, projects'. rewrite lookup_insert_eq, sample_projects_row.
  split; [reflexivity|]. split; [discriminate|]. simpl. lia.
Defined.

(** X18.  A cost that comes to zero cents or less (a non-positive amount,
    or a value that is no number) is dropped without looking at the
    projects table, so it succeeds even for a project that does not exist;
    a positive cost for an unknown project is a 404; a stage result that
    carries no cost at all leaves the table as it is, and a cost at the top
    level of the result takes precedence over one in its extras. *)
Theorem worthless_costs_are_dropped (projects : gmap UUID project_row)
    (project_id : UUID) (delta : usd) :
  (_usd_to_cents delta = 0 <-> (delta = None \/ exists c, delta = Some c /\ c <= 0))
  /\ (_usd_to_cents delta = 0 ->
      _increment_project_cost projects project_id delta = Ok projects)
  /\ (0 < _usd_to_cents delta -> projects !! project_id = None ->
      _increment_project_cost projects project_id delta
      = Raise (HTTPException 404 "Project not found"))
  /\ (forall stage, cost_usd stage = None -> extras_cost_usd stage = None ->
      _apply_stage_cost projects project_id stage = Ok projects)
  /\ (forall stage cost, cost_usd stage = Some cost ->
      _apply_stage_cost projects project_id stage
      = _increment_project_cost projects project_id cost).
Proof.
  split; [|split; [|split; [|split]]].
  - destruct delta as [c|]; simpl.
    + split.
      * intros H. right. exists c. split; [done|lia].
      * intros [?|(c' & [= <-] & Hle)]; [done|lia].
    + split; [by left|done].
  - intros Hz. unfold _increment_project_cost. by rewrite Hz.
  - intros Hpos Hnone. unfold _increment_project_cost.
    destruct (Z.leb_spec (_usd_to_cents delta) 0); [lia|]. by rewrite Hnone.
  - intros stage Hc He. unfold _apply_stage_cost. by rewrite Hc, He.
  - intros stage cost Hc. unfold _apply_stage_cost. rewrite Hc.
    destruct cost; reflexivity.
Qed.

(** X19.  Setting a budget leaves every accumulated cost as it was and
    touches no other project.  Removing the limit opens the guard; a limit
    is stored in cents and is never negative, and the guard then rejects
    exactly when the limit is at most what has been spent: a limit of
    zero, a negative or a non-numeric one blocks a project that has spent
    nothing. *)
Theorem new_limit_decides_the_guard (projects projects' : gmap UUID project_row)
    (project_id : UUID) (spend_limit_usd : option usd) :
  _set_project_budget projects project_id spend_limit_usd = Ok projects' ->
  (forall p, spent projects' p = spent projects p)
  /\ (forall p, p <> project_id -> projects' !! p = projects !! p)
  /\ limit_of projects' project_id = _usd_to_cents <$> spend_limit_usd
  /\ (spend_limit_usd = None -> _guard_project_budget projects' project_id = Ok tt)
  /\ (forall value, spend_limit_usd = Some value ->
        0 <= _usd_to_cents value
        /\ (_guard_project_budget projects' project_id = Raise budget_exhausted
            <-> _usd_to_cents value <= spent projects project_id)
        /\ (_guard_project_budget projects' project_id = Ok tt
            <-> spent projects project_id < _usd_to_cents value))
  /\ (forall value, spend_limit_usd = Some value -> _usd_to_cents value = 0 ->
        0 <= spent projects project_id ->
        _guard_project_budget projects' project_id = Raise budget_exhausted).
Proof.
  unfold _set_project_budget.
  destruct (projects !! project_id) as [row|] eqn:Hrow; [|done].
  intros [= <-].
  assert (Hspent : forall p,
    spent (<[project_id := {| spend_limit_cents :=
               match spend_limit_usd with
               | Some value => Some (_usd_to_cents value) | None => None end;
             total_cost_cents := total_cost_cents row |}]> projects) p
    = spent projects p).
  { intros p. unfold spent. destruct (decide (p = project_id)) as [->|Hne].
    - by rewrite lookup_insert_eq, Hrow.
    - by rewrite lookup_insert_ne. }
  assert (Hlimit : limit_of (<[project_id := {| spend_limit_cents :=
               match spend_limit_usd with
               | Some value => Some (_usd_to_cents value) | None => None end;
             total_cost_cents := total_cost_cents row |}]> projects) project_id
    = _usd_to_cents <$> spend_limit_usd).
  { unfold limit_of. rewrite lookup_insert_eq. simpl. by destruct spend_limit_usd. }
  assert (Hcases : forall value, spend_limit_usd = Some value ->
        (_guard_project_budget (<[project_id := {| spend_limit_cents :=
               match spend_limit_usd with
               | Some value => Some (_usd_to_cents value) | None => None end;
             total_cost_cents := total_cost_cents row |}]> projects) project_id
           = Raise budget_exhausted
            <-> _usd_to_cents value <= spent projects project_id)
        /\ (_guard_project_budget (<[project_id := {| spend_limit_cents :=
               match spend_limit_usd with
               | Some value => Some (_usd_to_cents value) | None => None end;
             total_cost_cents := total_cost_cents row |}]> projects) project_id = Ok tt
            <-> spent projects project_id < _usd_to_cents value)).
  { intros value ->. rewrite guard_rejects, guard_accepts, Hlimit, Hspent.
    simpl. rewrite lookup_insert_eq. split.
    - split.
      + by intros (limit & [= <-] & _ & Hle).
      + intros Hle. exists (_usd_to_cents value). done.
    - split; [by intros [_ ?]|done]. }
  split; [done|]. split; [|split; [done|split; [|split]]].
  - intros p Hne. by rewrite lookup_insert_ne.
  - intros ->. rewrite guard_accepts, Hlimit. simpl. by rewrite lookup_insert_eq.
  - intros value Hv. split; [apply usd_to_cents_nonneg|]. by apply Hcases.
  - intros value Hv Hz Hnn. apply (Hcases value Hv). lia.
Qed.

Lemma new_limit_decides_the_guard_witness :
  let projects' :=
    <[sample_project := {| spend_limit_cents := Some 0; total_cost_cents := Some 480 |}]>
      sample_projects in
  _set_project_budget sample_projects sample_project (Some (Some 0)) = Ok projects'
  /\ _guard_project_budget projects' sample_project = Raise budget_exhausted.
Proof.
  intros projects'.
  assert (Hrun : _set_project_budget sample_projects sample_project (Some (Some 0))
                 = Ok projects').
  { unfold _set_project_budget. rewrite sample_projects_row. reflexivity. }
  split; [exact Hrun|].
  destruct (new_limit_decides_the_guard _ _ _ _ Hrun) as (_ & _ & _ & _ & _ & Hzero).
  apply (Hzero (Some 0)); [reflexivity|reflexivity|].
  unfold spent. rewrite sample_projects_row. simpl. lia.
Defined.

(** X20.  The budget status shown for a project agrees with the budget
    guard: it reads exceeded exactly when the guard rejects the project, and
    unlimited exactly when no limit is set; the remaining budget is never
    negative and is zero exactly when the budget is exceeded; a warning
    means a positive limit of which nine tenths are spent. *)
Theorem budget_status_matches_guard (nine_tenths : Z -> Z)
    (projects : gmap UUID project_row) (project_id : UUID) (row : project_row) :
  projects !! project_id = Some row ->
  let status := (budget_status nine_tenths row).1 in
  let remaining := (budget_status nine_tenths row).2 in
  (status = "exceeded"
   <-> _guard_project_budget projects project_id = Raise budget_exhausted)
  /\ (status = "ok" \/ status = "warning" \/ status = "unlimited"
      <-> _guard_project_budget projects project_id = Ok tt)
  /\ (status = "unlimited" <-> spend_limit_cents row = None)
  /\ (remaining = None <-> spend_limit_cents row = None)
  /\ (forall cents, remaining = Some cents ->
        0 <= cents /\ (cents = 0 <-> status = "exceeded"))
  /\ (status = "warning" ->
        exists limit, spend_limit_cents row = Some limit /\ 0 < limit
                      /\ nine_tenths limit <= spent projects project_id < limit).
Proof.
  intros Hrow. simpl. rewrite guard_cases, Hrow. unfold budget_status, spent.
  rewrite Hrow.
  destruct (spend_limit_cents row) as [limit|]; simpl.
  - destruct (Z.geb_spec (int_or_0 (total_cost_cents row)) limit) as [Hge|Hlt]; simpl.
    + split; [done|]. split; [split; [by intros [?|[?|?]]|done]|].
      split; [done|]. split; [done|]. split; [|done].
      intros cents [= <-]. done.
    + destruct (Z.gtb_spec limit 0) as [Hpos|Hnpos]; simpl.
      * destruct (Z.geb_spec (int_or_0 (total_cost_cents row)) (nine_tenths limit))
          as [Hw|Hok]; simpl.
        -- split; [done|]. split; [split; [done|intros _; right; by left]|].
           split; [done|]. split; [done|]. split.
           ++ intros cents [= <-]. split; [lia|]. split; [lia|done].
           ++ intros _. exists limit. split; [done|]. lia.
        -- split; [done|]. split; [split; [done|intros _; by left]|].
           split; [done|]. split; [done|]. split; [|done].
           intros cents [= <-]. split; [lia|]. split; [lia|done].
      * split; [done|]. split; [split; [done|intros _; by left]|].
        split; [done|]. split; [done|]. split; [|done].
        intros cents [= <-]. split; [lia|]. split; [lia|done].
  - split; [done|]. split; [split; [done|intros _; right; by right]|].
    split; [done|]. split; [done|]. split; [done|done].
Qed.

Lemma budget_status_matches_guard_witness :
  let row := {| spend_limit_cents := Some 500; total_cost_cents := Some 480 |} in
  sample_projects !! sample_project = Some row
  /\ budget_status (fun limit => limit * 9 / 10) row = ("warning", Some 20)
  /\ _guard_project_budget sample_projects sample_project = Ok tt.
Proof.
  intros row.
  split; [exact sample_projects_row|]. split; [reflexivity|].
  apply (proj1 (proj2 (budget_status_matches_guard (fun limit => limit * 9 / 10)
                         sample_projects sample_project row sample_projects_row))).
  right. left. reflexivity.
Defined.

End LedgerTheory.

(** ** Provider configuration *)

Module ProvidersTheory.
Import Overrides Requests Providers.

Lemma merged_name (stage_override run_override : option ProviderOverride) :
  nonempty (_merge_overrides stage_override run_override ≫= name)
  = requested_name stage_override run_override.
Proof.
  unfold requested_name.
  destruct stage_override as [s|], run_override as [r|]; simpl; try reflexivity.
  - unfold py_or, nonempty. destruct (name s) as [n|]; simpl; [|reflexivity].
    destruct (String.eqb n "") eqn:Hn; simpl; [reflexivity|by rewrite Hn].
  - by destruct (nonempty (name s)).
Qed.

Lemma merged_model (stage_override run_override : option ProviderOverride) :
  nonempty (_merge_overrides stage_override run_override ≫= model)
  = requested_model stage_override run_override.
Proof.
  unfold requested_model.
  destruct stage_override as [s|], run_override as [r|]; simpl; try reflexivity.
  - unfold py_or, nonempty. destruct (model s) as [n|]; simpl; [|reflexivity].
    destruct (String.eqb n "") eqn:Hn; simpl; [reflexivity|by rewrite Hn].
  - by destruct (nonempty (model s)).
Qed.

Lemma merged_field {A} (field : ProviderOverride -> option A)
    (stage_override run_override : option ProviderOverride) :
  (forall s r merged,
      _merge_overrides (Some s) (Some r) = Some merged ->
      field merged = if_not_none (field s) (field r)) ->
  _merge_overrides stage_override run_override ≫= field
  = first_set field stage_override run_override None.
Proof.
  intros Hfield. unfold first_set.
  destruct stage_override as [s|], run_override as [r|]; simpl.
  - rewrite (Hfield s r _ eq_refl). unfold if_not_none.
    destruct (field s), (field r); reflexivity.
  - destruct (field s); reflexivity.
  - destruct (field r); reflexivity.
  - reflexivity.
Qed.

Lemma resolve_cases (lower : string -> string) (getenv : string -> option string)
    (load_provider_config : option string -> result ProviderConfig)
    (override : option ProviderOverride) :
  let asked := nonempty (override ≫= name) in
  let provider_name := default (default "mock" (getenv "LLM_PROVIDER")) asked in
  resolve_provider_config lower getenv load_provider_config override =
  if negb (String.eqb provider_name "") && String.eqb (lower provider_name) "mock"
  then Ok mock_config
  else
    match load_provider_config asked with
    | Raise e => Raise e
    | Ok base =>
        Ok {| cfg_name := cfg_name base;
              cfg_api_key := cfg_api_key base;
              cfg_model := default (cfg_model base) (nonempty (override ≫= model));
              cfg_settings :=
                {| s_temperature :=
                     default (s_temperature (cfg_settings base)) (override ≫= temperature);
                   s_max_output_tokens :=
                     if_not_none (override ≫= max_output_tokens)
                                 (s_max_output_tokens (cfg_settings base));
                   s_top_p := if_not_none (override ≫= top_p) (s_top_p (cfg_settings base));
                   s_json_mode :=
                     default (s_json_mode (cfg_settings base)) (override ≫= json_mode);
                   s_reasoning_effort :=
                     if_not_none (override ≫= reasoning_effort)
                                 (s_reasoning_effort (cfg_settings base));
                   s_verbosity :=
                     if_not_none (override ≫= verbosity) (s_verbosity (cfg_settings base));
                   s_thinking_budget :=
                     if_not_none (override ≫= thinking_budget)
                                 (s_thinking_budget (cfg_settings base));
                   s_include_thoughts :=
                     default (s_include_thoughts (cfg_settings base))
                             (override ≫= include_thoughts) |} |}
    end.
Proof.
  unfold resolve_provider_config. destruct override as [o|]; simpl.
  - unfold nonempty.
    destruct (str_truthy (name o)) eqn:Hname.
    + destruct (name o) as [n|] eqn:Hn; [|done]. simpl.
      destruct (negb (n =? "")%string && (lower n =? "mock")%string); [done|].
      destruct (load_provider_config (Some n)) as [base|e]; [|done]. simpl.
      f_equal. destruct base as [bn bk bm [? ? ? ? ? ? ? ?]]; simpl.
      unfold update_settings, updated. simpl.
      destruct (str_truthy (model o)) eqn:Hm.
      * destruct (model o) as [m|]; [|done]. simpl.
        destruct (temperature o), (json_mode o), (include_thoughts o); reflexivity.
      * destruct (temperature o), (json_mode o), (include_thoughts o); reflexivity.
    + simpl.
      destruct (negb _ && _); [done|].
      destruct (load_provider_config None) as [base|e]; [|done]. simpl.
      f_equal. destruct base as [bn bk bm [? ? ? ? ? ? ? ?]]; simpl.
      unfold update_settings, updated. simpl.
      destruct (str_truthy (model o)) eqn:Hm.
      * destruct (model o) as [m|]; [|done]. simpl.
        destruct (temperature o), (json_mode o), (include_thoughts o); reflexivity.
      * destruct (temperature o), (json_mode o), (include_thoughts o); reflexivity.
  - destruct (negb _ && _); [done|].
    change (nonempty None) with (@None string).
    destruct (load_provider_config None) as [base|e]; [|done]. simpl.
    f_equal. destruct base as [bn bk bm [? ? ? ? ? ? ? ?]]. reflexivity.
Qed.

(** X21.  Which provider configuration a stage runs with.  The provider
    is the one the stage override names, else the one the run override names,
    else LLM_PROVIDER, else the mock.  For the mock, in any letter case, the
    configuration is the fixed mock one: nothing is loaded and every other
    override field is ignored.  Otherwise the configuration is loaded, a
    loading error propagates, and each setting is that of the stage override
    when it has one, else of the run override, else the loaded one; name and
    API key are always the loaded ones. *)
Theorem provider_configuration_precedence (lower : string -> string)
    (getenv : string -> option string)
    (load_provider_config : option string -> result ProviderConfig)
    (stage_override run_override : option ProviderOverride) :
  let asked := requested_name stage_override run_override in
  let provider_name := default (default "mock" (getenv "LLM_PROVIDER")) asked in
  let resolved :=
    resolve_provider_config lower getenv load_provider_config
      (_merge_overrides stage_override run_override) in
  (provider_name <> "" -> lower provider_name = "mock" -> resolved = Ok mock_config)
  /\ (provider_name = "" \/ lower provider_name <> "mock" ->
      (forall e, load_provider_config asked = Raise e -> resolved = Raise e)
      /\ (forall base, load_provider_config asked = Ok base ->
          exists config,
            resolved = Ok config
            /\ cfg_name config = cfg_name base
            /\ cfg_api_key config = cfg_api_key base
            /\ cfg_model config
               = default (cfg_model base) (requested_model stage_override run_override)
            /\ s_temperature (cfg_settings config)
               = default (s_temperature (cfg_settings base))
                   (first_set temperature stage_override run_override None)
            /\ s_json_mode (cfg_settings config)
               = default (s_json_mode (cfg_settings base))
                   (first_set json_mode stage_override run_override None)
            /\ s_include_thoughts (cfg_settings config)
               = default (s_include_thoughts (cfg_settings base))
                   (first_set include_thoughts stage_override run_override None)
            /\ s_max_output_tokens (cfg_settings config)
               = first_set max_output_tokens stage_override run_override
                   (s_max_output_tokens (cfg_settings base))
            /\ s_top_p (cfg_settings config)
               = first_set top_p stage_override run_override (s_top_p (cfg_settings base))
            /\ s_reasoning_effort (cfg_settings config)
               = first_set reasoning_effort stage_override run_override
                   (s_reasoning_effort (cfg_settings base))
            /\ s_verbosity (cfg_settings config)
               = first_set verbosity stage_override run_override
                   (s_verbosity (cfg_settings base))
            /\ s_thinking_budget (cfg_settings config)
               = first_set thinking_budget stage_override run_override
                   (s_thinking_budget (cfg_settings base)))).
Proof.
  intros asked provider_name resolved. subst resolved.
  rewrite resolve_cases. cbv zeta. rewrite merged_name, merged_model.
  fold asked. fold provider_name.
  assert (Hfirst : forall {A} (field : ProviderOverride -> option A) (d : option A),
    (forall s r merged, _merge_overrides (Some s) (Some r) = Some merged ->
                        field merged = if_not_none (field s) (field r)) ->
    if_not_none (_merge_overrides stage_override run_override ≫= field) d
    = first_set field stage_override run_override d).
  { intros A field d Hfield. rewrite (merged_field field) by done.
    unfold first_set, if_not_none.
    destruct (stage_override ≫= field); [done|].
    by destruct (run_override ≫= field). }
  split.
  - intros Hne Hmock.
    destruct (String.eqb_spec provider_name ""); [done|].
    rewrite Hmock. reflexivity.
  - intros Hother.
    assert (Hcond : negb (provider_name =? "")%string
                    && (lower provider_name =? "mock")%string = false).
    { destruct Hother as [->|Hne]; [done|].
      destruct (String.eqb_spec (lower provider_name) "mock"); [done|].
      by rewrite andb_false_r. }
    rewrite Hcond. split.
    + intros e ->. reflexivity.
    + intros base ->. eexists. split; [reflexivity|]. simpl.
      split; [done|]. split; [done|]. split; [done|].
      rewrite !(merged_field temperature), !(merged_field json_mode),
        !(merged_field include_thoughts) by (by intros s r merged [= <-]).
      split; [done|]. split; [done|]. split; [done|].
      repeat split; apply Hfirst; by intros s r merged [= <-].
Qed.

End ProvidersTheory.

(** ** The numbering of a book structure *)

Module BookTheory.
Import Book.

Lemma range_from_1_contiguous (orders : list Z) :
  orders = seqZ 1 (Z.of_nat (length orders) + 1 - 1) <-> contiguous orders.
Proof.
  replace (Z.of_nat (length orders) + 1 - 1) with (Z.of_nat (length orders)) by lia.
  split.
  - intros Heq i o Hi. rewrite Heq in Hi. apply lookup_seqZ in Hi. lia.
  - intros Hc. apply list_eq. intros i.
    destruct (orders !! i) as [o|] eqn:Hi.
    + symmetry. apply lookup_seqZ. split; [rewrite (Hc i o Hi); lia|].
      apply lookup_lt_Some in Hi. lia.
    + symmetry. apply lookup_seqZ_ge. apply lookup_ge_None in Hi. lia.
Qed.

Lemma contiguous_map {A} (f : A -> Z) (items : list A) :
  contiguous (map f items) <->
  forall (i : nat) (x : A), items !! i = Some x -> f x = Z.of_nat i + 1.
Proof.
  unfold contiguous. split.
  - intros Hc i x Hi. apply Hc. change (map f items) with (f <$> items).
    by rewrite list_lookup_fmap, Hi.
  - intros Hc i o Hi. change (map f items) with (f <$> items) in Hi.
    rewrite list_lookup_fmap in Hi. destruct (items !! i) as [x|] eqn:Hx; [|done].
    injection Hi as <-. by apply Hc.
Qed.

Lemma subchapter_loop_Ok (chapters : list Chapter) :
  for_each (fun (_ : unit) chapter =>
     if bool_decide (map order (subchapters chapter) <> range_from_1 (subchapters chapter))
     then Raise (ValueError
            ("Subchapter order must be contiguous starting at 1 in chapter "
             +:+ chapter_title chapter))
     else Ok tt) tt chapters = Ok tt
  <-> Forall well_ordered chapters.
Proof.
  induction chapters as [|c cs IH]; simpl; [by split|].
  rewrite Forall_cons. unfold well_ordered at 1.
  rewrite <- range_from_1_contiguous. unfold range_from_1 in *.
  rewrite !length_map.
  case_bool_decide as Hc; simpl.
  - split; [done|]. by intros [? _].
  - rewrite IH. by split; [|intros [_ ?]].
Qed.

Lemma subchapter_loop_Raise (pre post : list Chapter) (chapter : Chapter) :
  Forall well_ordered pre -> ~ well_ordered chapter ->
  for_each (fun (_ : unit) chapter =>
     if bool_decide (map order (subchapters chapter) <> range_from_1 (subchapters chapter))
     then Raise (ValueError
            ("Subchapter order must be contiguous starting at 1 in chapter "
             +:+ chapter_title chapter))
     else Ok tt) tt (pre ++ chapter :: post)
  = Raise (ValueError ("Subchapter order must be contiguous starting at 1 in chapter "
                       +:+ chapter_title chapter)).
Proof.
  intros Hpre Hbad. rewrite for_each_app.
  apply subchapter_loop_Ok in Hpre. rewrite Hpre. simpl.
  case_bool_decide as Hc; [done|].
  exfalso. apply Hbad. unfold well_ordered. apply range_from_1_contiguous.
  unfold range_from_1 in Hc. by rewrite length_map.
Qed.

Lemma strongly_sorted_app {A} (R : A -> A -> Prop) (l1 l2 : list A) :
  StronglySorted R l1 -> StronglySorted R l2 ->
  (forall x y, x ∈ l1 -> y ∈ l2 -> R x y) ->
  StronglySorted R (l1 ++ l2).
Proof.
  intros H1 H2 Hcross. induction H1 as [|x l1 Hs IH Hall]; simpl; [done|].
  constructor.
  - apply IH. intros a b Ha Hb. apply Hcross; [by right|done].
  - apply Forall_app. split; [done|].
    apply Forall_forall. intros y Hy. apply Hcross; [by left|done].
Qed.

Lemma subchapter_positions_sorted (o k : Z) (subs : list Subchapter) :
  (forall (i : nat) s, subs !! i = Some s -> order s = Z.of_nat i + k) ->
  StronglySorted before ((fun sub => (o, order sub)) <$> subs)
  /\ Forall (fun p => p.1 = o /\ k <= p.2) ((fun sub => (o, order sub)) <$> subs).
Proof.
  revert k. induction subs as [|s subs IH]; intros k Hc; simpl.
  - split; constructor.
  - destruct (IH (k + 1)) as [Hs Hall].
    { intros i s' Hi. rewrite (Hc (S i) s' Hi). lia. }
    pose proof (Hc 0%nat s eq_refl) as H0. split.
    + constructor; [done|]. eapply Forall_impl; [exact Hall|].
      intros [a b] [Ha Hb]. simpl in *. right. simpl. lia.
    + constructor; [simpl; lia|]. eapply Forall_impl; [exact Hall|].
      intros [a b] [Ha Hb]. simpl in *. lia.
Qed.

Lemma positions_sorted (k : Z) (chapters : list Chapter) :
  (forall (i : nat) c, chapters !! i = Some c -> chapter_order c = Z.of_nat i + k) ->
  Forall well_ordered chapters ->
  StronglySorted before (positions chapters)
  /\ Forall (fun p => k <= p.1) (positions chapters).
Proof.
  revert k. induction chapters as [|c cs IH]; intros k Hc Hwell.
  - split; constructor.
  - apply Forall_cons in Hwell as [Hc0 Hwell].
    destruct (IH (k + 1)) as [Hs Hall]; [|done|].
    { intros i c' Hi. rewrite (Hc (S i) c' Hi). lia. }
    pose proof (Hc 0%nat c eq_refl) as H0. simpl in H0.
    destruct (subchapter_positions_sorted (chapter_order c) 1 (subchapters c))
      as [Hsub Hsuball].
    { by apply contiguous_map. }
    change (positions (c :: cs)) with
      ((((fun sub => (chapter_order c, order sub)) <$> subchapters c) ++ positions cs)%list).
    split.
    + apply strongly_sorted_app; [done|done|].
      intros x y Hx Hy. left.
      rewrite Forall_forall in Hsuball. rewrite Forall_forall in Hall.
      destruct (Hsuball x Hx) as [-> _]. specialize (Hall y Hy). lia.
    + apply Forall_app. split.
      * eapply Forall_impl; [exact Hsuball|]. intros p [-> _]. lia.
      * eapply Forall_impl; [exact Hall|]. intros p Hp. simpl in Hp. lia.
Qed.

Lemma before_irrefl (p : Z * Z) : ~ before p p.
Proof. unfold before. lia. Qed.

Lemma strongly_sorted_NoDup {A} (R : A -> A -> Prop) (l : list A) :
  (forall x, ~ R x x) -> StronglySorted R l -> NoDup l.
Proof.
  intros Hirr Hs. induction Hs as [|x l Hs IH Hall]; constructor; [|done].
  intros Hx. rewrite Forall_forall in Hall. by apply (Hirr x), Hall.
Qed.

(** X22.  The validator of a book structure accepts a list of chapters,
    and then returns it unchanged, exactly when the i-th chapter has order i
    and, in every chapter, the j-th subchapter has order j (counting from
    1); the empty structure passes.  A wrong chapter numbering is reported
    first; otherwise the error names the first chapter whose subchapters are
    misnumbered.  In an accepted structure the subchapters are listed in
    reading order and no two of them share a position. *)
Theorem validated_structure_is_numbered_in_order (chapters : list Chapter) :
  (forall result, validate_ordering chapters = Ok result ->
     result = chapters)
  /\ (validate_ordering chapters = Ok chapters
      <-> contiguous (map chapter_order chapters) /\ Forall well_ordered chapters)
  /\ (~ contiguous (map chapter_order chapters) ->
      validate_ordering chapters
      = Raise (ValueError "Chapter order must be contiguous starting at 1"))
  /\ (forall pre chapter post,
        chapters = (pre ++ chapter :: post)%list ->
        contiguous (map chapter_order chapters) ->
        Forall well_ordered pre -> ~ well_ordered chapter ->
        validate_ordering chapters
        = Raise (ValueError
                   ("Subchapter order must be contiguous starting at 1 in chapter "
                    +:+ chapter_title chapter)))
  /\ (validate_ordering chapters = Ok chapters ->
      StronglySorted before (positions chapters) /\ NoDup (positions chapters))
  /\ validate_ordering [] = Ok [].
Proof.
  assert (Hcases : validate_ordering chapters =
    if bool_decide (map chapter_order chapters <> range_from_1 chapters)
    then Raise (ValueError "Chapter order must be contiguous starting at 1")
    else
      match for_each (fun (_ : unit) chapter =>
         if bool_decide (map order (subchapters chapter)
                         <> range_from_1 (subchapters chapter))
         then Raise (ValueError
                ("Subchapter order must be contiguous starting at 1 in chapter "
                 +:+ chapter_title chapter))
         else Ok tt) tt chapters with
      | Ok _ => Ok chapters
      | Raise e => Raise e
      end).
  { unfold validate_ordering. case_bool_decide; [done|].
    by destruct (for_each _ _ _). }
  assert (Hchap : map chapter_order chapters = range_from_1 chapters
                  <-> contiguous (map chapter_order chapters)).
  { rewrite <- range_from_1_contiguous. unfold range_from_1. by rewrite length_map. }
  assert (Hiff : validate_ordering chapters = Ok chapters
      <-> contiguous (map chapter_order chapters) /\ Forall well_ordered chapters).
  { rewrite Hcases. case_bool_decide as Hc.
    - split; [done|]. intros [Hcont _]. by apply Hchap in Hcont.
    - rewrite <- subchapter_loop_Ok.
      destruct (for_each _ _ _) as [[]|e].
      + split; [intros _; split; [by apply Hchap|done]|done].
      + split; [done|]. by intros [_ ?]. }
  split; [|split; [done|split; [|split; [|split]]]].
  - intros result. rewrite Hcases. case_bool_decide; [done|].
    destruct (for_each _ _ _); [|done]. by intros [= <-].
  - intros Hbad. rewrite Hcases. case_bool_decide as Hc; [done|].
    by apply Hchap in Hc.
  - intros pre chapter post -> Hcont Hpre Hbad. rewrite Hcases.
    case_bool_decide as Hc; [by apply Hchap in Hcont|].
    by rewrite (subchapter_loop_Raise pre post chapter Hpre Hbad).
  - intros Hok. apply Hiff in Hok as [Hcont Hwell].
    destruct (positions_sorted 1 chapters) as [Hs _]; [|done|].
    { by apply contiguous_map. }
    split; [done|]. eapply strongly_sorted_NoDup; [apply before_irrefl|done].
  - reflexivity.
Qed.

End BookTheory.

(** ** The structure timeline *)

Module TimelineTheory.
Import Timeline.

Lemma critique_loop (start_time : Z) (items : list (Z * string))
    (entries : list StructureTimelineEntry) :
  foldl (fun entries '(index, critique) =>
           (entries ++
            [ {| id := "critique-" +:+ pretty index;
                 role := "critique";
                 title := "Critique " +:+ pretty index;
                 content := critique;
                 timestamp := start_time + minutes index |} ])%list)
        entries items
  = (entries ++ ((fun item => critique_entry start_time item.1 item.2) <$> items))%list.
Proof.
  revert entries. induction items as [|[index critique] items IH]; intros entries; simpl.
  - by rewrite app_nil_r.
  - rewrite IH, <- app_assoc. reflexivity.
Qed.

Lemma critique_entries_lookup (start_time : Z) (critiques : list string) (k : nat) :
  ((fun item : Z * string => critique_entry start_time item.1 item.2)
     <$> zip (seqZ 1 (Z.of_nat (length critiques))) critiques) !! k
  = critique_entry start_time (Z.of_nat k + 1) <$> critiques !! k.
Proof.
  rewrite list_lookup_fmap.
  destruct (critiques !! k) as [c|] eqn:Hc; simpl.
  - assert (Hz : zip (seqZ 1 (Z.of_nat (length critiques))) critiques !! k
                 = Some (Z.of_nat k + 1, c)).
    { apply lookup_zip_Some. split; [|done]. apply lookup_seqZ.
      apply lookup_lt_Some in Hc. lia. }
    by rewrite Hz.
  - assert (Hz : zip (seqZ 1 (Z.of_nat (length critiques))) critiques !! k = None).
    { apply lookup_zip_None. by right. }
    by rewrite Hz.
Qed.

Lemma timeline_lookup (utcnow : Z) (synopsis : option string) (summary : string)
    (critiques : list string) (updated_at : option Z) (i : nat)
    (e : StructureTimelineEntry) :
  let base_time := default utcnow updated_at in
  let start_time := base_time - minutes (Z.of_nat (length critiques) + 1) in
  _build_iterations utcnow synopsis summary critiques updated_at !! i = Some e <->
  (i = 0%nat
   /\ e = {| id := "proposal"; role := "proposal"; title := "Initial Outline Created";
             content := match synopsis with
                        | Some text => if String.eqb text ""
                                       then "Initial outline generated by proposal agent."
                                       else text
                        | None => "Initial outline generated by proposal agent."
                        end;
             timestamp := start_time |})
  \/ (exists (k : nat) critique,
        i = S k /\ critiques !! k = Some critique
        /\ e = critique_entry start_time (Z.of_nat k + 1) critique)
  \/ (i = S (length critiques)
      /\ e = {| id := "summary"; role := "summary"; title := "Final Summary";
                content := summary; timestamp := base_time |}).
Proof.
  intros base_time start_time. unfold _build_iterations.
  fold base_time. fold start_time. rewrite critique_loop. simpl.
  destruct i as [|j]; simpl.
  - split.
    + intros [= <-]. by left.
    + intros [[_ ->]|[(k & c & ? & _)|[? _]]]; done.
  - rewrite lookup_app_Some, critique_entries_lookup.
    rewrite length_fmap, length_zip, length_seqZ.
    replace (Z.to_nat (Z.of_nat (length critiques)) `min` length critiques)%nat
      with (length critiques) by lia.
    split.
    + intros [Hj|[Hge Hj]].
      * destruct (critiques !! j) as [c|] eqn:Hc; [|done]. injection Hj as <-.
        right. left. by exists j, c.
      * apply list_lookup_singleton_Some in Hj as [Hj <-].
        right. right. split; [|done]. f_equal. lia.
    + intros [[? _]|[(k & c & [= ->] & Hc & ->)|[[= ->] ->]]]; [done| |].
      * left. by rewrite Hc.
      * right. split; [lia|]. by rewrite Nat.sub_diag.
Qed.

(** X23.  The timeline of a structure has one entry for the proposal, one
    per critique in the order given, and one for the summary.  Entry i
    (counted from 0) is stamped n + 1 - i minutes before the time the
    structure was last updated (the current time when that is unknown), so
    the stamps rise by one minute and end at that time; the ids of the
    entries are pairwise distinct; an empty synopsis is replaced by a stock
    sentence. *)
Theorem timeline_of_a_structure (utcnow : Z) (synopsis : option string) (summary : string)
    (critiques : list string) (updated_at : option Z) :
  let entries := _build_iterations utcnow synopsis summary critiques updated_at in
  let base_time := default utcnow updated_at in
  let n := length critiques in
  length entries = S (S n)
  /\ (exists e, entries !! 0%nat = Some e
        /\ id e = "proposal" /\ role e = "proposal"
        /\ (forall text, synopsis = Some text -> text <> "" -> content e = text)
        /\ (synopsis = None \/ synopsis = Some "" ->
            content e = "Initial outline generated by proposal agent."))
  /\ (forall (k : nat) critique, critiques !! k = Some critique ->
        exists e, entries !! S k = Some e
          /\ id e = "critique-" +:+ pretty (Z.of_nat k + 1)
          /\ role e = "critique" /\ content e = critique)
  /\ (exists e, entries !! S n = Some e
        /\ id e = "summary" /\ role e = "summary" /\ content e = summary)
  /\ (forall (i : nat) e, entries !! i = Some e ->
        timestamp e = base_time - minutes (Z.of_nat (S n - i)))
  /\ NoDup (id <$> entries).
Proof.
  intros entries base_time n.
  pose proof (timeline_lookup utcnow synopsis summary critiques updated_at) as Hlookup.
  cbv zeta in Hlookup. fold entries in Hlookup. fold base_time in Hlookup. fold n in Hlookup.
  split; [|split; [|split; [|split; [|split]]]].
  - unfold entries, _build_iterations. rewrite critique_loop.
    rewrite !length_app, length_fmap, length_zip, length_seqZ. simpl. unfold n. lia.
  - eexists. split; [apply Hlookup; left; split; reflexivity|]. simpl.
    split; [done|]. split; [done|]. split.
    + intros text -> Hne. by destruct (String.eqb_spec text "").
    + by intros [->| ->].
  - intros k critique Hk. eexists. split.
    + apply Hlookup. right. left. by exists k, critique.
    + done.
  - eexists. split; [apply Hlookup; right; right; split; reflexivity|]. done.
  - intros i e Hi. apply Hlookup in Hi as [[-> ->]|[(k & c & -> & Hc & ->)|[-> ->]]]; simpl.
    + unfold minutes. lia.
    + apply lookup_lt_Some in Hc. fold n in Hc. unfold minutes. lia.
    + rewrite Nat.sub_diag. unfold minutes. lia.
  - apply NoDup_alt. intros i j x Hi Hj.
    rewrite list_lookup_fmap in Hi, Hj.
    destruct (entries !! i) as [ei|] eqn:Hei; [|done].
    destruct (entries !! j) as [ej|] eqn:Hej; [|done].
    injection Hi as Hi. injection Hj as Hj. subst x.
    apply Hlookup in Hei as [[-> ->]|[(k & c & -> & Hc & ->)|[-> ->]]];
    apply Hlookup in Hej as [[-> ->]|[(k' & c' & -> & Hc' & ->)|[-> ->]]];
      simpl in Hj; try done.
    apply CacheTheory.append_inv_head, (inj pretty) in Hj. f_equal. lia.
Qed.

End TimelineTheory.
